(* ===== verification/_CoqProject ===== *)
-Q . S2P
Prelude.v
GoStrings.v
Sha256.v
Json.v
JsonText.v
JsonCompact.v
GoTime.v
Models.v
World.v
Sqlc.v
Store.v
OrderService.v
Spec.v
OrderRefine.v
Evolution.v
Invariants.v
Bookkeeping.v
Rows.v
Concrete.v
OrderProperties.v
OrderTotal.v
Auth.v
Publisher.v
Consumer.v
Scripts.v
Locks.v
Envelope.v
Drain.v
Losses.v
Kafka.v
KafkaConsumer.v
Redis.v
Lock.v
RateLimit.v
Http.v
OrderHandlers.v
AuthHandlers.v
Router.v
ApiBehaviour.v
Config.v
AppStart.v
Observability.v
System.v
Sessions.v
Interleaving.v
Serializability.v
Deadlock.v
Contention.v
ApiTheorems.v
Startup.v
Recipients.v
SystemTheorems.v
Delivery.v
Liveness.v
Group.v
GroupLiveness.v
Processes.v
OrderTheorems.v
Scenario.v
LockScenario.v
GroupScenario.v
CrewScenario.v
ApiScenario.v
ApiWitnesses.v
Witnesses.v
