(* ===== verification/Prelude.v ===== *)
(** * Go order service: a verification development

    An order service in Go: an HTTP API in front of PostgreSQL and Redis, a
    publisher that sends the events of a transactional outbox to Kafka, and a
    consumer that turns them into notifications.  This library models it from
    its configuration to its SQL statements, and proves what it promises in
    every run: an order is paid at most once and for its amount, every change
    of an order has its event, every event that is marked published is in the
    log, and every processed event notifies the customer of its order exactly
    once.

    ** The program and the files

    All paths are under src/; "internal" is src/internal.

    - The language and its libraries.  [GoStrings] (bytes, UTF-8, case,
      [TrimSpace], hexadecimal), [Json] ([encoding/json]: printing with HTML
      escapes, the accepted syntax, the storing of members into fields),
      [JsonText] and [JsonCompact] (lemmas: a JSON text inside another, and
      [json.RawMessage]), [GoTime] (instants in RFC 3339), [Sha256].  These
      belong to Go's standard library; the program's behaviour goes through
      them (the request hash, the envelope, the bodies of responses), so they
      are written out.
    - The tables.  [Models] is internal/store/sqlc/models.go: a record per
      row, a [gmap] per table.  [Sqlc] gives each generated query its meaning,
      with the constraints of src/migrations; [Store] is
      internal/store/store.go with its conversions and [WithTx].
    - The world.  [World] has the state of a process and its servers: tables,
      Kafka log, increments of the metrics (internal/metrics/metrics.go), the
      count of calls and of generated UUIDs; and the monad [M] in which the Go
      functions run.  A Go function of type [(T, error)] is an [M T].
    - The services.  [OrderService] is internal/service/order_service.go and
      idempotency.go; [Auth] is auth_service.go and internal/auth.
    - Events.  [Publisher] is internal/publisher/outbox_publisher.go,
      [Consumer] is internal/consumer/event_consumer.go with [handleRecord] of
      cmd/consumer/main.go, [Kafka] and [KafkaConsumer] are internal/kafka.
      [Drain] is about the publisher left alone, [Losses] about batches in
      which some deliveries fail.
      [Envelope] relates what the one writes to what the other reads.
    - Redis.  [Redis] is the interface of the server; [Lock] is
      internal/distributedlock/lock.go, [RateLimit] is
      internal/ratelimit/limiter.go.
    - HTTP.  [Http] has requests, responses and internal/api/json.go,
      [OrderHandlers] order_handler.go, [AuthHandlers] auth_handler.go,
      [Router] the middlewares and router.go, all of internal/api.
    - Processes.  [Config] is internal/config/config.go, [AppStart] is
      internal/appstart/appstart.go, [Startup] the main functions of src/cmd
      with internal/db and internal/cache, [Observability] the names of
      internal/metrics and the server of internal/observability.
    - The specification.  [Spec] is the abstract system: one constructor of
      [db_step] per kind of committed transaction.  [OrderRefine] proves that
      the order service refines it, [Invariants], [Bookkeeping] and [Rows]
      what holds in all its states, [System] puts all processes together
      ([program_step], one unit of work each), [Sessions] follows the users
      through its runs, [Delivery] adds the consumer
      process with its crashes and restarts, [Group] any number of them in one
      consumer group, between which Kafka moves the partitions.
      [GroupLiveness] lets such a group take turns; [Processes] has the
      publisher and the consumer from [main] to their exit status.
    - Concurrency.  [Scripts] writes the five transactions as sequences of
      statements, [Locks] says what each statement writes and locks,
      [Interleaving] runs the open transactions of all processes statement by
      statement under READ COMMITTED, [Serializability] reduces that to
      [System], [Deadlock] is about waiting, [Contention] about two requests
      with one idempotency key.
    - Instances.  [Concrete], [Scenario] and [ApiScenario] instantiate every
      interface and run a story from registration to notification, over
      function calls and over HTTP; [LockScenario] has a payment, a
      cancellation and a batch of the publisher in each other's way, and two
      requests with one key,
      [GroupScenario] two consumers on one partition, [CrewScenario] two
      consumers with a partition each;
      [Witnesses] and [ApiWitnesses] apply the theorems in it.

    ** How the parts interact

    A request passes [NewRouter] (metrics, CORS, rate limit, [requireAuth]) to
    a handler, which calls a service; paying and cancelling hold the lock of
    the order around the call.  A service runs statements outside a
    transaction and at most one [WithTx], which writes the rows and the outbox
    event together.  The publisher claims events ([FOR UPDATE SKIP LOCKED]:
    the rows that others hold are an oracle, which [Interleaving] compares with
    the locks that are held), sends each and marks it, in one transaction; so a
    record may be in the log although the transaction was rolled back.  The
    consumer polls, handles a record in one transaction and
    commits its offset after it.

    The interfaces are classes: [External] (clock, faults, UUIDs, jsonb),
    [AuthExternal] (bcrypt, JWT, random bytes), [Producer] (what the publisher
    needs of a producer; [Kafka] implements it), [ProducerClient] and
    [ConsumerClient] (confluent-kafka-go and the broker), [Redis], [Chi],
    [Drivers].  Their laws, where a theorem needs them, are classes of their
    own ([ExternalLaws], [JsonbLaws], [RedisLaws], ...), each satisfied by an
    instance of [Concrete] or [ApiScenario].  A member of a consumer group
    makes its loop in pieces (poll, handle, commit), between which rebalances,
    other members and crashes come; the group's coordinator is not asked for
    more than that a partition that is assigned anew is read from the offset
    that was committed, so that also a member that does not know yet that it
    lost a partition is covered.

    Faults.  The n-th call to a server has a fate of the oracle [fault]: it
    works, fails before its effect, or fails after it (the answer is lost);
    the theorems quantify over all oracles.  A commit may so succeed although
    the caller sees an error.

    ** What the theorems show

    - Every run ([SystemTheorems], [Recipients], [Group]).  Runs interleave
      the units of work of all processes in any order, with any faults:
      [order_paid_once], [outbox_complete], [rows_evolve],
      [idempotency_accounts], [rows_well_formed], [notified_once],
      [notification_reaches_customer], [published_at_least_once],
      [group_skips_nothing].  They rest on [Invariants], [Bookkeeping],
      [Rows] and [Evolution], by induction on the abstract steps, and on
      [Sessions].
    - The code makes only these steps: [services_conform] for the functions,
      the lemmas [Run_conforms] and [Run_group] for the loop of the consumer,
      [publisher_process_steps] and [consumer_process_group] for whole
      processes, [requests_conform]
      for every HTTP request.
    - Transactions may be taken as units: the lemma [scripts_adequate] says that the
      sequences of statements are the functions of the program,
      [interleaving_serializes] that every interleaving of them, with
      rollbacks, lost connections and records that arrive late, ends in
      tables and a log that a run of units reaches too, so that the theorems
      about every run hold of it; [no_deadlock] that no transactions wait for
      each other in a circle; [same_key_conflict] how the second of two
      transactions with one idempotency key waits and fails.  A batch of the
      publisher is matched by several steps ([ps_late], [ps_marked],
      [ps_failed]), since other transactions commit between its records.
    - Progress ([Drain], [Liveness], [GroupLiveness]).  The theorems above hold of every run,
      also of one in which nothing happens any more; [outbox_drains] and
      [eventually_notified] say that from any of them, once the publisher and
      the consumers are left alone for long enough, every event is sent, in the
      order of creation, and the customer of its order is notified, unless
      it is an [order.created] whose request wrote the user in a form that pgx
      reads and uuid.Parse refuses, which the consumer discards.  Left
      alone means: no faults, no rows held by others, and UUIDs that are new;
      the consumers may be any number, with the partitions shared among them,
      in any schedule that lets each of them take its turn in every round.
    - Single requests ([OrderProperties], [OrderTheorems], [OrderTotal]).  All
      or nothing for every fault; replays and conflicts of idempotency keys;
      who may change an order; without faults, the answer that request and
      tables determine.
    - Sessions ([Auth], [Sessions]): the access tokens of Login and
      RefreshAccessToken are accepted for their user until they expire
      ([access_token_accepted]), a revoked refresh token stays refused.
    - HTTP ([ApiBehaviour]): no route but the public ones does anything
      without a token, paying and cancelling run under their lock, the limit
      holds in front of the handlers.
    - Lock and limiter ([Lock], [RateLimit]): mutual exclusion until the TTL
      ends; at most the limit per window, and the answers of the fixed window.
    - Data ([Envelope], [Config]): the consumer reads what the publisher
      wrote; the settings are usable whatever the environment says.
    - What modelling found: [events_overtake], [partition_stuck],
      [GetOrder_answers], [batch_size_overflow], [same_key_conflict] are
      theorems about behaviour that a document or a comment denies or that is
      not meant.

    ** Units, bounds and fuel

    Instants and lifetimes are in microseconds, the resolution of PostgreSQL;
    the settings are in nanoseconds as Go has them and are converted in
    [Startup] ([micros]: the nanoseconds below a microsecond are dropped, and
    a lifetime of less than one counts as one, where the program hands the
    duration on as it is); Redis has milliseconds.  Integers of Go are [Z] with their range
    stated where they are read, converted or stored ([Config], [Json],
    [Sqlc]).  Functions with fuel: [Parse] takes the length of the text plus
    one, and every value read consumes a character; [Decode] and
    [ParseDuration] likewise; [Retry] the number of attempts; [Run] of the
    consumer and of the publisher the number of turns, since their loops end
    only with the context: the theorems hold for every number.

    ** Not modelled

    - Of PostgreSQL's isolation: a statement is atomic, and runs when no other
      transaction holds a lock that its answer needs; the locks of foreign
      keys (FOR KEY SHARE) are left out, as rows are never removed, and so are
      those of statements that fail.  Rows with the same timestamp are listed
      in one of the possible orders.
    - The text of a jsonb column beyond [JsonbLaws]; the JSON form of pgx's
      types, which only the unused response bodies of idempotency records hold.
    - Migrations (their final schema is in [Models] and [Sqlc]) and the
      constructors of sqlc's Queries (db.go), which only choose a connection.
    - Logging; the values that Prometheus keeps and its text format.
    - The socket side of net/http: parsing of raw requests, serialization of
      cookies, the work of ListenAndServe and Shutdown.  The matching of paths
      by chi is the class [Chi].
    - Kafka's own protocols: how the coordinator chooses assignments, fences
      old members and times them out.  [Group] allows any of it; progress is
      proved from a balanced assignment on. *)

From stdpp Require Export prelude gmap sorting strings pretty.
From Stdlib Require Export ZArith Ascii Lia.

#[global] Open Scope Z_scope.

(** ** Hint databases and automation *)

Create HintDb orderdb.

(** Case analysis on the scrutinee of a [match] of the goal. *)
Ltac case_goal :=
  match goal with
  | |- context [match ?x with _ => _ end] => destruct x eqn:?
  end.

(** Split conjunctions, pairs and existentials of the context. *)
Ltac split_hyps :=
  repeat match goal with
  | H : _ ∧ _ |- _ => destruct H
  | H : ∃ _, _ |- _ => destruct H
  | H : (_, _) = (_, _) |- _ => injection H as ? ?; subst
  end.

(** Solve a goal by splitting it and by the hints of the development. *)
Ltac solve_order := repeat split; simplify_eq/=; eauto with orderdb.

(** ** The first row of a table that satisfies a predicate

    SQL's [SELECT ... WHERE p] read by a [:one] query: pgx scans the first
    row of the result.  The table is keyed by its primary key. *)
Section lookup_by.
Context `{Countable K} {A : Type}.
Implicit Types (m : gmap K A) (P : A → bool).

Definition rows m : list A := (map_to_list m).*2.

Definition select P m : list A := base.filter (λ x, P x = true) (rows m).

Definition lookup_by P m : option A := head (select P m).

Lemma elem_of_rows m x : x ∈ rows m ↔ ∃ k, m !! k = Some x.
Proof.
  unfold rows. rewrite list_elem_of_fmap. split.
  - intros [[k y] [-> Hin]]. exists k. by apply elem_of_map_to_list.
  - intros [k Hk]. exists (k, x). split; [done|]. by apply elem_of_map_to_list.
Qed.

Lemma elem_of_select P m x : x ∈ select P m ↔ P x = true ∧ ∃ k, m !! k = Some x.
Proof. unfold select. rewrite list_elem_of_filter, elem_of_rows. done. Qed.

Lemma lookup_by_Some P m x : lookup_by P m = Some x → P x = true ∧ ∃ k, m !! k = Some x.
Proof.
  unfold lookup_by. intros Hh. apply elem_of_select.
  destruct (select P m); [done|]. simplify_eq/=. apply list_elem_of_here.
Qed.

Lemma lookup_by_None P m : lookup_by P m = None ↔ ∀ k x, m !! k = Some x → P x = false.
Proof.
  unfold lookup_by. split.
  - intros Hh k x Hk. destruct (select P m) eqn:Hs; [|done].
    destruct (P x) eqn:HP; [|done].
    assert (x ∈ select P m) as Hin by (apply elem_of_select; eauto).
    rewrite Hs in Hin. by apply not_elem_of_nil in Hin.
  - intros Hall. destruct (select P m) as [|y l] eqn:Hs; [done|].
    assert (y ∈ select P m) as Hin by (rewrite Hs; apply list_elem_of_here).
    apply elem_of_select in Hin as [HP [k Hk]].
    rewrite (Hall _ _ Hk) in HP. done.
Qed.

(** With at most one matching row, the row found is that row. *)
Lemma lookup_by_unique P m k x :
  m !! k = Some x → P x = true →
  (∀ k' y, m !! k' = Some y → P y = true → y = x) →
  lookup_by P m = Some x.
Proof.
  intros Hk HP Huniq. destruct (lookup_by P m) as [y|] eqn:Hl.
  - apply lookup_by_Some in Hl as [HPy [k' Hk']]. f_equal. eauto.
  - rewrite lookup_by_None in Hl. rewrite (Hl _ _ Hk) in HP. done.
Qed.
End lookup_by.

#[export] Hint Resolve elem_of_rows : orderdb.

(** ** Machine integers *)

Definition int32_min : Z := -2147483648.
Definition int32_max : Z := 2147483647.
Definition int64_min : Z := -9223372036854775808.
Definition int64_max : Z := 9223372036854775807.

(** Go's conversion to [int32]: the low 32 bits, read as two's complement. *)
Definition to_int32 (z : Z) : Z := (z - int32_min) mod 2 ^ 32 + int32_min.

Lemma to_int32_bounds z : int32_min ≤ to_int32 z ≤ int32_max.
Proof.
  unfold to_int32, int32_min, int32_max.
  pose proof (Z.mod_pos_bound (z - -2147483648) (2 ^ 32) eq_refl). lia.
Qed.

Lemma to_int32_id z : int32_min ≤ z ≤ int32_max → to_int32 z = z.
Proof. unfold to_int32, int32_min, int32_max. intros ?. rewrite Z.mod_small; lia. Qed.

(** ** Sorting by a timestamp *)
Section sort_by.
Context {A : Type} (f : A → Z).

(** [ORDER BY f] and [ORDER BY f DESC].  SQL leaves the order of rows with
    equal keys open; the theorems only use that the result is a sorted
    permutation. *)
Definition asc_le (x y : A) : Prop := f x ≤ f y.
Definition desc_le (x y : A) : Prop := f y ≤ f x.

#[global] Instance asc_le_dec : RelDecision asc_le := λ x y, Z.le_dec (f x) (f y).
#[global] Instance desc_le_dec : RelDecision desc_le := λ x y, Z.le_dec (f y) (f x).
#[global] Instance asc_le_trans : Transitive asc_le.
Proof. intros x y z. unfold asc_le. lia. Qed.
#[global] Instance desc_le_trans : Transitive desc_le.
Proof. intros x y z. unfold desc_le. lia. Qed.
#[global] Instance asc_le_total : Total asc_le.
Proof. intros x y. unfold asc_le. lia. Qed.
#[global] Instance desc_le_total : Total desc_le.
Proof. intros x y. unfold desc_le. lia. Qed.

Definition order_by (l : list A) : list A := merge_sort asc_le l.
Definition order_by_desc (l : list A) : list A := merge_sort desc_le l.

Lemma order_by_perm l : order_by l ≡ₚ l.
Proof. apply merge_sort_Permutation. Qed.
Lemma order_by_sorted l : StronglySorted asc_le (order_by l).
Proof. apply StronglySorted_merge_sort; apply _. Qed.
Lemma order_by_desc_perm l : order_by_desc l ≡ₚ l.
Proof. apply merge_sort_Permutation. Qed.
Lemma order_by_desc_sorted l : StronglySorted desc_le (order_by_desc l).
Proof. apply StronglySorted_merge_sort; apply _. Qed.
End sort_by.

(** ** Runs *)

(** What every step preserves holds at the end of a run. *)
Lemma rtc_invariant {A} (R : relation A) (I : A → Prop) x y :
  (∀ x y, R x y → I x → I y) → rtc R x y → I x → I y.
Proof. intros HR. induction 1 as [x|x y z Hone _ IH]; [done|]. intros Hx. by apply IH, (HR x). Qed.

(** A run is seen as a run through [f] when every step is. *)
Lemma rtc_through {A B} (R : relation A) (S : relation B) (f : A → B) x y :
  (∀ x y, R x y → rtc S (f x) (f y)) → rtc R x y → rtc S (f x) (f y).
Proof. intros HR. induction 1 as [x|x y z Hone _ IH]; [done|]. etransitivity; [by apply HR|exact IH]. Qed.
