(* ===== verification/GoStrings.v ===== *)
(** * Go strings

    A Go string is a sequence of bytes: here a [string], whose characters are
    the 256 values of [ascii].  This file models what the program uses of the
    packages [strings], [unicode/utf8] and [encoding/hex]: UTF-8 decoding,
    [strings.TrimSpace], [ToLower], [ToUpper], [HasSuffix] and hexadecimal
    encoding.  The Unicode case tables, which only matter for text outside
    ASCII, are arguments of the two case conversions. *)

From S2P Require Import Prelude.

(** ** Bytes *)

Definition byte_val (a : ascii) : N := N_of_ascii a.

Definition in_range (lo hi : N) (a : ascii) : bool := (lo <=? byte_val a)%N && (byte_val a <=? hi)%N.

Definition of_bytes (l : list N) : string := foldr (λ n s, String (ascii_of_N n) s) "" l.

Fixpoint string_concat (l : list string) : string :=
  match l with [] => "" | s :: l' => s +:+ string_concat l' end.

Lemma append_nil_r s : s +:+ "" = s.
Proof. induction s as [|a s IH]; [done|]. change (String a (s +:+ "") = String a s). by rewrite IH. Qed.

Lemma append_assoc s1 s2 s3 : (s1 +:+ s2) +:+ s3 = s1 +:+ (s2 +:+ s3).
Proof.
  induction s1 as [|a s IH]; [done|].
  change (String a ((s +:+ s2) +:+ s3) = String a (s +:+ (s2 +:+ s3))). by rewrite IH.
Qed.

Lemma append_cons a s1 s2 : String a s1 +:+ s2 = String a (s1 +:+ s2).
Proof. done. Qed.

Lemma append_empty_l s : "" +:+ s = s.
Proof. done. Qed.

Lemma length_append s1 s2 : String.length (s1 +:+ s2) = (String.length s1 + String.length s2)%nat.
Proof. induction s1 as [|a s IH]; [done|]. rewrite append_cons. simpl. by rewrite IH. Qed.

Create Rewrite HintDb append.
#[export] Hint Rewrite append_assoc append_cons append_empty_l append_nil_r : append.

(** ** UTF-8

    [runes] splits a string the way [range s] and [utf8.DecodeRuneInString]
    do: each element is one encoded rune of one to four bytes, or a single
    byte that starts no valid encoding (for which Go yields [U+FFFD], width 1). *)

Inductive rune : Type :=
  | R1 (a : ascii)
  | R2 (a b : ascii)
  | R3 (a b c : ascii)
  | R4 (a b c d : ascii)
  | RBad (a : ascii).

#[global] Instance rune_eq_dec : EqDecision rune.
Proof. solve_decision. Defined.

Definition rune_bytes (r : rune) : string :=
  match r with
  | R1 a | RBad a => String a ""
  | R2 a b => String a (String b "")
  | R3 a b c => String a (String b (String c ""))
  | R4 a b c d => String a (String b (String c (String d "")))
  end.

Definition is_ascii_byte (a : ascii) : bool := (byte_val a <? 128)%N.
Definition cont (b : ascii) : bool := in_range 128 191 b.

(** The valid encodings of two, three and four bytes (no overlong form, no
    surrogate, nothing above [U+10FFFF]). *)
Definition utf8_2 (a b : ascii) : bool := in_range 194 223 a && cont b.

Definition utf8_3 (a b c : ascii) : bool :=
  (((byte_val a =? 224)%N && in_range 160 191 b)
   || (in_range 225 236 a && cont b)
   || ((byte_val a =? 237)%N && in_range 128 159 b)
   || (in_range 238 239 a && cont b)) && cont c.

Definition utf8_4 (a b c d : ascii) : bool :=
  (((byte_val a =? 240)%N && in_range 144 191 b)
   || (in_range 241 243 a && cont b)
   || ((byte_val a =? 244)%N && in_range 128 143 b)) && cont c && cont d.

#[global] Arguments byte_val : simpl never.
#[global] Arguments is_ascii_byte : simpl never.
#[global] Arguments in_range : simpl never.
#[global] Arguments cont : simpl never.
#[global] Arguments utf8_2 : simpl never.
#[global] Arguments utf8_3 : simpl never.
#[global] Arguments utf8_4 : simpl never.

Fixpoint runes (s : string) : list rune :=
  match s with
  | "" => []
  | String a s1 =>
    if is_ascii_byte a then R1 a :: runes s1 else
    match s1 with
    | "" => [RBad a]
    | String b s2 =>
      if utf8_2 a b then R2 a b :: runes s2 else
      match s2 with
      | "" => RBad a :: runes s1
      | String c s3 =>
        if utf8_3 a b c then R3 a b c :: runes s3 else
        match s3 with
        | "" => RBad a :: runes s1
        | String d s4 =>
          if utf8_4 a b c d then R4 a b c d :: runes s4 else RBad a :: runes s1
        end
      end
    end
  end.

(** The first rune and the bytes after it. *)
Definition next_rune (s : string) : option (rune * string) :=
  match s with
  | "" => None
  | String a s1 => Some
    (if is_ascii_byte a then (R1 a, s1) else
     match s1 with
     | "" => (RBad a, s1)
     | String b s2 =>
       if utf8_2 a b then (R2 a b, s2) else
       match s2 with
       | "" => (RBad a, s1)
       | String c s3 =>
         if utf8_3 a b c then (R3 a b c, s3) else
         match s3 with
         | "" => (RBad a, s1)
         | String d s4 => if utf8_4 a b c d then (R4 a b c d, s4) else (RBad a, s1)
         end
       end
     end)
  end.

Lemma runes_next s :
  runes s = match next_rune s with None => [] | Some (r, s') => r :: runes s' end.
Proof.
  destruct s as [|a s1]; [done|]. cbn [runes next_rune].
  destruct (is_ascii_byte a); [done|]. destruct s1 as [|b s2]; [done|].
  destruct (utf8_2 a b); [done|]. destruct s2 as [|c s3]; [done|].
  destruct (utf8_3 a b c); [done|]. destruct s3 as [|d s4]; [done|].
  by destruct (utf8_4 a b c d).
Qed.

(** Induction on a string by steps of one rune. *)
Lemma string_len_ind (P : string → Prop) :
  (∀ s, (∀ s', (String.length s' < String.length s)%nat → P s') → P s) → ∀ s, P s.
Proof.
  intros Hstep s. remember (String.length s) as n eqn:Hn. revert s Hn.
  induction (lt_wf n) as [n _ IH]. intros s ->. apply Hstep. intros s' Hlt. by eapply IH.
Qed.

(** Decoding loses nothing: the bytes of the runes are the string. *)
Lemma runes_bytes s : string_concat (rune_bytes <$> runes s) = s.
Proof.
  induction s as [s IH] using string_len_ind.
  assert (∀ s', (String.length s' < String.length s)%nat →
    string_concat (rune_bytes <$> runes s') = s') as IH' by exact IH.
  destruct s as [|a s1]; [done|]. cbn.
  destruct (is_ascii_byte a).
  { cbn. rewrite IH' by (simpl; lia). done. }
  destruct s1 as [|b s2]; [done|].
  destruct (utf8_2 a b).
  { cbn. rewrite IH' by (simpl; lia). done. }
  destruct s2 as [|c s3].
  { cbn -[runes]. rewrite IH' by (simpl; lia). done. }
  destruct (utf8_3 a b c).
  { cbn. rewrite IH' by (simpl; lia). done. }
  destruct s3 as [|d s4].
  { cbn -[runes]. rewrite IH' by (simpl; lia). done. }
  destruct (utf8_4 a b c d).
  { cbn. rewrite IH' by (simpl; lia). done. }
  cbn -[runes]. rewrite IH' by (simpl; lia). done.
Qed.

Definition rune_ok (r : rune) : bool := match r with RBad _ => false | _ => true end.

(** What [runes] produces. *)
Definition rune_wf (r : rune) : bool :=
  match r with
  | R1 a => is_ascii_byte a
  | R2 a b => utf8_2 a b
  | R3 a b c => utf8_3 a b c
  | R4 a b c d => utf8_4 a b c d
  | RBad a => negb (is_ascii_byte a)
  end.

Lemma next_rune_wf s r s' : next_rune s = Some (r, s') → rune_wf r = true.
Proof.
  destruct s as [|a [|b [|c [|d s]]]]; cbn; intros; simplify_eq/=;
    repeat (case_match; simplify_eq/=); try done; by apply negb_true_iff.
Qed.

Lemma next_rune_length s r s' :
  next_rune s = Some (r, s') → (String.length s' < String.length s)%nat.
Proof.
  destruct s as [|a [|b [|c [|d s]]]]; cbn; intros; simplify_eq/=;
    repeat (case_match; simplify_eq/=); simpl; lia.
Qed.

Lemma runes_wf s : Forall (λ r, rune_wf r = true) (runes s).
Proof.
  induction s as [s IH] using string_len_ind. rewrite runes_next.
  destruct (next_rune s) as [[r s']|] eqn:Hn; [|done].
  constructor; eauto using next_rune_wf, next_rune_length.
Qed.

Lemma in_range_not_ascii lo hi a : (128 <= lo)%N → in_range lo hi a = true → is_ascii_byte a = false.
Proof.
  unfold in_range, is_ascii_byte. rewrite andb_true_iff, N.leb_le, N.leb_le, N.ltb_ge. lia.
Qed.

Lemma eqb_not_ascii n a : (128 <= n)%N → (byte_val a =? n)%N = true → is_ascii_byte a = false.
Proof. unfold is_ascii_byte. rewrite N.eqb_eq, N.ltb_ge. lia. Qed.

Lemma utf8_2_range a b : utf8_2 a b = true → is_ascii_byte a = false.
Proof. unfold utf8_2. rewrite andb_true_iff. intros [Ha _]. by eapply in_range_not_ascii in Ha. Qed.

Lemma not_utf8_2 a b : (223 < byte_val a)%N → utf8_2 a b = false.
Proof.
  intros Ha. unfold utf8_2, in_range. destruct (N.leb_spec (byte_val a) 223); [lia|].
  by rewrite andb_false_r.
Qed.

Lemma utf8_3_range a b c : utf8_3 a b c = true → (223 < byte_val a < 240)%N.
Proof.
  unfold utf8_3, in_range. rewrite !andb_true_iff, !orb_true_iff, !andb_true_iff.
  rewrite ?N.eqb_eq, ?N.leb_le. lia.
Qed.

Lemma utf8_4_range a b c d : utf8_4 a b c d = true → (239 < byte_val a)%N.
Proof.
  unfold utf8_4, in_range. rewrite !andb_true_iff, !orb_true_iff, !andb_true_iff.
  rewrite ?N.eqb_eq, ?N.leb_le. lia.
Qed.

Lemma not_utf8_3 a b c : (239 < byte_val a)%N → utf8_3 a b c = false.
Proof.
  intros Ha. destruct (utf8_3 a b c) eqn:H; [|done]. apply utf8_3_range in H. lia.
Qed.

(** A well-formed encoding in front of any bytes is decoded as itself. *)
Lemma next_rune_cons r t :
  rune_wf r = true → rune_ok r = true → next_rune (rune_bytes r +:+ t) = Some (r, t).
Proof.
  assert (∀ a, (127 < byte_val a)%N → is_ascii_byte a = false) as Hna.
  { intros a Ha. unfold is_ascii_byte. apply N.ltb_ge. lia. }
  destruct r as [a|a b|a b c|a b c d|a]; cbn [rune_bytes rune_wf rune_ok]; intros Hwf Hok;
    autorewrite with append; cbn [next_rune]; [by rewrite Hwf| | | |done].
  - by rewrite (utf8_2_range _ _ Hwf), Hwf.
  - apply utf8_3_range in Hwf as Hr. rewrite Hna, not_utf8_2, Hwf by lia. done.
  - apply utf8_4_range in Hwf as Hr. rewrite Hna, not_utf8_2, not_utf8_3, Hwf by lia. done.
Qed.


(** [utf8.ValidString] *)
Definition utf8_valid (s : string) : bool := forallb rune_ok (runes s).

Definition is_ascii (s : string) : bool := forallb is_ascii_byte (String.list_ascii_of_string s).

(** ** Case conversion *)

Definition ascii_upper_byte (a : ascii) : ascii :=
  if in_range 97 122 a then ascii_of_N (byte_val a - 32) else a.
Definition ascii_lower_byte (a : ascii) : ascii :=
  if in_range 65 90 a then ascii_of_N (byte_val a + 32) else a.

Fixpoint string_map (f : ascii → ascii) (s : string) : string :=
  match s with "" => "" | String a s' => String (f a) (string_map f s') end.

(** [strings.ToUpper] and [strings.ToLower]: a byte-wise fast path for ASCII
    text; [unicode_case] is the rune-wise mapping of any other text. *)
Definition ToUpper (unicode_upper : string → string) (s : string) : string :=
  if is_ascii s then string_map ascii_upper_byte s else unicode_upper s.
Definition ToLower (unicode_lower : string → string) (s : string) : string :=
  if is_ascii s then string_map ascii_lower_byte s else unicode_lower s.

Lemma ascii_upper_byte_idemp a : ascii_upper_byte (ascii_upper_byte a) = ascii_upper_byte a.
Proof. destruct a as [[] [] [] [] [] [] [] []]; vm_compute; reflexivity. Qed.
Lemma ascii_lower_byte_idemp a : ascii_lower_byte (ascii_lower_byte a) = ascii_lower_byte a.
Proof. destruct a as [[] [] [] [] [] [] [] []]; vm_compute; reflexivity. Qed.

Lemma string_map_idemp f s : (∀ a, f (f a) = f a) → string_map f (string_map f s) = string_map f s.
Proof. intros Hf. induction s as [|a s IH]; simpl; [done|]. by rewrite Hf, IH. Qed.

(** ** [strings.TrimSpace]

    The white space of [unicode.IsSpace]: six ASCII characters, two encodings
    of two bytes ([U+0085], [U+00A0]) and those of three bytes ([U+1680],
    [U+2000]-[U+200A], [U+2028], [U+2029], [U+202F], [U+205F], [U+3000]). *)

Definition is_space1 (a : ascii) : bool := in_range 9 13 a || (byte_val a =? 32)%N.
Definition is_space2 (a b : ascii) : bool :=
  (byte_val a =? 194)%N && ((byte_val b =? 133)%N || (byte_val b =? 160)%N).
Definition is_space3 (a b c : ascii) : bool :=
  ((byte_val a =? 225)%N && (byte_val b =? 154)%N && (byte_val c =? 128)%N)
  || ((byte_val a =? 226)%N && (byte_val b =? 128)%N
      && (in_range 128 138 c || (byte_val c =? 168)%N || (byte_val c =? 169)%N || (byte_val c =? 175)%N))
  || ((byte_val a =? 226)%N && (byte_val b =? 129)%N && (byte_val c =? 159)%N)
  || ((byte_val a =? 227)%N && (byte_val b =? 128)%N && (byte_val c =? 128)%N).

(** Drop white space from the front; [sp2] and [sp3] recognise the encodings
    of two and three bytes in the order in which the bytes come. *)
Section trim_with.
Variables (sp2 : ascii → ascii → bool) (sp3 : ascii → ascii → ascii → bool).

Fixpoint trim_with (s : string) : string :=
  match s with
  | "" => ""
  | String a s1 =>
    if is_space1 a then trim_with s1 else
    match s1 with
    | "" => s
    | String b s2 =>
      if sp2 a b then trim_with s2 else
      match s2 with
      | "" => s
      | String c s3 => if sp3 a b c then trim_with s3 else s
      end
    end
  end.

(** [s] starts with no white space. *)
Definition no_space_front (s : string) : bool :=
  match s with
  | "" => true
  | String a s1 =>
    negb (is_space1 a) &&
    match s1 with
    | "" => true
    | String b s2 =>
      negb (sp2 a b) &&
      match s2 with "" => true | String c _ => negb (sp3 a b c) end
    end
  end.

Lemma trim_with_no_space s : no_space_front (trim_with s) = true.
Proof.
  induction s as [s IH] using string_len_ind.
  destruct s as [|a s1]; [done|]. cbn.
  destruct (is_space1 a) eqn:H1; [apply IH; simpl; lia|].
  destruct s1 as [|b s2]; [cbn; by rewrite H1|].
  destruct (sp2 a b) eqn:H2; [apply IH; simpl; lia|].
  destruct s2 as [|c s3]; [cbn; by rewrite H1, H2|].
  destruct (sp3 a b c) eqn:H3; [apply IH; simpl; lia|].
  cbn. by rewrite H1, H2, H3.
Qed.

Lemma trim_with_id s : no_space_front s = true → trim_with s = s.
Proof.
  destruct s as [|a [|b [|c s]]]; cbn; [done|..];
    (destruct (is_space1 a); [done|]); cbn; [done|..];
    (destruct (sp2 a b); [done|]); cbn; [done|].
  by destruct (sp3 a b c).
Qed.

(** No white space appears at the front when the back is cut off. *)
Lemma no_space_front_app s t : no_space_front (s +:+ t) = true → no_space_front s = true.
Proof.
  destruct s as [|a [|b [|c s]]]; rewrite ?append_cons; cbn; [done|..|done];
    (destruct (is_space1 a); [done|]); cbn; [done|]; rewrite ?append_cons;
    (destruct (sp2 a b); [done|]); done.
Qed.

Lemma trim_with_suffix s : ∃ p, s = p +:+ trim_with s.
Proof.
  induction s as [s IH] using string_len_ind.
  destruct s as [|a s1]; [by exists ""|]. cbn.
  destruct (is_space1 a).
  { destruct (IH s1) as [p Hp]; [simpl; lia|]. exists (String a p).
    rewrite append_cons. by rewrite <- Hp. }
  destruct s1 as [|b s2]; [by exists ""|].
  destruct (sp2 a b).
  { destruct (IH s2) as [p Hp]; [simpl; lia|]. exists (String a (String b p)).
    rewrite !append_cons. by rewrite <- Hp. }
  destruct s2 as [|c s3]; [by exists ""|].
  destruct (sp3 a b c); [|by exists ""].
  destruct (IH s3) as [p Hp]; [simpl; lia|]. exists (String a (String b (String c p))).
  rewrite !append_cons. by rewrite <- Hp.
Qed.
End trim_with.

Definition trim_left (s : string) : string := trim_with is_space2 is_space3 s.

(** Trimming from the back: the same scan over the reversed bytes. *)
Definition trim_right (s : string) : string :=
  String.rev (trim_with (λ b a, is_space2 a b) (λ c b a, is_space3 a b c) (String.rev s)).

Definition TrimSpace (s : string) : string := trim_right (trim_left s).

Lemma string_rev_app s t : String.rev_app s t = String.rev s +:+ t.
Proof.
  unfold String.rev. revert t. induction s as [|a s IH]; intros t; [done|].
  cbn [String.rev_app]. rewrite (IH (String a t)), (IH (String a "")), append_assoc. done.
Qed.
Lemma string_rev_cons a s : String.rev (String a s) = String.rev s +:+ String a "".
Proof. exact (string_rev_app s (String a "")). Qed.
Lemma string_rev_append s t : String.rev (s +:+ t) = String.rev t +:+ String.rev s.
Proof.
  induction s as [|a s IH]; [by rewrite append_nil_r|]. by rewrite append_cons, !string_rev_cons, IH, append_assoc.
Qed.
Lemma string_rev_involutive s : String.rev (String.rev s) = s.
Proof. induction s as [|a s IH]; [done|]. by rewrite string_rev_cons, string_rev_append, IH. Qed.

Lemma trim_right_prefix s : ∃ p, s = trim_right s +:+ p.
Proof.
  unfold trim_right. destruct (trim_with_suffix (λ b a, is_space2 a b) (λ c b a, is_space3 a b c) (String.rev s)) as [p Hp].
  exists (String.rev p). by rewrite <- string_rev_append, <- Hp, string_rev_involutive.
Qed.

(** Trimmed text has no white space left to trim. *)
Lemma TrimSpace_idemp s : TrimSpace (TrimSpace s) = TrimSpace s.
Proof.
  unfold TrimSpace. set (y := trim_left s). assert (trim_left (trim_right y) = trim_right y) as ->.
  { apply trim_with_id. destruct (trim_right_prefix y) as [p Hp].
    apply (no_space_front_app _ _ _ p). rewrite <- Hp. apply trim_with_no_space. }
  unfold trim_right. rewrite string_rev_involutive. f_equal. apply trim_with_id, trim_with_no_space.
Qed.

(** What is left of a text that is not blank. *)
Definition tidy (s : string) : Prop := s ≠ "" ∧ TrimSpace s = s.

Lemma TrimSpace_tidy s : TrimSpace s ≠ "" → tidy (TrimSpace s).
Proof. intros Hs. split; [done|]. apply TrimSpace_idemp. Qed.

(** ** Suffixes *)

Fixpoint HasPrefix (s p : string) : bool :=
  match p, s with
  | "", _ => true
  | String a p', String b s' => bool_decide (a = b) && HasPrefix s' p'
  | String _ _, "" => false
  end.

(** [strings.HasSuffix] *)
Definition HasSuffix (s suffix : string) : bool := HasPrefix (String.rev s) (String.rev suffix).

(** The last character. *)
Definition last_char (s : string) : option ascii := last (String.list_ascii_of_string s).

Lemma last_char_snoc s a : last_char (s +:+ String a "") = Some a.
Proof.
  unfold last_char. induction s as [|b s IH]; [done|]. rewrite append_cons. cbn [String.list_ascii_of_string].
  rewrite last_cons. by rewrite IH.
Qed.

Lemma HasSuffix_char s a : HasSuffix s (String a "") = bool_decide (last_char s = Some a).
Proof.
  unfold HasSuffix. change (String.rev (String a "")) with (String a "").
  pose proof (string_rev_involutive s) as Hs. destruct (String.rev s) as [|b r]; subst s; [done|].
  rewrite string_rev_cons, last_char_snoc. transitivity (bool_decide (a = b) && true); [by destruct r|].
  rewrite andb_true_r. apply bool_decide_ext. naive_solver.
Qed.

(** ** Hexadecimal encoding: [hex.EncodeToString] *)

Definition hex_digit (n : N) : ascii :=
  if (n <? 10)%N then ascii_of_N (48 + n) else ascii_of_N (87 + n).

Fixpoint hex_encode (s : string) : string :=
  match s with
  | "" => ""
  | String a s' =>
    String (hex_digit (byte_val a / 16)) (String (hex_digit (byte_val a mod 16)) (hex_encode s'))
  end.

Definition hex_value (a : ascii) : option N :=
  if in_range 48 57 a then Some (byte_val a - 48)%N
  else if in_range 97 102 a then Some (byte_val a - 87)%N
  else if in_range 65 70 a then Some (byte_val a - 55)%N
  else None.

Fixpoint hex_decode (s : string) : option string :=
  match s with
  | "" => Some ""
  | String a (String b s') =>
    match hex_value a, hex_value b, hex_decode s' with
    | Some x, Some y, Some r => Some (String (ascii_of_N (16 * x + y)) r)
    | _, _, _ => None
    end
  | String _ "" => None
  end.

Lemma hex_decode_encode s : hex_decode (hex_encode s) = Some s.
Proof.
  induction s as [|a s IH]; [done|]. cbn [hex_encode hex_decode]. rewrite IH.
  by destruct a as [[] [] [] [] [] [] [] []].
Qed.

Lemma hex_encode_inj s t : hex_encode s = hex_encode t → s = t.
Proof. intros Heq. apply (f_equal hex_decode) in Heq. rewrite !hex_decode_encode in Heq. congruence. Qed.

(** ** The verb [%q]: [strconv.Quote] *)

(** The code point of a valid encoding of more than one byte. *)
Definition rune_code (r : rune) : N :=
  match r with
  | R1 a | RBad a => byte_val a
  | R2 a b => (byte_val a - 192) * 64 + (byte_val b - 128)
  | R3 a b c => ((byte_val a - 224) * 64 + (byte_val b - 128)) * 64 + (byte_val c - 128)
  | R4 a b c d => (((byte_val a - 240) * 64 + (byte_val b - 128)) * 64 + (byte_val c - 128)) * 64 + (byte_val d - 128)
  end%N.

(** [n] hexadecimal digits of a number. *)
Fixpoint hex_digits (n : nat) (x : N) : string :=
  match n with O => "" | S n' => hex_digits n' (x / 16) +:+ String (hex_digit (x mod 16)) "" end.

Definition backslashed (c : ascii) : string := String "\"%char (String c "").

Definition quote_ascii (a : ascii) : string :=
  if bool_decide (a = "034"%char) || bool_decide (a = "\"%char) then backslashed a
  else if in_range 32 126 a then String a ""
  else match byte_val a with
       | 7%N => backslashed "a" | 8%N => backslashed "b" | 12%N => backslashed "f" | 10%N => backslashed "n"
       | 13%N => backslashed "r" | 9%N => backslashed "t" | 11%N => backslashed "v"
       | n => backslashed "x" +:+ hex_digits 2 n
       end.

(** [is_print] is [unicode.IsPrint] on the encoding of a rune beyond ASCII. *)
Definition quote_rune (is_print : string → bool) (r : rune) : string :=
  match r with
  | R1 a => quote_ascii a
  | RBad a => backslashed "x" +:+ hex_digits 2 (byte_val a)
  | _ =>
    if is_print (rune_bytes r) then rune_bytes r
    else if (rune_code r <? 65536)%N then backslashed "u" +:+ hex_digits 4 (rune_code r)
    else backslashed "U" +:+ hex_digits 8 (rune_code r)
  end.

Definition Quote (is_print : string → bool) (s : string) : string :=
  String "034"%char (string_concat (quote_rune is_print <$> runes s) +:+ String "034"%char "").

Example Quote_escapes :
  Quote (λ _, true) (of_bytes [97; 34; 92; 10; 1; 200]%N)
  = of_bytes [34; 97; 92; 34; 92; 92; 92; 110; 92; 120; 48; 49; 92; 120; 99; 56; 34]%N.
Proof. vm_compute. reflexivity. Qed.
