(* ===== verification/Sha256.v ===== *)
(** * SHA-256

    What the program uses of [crypto/sha256]: [Sum256] of a byte string, as
    FIPS 180-4 defines it.  The round constants are the first 32 bits of the
    fractional parts of the cube roots of the first 64 primes, the initial
    state those of the square roots of the first eight; both are computed
    here by integer roots. *)

From S2P Require Import Prelude GoStrings.

#[local] Open Scope N_scope.

Definition word (n : N) : N := n mod 2 ^ 32.
Definition add32 (x y : N) : N := word (x + y).
Definition rotr (k x : N) : N := N.lor (N.shiftr x k) (word (N.shiftl x (32 - k))).
Definition not32 (x : N) : N := N.lxor x (2 ^ 32 - 1).

Definition choose (x y z : N) : N := N.lxor (N.land x y) (N.land (not32 x) z).
Definition majority (x y z : N) : N :=
  N.lxor (N.lxor (N.land x y) (N.land x z)) (N.land y z).
Definition big_sigma0 (x : N) : N := N.lxor (N.lxor (rotr 2 x) (rotr 13 x)) (rotr 22 x).
Definition big_sigma1 (x : N) : N := N.lxor (N.lxor (rotr 6 x) (rotr 11 x)) (rotr 25 x).
Definition small_sigma0 (x : N) : N := N.lxor (N.lxor (rotr 7 x) (rotr 18 x)) (N.shiftr x 3).
Definition small_sigma1 (x : N) : N := N.lxor (N.lxor (rotr 17 x) (rotr 19 x)) (N.shiftr x 10).

(** ** Constants *)

(** The largest [r] below [2 ^ bits] with [r ^ 3 <= n], bit by bit. *)
Fixpoint cube_root_bits (bits : nat) (r n : N) : N :=
  match bits with
  | O => r
  | S b =>
    let r' := r + 2 ^ N.of_nat b in
    cube_root_bits b (if r' * r' * r' <=? n then r' else r) n
  end.

Definition is_prime (n : N) : bool :=
  (1 <? n) && forallb (λ d, negb (n mod N.of_nat d =? 0)) (seq 2 (N.to_nat n - 2)).

Definition primes : list N :=
  Eval vm_compute in List.filter is_prime (N.of_nat <$> seq 2 310).

Definition round_constants : list N :=
  Eval vm_compute in (λ p, word (cube_root_bits 40 0 (p * 2 ^ 96))) <$> primes.

Definition initial_state : list N :=
  Eval vm_compute in (λ p, word (N.sqrt (p * 2 ^ 64))) <$> take 8 primes.

(** ** Padding and blocks *)

(** [k] bytes of [n], most significant first. *)
Fixpoint be_bytes (k : nat) (n : N) : list N :=
  match k with O => [] | S k' => (n / 2 ^ (8 * N.of_nat k')) mod 256 :: be_bytes k' n end.

Definition message_bytes (s : string) : list N := byte_val <$> String.list_ascii_of_string s.

Definition pad (m : list N) : list N :=
  let len := length m in
  m ++ [128] ++ replicate ((119 - len mod 64) mod 64)%nat 0 ++ be_bytes 8 (8 * N.of_nat len).

Fixpoint words_of (l : list N) : list N :=
  match l with
  | a :: b :: c :: d :: l' => (a * 2 ^ 24 + b * 2 ^ 16 + c * 2 ^ 8 + d) :: words_of l'
  | _ => []
  end.

Fixpoint blocks (fuel : nat) (l : list N) : list (list N) :=
  match fuel, l with
  | S f, _ :: _ => take 16 l :: blocks f (drop 16 l)
  | _, _ => []
  end.

(** ** Compression *)

(** The message schedule, most recent word first. *)
Fixpoint schedule (k : nat) (w : list N) : list N :=
  match k with
  | O => w
  | S k' =>
    let at_ i := nth i w 0 in
    schedule k' (add32 (add32 (small_sigma1 (at_ 1%nat)) (at_ 6%nat))
                       (add32 (small_sigma0 (at_ 14%nat)) (at_ 15%nat)) :: w)
  end.

Definition round (st : list N) (kw : N * N) : list N :=
  match st with
  | [a; b; c; d; e; f; g; h] =>
    let t1 := add32 (add32 (add32 h (big_sigma1 e)) (choose e f g)) (add32 kw.1 kw.2) in
    let t2 := add32 (big_sigma0 a) (majority a b c) in
    [add32 t1 t2; a; b; c; add32 d t1; e; f; g]
  | _ => st
  end.

Definition compress (st blk : list N) : list N :=
  let w := reverse (schedule 48 (reverse blk)) in
  zip_with add32 st (foldl round st (zip round_constants w)).

(** [sha256.Sum256]: the 32 bytes of the digest. *)
Definition Sum256 (s : string) : string :=
  let ws := words_of (pad (message_bytes s)) in
  of_bytes (foldl compress initial_state (blocks (length ws) ws) ≫= be_bytes 4).

(** ** Facts *)

Lemma round_length st kw : length st = 8%nat → length (round st kw) = 8%nat.
Proof. destruct st as [|? [|? [|? [|? [|? [|? [|? [|? [|]]]]]]]]]; done. Qed.

Lemma rounds_length kws st : length st = 8%nat → length (foldl round st kws) = 8%nat.
Proof. revert st. induction kws as [|kw kws IH]; intros st Hst; simpl; auto using round_length. Qed.

Lemma compress_length st blk : length st = 8%nat → length (compress st blk) = 8%nat.
Proof.
  intros Hst. unfold compress. rewrite length_zip_with, rounds_length by done. by rewrite Hst.
Qed.

Lemma compress_all_length bs st : length st = 8%nat → length (foldl compress st bs) = 8%nat.
Proof. revert st. induction bs as [|b bs IH]; intros st Hst; simpl; auto using compress_length. Qed.

Lemma of_bytes_length l : String.length (of_bytes l) = length l.
Proof. induction l; simpl; auto. Qed.

Lemma be_bytes_length k n : length (be_bytes k n) = k.
Proof. induction k; simpl; auto. Qed.

Lemma Sum256_length s : String.length (Sum256 s) = 32%nat.
Proof.
  unfold Sum256. rewrite of_bytes_length.
  assert (∀ l : list N, length (l ≫= be_bytes 4) = (4 * length l)%nat) as ->.
  { induction l as [|x l IH]; [done|]. cbn -[be_bytes].
    rewrite length_app, be_bytes_length, IH. simpl. lia. }
  rewrite compress_all_length; done.
Qed.

Lemma hex_encode_length s : String.length (hex_encode s) = (2 * String.length s)%nat.
Proof. induction s as [|a s IH]; simpl; [done|]. rewrite IH. lia. Qed.

(** Known answers: the digests of the empty message, of "abc", and of a
    message of two blocks. *)
Example Sum256_empty :
  hex_encode (Sum256 "") = "e3b0c44298fc1c149afbf4c8996fb92427ae41e4649b934ca495991b7852b855".
Proof. vm_compute. reflexivity. Qed.

Example Sum256_abc :
  hex_encode (Sum256 "abc") = "ba7816bf8f01cfea414140de5dae2223b00361a396177a9cb410ff61f20015ad".
Proof. vm_compute. reflexivity. Qed.

Example Sum256_two_blocks :
  hex_encode (Sum256 "abcdbcdecdefdefgefghfghighijhijkijkljklmklmnlmnomnopnopq")
  = "248d6a61d20638b8e5c026930c3e6039a33ce45964ff2167f6ecedd419db06c1".
Proof. vm_compute. reflexivity. Qed.
