(* ===== verification/Json.v ===== *)
(** * encoding/json

    What the program uses of Go's [encoding/json]: the syntax tree of a JSON
    text, [json.Marshal] (with its HTML escaping), the syntax accepted by
    [json.Unmarshal], the way object members are stored into the string,
    [int64] and [json.RawMessage] fields of a struct, and the compaction of a
    [json.RawMessage] that is marshalled.  The scanner's nesting limit of
    10000 is not modelled. *)

From S2P Require Import Prelude GoStrings.

(** ** Syntax trees *)

Inductive json : Type :=
  | JNull
  | JBool (b : bool)
  | JNum (lit : string)
  | JStr (s : string)
  | JArr (l : list json)
  | JObj (ms : list (string * json)).

(** The induction principle with hypotheses for the elements and members. *)
Section json_induction.
Variable P : json → Prop.
Hypothesis Hnull : P JNull.
Hypothesis Hbool : ∀ b, P (JBool b).
Hypothesis Hnum : ∀ lit, P (JNum lit).
Hypothesis Hstr : ∀ s, P (JStr s).
Hypothesis Harr : ∀ l, Forall P l → P (JArr l).
Hypothesis Hobj : ∀ ms, Forall (λ m, P m.2) ms → P (JObj ms).

Fixpoint json_ind' (v : json) : P v :=
  match v with
  | JNull => Hnull
  | JBool b => Hbool b
  | JNum lit => Hnum lit
  | JStr s => Hstr s
  | JArr l => Harr l ((fix go l : Forall P l :=
      match l with [] => Forall_nil_2 _ | v :: l' => Forall_cons_2 _ _ _ (json_ind' v) (go l') end) l)
  | JObj ms => Hobj ms ((fix go ms : Forall (λ m, P m.2) ms :=
      match ms with [] => Forall_nil_2 _ | m :: ms' => Forall_cons_2 _ _ _ (json_ind' m.2) (go ms') end) ms)
  end.
End json_induction.

(** An [int64] field. *)
Definition JInt (z : Z) : json := JNum (pretty z).

(** A string field with the option [omitempty]. *)
Definition omitempty (k s : string) : list (string * json) :=
  if bool_decide (s = "") then [] else [(k, JStr s)].

(** ** json.Marshal *)

Definition quote_char : ascii := "034"%char.
Definition backslash : ascii := "\"%char.

Definition esc (c : ascii) : string := String backslash (String c "").

Definition esc_u00 (a : ascii) : string :=
  esc "u" +:+ "00" +:+ String (hex_digit (byte_val a / 16)) (String (hex_digit (byte_val a mod 16)) "").

Definition is_html (a : ascii) : bool :=
  bool_decide (a = "<"%char) || bool_decide (a = ">"%char) || bool_decide (a = "&"%char).

(** [appendString] with [escapeHTML]: one rune. *)
Definition esc_ascii (a : ascii) : string :=
  if bool_decide (a = quote_char) || bool_decide (a = backslash) then esc a
  else if (byte_val a =? 8)%N then esc "b"
  else if (byte_val a =? 12)%N then esc "f"
  else if (byte_val a =? 10)%N then esc "n"
  else if (byte_val a =? 13)%N then esc "r"
  else if (byte_val a =? 9)%N then esc "t"
  else if (byte_val a <? 32)%N || is_html a then esc_u00 a
  else String a "".

(** The encodings of [U+2028] and [U+2029]. *)
Definition is_line_sep (a b c : ascii) : bool :=
  (byte_val a =? 226)%N && (byte_val b =? 128)%N && ((byte_val c =? 168)%N || (byte_val c =? 169)%N).

Definition esc_line_sep (c : ascii) : string :=
  esc "u" +:+ "202" +:+ String (if (byte_val c =? 168)%N then "8"%char else "9"%char) "".

Definition esc_rune (r : rune) : string :=
  match r with
  | R1 a => esc_ascii a
  | R3 a b c => if is_line_sep a b c then esc_line_sep c else rune_bytes r
  | RBad _ => esc "u" +:+ "fffd"
  | _ => rune_bytes r
  end.

Definition quote (s : string) : string :=
  String quote_char (string_concat (esc_rune <$> runes s) +:+ String quote_char "").

Fixpoint join (sep : string) (l : list string) : string :=
  match l with
  | [] => ""
  | [s] => s
  | s :: l' => s +:+ sep +:+ join sep l'
  end.

Fixpoint Marshal (v : json) : string :=
  match v with
  | JNull => "null"
  | JBool true => "true"
  | JBool false => "false"
  | JNum lit => lit
  | JStr s => quote s
  | JArr l => "[" +:+ join "," (Marshal <$> l) +:+ "]"
  | JObj ms => "{" +:+ join "," ((λ m, quote m.1 +:+ ":" +:+ Marshal m.2) <$> ms) +:+ "}"
  end.

(** ** Parsing *)

Definition is_ws (a : ascii) : bool :=
  (byte_val a =? 32)%N || (byte_val a =? 9)%N || (byte_val a =? 10)%N || (byte_val a =? 13)%N.

Fixpoint skip_ws (s : string) : string :=
  match s with
  | "" => ""
  | String a s' => if is_ws a then skip_ws s' else s
  end.

Definition is_digit (a : ascii) : bool := in_range 48 57 a.

Fixpoint take_digits (s : string) : string * string :=
  match s with
  | "" => ("", "")
  | String a s' =>
    if is_digit a then let '(d, r) := take_digits s' in (String a d, r) else ("", s)
  end.

(** At least one digit. *)
Definition digits1 (s : string) : option (string * string) :=
  match take_digits s with ("", _) => None | p => Some p end.

Definition scan_frac (s : string) : option (string * string) :=
  match s with
  | String a s' =>
    if bool_decide (a = "."%char)
    then '(d, r) ← digits1 s'; Some (String a d, r) else Some ("", s)
  | "" => Some ("", s)
  end.

Definition scan_exp (s : string) : option (string * string) :=
  match s with
  | String a s' =>
    if bool_decide (a = "e"%char) || bool_decide (a = "E"%char) then
      match s' with
      | String b s'' =>
        if bool_decide (b = "+"%char) || bool_decide (b = "-"%char)
        then '(d, r) ← digits1 s''; Some (String a (String b d), r)
        else '(d, r) ← digits1 s'; Some (String a d, r)
      | "" => None
      end
    else Some ("", s)
  | "" => Some ("", s)
  end.

(** [-? (0 | [1-9][0-9]* ) frac? exp?] *)
Definition scan_int (s : string) : option (string * string) :=
  match s with
  | String a s' => if bool_decide (a = "0"%char) then Some ("0", s') else digits1 s
  | "" => None
  end.

Definition scan_unsigned (s : string) : option (string * string) :=
  '(i, s1) ← scan_int s; '(f, s2) ← scan_frac s1; '(e, s3) ← scan_exp s2;
  Some (i +:+ f +:+ e, s3).

Definition scan_num (s : string) : option (string * string) :=
  match s with
  | String a s' =>
    if bool_decide (a = "-"%char)
    then '(l, r) ← scan_unsigned s'; Some (String a l, r) else scan_unsigned s
  | "" => None
  end.

(** Four hexadecimal digits ([getu4]). *)
Definition hex4 (s : string) : option (N * string) :=
  match s with
  | String a (String b (String c (String d r))) =>
    x ← hex_value a; y ← hex_value b; z ← hex_value c; w ← hex_value d;
    Some (x * 4096 + y * 256 + z * 16 + w, r)%N
  | _ => None
  end.

(** [utf8.EncodeRune] *)
Definition utf8_encode (n : N) : string :=
  (if n <? 128 then of_bytes [n]
  else if n <? 2048 then of_bytes [192 + n / 64; 128 + n mod 64]
  else if n <? 65536 then of_bytes [224 + n / 4096; 128 + n / 64 mod 64; 128 + n mod 64]
  else of_bytes [240 + n / 262144; 128 + n / 4096 mod 64; 128 + n / 64 mod 64; 128 + n mod 64])%N.

Definition replacement : string := of_bytes [239; 191; 189]%N.

Definition simple_escape (e : ascii) : option string :=
  if bool_decide (e = quote_char) then Some (String quote_char "")
  else if bool_decide (e = backslash) then Some (String backslash "")
  else if bool_decide (e = "/"%char) then Some "/"
  else if bool_decide (e = "b"%char) then Some (of_bytes [8%N])
  else if bool_decide (e = "f"%char) then Some (of_bytes [12%N])
  else if bool_decide (e = "n"%char) then Some (of_bytes [10%N])
  else if bool_decide (e = "r"%char) then Some (of_bytes [13%N])
  else if bool_decide (e = "t"%char) then Some (of_bytes [9%N])
  else None.

Definition high_surrogate (n : N) : bool := (55296 <=? n)%N && (n <? 56320)%N.
Definition low_surrogate (n : N) : bool := (56320 <=? n)%N && (n <? 57344)%N.

(** After [\uXXXX] of value [r], at [s]: the text it stands for and the rest;
    a surrogate that is not followed by its other half gives [U+FFFD]. *)
Definition unescape_u (r : N) (s : string) : string * string :=
  if high_surrogate r || low_surrogate r then
    match s with
    | String a (String b s') =>
      match (if bool_decide (a = backslash) && bool_decide (b = "u"%char) then hex4 s' else None) with
      | Some (r2, s2) =>
        if high_surrogate r && low_surrogate r2
        then (utf8_encode ((r - 55296) * 1024 + (r2 - 56320) + 65536)%N, s2)
        else (replacement, s)
      | None => (replacement, s)
      end
    | _ => (replacement, s)
    end
  else (utf8_encode r, s).

Definition rune_text (r : rune) : string :=
  match r with RBad _ => replacement | _ => rune_bytes r end.

Definition prepend (p : string) (o : option (string * string)) : option (string * string) :=
  match o with Some (s, r) => Some (p +:+ s, r) | None => None end.

(** The body of a string literal, after its opening quote: scanner and
    [unquoteBytes]. *)
Fixpoint parse_string (n : nat) (s : string) : option (string * string) :=
  match n with
  | O => None
  | S n' =>
    match s with
    | "" => None
    | String a s1 =>
      if bool_decide (a = quote_char) then Some ("", s1)
      else if bool_decide (a = backslash) then
        match s1 with
        | "" => None
        | String e s2 =>
          if bool_decide (e = "u"%char) then
            match hex4 s2 with
            | None => None
            | Some (r, s3) => let '(t, s4) := unescape_u r s3 in prepend t (parse_string n' s4)
            end
          else match simple_escape e with
               | Some t => prepend t (parse_string n' s2)
               | None => None
               end
        end
      else if (byte_val a <? 32)%N then None
      else match next_rune s with
           | Some (r, s') => prepend (rune_text r) (parse_string n' s')
           | None => None
           end
    end
  end.

Fixpoint strip (p s : string) : option string :=
  match p, s with
  | "", _ => Some s
  | String a p', String b s' => if bool_decide (a = b) then strip p' s' else None
  | String _ _, "" => None
  end.

Fixpoint parse_value (n : nat) (s : string) {struct n} : option (json * string) :=
  match n with
  | O => None
  | S n' =>
    match skip_ws s with
    | "" => None
    | String a s1 as s0 =>
      if bool_decide (a = quote_char) then
        '(t, r) ← parse_string n' s1; Some (JStr t, r)
      else if bool_decide (a = "{"%char) then
        match skip_ws s1 with
        | String b s2 =>
          if bool_decide (b = "}"%char) then Some (JObj [], s2)
          else '(ms, r) ← parse_members n' s1; Some (JObj ms, r)
        | "" => None
        end
      else if bool_decide (a = "["%char) then
        match skip_ws s1 with
        | String b s2 =>
          if bool_decide (b = "]"%char) then Some (JArr [], s2)
          else '(l, r) ← parse_elems n' s1; Some (JArr l, r)
        | "" => None
        end
      else match strip "null" s0, strip "true" s0, strip "false" s0 with
           | Some r, _, _ => Some (JNull, r)
           | _, Some r, _ => Some (JBool true, r)
           | _, _, Some r => Some (JBool false, r)
           | _, _, _ => '(l, r) ← scan_num s0; Some (JNum l, r)
           end
    end
  end
with parse_elems (n : nat) (s : string) {struct n} : option (list json * string) :=
  match n with
  | O => None
  | S n' =>
    '(v, r) ← parse_value n' s;
    match skip_ws r with
    | String a r1 =>
      if bool_decide (a = "]"%char) then Some ([v], r1)
      else if bool_decide (a = ","%char) then '(l, r2) ← parse_elems n' r1; Some (v :: l, r2)
      else None
    | "" => None
    end
  end
with parse_members (n : nat) (s : string) {struct n} : option (list (string * json) * string) :=
  match n with
  | O => None
  | S n' =>
    match skip_ws s with
    | String q s1 =>
      if bool_decide (q = quote_char) then
        '(k, r) ← parse_string n' s1;
        match skip_ws r with
        | String c r1 =>
          if bool_decide (c = ":"%char) then
            '(v, r2) ← parse_value n' r1;
            match skip_ws r2 with
            | String a r3 =>
              if bool_decide (a = "}"%char) then Some ([(k, v)], r3)
              else if bool_decide (a = ","%char) then
                '(ms, r4) ← parse_members n' r3; Some ((k, v) :: ms, r4)
              else None
            | "" => None
            end
          else None
        | "" => None
        end
      else None
    | "" => None
    end
  end.

(** Every call consumes a byte for each unit of fuel but the last, so the
    length of the text is enough ([Parse_Marshal] proves it for what
    [Marshal] writes). *)
Definition Parse (s : string) : option json :=
  match parse_value (S (String.length s)) s with
  | Some (v, r) => if bool_decide (skip_ws r = "") then Some v else None
  | None => None
  end.

(** ** Parsing what Marshal writes *)

(** Evaluate the tests on known bytes. *)
Ltac eval_bytes :=
  repeat match goal with
  | |- context [is_ws ?a] =>
    let v := eval vm_compute in (is_ws a) in
    match v with true => idtac | false => idtac end; change (is_ws a) with v; cbn iota
  | |- context [bool_decide (?a = ?b)] =>
    let v := eval vm_compute in (bool_decide (a = b)) in
    match v with true => idtac | false => idtac end;
    change (bool_decide (a = b)) with v; cbn iota
  end.

(** The text a decoder recovers from the bytes [s]: ill-formed UTF-8 is
    replaced by [U+FFFD]. *)
Definition sanitize (s : string) : string := string_concat (rune_text <$> runes s).

Lemma sanitize_valid s : utf8_valid s = true → sanitize s = s.
Proof.
  unfold utf8_valid, sanitize. intros Hv. rewrite <- (runes_bytes s) at 2. f_equal.
  rewrite forallb_forall in Hv. apply list_fmap_ext. intros i r Hr.
  apply list_elem_of_lookup_2, list_elem_of_In, Hv in Hr. by destruct r.
Qed.

Lemma prepend_append p q o : prepend p (prepend q o) = prepend (p +:+ q) o.
Proof. destruct o as [[? ?]|]; simpl; [|done]. by rewrite append_assoc. Qed.

Lemma parse_string_ascii n a u :
  is_ascii_byte a = true →
  parse_string (S n) (esc_ascii a +:+ u) = prepend (String a "") (parse_string n u).
Proof. destruct a as [[] [] [] [] [] [] [] []]; intros Ha; (discriminate || reflexivity). Qed.

Lemma not_ascii_facts a :
  is_ascii_byte a = false →
  bool_decide (a = quote_char) = false ∧ bool_decide (a = backslash) = false ∧ (byte_val a <? 32)%N = false.
Proof. destruct a as [[] [] [] [] [] [] [] []]; intros Ha; (discriminate || done). Qed.

Lemma parse_string_plain n r u :
  rune_wf r = true → rune_ok r = true → (match r with R1 _ => False | _ => True end) →
  parse_string (S n) (rune_bytes r +:+ u) = prepend (rune_bytes r) (parse_string n u).
Proof.
  intros Hwf Hok Hr. pose proof (next_rune_cons r u Hwf Hok) as Hnext.
  assert (∃ a t, rune_bytes r +:+ u = String a t ∧ is_ascii_byte a = false) as (a & t & Heq & Ha).
  { destruct r as [|a b|a b c|a b c d|]; try done; cbn in Hwf; do 2 eexists;
      (split; [by autorewrite with append|]).
    - by eapply utf8_2_range.
    - apply utf8_3_range in Hwf. unfold is_ascii_byte. apply N.ltb_ge. lia.
    - apply utf8_4_range in Hwf. unfold is_ascii_byte. apply N.ltb_ge. lia. }
  rewrite Heq in *. cbn [parse_string]. destruct (not_ascii_facts a Ha) as (-> & -> & ->).
  rewrite Hnext. by destruct r.
Qed.

Lemma byte_val_inj a b : byte_val a = byte_val b → a = b.
Proof. intros Heq. rewrite <- (ascii_N_embedding a), <- (ascii_N_embedding b). by f_equal. Qed.

Lemma parse_string_line_sep n a b c u :
  is_line_sep a b c = true →
  parse_string (S n) (esc_line_sep c +:+ u) = prepend (rune_bytes (R3 a b c)) (parse_string n u).
Proof.
  unfold is_line_sep. rewrite !andb_true_iff, orb_true_iff, !N.eqb_eq.
  intros [[Ha Hb] Hc]. change 226%N with (byte_val (ascii_of_N 226)) in Ha.
  change 128%N with (byte_val (ascii_of_N 128)) in Hb.
  change 168%N with (byte_val (ascii_of_N 168)) in Hc.
  change 169%N with (byte_val (ascii_of_N 169)) in Hc.
  apply byte_val_inj in Ha as ->. apply byte_val_inj in Hb as ->.
  by destruct Hc as [->%byte_val_inj| ->%byte_val_inj].
Qed.

(** One rune written by [appendString] is read back as its text. *)
Lemma parse_string_rune n r u :
  rune_wf r = true →
  parse_string (S n) (esc_rune r +:+ u) = prepend (rune_text r) (parse_string n u).
Proof.
  intros Hwf. destruct r as [a|a b|a b c|a b c d|a].
  - by apply parse_string_ascii.
  - by apply parse_string_plain.
  - cbn [esc_rune]. destruct (is_line_sep a b c) eqn:Hl.
    + by apply parse_string_line_sep.
    + by apply parse_string_plain.
  - by apply parse_string_plain.
  - reflexivity.
Qed.

Lemma parse_string_runes rs n t :
  Forall (λ r, rune_wf r = true) rs → (length rs < n)%nat →
  parse_string n (string_concat (esc_rune <$> rs) +:+ String quote_char t)
  = Some (string_concat (rune_text <$> rs), t).
Proof.
  intros Hwf. revert n. induction Hwf as [|r rs Hr Hwf IH]; intros [|n] Hn; [simpl in *; lia|done|simpl in *; lia|].
  rewrite !fmap_cons. cbn [string_concat]. simpl in Hn.
  rewrite append_assoc, parse_string_rune by done. by rewrite IH by lia.
Qed.

Lemma esc_rune_nonempty r : (1 <= String.length (esc_rune r))%nat.
Proof.
  destruct r as [a|a b|a b c|a b c d|a]; cbn [esc_rune rune_bytes]; try (simpl; lia).
  - destruct a as [[] [] [] [] [] [] [] []]; vm_compute; lia.
  - destruct (is_line_sep a b c); [unfold esc_line_sep; rewrite length_append|]; simpl; lia.
Qed.

Lemma esc_runes_length rs : (length rs <= String.length (string_concat (esc_rune <$> rs)))%nat.
Proof.
  induction rs as [|r rs IH]; [simpl; lia|]. rewrite fmap_cons. cbn [string_concat length].
  rewrite length_append. pose proof (esc_rune_nonempty r). lia.
Qed.

Lemma parse_string_quote s n t :
  (String.length (quote s) <= n)%nat →
  parse_string n (string_concat (esc_rune <$> runes s) +:+ String quote_char t) = Some (sanitize s, t).
Proof.
  unfold quote. intros Hn. apply parse_string_runes; [apply runes_wf|].
  cbn [String.length] in Hn. rewrite length_append in Hn.
  pose proof (esc_runes_length (runes s)). simpl in Hn. lia.
Qed.

(** *** Numbers *)

(** What may follow a value: nothing, or the byte that ends it. *)
Definition delim (t : string) : bool :=
  match t with
  | "" => true
  | String a _ => bool_decide (a = ","%char) || bool_decide (a = "]"%char) || bool_decide (a = "}"%char)
  end.

Definition num_lit (lit : string) : bool := bool_decide (scan_num lit = Some (lit, "")).

Lemma delim_digit a t : delim (String a t) = true → is_digit a = false.
Proof. by destruct a as [[] [] [] [] [] [] [] []]. Qed.

Lemma take_digits_app s t d r :
  delim t = true → take_digits s = (d, r) → take_digits (s +:+ t) = (d, r +:+ t).
Proof.
  intros Ht. revert d r. induction s as [|a s IH]; intros d r Hd.
  - simplify_eq/=. rewrite append_empty_l. destruct t as [|b t]; [done|].
    cbn [take_digits]. by rewrite (delim_digit _ _ Ht).
  - rewrite append_cons. cbn [take_digits] in *. destruct (is_digit a); [|by simplify_eq].
    destruct (take_digits s) as [d' r'] eqn:Hs. simplify_eq. by rewrite (IH _ _ eq_refl).
Qed.

Lemma digits1_app s t d r :
  delim t = true → digits1 s = Some (d, r) → digits1 (s +:+ t) = Some (d, r +:+ t).
Proof.
  unfold digits1. intros Ht Hd. destruct (take_digits s) as [d' r'] eqn:Hs.
  rewrite (take_digits_app _ _ _ _ Ht Hs). by destruct d'; simplify_eq.
Qed.

Lemma scan_frac_app s t d r :
  delim t = true → scan_frac s = Some (d, r) → scan_frac (s +:+ t) = Some (d, r +:+ t).
Proof.
  intros Ht. destruct s as [|a s].
  - intros [= <- <-]. rewrite append_empty_l. destruct t as [|b t]; [done|].
    cbn [scan_frac]. rewrite bool_decide_eq_false_2; [done|]. by intros ->.
  - rewrite append_cons. cbn [scan_frac]. case_bool_decide; [|by intros [= <- <-]].
    destruct (digits1 s) as [[d' r']|] eqn:Hs; [|done]. rewrite (digits1_app _ _ _ _ Ht Hs).
    by intros [= <- <-].
Qed.

Lemma scan_exp_app s t d r :
  delim t = true → scan_exp s = Some (d, r) → scan_exp (s +:+ t) = Some (d, r +:+ t).
Proof.
  intros Ht. destruct s as [|a s].
  - intros [= <- <-]. rewrite append_empty_l. destruct t as [|b t]; [done|].
    cbn [scan_exp]. rewrite !bool_decide_eq_false_2; [done|..]; by intros ->.
  - rewrite append_cons. cbn [scan_exp].
    destruct (bool_decide _ || bool_decide _); [|by intros [= <- <-]].
    destruct s as [|b s]; [done|]. rewrite append_cons.
    destruct (bool_decide _ || bool_decide _).
    + destruct (digits1 s) as [[d' r']|] eqn:Hs; [|done]. rewrite (digits1_app _ _ _ _ Ht Hs).
      by intros [= <- <-].
    + destruct (digits1 (String b s)) as [[d' r']|] eqn:Hs; [|done].
      rewrite <- append_cons, (digits1_app _ _ _ _ Ht Hs). by intros [= <- <-].
Qed.

Lemma scan_int_app s t d r :
  delim t = true → scan_int s = Some (d, r) → scan_int (s +:+ t) = Some (d, r +:+ t).
Proof.
  intros Ht. destruct s as [|a s]; [done|]. rewrite append_cons. cbn [scan_int].
  case_bool_decide; [by intros [= <- <-]|]. rewrite <- append_cons. by apply digits1_app.
Qed.

Lemma scan_unsigned_app s t d r :
  delim t = true → scan_unsigned s = Some (d, r) → scan_unsigned (s +:+ t) = Some (d, r +:+ t).
Proof.
  unfold scan_unsigned. intros Ht Hs.
  destruct (scan_int s) as [[i s1]|] eqn:H1; [|done]. rewrite (scan_int_app _ _ _ _ Ht H1).
  cbn in *. destruct (scan_frac s1) as [[f s2]|] eqn:H2; [|done].
  rewrite (scan_frac_app _ _ _ _ Ht H2). cbn in *.
  destruct (scan_exp s2) as [[e s3]|] eqn:H3; [|done]. rewrite (scan_exp_app _ _ _ _ Ht H3).
  cbn in *. by simplify_eq.
Qed.

Lemma scan_num_app s t d r :
  delim t = true → scan_num s = Some (d, r) → scan_num (s +:+ t) = Some (d, r +:+ t).
Proof.
  intros Ht. destruct s as [|a s]; [done|]. rewrite append_cons. cbn [scan_num].
  case_bool_decide.
  - destruct (scan_unsigned s) as [[l r']|] eqn:Hs; [|done].
    rewrite (scan_unsigned_app _ _ _ _ Ht Hs). by intros [= <- <-].
  - rewrite <- append_cons. by apply scan_unsigned_app.
Qed.

(** *** Values *)

(** Number literals in the JSON syntax and text in valid UTF-8. *)
Fixpoint json_ok (v : json) : bool :=
  match v with
  | JNum lit => num_lit lit
  | JStr s => utf8_valid s
  | JArr l => forallb json_ok l
  | JObj ms => forallb (λ m, utf8_valid m.1 && json_ok m.2) ms
  | _ => true
  end.

(** The first byte of a value: no white space, no closing bracket. *)
Definition head_ok (s : string) : bool :=
  match s with
  | "" => false
  | String a _ => negb (is_ws a) && negb (bool_decide (a = "]"%char)) && negb (bool_decide (a = "}"%char))
  end.

Definition num_head (a : ascii) : bool := bool_decide (a = "-"%char) || is_digit a.

Lemma scan_unsigned_head a s p : scan_unsigned (String a s) = Some p → is_digit a = true.
Proof.
  unfold scan_unsigned, scan_int. case_bool_decide as Ha; [by subst|].
  unfold digits1. cbn [take_digits]. by destruct (is_digit a).
Qed.

Lemma num_lit_head lit : num_lit lit = true → ∃ a s, lit = String a s ∧ num_head a = true.
Proof.
  unfold num_lit, num_head. rewrite bool_decide_eq_true. destruct lit as [|a s]; [done|].
  intros Hs. exists a, s. split; [done|]. cbn [scan_num] in Hs. case_bool_decide; [done|].
  by erewrite scan_unsigned_head by done.
Qed.

Lemma num_head_facts a :
  num_head a = true →
  is_ws a = false ∧ bool_decide (a = quote_char) = false ∧ bool_decide (a = "{"%char) = false ∧
  bool_decide (a = "["%char) = false ∧ bool_decide ("n"%char = a) = false ∧
  bool_decide ("t"%char = a) = false ∧ bool_decide ("f"%char = a) = false ∧ head_ok (String a "") = true.
Proof. destruct a as [[] [] [] [] [] [] [] []]; intros Ha; (discriminate || done). Qed.

Lemma Marshal_head v : json_ok v = true → head_ok (Marshal v) = true.
Proof.
  destruct v as [|[]|lit|s|l|ms]; try done; cbn [json_ok Marshal].
  intros (a & s & -> & Ha)%num_lit_head. apply num_head_facts in Ha as (?&?&?&?&?&?&?&Hh).
  exact Hh.
Qed.

Lemma head_ok_app s t : head_ok s = true → head_ok (s +:+ t) = true.
Proof. by destruct s. Qed.

Lemma parse_number n lit t :
  num_lit lit = true → delim t = true → parse_value (S n) (lit +:+ t) = Some (JNum lit, t).
Proof.
  intros Hl Ht. apply num_lit_head in Hl as Hh. destruct Hh as (a & s & -> & Ha).
  unfold num_lit in Hl. apply bool_decide_eq_true, (scan_num_app _ _ _ _ Ht) in Hl.
  rewrite append_cons in *. rewrite append_empty_l in Hl.
  apply num_head_facts in Ha as (Hws & Hq & Hb & Hk & Hn & Htt & Hf & _).
  cbn [parse_value skip_ws strip]. rewrite Hws. cbn [strip]. rewrite Hq, Hb, Hk, Hn, Htt, Hf, Hl.
  done.
Qed.

Lemma parse_str n s t :
  utf8_valid s = true → (String.length (quote s) <= n)%nat →
  parse_value (S n) (quote s +:+ t) = Some (JStr s, t).
Proof.
  intros Hv Hn. unfold quote. rewrite append_cons, append_assoc.
  cbn [parse_value skip_ws]. eval_bytes.
  rewrite append_cons, append_empty_l, parse_string_quote, sanitize_valid by done. done.
Qed.

(** The claim for one value: with fuel above its length, [parse_value] reads
    back what [Marshal] wrote and stops at the delimiter. *)
Definition reads (v : json) : Prop :=
  ∀ n t, delim t = true → (String.length (Marshal v) < n)%nat →
    parse_value n (Marshal v +:+ t) = Some (v, t).

Definition elems_text (l : list json) : string := join "," (Marshal <$> l) +:+ "]".

Lemma elems_text_cons v v' l : elems_text (v :: v' :: l) = Marshal v +:+ "," +:+ elems_text (v' :: l).
Proof. unfold elems_text. cbn. by autorewrite with append. Qed.

Lemma parse_elems_text l n t :
  Forall reads l → l ≠ [] → (String.length (elems_text l) < n)%nat →
  parse_elems n (elems_text l +:+ t) = Some (l, t).
Proof.
  intros Hl. revert n. induction Hl as [|v l Hv Hl IH]; [done|]. intros n _ Hn.
  destruct n as [|n]; [lia|]. cbn [parse_elems]. destruct l as [|v' l].
  - unfold elems_text in *. cbn [fmap list_fmap join] in *. rewrite length_append in Hn.
    rewrite append_assoc, Hv by (done || simpl in Hn; lia). done.
  - rewrite elems_text_cons in *. rewrite !length_append in Hn. cbn [String.length] in Hn.
    rewrite append_assoc, append_cons, append_empty_l, append_cons.
    rewrite Hv by (done || lia). cbn [mbind option_bind skip_ws]. eval_bytes.
    by rewrite IH by (done || lia).
Qed.

Definition member_text (m : string * json) : string := quote m.1 +:+ ":" +:+ Marshal m.2.
Definition members_text (ms : list (string * json)) : string := join "," (member_text <$> ms) +:+ "}".

Lemma members_text_cons m m' ms :
  members_text (m :: m' :: ms) = member_text m +:+ "," +:+ members_text (m' :: ms).
Proof. unfold members_text. cbn. by autorewrite with append. Qed.

Lemma quote_length_pos s : (2 <= String.length (quote s))%nat.
Proof. unfold quote. cbn [String.length]. rewrite length_append. simpl. lia. Qed.

(** A member up to its value. *)
Lemma parse_member_text m n t :
  utf8_valid m.1 = true → (String.length (member_text m) < n)%nat →
  parse_members (S n) (member_text m +:+ t) =
    '(v, r2) ← parse_value n (Marshal m.2 +:+ t);
    match skip_ws r2 with
    | String a r3 =>
      if bool_decide (a = "}"%char) then Some ([(m.1, v)], r3)
      else if bool_decide (a = ","%char) then
        '(ms, r4) ← parse_members n r3; Some ((m.1, v) :: ms, r4)
      else None
    | "" => None
    end.
Proof.
  intros Hv Hn. unfold member_text in *. rewrite !length_append in Hn.
  unfold quote in *. autorewrite with append. cbn [parse_members skip_ws].
  eval_bytes.
  rewrite parse_string_quote, sanitize_valid by (done || unfold quote; lia).
  reflexivity.
Qed.

Lemma parse_members_text ms n t :
  Forall (λ m, reads m.2) ms → Forall (λ m, utf8_valid m.1 = true) ms → ms ≠ [] →
  (String.length (members_text ms) < n)%nat →
  parse_members n (members_text ms +:+ t) = Some (ms, t).
Proof.
  intros Hr. revert n. induction Hr as [|m ms Hm Hr IH]; [done|]. intros n [Hk Hks]%Forall_cons _ Hn.
  destruct n as [|n]; [lia|]. destruct ms as [|m' ms].
  - unfold members_text in *. cbn [fmap list_fmap join] in *. rewrite length_append in Hn.
    cbn [String.length] in Hn.
    rewrite append_assoc, parse_member_text by (done || lia).
    unfold member_text in Hn. rewrite !length_append in Hn.
    rewrite Hm by (done || lia). by destruct m.
  - rewrite members_text_cons in *. rewrite !length_append in Hn. cbn [String.length] in Hn.
    rewrite append_assoc, parse_member_text by (done || lia).
    unfold member_text in Hn. rewrite !length_append in Hn.
    rewrite append_cons, append_empty_l, append_cons, Hm by (done || lia).
    cbn [mbind option_bind skip_ws]. eval_bytes.
    rewrite IH by (done || lia). by destruct m.
Qed.

Lemma Marshal_JArr l : Marshal (JArr l) = String "["%char (elems_text l).
Proof. unfold elems_text. cbn [Marshal]. by autorewrite with append. Qed.

Lemma Marshal_JObj ms : Marshal (JObj ms) = String "{"%char (members_text ms).
Proof. unfold members_text, member_text. cbn [Marshal]. by autorewrite with append. Qed.

Lemma head_ok_skip s : head_ok s = true →
  skip_ws s = s ∧ ∃ b u, s = String b u ∧ bool_decide (b = "]"%char) = false ∧ bool_decide (b = "}"%char) = false.
Proof.
  destruct s as [|b u]; [done|]. cbn [head_ok skip_ws].
  rewrite !andb_true_iff, !negb_true_iff. intros [[-> ?] ?]. split; [done|]. by exists b, u.
Qed.

Lemma parse_array n l t :
  l ≠ [] → Forall (λ v, json_ok v = true) l →
  parse_value (S n) (Marshal (JArr l) +:+ t) = '(vs, r) ← parse_elems n (elems_text l +:+ t); Some (JArr vs, r).
Proof.
  intros Hl Hok. rewrite Marshal_JArr, append_cons. cbn [parse_value skip_ws].
  eval_bytes.
  assert (head_ok (elems_text l +:+ t) = true) as Hh.
  { destruct l as [|v l]; [done|]. inversion_clear Hok. apply head_ok_app.
    destruct l; [unfold elems_text; cbn [fmap list_fmap join]|rewrite elems_text_cons];
      by apply head_ok_app, Marshal_head. }
  apply head_ok_skip in Hh as [Hs (b & u & Hbu & Hb & _)]. rewrite Hs, Hbu. by rewrite Hb.
Qed.

Lemma parse_object n ms t :
  ms ≠ [] →
  parse_value (S n) (Marshal (JObj ms) +:+ t) = '(vs, r) ← parse_members n (members_text ms +:+ t); Some (JObj vs, r).
Proof.
  intros Hl. rewrite Marshal_JObj, append_cons. cbn [parse_value skip_ws].
  eval_bytes.
  assert (head_ok (members_text ms +:+ t) = true) as Hh.
  { destruct ms as [|m ms]; [done|]. apply head_ok_app.
    destruct ms; [unfold members_text; cbn [fmap list_fmap join]|rewrite members_text_cons]; done. }
  apply head_ok_skip in Hh as [Hs (b & u & Hbu & _ & Hb)]. rewrite Hs, Hbu. by rewrite Hb.
Qed.

Lemma json_reads v : json_ok v = true → reads v.
Proof.
  induction v as [|b|lit|s|l IH|ms IH] using json_ind'; intros Hok n t Ht Hn;
    (destruct n as [|n]; [lia|]).
  - done.
  - by destruct b.
  - by apply parse_number.
  - apply parse_str; [done|]. cbn [Marshal] in Hn. lia.
  - destruct l as [|v l]; [done|]. cbn [json_ok] in Hok. rewrite forallb_forall in Hok.
    assert (Forall (λ v, json_ok v = true) (v :: l)) as Hoks.
    { apply Forall_forall. intros x Hx. apply Hok. by apply list_elem_of_In. }
    rewrite parse_array by done. rewrite Marshal_JArr in Hn. cbn [String.length] in Hn.
    rewrite parse_elems_text; [done| |done|lia].
    apply Forall_forall. intros x Hx. rewrite Forall_forall in IH, Hoks. auto.
  - destruct ms as [|m ms]; [done|]. cbn [json_ok] in Hok. rewrite forallb_forall in Hok.
    rewrite parse_object by done. rewrite Marshal_JObj in Hn. cbn [String.length] in Hn.
    assert (Forall (λ m, utf8_valid m.1 = true ∧ json_ok m.2 = true) (m :: ms)) as Hoks.
    { apply Forall_forall. intros x Hx. apply andb_true_iff, Hok. by apply list_elem_of_In. }
    rewrite Forall_forall in IH, Hoks.
    rewrite parse_members_text; [done| | |done|lia]; apply Forall_forall; naive_solver.
Qed.

(** Reading back what [json.Marshal] wrote gives the value that was written. *)
Lemma Parse_Marshal v : json_ok v = true → Parse (Marshal v) = Some v.
Proof.
  intros Hok. unfold Parse. rewrite <- (append_nil_r (Marshal v)) at 2.
  by rewrite (json_reads v Hok) by (done || lia).
Qed.

(** ** Integers *)

Fixpoint digits_val (acc : N) (s : string) : option N :=
  match s with
  | "" => Some acc
  | String a s' => if is_digit a then digits_val (10 * acc + (byte_val a - 48))%N s' else None
  end.

(** [strconv.ParseInt(lit, 10, 64)] of a number literal. *)
Definition ParseInt (lit : string) : option Z :=
  let in_int64 z := if bool_decide (int64_min ≤ z ≤ int64_max) then Some z else None in
  match lit with
  | "" => None
  | String a s =>
    if bool_decide (a = "-"%char)
    then match s with "" => None | _ => n ← digits_val 0 s; in_int64 (- Z.of_N n) end
    else n ← digits_val 0 lit; in_int64 (Z.of_N n)
  end.

Fixpoint all_digits (s : string) : bool :=
  match s with "" => true | String a s' => is_digit a && all_digits s' end.

Lemma pretty_N_char_digit x : (x < 10)%N → is_digit (pretty_N_char x) = true ∧ byte_val (pretty_N_char x) = (48 + x)%N.
Proof.
  intros Hx. assert (x ∈ [0; 1; 2; 3; 4; 5; 6; 7; 8; 9]%N) as Hin.
  { rewrite !elem_of_cons. lia. }
  repeat (apply elem_of_cons in Hin as [->|Hin]; [done|]). by apply not_elem_of_nil in Hin.
Qed.

Lemma digits_val_acc s acc n :
  digits_val 0 s = Some n → digits_val acc s = Some (acc * 10 ^ N.of_nat (String.length s) + n)%N.
Proof.
  revert acc n. induction s as [|a s IH]; intros acc n; cbn [digits_val String.length].
  - intros [= <-]. apply (f_equal Some). cbn [N.of_nat]. rewrite N.pow_0_r. lia.
  - destruct (is_digit a); [|done]. rewrite N.mul_0_r, N.add_0_l. intros Hn.
    destruct (digits_val 0 s) as [m|] eqn:Hs.
    + rewrite (IH _ _ eq_refl). rewrite (IH _ _ eq_refl) in Hn. simplify_eq. apply (f_equal Some).
      rewrite Nat2N.inj_succ, N.pow_succ_r'. lia.
    + exfalso. revert Hn Hs. clear. generalize (byte_val a - 48)%N as k. generalize 0%N as j.
      induction s as [|b s IH]; intros j k; cbn [digits_val]; [done|].
      destruct (is_digit b); [|done]. apply IH.
Qed.

Lemma pretty_N_go_val x s n :
  digits_val 0 s = Some n →
  digits_val 0 (pretty_N_go x s) = Some (x * 10 ^ N.of_nat (String.length s) + n)%N.
Proof.
  revert s n. induction (N.lt_wf_0 x) as [x _ IH]. intros s n Hs.
  destruct (decide (0 < x)%N) as [Hx|Hx].
  - rewrite pretty_N_go_step by done.
    assert (x mod 10 < 10)%N as Hm by (apply N.mod_lt; lia).
    destruct (pretty_N_char_digit _ Hm) as [Hd Hv].
    erewrite IH; [|by apply N.div_lt|].
    2: { cbn [digits_val]. rewrite Hd. by apply digits_val_acc. }
    apply (f_equal Some). rewrite Hv. cbn [String.length]. rewrite Nat2N.inj_succ, N.pow_succ_r'.
    assert (x = 10 * (x `div` 10) + x mod 10)%N as Hdm by (apply N.div_mod; lia).
    rewrite (N.add_comm 48), N.add_sub. lia.
  - assert (x = 0)%N as -> by lia. by rewrite pretty_N_go_0, Hs.
Qed.

Lemma digits_val_all s acc n : digits_val acc s = Some n → all_digits s = true.
Proof.
  revert acc. induction s as [|a s IH]; [done|]. intros acc. cbn [digits_val all_digits].
  destruct (is_digit a); [|done]. apply IH.
Qed.

Lemma pretty_N_val (x : N) : digits_val 0 (pretty x) = Some x.
Proof.
  unfold pretty, pretty_N. case_decide as Hx; [by subst|].
  erewrite pretty_N_go_val by done. cbn [String.length N.of_nat]. rewrite N.pow_0_r.
  apply (f_equal Some). lia.
Qed.

(** A positive number starts with a non-zero digit. *)
Lemma pretty_N_go_head x s :
  (0 < x)%N → ∃ a t, pretty_N_go x s = String a t ∧ is_digit a = true ∧ bool_decide (a = "0"%char) = false.
Proof.
  revert s. induction (N.lt_wf_0 x) as [x _ IH]. intros s Hx. rewrite pretty_N_go_step by done.
  destruct (decide (0 < x `div` 10)%N) as [Hd|Hd].
  - apply IH; [by apply N.div_lt|done].
  - assert (x `div` 10 = 0)%N as Hz by (apply N.le_0_r, N.le_ngt, Hd). rewrite Hz, pretty_N_go_0.
    assert (x mod 10 = x)%N as -> by (pose proof (N.Div0.div_mod x 10); lia).
    do 2 eexists. split; [done|].
    assert (x < 10)%N as Hlt by (apply N.div_small_iff in Hz; lia).
    split; [by apply pretty_N_char_digit|]. apply bool_decide_eq_false.
    intros Heq. destruct (pretty_N_char_digit _ Hlt) as [_ Hv]. rewrite Heq in Hv.
    change (byte_val "0") with 48%N in Hv. lia.
Qed.

Lemma take_digits_all s : all_digits s = true → take_digits s = (s, "").
Proof.
  induction s as [|a s IH]; [done|]. cbn [all_digits take_digits]. rewrite andb_true_iff.
  intros [-> Hs]. by rewrite IH.
Qed.

Lemma scan_unsigned_pretty (x : N) : scan_unsigned (pretty x) = Some (pretty x, "").
Proof.
  unfold scan_unsigned, pretty, pretty_N. case_decide as Hx; [done|].
  pose proof (pretty_N_val x) as Hv. unfold pretty, pretty_N in Hv. rewrite decide_False in Hv by done.
  destruct (pretty_N_go_head x "") as (a & t & Heq & Hd & Hz); [lia|].
  rewrite Heq in *. unfold scan_int. rewrite Hz. apply digits_val_all in Hv.
  unfold digits1. rewrite take_digits_all by done. cbn. by rewrite append_nil_r.
Qed.

Lemma pretty_N_head (x : N) : ∃ a t, pretty x = String a t ∧ is_digit a = true.
Proof.
  unfold pretty, pretty_N. case_decide as Hx; [by do 2 eexists|].
  destruct (pretty_N_go_head x "") as (a & t & ? & ? & _); [lia|]. eauto.
Qed.

Lemma digit_not_minus a : is_digit a = true → bool_decide (a = "-"%char) = false.
Proof. by destruct a as [[] [] [] [] [] [] [] []]. Qed.

Lemma scan_num_unsigned (x : N) : scan_num (pretty x) = Some (pretty x, "").
Proof.
  destruct (pretty_N_head x) as (a & t & Heq & Hd). rewrite Heq. cbn [scan_num].
  rewrite digit_not_minus by done. rewrite <- Heq. apply scan_unsigned_pretty.
Qed.

Lemma num_lit_pretty (z : Z) : num_lit (pretty z) = true.
Proof.
  unfold num_lit. rewrite bool_decide_eq_true. destruct z as [|p|p]; [done|..].
  - apply (scan_num_unsigned (Npos p)).
  - change (pretty (Zneg p)) with ("-" +:+ pretty (Npos p)).
    rewrite append_cons, append_empty_l. cbn [scan_num]. eval_bytes. by rewrite scan_unsigned_pretty.
Qed.

Lemma json_ok_JInt z : json_ok (JInt z) = true.
Proof. apply num_lit_pretty. Qed.

(** [ParseInt] reads back what [strconv.FormatInt] wrote. *)
Lemma ParseInt_pretty z : int64_min ≤ z ≤ int64_max → ParseInt (pretty z) = Some z.
Proof.
  intros Hz. destruct z as [|p|p]; [done|..].
  - change (pretty (Zpos p)) with (pretty (Npos p)). pose proof (pretty_N_val (Npos p)) as Hv.
    destruct (pretty_N_head (Npos p)) as (a & t & Heq & Hd). rewrite Heq in *. unfold ParseInt.
    rewrite digit_not_minus by done. rewrite Hv. cbn. by rewrite bool_decide_eq_true_2.
  - change (pretty (Zneg p)) with ("-" +:+ pretty (Npos p)). pose proof (pretty_N_val (Npos p)) as Hv.
    destruct (pretty_N_head (Npos p)) as (a & t & Heq & Hd). rewrite Heq in *.
    rewrite append_cons, append_empty_l. cbn [ParseInt]. eval_bytes. rewrite Hv. cbn.
    by rewrite bool_decide_eq_true_2.
Qed.

#[export] Hint Resolve json_ok_JInt num_lit_pretty : orderdb.

(** ** Struct decoding *)

Definition lower_byte (a : ascii) : ascii := ascii_lower_byte a.

(** Keys match a field's name exactly or under Unicode simple folding; for a
    name in lower-case ASCII the runes that fold to a letter are its two cases,
    and [U+017F] for "s", [U+212A] for "k". *)
Fixpoint fold_eq (f k : string) : bool :=
  match f, k with
  | "", "" => true
  | String a f', String b k1 =>
    if bool_decide (a = lower_byte b) then fold_eq f' k1 else
    match k1 with
    | String c k2 =>
      if bool_decide (a = "s"%char) && (byte_val b =? 197)%N && (byte_val c =? 191)%N then fold_eq f' k2 else
      match k2 with
      | String d k3 =>
        if bool_decide (a = "k"%char) && (byte_val b =? 226)%N && (byte_val c =? 132)%N && (byte_val d =? 170)%N
        then fold_eq f' k3 else false
      | "" => false
      end
    | "" => false
    end
  | _, _ => false
  end.

Definition key_matches (f k : string) : bool := bool_decide (k = f) || fold_eq f k.

(** A field of type [string]: the value after all members, and whether a
    member had another type ([UnmarshalTypeError]; [null] leaves the field). *)
Definition string_field (f : string) (ms : list (string * json)) : string * bool :=
  foldl (λ acc m,
    if key_matches f m.1 then
      match m.2 with JStr s => (s, acc.2) | JNull => acc | _ => (acc.1, true) end
    else acc) ("", false) ms.

(** A field of type [int64]. *)
Definition int64_field (f : string) (ms : list (string * json)) : Z * bool :=
  foldl (λ acc m,
    if key_matches f m.1 then
      match m.2 with
      | JNum lit => match ParseInt lit with Some z => (z, acc.2) | None => (acc.1, true) end
      | JNull => acc
      | _ => (acc.1, true)
      end
    else acc) (0, false) ms.

(** A field of type [json.RawMessage]: the bytes of the last matching member,
    represented by the value they parse to; [None] is the nil slice. *)
Definition raw_field (f : string) (ms : list (string * json)) : option json :=
  foldl (λ acc m, if key_matches f m.1 then Some m.2 else acc) None ms.

(** ** Compaction of a RawMessage ([appendCompact] with [escapeHTML])

    White space outside strings is dropped; "<", ">", "&" and the encodings of
    [U+2028] and [U+2029] are escaped.  [q] says that the scan is inside a
    string, [e] that the previous byte was an escaping backslash. *)
Fixpoint compact (q e : bool) (s : string) : string :=
  match s with
  | "" => ""
  | String a s1 =>
    if is_html a then esc_u00 a +:+ compact q false s1 else
    match s1 with
    | String b (String c s3) =>
      if is_line_sep a b c then esc_line_sep c +:+ compact q false s3
      else if q then
        String a (compact (negb (bool_decide (a = quote_char) && negb e)) (bool_decide (a = backslash) && negb e) s1)
      else if is_ws a then compact q e s1
      else String a (compact (bool_decide (a = quote_char)) false s1)
    | _ =>
      if q then
        String a (compact (negb (bool_decide (a = quote_char) && negb e)) (bool_decide (a = backslash) && negb e) s1)
      else if is_ws a then compact q e s1
      else String a (compact (bool_decide (a = quote_char)) false s1)
    end
  end.

(** [json.RawMessage.MarshalJSON] as [json.Marshal] calls it: [null] for the
    nil slice, an error for bytes that are no JSON text. *)
Definition MarshalRaw (raw : string) : option string :=
  if bool_decide (raw = "") then None else
  match Parse raw with Some _ => Some (compact false false raw) | None => None end.

(** Text written with apostrophes for the quotation marks. *)
Definition dq (s : string) : string :=
  string_map (λ a, if bool_decide (a = "'"%char) then quote_char else a) s.

Example Parse_spaces :
  Parse (dq " { 'a' : [ 1 , -2.5e+3 , '\u00e9\n' , null ] , 'b':{}}  ")
  = Some (JObj [("a", JArr [JNum "1"; JNum "-2.5e+3"; JStr (of_bytes [195; 169; 10]%N); JNull]); ("b", JObj [])]).
Proof. vm_compute. reflexivity. Qed.

Example Parse_trailing : Parse "{} x" = None.
Proof. vm_compute. reflexivity. Qed.

Example MarshalRaw_compacts :
  MarshalRaw (dq "{'a': 'x y<\'', 'b': 1}") = Some (dq "{'a':'x y\u003c\'','b':1}").
Proof. vm_compute. reflexivity. Qed.

Example Marshal_escapes :
  Marshal (JObj [("k", JStr (of_bytes [60; 34; 9; 255]%N)); ("n", JInt (-42))])
  = dq "{'k':'\u003c\'\t\ufffd','n':-42}".
Proof. vm_compute. reflexivity. Qed.

(** Texts are kept folded in the developments that use this file. *)
#[global] Arguments Marshal : simpl never.
#[global] Arguments Parse : simpl never.
#[global] Arguments quote : simpl never.
