(* ===== verification/JsonText.v ===== *)
(** * JSON texts inside JSON texts

    A [json.RawMessage] is copied into the text around it, compacted.  Here:
    the parser reads a value without looking beyond it, and compaction does
    not change what is read. *)

From S2P Require Import Prelude GoStrings Json.

(** ** Reading does not depend on what follows *)

Lemma skip_ws_split s a s1 :
  skip_ws s = String a s1 →
  ∃ w, s = w +:+ String a s1 ∧ ∀ t, skip_ws (w +:+ String a t) = String a t.
Proof.
  induction s as [|b s IH]; [done|]. cbn [skip_ws]. destruct (is_ws b) eqn:Hb.
  - intros Hs. destruct (IH Hs) as (w & -> & Hw). exists (String b w). split; [done|].
    intros t. rewrite append_cons. cbn [skip_ws]. by rewrite Hb.
  - intros [= -> ->]. exists "". split; [done|]. intros t. rewrite append_empty_l. cbn [skip_ws]. by rewrite Hb.
Qed.

(** What may follow a value: it neither continues a number nor is a value. *)
Definition ends (t : string) : bool := delim (skip_ws t).

Lemma ends_ws w a t : (∀ t, skip_ws (w +:+ String a t) = String a t) → delim (String a "") = true →
  ends (w +:+ String a t) = true.
Proof. intros Hw Ha. unfold ends. rewrite Hw. exact Ha. Qed.

Definition num_tail (a : ascii) : bool :=
  is_digit a || bool_decide (a = "."%char) || bool_decide (a = "e"%char) || bool_decide (a = "E"%char).

Definition no_num (t : string) : Prop := match t with "" => True | String a _ => num_tail a = false end.

Lemma ends_no_num t : ends t = true → no_num t.
Proof.
  unfold ends. destruct t as [|a t]; [done|]. cbn [skip_ws no_num]. destruct (is_ws a) eqn:Ha.
  - intros _. by destruct a as [[] [] [] [] [] [] [] []].
  - cbn [delim]. by destruct a as [[] [] [] [] [] [] [] []].
Qed.

Definition no_digit (t : string) : Prop := match t with "" => True | String a _ => is_digit a = false end.

Lemma take_digits_split s d r :
  take_digits s = (d, r) → s = d +:+ r ∧ ∀ t, no_digit t → take_digits (d +:+ t) = (d, t).
Proof.
  revert d r. induction s as [|a s IH]; intros d r; cbn [take_digits].
  - intros [= <- <-]. split; [done|]. intros [|b t] Ht; [done|]. cbn in Ht. rewrite append_empty_l. cbn [take_digits].
    by rewrite Ht.
  - destruct (is_digit a) eqn:Ha.
    + destruct (take_digits s) as [d' r'] eqn:Hs. intros [= <- <-]. destruct (IH _ _ eq_refl) as [-> Hd].
      split; [done|]. intros t Ht. rewrite append_cons. cbn [take_digits]. by rewrite Ha, Hd.
    + intros [= <- <-]. split; [done|]. intros [|b t] Ht; [done|]. cbn in Ht. rewrite append_empty_l.
      cbn [take_digits]. by rewrite Ht.
Qed.

Lemma digits1_split s d r :
  digits1 s = Some (d, r) → s = d +:+ r ∧ ∀ t, no_digit t → digits1 (d +:+ t) = Some (d, t).
Proof.
  unfold digits1. destruct (take_digits s) as [d' r'] eqn:Hs. apply take_digits_split in Hs as [-> Hd].
  destruct d' as [|a d']; [done|]. intros [= <- <-]. split; [done|]. intros t Ht. by rewrite Hd.
Qed.

(** A fraction and an exponent start with a byte that ends the digits. *)
Definition starts (P : ascii → bool) (s : string) : Prop := match s with "" => True | String a _ => P a = true end.

Lemma scan_frac_split s f r :
  scan_frac s = Some (f, r) → s = f +:+ r ∧
  (∀ t, no_digit t → starts (λ a, bool_decide (a ≠ "."%char)) t → scan_frac (f +:+ t) = Some (f, t)) ∧
  starts (λ a, bool_decide (a = "."%char)) f.
Proof.
  assert (∀ t, starts (λ a, bool_decide (a ≠ "."%char)) t → scan_frac t = Some ("", t)) as Hnone.
  { intros [|b t]; [done|]. cbn. rewrite bool_decide_eq_true. intros Hb. by rewrite bool_decide_eq_false_2. }
  destruct s as [|a s]; cbn [scan_frac]; [intros [= <- <-]; split; [done|]; split; [auto|done]|].
  destruct (bool_decide (a = "."%char)) eqn:Ha; [|intros [= <- <-]; split; [done|]; split; [auto|done]].
  destruct (digits1 s) as [[d r']|] eqn:Hd; [|done]. apply digits1_split in Hd as [-> Hd].
  intros [= <- <-]. split; [done|]. split; [|done]. intros t Ht _.
  rewrite append_cons. cbn [scan_frac]. by rewrite Ha, Hd.
Qed.

Definition is_exp (a : ascii) : bool := bool_decide (a = "e"%char) || bool_decide (a = "E"%char).

Lemma scan_exp_split s x r :
  scan_exp s = Some (x, r) → s = x +:+ r ∧
  (∀ t, no_digit t → starts (λ a, negb (is_exp a)) t → scan_exp (x +:+ t) = Some (x, t)) ∧ starts is_exp x.
Proof.
  assert (∀ t, starts (λ a, negb (is_exp a)) t → scan_exp t = Some ("", t)) as Hnone.
  { intros [|b t]; [done|]. cbn. unfold is_exp. rewrite negb_true_iff. by intros ->. }
  destruct s as [|a s]; cbn [scan_exp]; [intros [= <- <-]; split; [done|]; split; [auto|done]|].
  fold (is_exp a). destruct (is_exp a) eqn:Ha; [|intros [= <- <-]; split; [done|]; split; [auto|done]].
  destruct s as [|b s]; [done|]. destruct (bool_decide (b = "+"%char) || bool_decide (b = "-"%char)) eqn:Hb.
  - destruct (digits1 s) as [[d r']|] eqn:Hd; [|done]. apply digits1_split in Hd as [-> Hd].
    intros [= <- <-]. split; [done|]. split; [|done]. intros t Ht _.
    rewrite !append_cons. cbn [scan_exp]. fold (is_exp a). by rewrite Ha, Hb, Hd.
  - destruct (digits1 (String b s)) as [[d r']|] eqn:Hd; [|done]. pose proof Hd as Hd0.
    apply digits1_split in Hd as [Heq Hd].
    intros [= <- <-]. rewrite Heq. split; [done|]. split; [|done]. intros t Ht _.
    destruct d as [|b' d]; [by rewrite (Hd "" I) in Hd0 || (unfold digits1 in Hd0; destruct (take_digits _) as [[]]; done)|].
    injection Heq as <- Heq. rewrite !append_cons. cbn [scan_exp]. fold (is_exp a). rewrite Ha, Hb.
    rewrite <- append_cons. by rewrite Hd.
Qed.

Lemma digits1_nonempty s d r : digits1 s = Some (d, r) → ∃ a d', d = String a d'.
Proof. unfold digits1. destruct (take_digits s) as [[|a d'] r']; [done|]. intros [= <- <-]. eauto. Qed.

Lemma scan_int_split s i r :
  scan_int s = Some (i, r) → s = i +:+ r ∧ ∀ t, no_digit t → scan_int (i +:+ t) = Some (i, t).
Proof.
  destruct s as [|a s]; [done|]. cbn [scan_int]. destruct (bool_decide (a = "0"%char)) eqn:Ha.
  - intros [= <- <-]. apply bool_decide_eq_true in Ha as ->. done.
  - intros Hd. destruct (digits1_nonempty _ _ _ Hd) as (b & d' & ->).
    apply digits1_split in Hd as [Heq Hd]. split; [done|]. injection Heq as <- _.
    intros t Ht. rewrite append_cons. cbn [scan_int]. rewrite Ha, <- append_cons. by apply Hd.
Qed.

Lemma scan_unsigned_split s l r :
  scan_unsigned s = Some (l, r) → s = l +:+ r ∧ ∀ t, no_num t → scan_unsigned (l +:+ t) = Some (l, t).
Proof.
  unfold scan_unsigned. intros Hs.
  destruct (scan_int s) as [[i s1]|] eqn:H1; [|done]. cbn in Hs.
  destruct (scan_frac s1) as [[f s2]|] eqn:H2; [|done]. cbn in Hs.
  destruct (scan_exp s2) as [[x s3]|] eqn:H3; [|done]. cbn in Hs. injection Hs as <- <-.
  apply scan_int_split in H1 as [-> Hi]. apply scan_frac_split in H2 as (-> & Hf & Hfs).
  apply scan_exp_split in H3 as (-> & Hx & Hxs). rewrite !append_assoc. split; [done|]. intros t Ht.
  assert (no_digit t ∧ starts (λ a, bool_decide (a ≠ "."%char)) t ∧ starts (λ a, negb (is_exp a)) t) as (Ht1 & Ht2 & Ht3).
  { destruct t as [|a t]; [done|]. cbn in *. by destruct a as [[] [] [] [] [] [] [] []]. }
  assert (no_digit (x +:+ t) ∧ starts (λ a, bool_decide (a ≠ "."%char)) (x +:+ t)) as [Hx1 Hx2].
  { destruct x as [|a x]; [done|]. rewrite append_cons. cbn in *. by destruct a as [[] [] [] [] [] [] [] []]. }
  assert (no_digit (f +:+ x +:+ t)) as Hf1.
  { destruct f as [|a f]; [done|]. rewrite append_cons. cbn in *. by destruct a as [[] [] [] [] [] [] [] []]. }
  rewrite !append_assoc, Hi by done. cbn. rewrite Hf by done. cbn. by rewrite Hx.
Qed.

Lemma scan_num_split s l r :
  scan_num s = Some (l, r) → s = l +:+ r ∧ ∀ t, no_num t → scan_num (l +:+ t) = Some (l, t).
Proof.
  destruct s as [|a s]; [done|]. cbn [scan_num]. destruct (bool_decide (a = "-"%char)) eqn:Ha.
  - destruct (scan_unsigned s) as [[l' r']|] eqn:Hs; [|done]. apply scan_unsigned_split in Hs as [-> Hl].
    intros [= <- <-]. split; [done|]. intros t Ht. rewrite append_cons. cbn [scan_num]. by rewrite Ha, Hl.
  - intros Hs. apply scan_unsigned_split in Hs as [Heq Hl]. split; [done|]. intros t Ht. specialize (Hl t Ht).
    destruct l as [|b l]; [|injection Heq as <- Heq; rewrite append_cons in *; cbn [scan_num]; by rewrite Ha].
    rewrite append_empty_l in *. subst r. destruct t as [|b t]; [done|]. apply scan_unsigned_head in Hl.
    cbn in Ht. exfalso. destruct b as [[] [] [] [] [] [] [] []]; done.
Qed.

(** ** Strings *)

Lemma hex4_split s x r : hex4 s = Some (x, r) → ∃ h, s = h +:+ r ∧ String.length h = 4%nat ∧ ∀ t, hex4 (h +:+ t) = Some (x, t).
Proof.
  destruct s as [|a [|b [|c [|d s]]]]; try done. cbn [hex4].
  destruct (hex_value a) eqn:Ha; [|done]. destruct (hex_value b) eqn:Hb; [|done].
  destruct (hex_value c) eqn:Hc; [|done]. destruct (hex_value d) eqn:Hd; [|done]. intros [= <- <-].
  exists (String a (String b (String c (String d "")))). split; [done|]. split; [done|]. intros t.
  rewrite !append_cons, append_empty_l. cbn [hex4]. by rewrite Ha, Hb, Hc, Hd.
Qed.

(** The other half of a surrogate pair, when the text goes on with it. *)
Definition next_half (s : string) : option (N * string) :=
  match s with
  | String a (String b s') => if bool_decide (a = backslash) && bool_decide (b = "u"%char) then hex4 s' else None
  | _ => None
  end.

Lemma unescape_u_half x s :
  unescape_u x s =
    if high_surrogate x || low_surrogate x then
      match next_half s with
      | Some (r2, s2) =>
        if high_surrogate x && low_surrogate r2
        then (utf8_encode ((x - 55296) * 1024 + (r2 - 56320) + 65536)%N, s2) else (replacement, s)
      | None => (replacement, s)
      end
    else (utf8_encode x, s).
Proof. unfold unescape_u, next_half. by destruct s as [|a [|b s]]. Qed.

(** The texts of string bodies, with their closing quotes: reading stops there. *)
Definition body (x t : string) : Prop :=
  ∀ n u, (String.length x < n)%nat → parse_string n (x +:+ u) = Some (t, u).

Lemma body_half x t u : body x t → next_half (x +:+ u) =
  match next_half x with Some (r, x') => Some (r, x' +:+ u) | None => None end.
Proof.
  intros Hb. specialize (Hb (S (String.length x)) "" ltac:(lia)). rewrite append_nil_r in Hb.
  destruct x as [|a x]; [done|]. rewrite append_cons. cbn [next_half].
  destruct x as [|b x].
  - rewrite append_empty_l. destruct u as [|b u]; [done|]. cbn [parse_string] in Hb.
    destruct (bool_decide (a = backslash)) eqn:Ha; [|done]. cbn.
    apply bool_decide_eq_true in Ha as ->. done.
  - rewrite append_cons. destruct (bool_decide (a = backslash)) eqn:Ha; [|done].
    destruct (bool_decide (b = "u"%char)) eqn:Hu; [|done]. cbn [andb].
    apply bool_decide_eq_true in Ha as ->. cbn [parse_string] in Hb.
    change (bool_decide (backslash = quote_char)) with false in Hb. change (bool_decide (backslash = backslash)) with true in Hb.
    cbn iota in Hb. rewrite Hu in Hb. destruct (hex4 x) as [[r x']|] eqn:Hx; [|done].
    apply hex4_split in Hx as (h & -> & _ & Hh). by rewrite append_assoc, Hh.
Qed.

Lemma prepend_some p o t r : prepend p o = Some (t, r) → ∃ t', o = Some (t', r) ∧ t = p +:+ t'.
Proof. destruct o as [[t' r']|]; [|done]. intros [= <- <-]. eauto. Qed.

(** Valid UTF-8, rune by rune. *)
Lemma utf8_valid_next s r s' :
  next_rune s = Some (r, s') → utf8_valid s = true →
  rune_ok r = true ∧ rune_wf r = true ∧ s = rune_bytes r +:+ s' ∧ utf8_valid s' = true.
Proof.
  unfold utf8_valid. intros Hn. rewrite runes_next, Hn. cbn [forallb]. rewrite andb_true_iff. intros [Hok Hv].
  split_and!; [done|by eapply next_rune_wf| |done].
  rewrite <- (runes_bytes s), runes_next, Hn, fmap_cons. cbn [string_concat]. by rewrite runes_bytes.
Qed.

Lemma utf8_valid_ascii a s : is_ascii_byte a = true → utf8_valid (String a s) = utf8_valid s.
Proof. intros Ha. unfold utf8_valid. cbn [runes]. by rewrite Ha. Qed.

Lemma hex_value_ascii a x : hex_value a = Some x → is_ascii_byte a = true.
Proof. by destruct a as [[] [] [] [] [] [] [] []]. Qed.

Lemma hex4_valid s x r : hex4 s = Some (x, r) → utf8_valid s = utf8_valid r.
Proof.
  destruct s as [|a [|b [|c [|d s]]]]; try done. cbn [hex4].
  destruct (hex_value a) eqn:Ha; [|done]. destruct (hex_value b) eqn:Hb; [|done].
  destruct (hex_value c) eqn:Hc; [|done]. destruct (hex_value d) eqn:Hd; [|done]. intros [= _ <-].
  by rewrite !utf8_valid_ascii by (by eapply hex_value_ascii).
Qed.

Lemma simple_escape_ascii e t : simple_escape e = Some t → is_ascii_byte e = true.
Proof. by destruct e as [[] [] [] [] [] [] [] []]. Qed.

Lemma unescape_u_valid x s t s' : unescape_u x s = (t, s') → utf8_valid s = true → utf8_valid s' = true.
Proof.
  rewrite unescape_u_half. destruct (_ || _); [|by intros [= _ <-]].
  destruct (next_half s) as [[r2 s2]|] eqn:Hh; [|by intros [= _ <-]].
  destruct (_ && _); [|by intros [= _ <-]]. intros [= _ <-].
  destruct s as [|a [|b s]]; [done..|]. cbn [next_half] in Hh.
  destruct (bool_decide (a = backslash)) eqn:Ha; [|done]. destruct (bool_decide (b = "u"%char)) eqn:Hb; [|done].
  apply bool_decide_eq_true in Ha as ->. apply bool_decide_eq_true in Hb as ->.
  rewrite !utf8_valid_ascii by done. by erewrite hex4_valid.
Qed.

Lemma unescape_split c s t s' :
  unescape_u c s = (t, s') →
  ∃ y, s = y +:+ s' ∧ ∀ z v u tz, s' = z +:+ v → body z tz → unescape_u c (y +:+ z +:+ u) = (t, z +:+ u).
Proof.
  rewrite unescape_u_half. destruct (high_surrogate c || low_surrogate c) eqn:Hc.
  2: { intros [= <- <-]. exists "". split; [done|]. intros z v u tz _ _.
       rewrite append_empty_l, unescape_u_half. by rewrite Hc. }
  assert (∀ z u, match next_half (z +:+ u) with Some (r2, s2) => high_surrogate c && low_surrogate r2 = false | None => True end →
    unescape_u c (z +:+ u) = (replacement, z +:+ u)) as Hsame.
  { intros z u. rewrite unescape_u_half, Hc. destruct (next_half (z +:+ u)) as [[r2 s2]|]; [|done]. by intros ->. }
  destruct (next_half s) as [[r2 s2]|] eqn:Hh.
  - destruct (high_surrogate c && low_surrogate r2) eqn:Hr.
    + intros [= <- <-]. destruct s as [|a [|b s]]; [done..|]. cbn [next_half] in Hh.
      destruct (bool_decide (a = backslash) && bool_decide (b = "u"%char)) eqn:Hab; [|done].
      apply hex4_split in Hh as (h & -> & _ & Hh).
      exists (String a (String b h)). split; [done|]. intros z v u tz _ _.
      rewrite unescape_u_half, Hc, !append_cons. cbn [next_half]. by rewrite Hab, Hh, Hr.
    + intros [= <- <-]. exists "". split; [done|]. intros z v u tz -> Hz. rewrite append_empty_l. apply Hsame.
      rewrite (body_half _ _ v Hz) in Hh. rewrite (body_half _ _ u Hz). destruct (next_half z) as [[r3 z']|]; [|done]. by injection Hh as -> _.
  - intros [= <- <-]. exists "". split; [done|]. intros z v u tz -> Hz. rewrite append_empty_l. apply Hsame.
    rewrite (body_half _ _ v Hz) in Hh. rewrite (body_half _ _ u Hz). by destruct (next_half z) as [[r3 z']|].
Qed.

(** Reading one unescaped rune. *)
Lemma parse_string_next n a s r s' :
  bool_decide (a = quote_char) = false → bool_decide (a = backslash) = false → (byte_val a <? 32)%N = false →
  next_rune (String a s) = Some (r, s') →
  parse_string (S n) (String a s) = prepend (rune_text r) (parse_string n s').
Proof. intros Hq Hb Hc Hn. cbn [parse_string]. by rewrite Hq, Hb, Hc, Hn. Qed.

Lemma parse_string_split n s t r :
  utf8_valid s = true → parse_string n s = Some (t, r) →
  utf8_valid r = true ∧ ∃ x, s = x +:+ r ∧ body x t.
Proof.
  revert s t r. induction n as [|n IH]; intros s t r Hv; [done|].
  destruct s as [|a s1]; [done|]. cbn [parse_string].
  destruct (bool_decide (a = quote_char)) eqn:Hq.
  { apply bool_decide_eq_true in Hq as ->. intros [= <- <-]. rewrite utf8_valid_ascii in Hv by done. split; [done|].
    exists (String quote_char ""). split; [done|]. intros [|m] u Hm; [simpl in Hm; lia|done]. }
  destruct (bool_decide (a = backslash)) eqn:Hb.
  - apply bool_decide_eq_true in Hb as ->. rewrite utf8_valid_ascii in Hv by done.
    destruct s1 as [|e s2]; [done|]. destruct (bool_decide (e = "u"%char)) eqn:He.
    + apply bool_decide_eq_true in He as ->. rewrite utf8_valid_ascii in Hv by done.
      destruct (hex4 s2) as [[c s3]|] eqn:Hh; [|done]. destruct (unescape_u c s3) as [t1 s4] eqn:Hu.
      intros (t' & Hp & ->)%prepend_some. rewrite (hex4_valid _ _ _ Hh) in Hv.
      apply IH in Hp as (Hr & x4 & -> & Hx4); [|by eapply unescape_u_valid].
      split; [done|]. apply hex4_split in Hh as (h & -> & _ & Hh).
      apply unescape_split in Hu as (y & -> & Hy).
      exists (String backslash (String "u" (h +:+ y +:+ x4))). split; [by autorewrite with append|].
      intros [|m] u Hm; [simpl in Hm; lia|]. cbn [String.length] in Hm. rewrite !length_append in Hm.
      autorewrite with append. cbn [parse_string]. eval_bytes.
      rewrite Hh, (Hy _ r u _ eq_refl Hx4), Hx4 by lia. done.
    + destruct (simple_escape e) as [te|] eqn:Hs; [|done]. intros (t' & Hp & ->)%prepend_some.
      rewrite utf8_valid_ascii in Hv by (by eapply simple_escape_ascii).
      apply IH in Hp as (Hr & x & -> & Hx); [|done]. split; [done|].
      exists (String backslash (String e x)). split; [done|]. intros [|m] u Hm; [simpl in Hm; lia|].
      cbn [String.length] in Hm. rewrite !append_cons. cbn [parse_string].
      change (bool_decide (backslash = quote_char)) with false. change (bool_decide (backslash = backslash)) with true.
      cbn iota. rewrite He, Hs, Hx by lia. done.
  - destruct (byte_val a <? 32)%N eqn:Hc; [done|].
    destruct (next_rune (String a s1)) as [[rn s']|] eqn:Hn; [|done]. intros (t' & Hp & ->)%prepend_some.
    apply (utf8_valid_next _ _ _ Hn) in Hv as (Hok & Hwf & Heq & Hv). apply IH in Hp as (Hr & x & -> & Hx); [|done].
    split; [done|]. exists (rune_bytes rn +:+ x). split; [by rewrite append_assoc|].
    intros [|m] u Hm; [simpl in Hm; lia|]. rewrite append_assoc.
    pose proof (next_rune_cons rn (x +:+ u) Hwf Hok) as Hnu.
    destruct (rune_bytes rn) as [|a' bs] eqn:Hrb; [by destruct rn|]. rewrite append_cons in *. injection Heq as <- _.
    cbn [String.length] in Hm. rewrite length_append in Hm.
    rewrite (parse_string_next _ _ _ _ _ Hq Hb Hc Hnu), Hx by lia. done.
Qed.

(** ** Values *)

Lemma skip_ws_valid s : utf8_valid (skip_ws s) = utf8_valid s.
Proof.
  induction s as [|a s IH]; [done|]. cbn [skip_ws]. destruct (is_ws a) eqn:Ha; [|done].
  rewrite IH, utf8_valid_ascii; [done|]. by destruct a as [[] [] [] [] [] [] [] []].
Qed.

Lemma skip_ws_tail s a s1 : skip_ws s = String a s1 → is_ascii_byte a = true → utf8_valid s = true → utf8_valid s1 = true.
Proof. intros Hs Ha. rewrite <- skip_ws_valid, Hs. by rewrite utf8_valid_ascii. Qed.

(** [parse_value] after white space. *)
Definition parse_head (n : nat) (a : ascii) (s1 : string) : option (json * string) :=
  if bool_decide (a = quote_char) then '(t, r) ← parse_string n s1; Some (JStr t, r)
  else if bool_decide (a = "{"%char) then
    match skip_ws s1 with
    | String b s2 =>
      if bool_decide (b = "}"%char) then Some (JObj [], s2)
      else '(ms, r) ← parse_members n s1; Some (JObj ms, r)
    | "" => None
    end
  else if bool_decide (a = "["%char) then
    match skip_ws s1 with
    | String b s2 =>
      if bool_decide (b = "]"%char) then Some (JArr [], s2)
      else '(l, r) ← parse_elems n s1; Some (JArr l, r)
    | "" => None
    end
  else match strip "null" (String a s1), strip "true" (String a s1), strip "false" (String a s1) with
       | Some r, _, _ => Some (JNull, r)
       | _, Some r, _ => Some (JBool true, r)
       | _, _, Some r => Some (JBool false, r)
       | _, _, _ => '(l, r) ← scan_num (String a s1); Some (JNum l, r)
       end.

Lemma parse_value_skip n s :
  parse_value (S n) s = match skip_ws s with String a s1 => parse_head n a s1 | "" => None end.
Proof. cbn [parse_value]. by destruct (skip_ws s). Qed.

(** Texts of values, and of the insides of arrays and objects. *)
Definition reads_to (x : string) (v : json) : Prop :=
  ∀ m t, ends t = true → (String.length x < m)%nat → parse_value m (x +:+ t) = Some (v, t).
Definition elems_to (x : string) (l : list json) : Prop :=
  ∀ m t, (String.length x < m)%nat → parse_elems m (x +:+ t) = Some (l, t).
Definition members_to (x : string) (ms : list (string * json)) : Prop :=
  ∀ m t, (String.length x < m)%nat → parse_members m (x +:+ t) = Some (ms, t).
Definition head_to (a : ascii) (x : string) (v : json) : Prop :=
  ∀ m t, ends t = true → (String.length x < m)%nat → parse_head m a (x +:+ t) = Some (v, t).

Lemma strip_split p s r : strip p s = Some r → s = p +:+ r.
Proof.
  revert s. induction p as [|a p IH]; intros s; [by intros [= ->]|]. destruct s as [|b s]; [done|]. cbn [strip].
  destruct (bool_decide (a = b)) eqn:Hab; [|done]. apply bool_decide_eq_true in Hab as ->. by intros ->%IH.
Qed.

Lemma strip_app p t : strip p (p +:+ t) = Some t.
Proof. induction p as [|a p IH]; [done|]. rewrite append_cons. cbn [strip]. by rewrite bool_decide_eq_true_2. Qed.

Lemma num_head_byte s l r : scan_num s = Some (l, r) → ∃ a l', l = String a l' ∧ num_head a = true.
Proof.
  intros Hs. apply scan_num_split in Hs as [-> Hl]. specialize (Hl "" I). rewrite append_nil_r in Hl.
  destruct l as [|a l']; [done|]. exists a, l'. split; [done|]. unfold num_head. cbn [scan_num] in Hl.
  destruct (bool_decide (a = "-"%char)); [done|]. by apply scan_unsigned_head in Hl.
Qed.

Lemma num_head_ascii a : num_head a = true → is_ascii_byte a = true.
Proof. by destruct a as [[] [] [] [] [] [] [] []]. Qed.

(** The bytes of a number. *)
Definition num_byte (a : ascii) : bool :=
  is_digit a || bool_decide (a = "-"%char) || bool_decide (a = "+"%char) || bool_decide (a = "."%char) || is_exp a.

Definition num_text (l : string) : bool := forallb num_byte (String.list_ascii_of_string l).

Lemma num_text_cons a l : num_byte a = true → num_text l = true → num_text (String a l) = true.
Proof. unfold num_text. cbn. by intros -> ->. Qed.
Lemma num_text_app l k : num_text l = true → num_text k = true → num_text (l +:+ k) = true.
Proof.
  intros Hl Hk. induction l as [|a l IH]; [done|]. rewrite append_cons. unfold num_text in *. cbn in *.
  apply andb_true_iff in Hl as [-> Hl]. by apply IH.
Qed.
Lemma num_text_nil : num_text "" = true.
Proof. done. Qed.
#[local] Hint Resolve num_text_cons num_text_app num_text_nil : core.

Lemma num_text_valid l r : num_text l = true → utf8_valid (l +:+ r) = utf8_valid r.
Proof.
  induction l as [|a l IH]; [done|]. unfold num_text in *. cbn. intros [Ha Hl]%andb_true_iff.
  rewrite append_cons, utf8_valid_ascii; [by apply IH|]. by destruct a as [[] [] [] [] [] [] [] []].
Qed.

Lemma digits1_text s d r : digits1 s = Some (d, r) → num_text d = true.
Proof.
  unfold digits1. destruct (take_digits s) as [d' r'] eqn:Hs. destruct d' as [|a d']; [done|]. intros [= <- _].
  revert Hs. generalize (String a d'). intros d0. clear a d' r. revert d0 r'.
  induction s as [|a s IH]; intros d0 r0; cbn [take_digits]; [by intros [= <- _]|].
  destruct (is_digit a) eqn:Ha; [|by intros [= <- _]]. destruct (take_digits s) as [d1 r1]. intros [= <- _].
  apply num_text_cons; [|by eapply IH]. by destruct a as [[] [] [] [] [] [] [] []].
Qed.
#[local] Hint Resolve digits1_text : core.

Lemma scan_num_text s l r : scan_num s = Some (l, r) → num_text l = true.
Proof.
  assert (∀ s i r, scan_int s = Some (i, r) → num_text i = true) as Hi.
  { intros [|a s'] i r'; [done|]. cbn [scan_int]. destruct (bool_decide _); [intros [= <- _]; auto|eauto]. }
  assert (∀ s f r, scan_frac s = Some (f, r) → num_text f = true) as Hf.
  { intros [|a s'] f r'; cbn [scan_frac]; [by intros [= <- _]|].
    destruct (bool_decide (a = "."%char)) eqn:Ha; [|by intros [= <- _]]. apply bool_decide_eq_true in Ha as ->.
    destruct (digits1 s') as [[d r1]|] eqn:Hd; [|done]. intros [= <- _]. eauto. }
  assert (∀ s x r, scan_exp s = Some (x, r) → num_text x = true) as Hx.
  { intros [|a s'] x r'; cbn [scan_exp]; [by intros [= <- _]|]. fold (is_exp a).
    destruct (is_exp a) eqn:Ha; [|by intros [= <- _]].
    assert (num_byte a = true) as Ha' by (by destruct a as [[] [] [] [] [] [] [] []]).
    destruct s' as [|b s']; [done|]. destruct (bool_decide (b = "+"%char) || bool_decide (b = "-"%char)) eqn:Hb.
    - assert (num_byte b = true) by (by destruct b as [[] [] [] [] [] [] [] []]).
      destruct (digits1 s') as [[d r1]|] eqn:Hd; [|done]. intros [= <- _]. eauto.
    - destruct (digits1 (String b s')) as [[d r1]|] eqn:Hd; [|done]. intros [= <- _]. eauto. }
  assert (∀ s l r, scan_unsigned s = Some (l, r) → num_text l = true) as Hu.
  { intros s' l' r'. unfold scan_unsigned. destruct (scan_int s') as [[i s1]|] eqn:H1; [|done]. cbn.
    destruct (scan_frac s1) as [[f s2]|] eqn:H2; [|done]. cbn.
    destruct (scan_exp s2) as [[x s3]|] eqn:H3; [|done]. cbn. intros [= <- _]. eauto 6. }
  destruct s as [|a s]; [done|]. cbn [scan_num]. destruct (bool_decide (a = "-"%char)) eqn:Ha; [|by eauto].
  apply bool_decide_eq_true in Ha as ->. destruct (scan_unsigned s) as [[l' r']|] eqn:Hs; [|done].
  intros [= <- _]. eauto.
Qed.

(** The claims of the induction, for the parts of size [n]. *)
Definition value_splits (n : nat) : Prop := ∀ s v r,
  utf8_valid s = true → parse_value n s = Some (v, r) →
  utf8_valid r = true ∧ ∃ x, s = x +:+ r ∧ reads_to x v.
Definition elems_split (n : nat) : Prop := ∀ s l r,
  utf8_valid s = true → parse_elems n s = Some (l, r) →
  utf8_valid r = true ∧ ∃ x, s = x +:+ r ∧ elems_to x l.
Definition members_split (n : nat) : Prop := ∀ s ms r,
  utf8_valid s = true → parse_members n s = Some (ms, r) →
  utf8_valid r = true ∧ ∃ x, s = x +:+ r ∧ members_to x ms.

(** The text of a value starts with a byte that closes nothing. *)
Lemma parse_value_starts n s p : parse_value n s = Some p → ∃ b s', skip_ws s = String b s' ∧ bool_decide (b = "]"%char) = false.
Proof.
  destruct n as [|n]; [done|]. rewrite parse_value_skip. destruct (skip_ws s) as [|b s']; [done|].
  intros Hp. exists b, s'. split; [done|]. apply bool_decide_eq_false_2. intros ->.
  unfold parse_head in Hp. cbn in Hp. done.
Qed.

Lemma parse_members_starts n s p : parse_members n s = Some p → ∃ s', skip_ws s = String quote_char s'.
Proof.
  destruct n as [|n]; [done|]. cbn [parse_members]. destruct (skip_ws s) as [|b s']; [done|].
  destruct (bool_decide (b = quote_char)) eqn:Hb; [|done]. apply bool_decide_eq_true in Hb as ->. eauto.
Qed.

Lemma parse_elems_starts n s p : parse_elems n s = Some p → ∃ b s', skip_ws s = String b s' ∧ bool_decide (b = "]"%char) = false.
Proof.
  destruct n as [|n]; [done|]. cbn [parse_elems]. destruct (parse_value n s) eqn:Hv; [|done]. intros _.
  by eapply parse_value_starts.
Qed.

Ltac literal_split H Hv rest :=
  let Heq := fresh in
  intros [= <- <-]; pose proof (strip_split _ _ _ H) as Heq; injection Heq as -> ->;
  split; [by repeat rewrite utf8_valid_ascii in Hv by done|]; exists rest; split; [done|]; by intros m u _ _.

Lemma head_split n a s1 v r :
  elems_split n → members_split n → utf8_valid (String a s1) = true → parse_head n a s1 = Some (v, r) →
  utf8_valid r = true ∧ ∃ x, s1 = x +:+ r ∧ head_to a x v.
Proof.
  intros IHe IHm Hv. unfold parse_head.
  destruct (bool_decide (a = quote_char)) eqn:Hq.
  { apply bool_decide_eq_true in Hq as ->. rewrite utf8_valid_ascii in Hv by done.
    destruct (parse_string n s1) as [[t r']|] eqn:Hp; [|done]. intros [= <- <-].
    apply parse_string_split in Hp as (Hr & x & -> & Hx); [|done]. split; [done|]. exists x. split; [done|].
    intros m u _ Hm. unfold parse_head. eval_bytes. by rewrite Hx. }
  destruct (bool_decide (a = "{"%char)) eqn:Ho.
  { apply bool_decide_eq_true in Ho as ->. rewrite utf8_valid_ascii in Hv by done.
    destruct (skip_ws s1) as [|b s2] eqn:Hs; [done|]. destruct (bool_decide (b = "}"%char)) eqn:Hb.
    - apply bool_decide_eq_true in Hb as ->. intros [= <- <-]. split; [by eapply skip_ws_tail|].
      apply skip_ws_split in Hs as (w & -> & Hw). exists (w +:+ "}"). split; [by autorewrite with append|].
      intros m u _ _. unfold parse_head. eval_bytes. autorewrite with append. by rewrite Hw.
    - destruct (parse_members n s1) as [[ms r']|] eqn:Hp; [|done]. intros [= <- <-].
      apply IHm in Hp as (Hr & x & -> & Hx); [|done]. split; [done|]. exists x. split; [done|].
      intros m u _ Hm. unfold parse_head. eval_bytes. rewrite (Hx m u Hm).
      destruct (parse_members_starts _ _ _ (Hx m u Hm)) as [s' ->]. done. }
  destruct (bool_decide (a = "["%char)) eqn:Hk.
  { apply bool_decide_eq_true in Hk as ->. rewrite utf8_valid_ascii in Hv by done.
    destruct (skip_ws s1) as [|b s2] eqn:Hs; [done|]. destruct (bool_decide (b = "]"%char)) eqn:Hb.
    - apply bool_decide_eq_true in Hb as ->. intros [= <- <-]. split; [by eapply skip_ws_tail|].
      apply skip_ws_split in Hs as (w & -> & Hw). exists (w +:+ "]"). split; [by autorewrite with append|].
      intros m u _ _. unfold parse_head. eval_bytes. autorewrite with append. by rewrite Hw.
    - destruct (parse_elems n s1) as [[ms r']|] eqn:Hp; [|done]. intros [= <- <-].
      apply IHe in Hp as (Hr & x & -> & Hx); [|done]. split; [done|]. exists x. split; [done|].
      intros m u _ Hm. unfold parse_head. eval_bytes. rewrite (Hx m u Hm).
      destruct (parse_elems_starts _ _ _ (Hx m u Hm)) as (b' & s' & -> & ->). done. }
  destruct (strip "null" (String a s1)) as [r0|] eqn:H1.
  { literal_split H1 Hv "ull". }
  destruct (strip "true" (String a s1)) as [r0|] eqn:H2.
  { literal_split H2 Hv "rue". }
  destruct (strip "false" (String a s1)) as [r0|] eqn:H3.
  { literal_split H3 Hv "alse". }
  destruct (scan_num (String a s1)) as [[l r']|] eqn:Hn; [|done]. intros [= <- <-].
  pose proof (scan_num_text _ _ _ Hn) as Htext. destruct (num_head_byte _ _ _ Hn) as (a' & l' & -> & Ha').
  apply scan_num_split in Hn as [Heq Hl]. rewrite Heq, num_text_valid in Hv by done. split; [done|]. injection Heq as <- ->.
  exists l'. split; [done|]. intros m u Hu _. apply num_head_facts in Ha' as (_ & _ & _ & _ & Hn & Ht & Hf & _).
  unfold parse_head. cbn [strip]. rewrite Hq, Ho, Hk, Hn, Ht, Hf.
  specialize (Hl u (ends_no_num _ Hu)). rewrite append_cons in Hl. by rewrite Hl.
Qed.

Lemma parse_value_split n : elems_split n → members_split n → value_splits (S n).
Proof.
  intros IHe IHm s v r Hv. rewrite parse_value_skip. destruct (skip_ws s) as [|a s1] eqn:Hs; [done|]. intros Hp.
  apply head_split in Hp as (Hr & x & -> & Hx); [|done..|by rewrite <- Hs, skip_ws_valid]. split; [done|].
  apply skip_ws_split in Hs as (w & -> & Hw). exists (w +:+ String a x). split; [by autorewrite with append|].
  intros [|m] t Ht Hm; [lia|]. rewrite length_append in Hm. cbn [String.length] in Hm.
  rewrite parse_value_skip, append_assoc, append_cons, Hw. apply Hx; [done|lia].
Qed.

Lemma parse_elems_split n : value_splits n → elems_split n → elems_split (S n).
Proof.
  intros IHv IHe s l r Hv. cbn [parse_elems]. destruct (parse_value n s) as [[v r1]|] eqn:Hp; [|done]. cbn.
  apply IHv in Hp as (Hr1 & xv & -> & Hxv); [|done]. destruct (skip_ws r1) as [|a r2] eqn:Hs; [done|].
  destruct (bool_decide (a = "]"%char)) eqn:Ha.
  - apply bool_decide_eq_true in Ha as ->. intros [= <- <-]. split; [by eapply skip_ws_tail|].
    apply skip_ws_split in Hs as (w & -> & Hw). exists (xv +:+ w +:+ "]"). split; [by autorewrite with append|].
    intros [|m] t Hm; [lia|]. rewrite !length_append in Hm. cbn [String.length] in Hm. cbn [parse_elems].
    autorewrite with append. rewrite Hxv; [|by apply ends_ws|lia]. cbn. by rewrite Hw.
  - destruct (bool_decide (a = ","%char)) eqn:Hc; [|done]. apply bool_decide_eq_true in Hc as ->.
    destruct (parse_elems n r2) as [[l' r3]|] eqn:He; [|done]. intros [= <- <-].
    apply IHe in He as (Hr & xl & -> & Hxl); [|by eapply skip_ws_tail]. split; [done|].
    apply skip_ws_split in Hs as (w & -> & Hw). exists (xv +:+ w +:+ String "," xl).
    split; [by autorewrite with append|].
    intros [|m] t Hm; [lia|]. rewrite !length_append in Hm. cbn [String.length] in Hm. cbn [parse_elems].
    autorewrite with append. rewrite Hxv; [|by apply ends_ws|lia]. cbn. rewrite Hw. eval_bytes. by rewrite Hxl by lia.
Qed.

Lemma parse_members_split n : value_splits n → members_split n → members_split (S n).
Proof.
  intros IHv IHm s ms r Hv. cbn [parse_members]. destruct (skip_ws s) as [|q s1] eqn:Hs; [done|].
  destruct (bool_decide (q = quote_char)) eqn:Hq; [|done]. apply bool_decide_eq_true in Hq as ->.
  destruct (parse_string n s1) as [[k r0]|] eqn:Hk; [|done]. cbn.
  apply parse_string_split in Hk as (Hr0 & xk & -> & Hxk); [|by eapply skip_ws_tail].
  apply skip_ws_split in Hs as (w0 & -> & Hw0).
  destruct (skip_ws r0) as [|c r1] eqn:Hs0; [done|].
  destruct (bool_decide (c = ":"%char)) eqn:Hc; [|done]. apply bool_decide_eq_true in Hc as ->.
  destruct (parse_value n r1) as [[v r2]|] eqn:Hp; [|done]. cbn.
  apply IHv in Hp as (Hr2 & xv & -> & Hxv); [|by eapply skip_ws_tail].
  apply skip_ws_split in Hs0 as (w1 & -> & Hw1).
  destruct (skip_ws r2) as [|a r3] eqn:Hs2; [done|]. destruct (bool_decide (a = "}"%char)) eqn:Ha.
  - apply bool_decide_eq_true in Ha as ->. intros [= <- <-]. split; [by eapply skip_ws_tail|].
    apply skip_ws_split in Hs2 as (w2 & -> & Hw2).
    exists (w0 +:+ String quote_char (xk +:+ w1 +:+ String ":" (xv +:+ w2 +:+ "}"))).
    split; [by autorewrite with append|].
    intros [|m] t Hm; [lia|]. rewrite ?length_append in Hm. cbn [String.length] in Hm. rewrite ?length_append in Hm.
    cbn [String.length] in Hm. rewrite ?length_append in Hm. cbn [String.length] in Hm. cbn [parse_members].
    autorewrite with append. rewrite Hw0. eval_bytes. rewrite Hxk by lia. cbn. rewrite Hw1. eval_bytes.
    rewrite Hxv; [|by apply ends_ws|lia]. cbn. by rewrite Hw2.
  - destruct (bool_decide (a = ","%char)) eqn:Hcm; [|done]. apply bool_decide_eq_true in Hcm as ->.
    destruct (parse_members n r3) as [[ms' r4]|] eqn:He; [|done]. intros [= <- <-].
    apply IHm in He as (Hr & xl & -> & Hxl); [|by eapply skip_ws_tail]. split; [done|].
    apply skip_ws_split in Hs2 as (w2 & -> & Hw2).
    exists (w0 +:+ String quote_char (xk +:+ w1 +:+ String ":" (xv +:+ w2 +:+ String "," xl))).
    split; [by autorewrite with append|].
    intros [|m] t Hm; [lia|]. rewrite ?length_append in Hm. cbn [String.length] in Hm. rewrite ?length_append in Hm.
    cbn [String.length] in Hm. rewrite ?length_append in Hm. cbn [String.length] in Hm. cbn [parse_members].
    autorewrite with append. rewrite Hw0. eval_bytes. rewrite Hxk by lia. cbn. rewrite Hw1. eval_bytes.
    rewrite Hxv; [|by apply ends_ws|lia]. cbn. rewrite Hw2. eval_bytes. by rewrite Hxl by lia.
Qed.

Lemma parse_splits n : value_splits n ∧ elems_split n ∧ members_split n.
Proof.
  induction n as [|n (IHv & IHe & IHm)]; [by split_and!; intros ?|].
  split_and!; [by apply parse_value_split|by apply parse_elems_split|by apply parse_members_split].
Qed.
