(* ===== verification/JsonCompact.v ===== *)
(** * Compaction keeps the value of a JSON text

    [json.RawMessage] is written without its white space and with "<", ">",
    "&" and line separators escaped: the parser reads the same value. *)

From S2P Require Import Prelude GoStrings Json JsonText.

(** ** One byte *)

Lemma line_sep_byte a b c : is_line_sep a b c = true → byte_val a = 226%N.
Proof. unfold is_line_sep. by rewrite !andb_true_iff, !N.eqb_eq; intros [[? _] _]. Qed.

Lemma compact_step q e a s :
  is_html a = false → (∀ b c s', s = String b (String c s') → is_line_sep a b c = false) →
  compact q e (String a s) =
    if q then
      String a (compact (negb (bool_decide (a = quote_char) && negb e)) (bool_decide (a = backslash) && negb e) s)
    else if is_ws a then compact q e s else String a (compact (bool_decide (a = quote_char)) false s).
Proof.
  intros Hh Hl. destruct s as [|b [|c s]]; cbn [compact]; rewrite Hh; [done..|]. by rewrite (Hl b c s).
Qed.

(** Bytes that compaction copies. *)
Definition kept (a : ascii) : bool := negb (is_html a) && is_ascii_byte a.

Lemma kept_facts a : kept a = true → is_html a = false ∧ ∀ b c, is_line_sep a b c = false.
Proof.
  unfold kept. rewrite andb_true_iff, negb_true_iff. intros [Hh Ha]. split; [done|].
  intros b c. destruct (is_line_sep a b c) eqn:Hl; [|done]. apply line_sep_byte in Hl.
  unfold is_ascii_byte in Ha. apply N.ltb_lt in Ha. lia.
Qed.

(** Inside a string. *)
Lemma compact_in a e s :
  kept a = true → a ≠ quote_char ∨ e = true →
  compact true e (String a s) = String a (compact true (bool_decide (a = backslash) && negb e) s).
Proof.
  intros [Hh Hl]%kept_facts Hq. rewrite compact_step by eauto. do 2 f_equal.
  destruct Hq as [Hq| ->]; [by rewrite bool_decide_eq_false_2|by rewrite andb_false_r].
Qed.

Lemma compact_close s : compact true false (String quote_char s) = String quote_char (compact false false s).
Proof. by rewrite compact_step by done. Qed.

(** Outside strings. *)
Lemma compact_ws a s : is_ws a = true → compact false false (String a s) = compact false false s.
Proof.
  intros Ha. rewrite compact_step; [by rewrite Ha| |].
  - by destruct a as [[] [] [] [] [] [] [] []].
  - intros b c s' _. apply kept_facts. by destruct a as [[] [] [] [] [] [] [] []].
Qed.

Lemma compact_out a s :
  kept a = true → is_ws a = false →
  compact false false (String a s) = String a (compact (bool_decide (a = quote_char)) false s).
Proof. intros [Hh Hl]%kept_facts Ha. rewrite compact_step by eauto. by rewrite Ha. Qed.

(** The first byte of a compacted text: copied, or the start of an escape. *)
Lemma compact_head q e a s :
  (q = false → is_ws a = false) → ∃ b u, compact q e (String a s) = String b u ∧ (b = a ∨ b = backslash).
Proof.
  intros Hws. destruct (is_html a) eqn:Hh.
  { cbn [compact]. rewrite Hh. unfold esc_u00, esc. rewrite !append_cons. eauto. }
  destruct s as [|b [|c s]].
  3: destruct (is_line_sep a b c) eqn:Hl.
  3: { cbn [compact]. rewrite Hh, Hl. unfold esc_line_sep, esc. rewrite !append_cons. eauto. }
  all: rewrite compact_step; [|done|]; [destruct q; [eauto|]; rewrite Hws by done; eauto|].
  all: intros b' c' s' Heq; simplify_eq; done.
Qed.

(** ** White space *)

Lemma compact_skip s : compact false false s = compact false false (skip_ws s).
Proof.
  induction s as [|a s IH]; [done|]. cbn [skip_ws]. destruct (is_ws a) eqn:Ha; [|done]. by rewrite compact_ws.
Qed.

Lemma skip_compact s : skip_ws (compact false false s) = compact false false (skip_ws s).
Proof.
  rewrite compact_skip. destruct (skip_ws s) as [|a s1] eqn:Hs; [done|].
  assert (is_ws a = false) as Ha.
  { revert Hs. induction s as [|b s IH]; [done|]. cbn [skip_ws]. destruct (is_ws b) eqn:Hb; [done|]. by intros [= -> _]. }
  destruct (compact_head false false a s1) as (b & u & -> & Hb); [done|]. cbn [skip_ws].
  by destruct Hb as [-> | ->]; [rewrite Ha|].
Qed.

(** ** Strings *)

Lemma hex_kept a x : hex_value a = Some x → kept a = true ∧ a ≠ quote_char ∧ bool_decide (a = backslash) = false.
Proof. by destruct a as [[] [] [] [] [] [] [] []]. Qed.

Lemma compact_hex a x s : hex_value a = Some x → compact true false (String a s) = String a (compact true false s).
Proof. intros (Hk & Hq & Hb)%hex_kept. rewrite compact_in by auto. by rewrite Hb. Qed.

Lemma hex4_no a s : hex_value a = None → hex4 (String a s) = None.
Proof. intros Ha. destruct s as [|b [|c [|d s]]]; try done. cbn [hex4]. by rewrite Ha. Qed.

Lemma hex4_cons a x s : hex_value a = Some x → hex4 (String a s) =
  match s with
  | String b (String c (String d r)) =>
    y ← hex_value b; z ← hex_value c; w ← hex_value d; Some (x * 4096 + y * 256 + z * 16 + w, r)%N
  | _ => None
  end.
Proof. intros Ha. destruct s as [|b [|c [|d s]]]; try done. cbn [hex4]. by rewrite Ha. Qed.

(** A byte that is no digit is no digit after compaction. *)
Lemma compact_no_hex a s : hex_value a = None → ∃ b u, compact true false (String a s) = String b u ∧ hex_value b = None.
Proof. intros Ha. destruct (compact_head true false a s) as (b & u & -> & [-> | ->]); [done|eauto..]. Qed.

Lemma hex4_compact s :
  hex4 (compact true false s) = match hex4 s with Some (x, r) => Some (x, compact true false r) | None => None end.
Proof.
  destruct s as [|a s]; [done|]. destruct (hex_value a) as [x|] eqn:Ha.
  2: { rewrite (hex4_no a) by done. destruct (compact_no_hex a s Ha) as (b' & u & -> & Hb). by apply hex4_no. }
  rewrite (compact_hex _ _ _ Ha), !(hex4_cons _ _ _ Ha).
  destruct s as [|b s]; [done|]. destruct (hex_value b) as [y|] eqn:Hb.
  2: { destruct (compact_no_hex b s Hb) as (b' & u & -> & Hb'). rewrite ?Hb'. rewrite ?Hb.
       destruct u as [|c' [|d' u]], s as [|c [|d s]]; cbn; by rewrite ?Hb, ?Hb'. }
  rewrite (compact_hex _ _ _ Hb).
  destruct s as [|c s]; [done|]. destruct (hex_value c) as [z|] eqn:Hc.
  2: { destruct (compact_no_hex c s Hc) as (c' & u & -> & Hc').
       destruct u as [|d' u], s as [|d s]; cbn; rewrite ?Hb; cbn; by rewrite ?Hc, ?Hc'. }
  rewrite (compact_hex _ _ _ Hc).
  destruct s as [|d s]; [done|]. destruct (hex_value d) as [v|] eqn:Hd.
  2: { destruct (compact_no_hex d s Hd) as (d' & u & -> & Hd'). cbn. rewrite Hb. cbn. rewrite Hc. cbn. by rewrite Hd'. }
  rewrite (compact_hex _ _ _ Hd). cbn. rewrite Hb. cbn. rewrite Hc. cbn. by rewrite Hd.
Qed.

(** An escape that compaction writes is no half of a surrogate pair. *)
Lemma next_half_compact c s :
  match next_half s with
  | Some (r, s') => next_half (compact true false s) = Some (r, compact true false s')
  | None => match next_half (compact true false s) with
            | Some (r, _) => high_surrogate c && low_surrogate r = false
            | None => True
            end
  end.
Proof.
  destruct s as [|a s1]; [done|].
  destruct (bool_decide (a = backslash)) eqn:Ha.
  - apply bool_decide_eq_true in Ha as ->. rewrite compact_in by auto.
    change (bool_decide (backslash = backslash) && negb false) with true.
    destruct s1 as [|b s]; [done|]. cbn [next_half].
    change (bool_decide (backslash = backslash)) with true. cbn [andb].
    destruct (bool_decide (b = "u"%char)) eqn:Hb.
    + apply bool_decide_eq_true in Hb as ->. rewrite compact_in by auto. cbn [next_half].
      change (bool_decide (backslash = backslash) && bool_decide ("u"%char = "u"%char)) with true. cbn iota.
      change (bool_decide ("u"%char = backslash) && negb true) with false. rewrite hex4_compact.
      by destruct (hex4 s) as [[r s']|].
    + destruct (compact_head true true b s) as (b' & u & -> & Hb'); [done|]. cbn [next_half].
      assert (bool_decide (b' = "u"%char) = false) as ->; [|done]. by destruct Hb' as [-> | ->].
  - assert (next_half (String a s1) = None) as ->.
    { destruct s1 as [|b s]; [done|]. cbn [next_half]. by rewrite Ha. }
    destruct (is_html a) eqn:Hh.
    { unfold is_html in Hh. cbn [compact]. unfold is_html. rewrite Hh.
      assert (∀ u, next_half (esc_u00 a +:+ u) = Some (byte_val a, u)) as ->.
      { intros u. clear Ha. destruct a as [[] [] [] [] [] [] [] []]; (discriminate || reflexivity). }
      apply andb_false_intro2. unfold low_surrogate. apply andb_false_intro1. apply N.leb_gt.
      pose proof (N_ascii_bounded a). unfold byte_val. lia. }
    destruct s1 as [|b [|c' s]].
    3: destruct (is_line_sep a b c') eqn:Hl.
    3: { cbn [compact]. rewrite Hh, Hl. unfold esc_line_sep, esc. autorewrite with append. cbn [next_half].
         destruct (byte_val c' =? 168)%N; apply andb_false_r. }
    all: rewrite compact_step; [|done|by intros ? ? ? Heq; simplify_eq];
      match goal with |- context [next_half (String _ ?u)] => destruct u; [done|] end; cbn [next_half]; by rewrite Ha.
Qed.

Lemma unescape_compact c s t s' :
  unescape_u c s = (t, s') → unescape_u c (compact true false s) = (t, compact true false s').
Proof.
  rewrite !unescape_u_half. destruct (high_surrogate c || low_surrogate c); [|by intros [= <- <-]].
  pose proof (next_half_compact c s) as Hn. destruct (next_half s) as [[r2 s2]|].
  - rewrite Hn. destruct (_ && _); by intros [= <- <-].
  - intros [= <- <-]. destruct (next_half (compact true false s)) as [[r2 s2]|]; [|done]. by rewrite Hn.
Qed.

Lemma simple_escape_kept e t : simple_escape e = Some t → kept e = true.
Proof. by destruct e as [[] [] [] [] [] [] [] []]. Qed.

(** Bytes of longer encodings are copied, unless they make a line separator. *)
Lemma high_not_ws a : is_ascii_byte a = false → is_ws a = false ∧ is_html a = false.
Proof. by destruct a as [[] [] [] [] [] [] [] []]. Qed.

Lemma compact_lead q e a s :
  is_ascii_byte a = false → (∀ b c s', s = String b (String c s') → is_line_sep a b c = false) →
  compact q e (String a s) = String a (compact q false s).
Proof.
  intros Ha Hl. destruct (high_not_ws a Ha) as [Hw Hh]. rewrite compact_step by done.
  apply not_ascii_facts in Ha as (-> & -> & _). rewrite Hw. by destruct q.
Qed.

Lemma compact_cont q e b s : cont b = true → compact q e (String b s) = String b (compact q false s).
Proof.
  intros Hb. assert (byte_val b ≠ 226%N ∧ is_ascii_byte b = false) as [Hn Ha].
  { unfold cont, in_range in Hb. apply andb_true_iff in Hb as [H1%N.leb_le H2%N.leb_le].
    unfold is_ascii_byte. split; [lia|]. apply N.ltb_ge. lia. }
  apply compact_lead; [done|]. intros c d s' _. destruct (is_line_sep b c d) eqn:Hl; [|done]. by apply line_sep_byte in Hl.
Qed.

Lemma compact_rune q e r s :
  rune_wf r = true → rune_ok r = true → match r with R1 _ => False | R3 a b c => is_line_sep a b c = false | _ => True end →
  compact q e (rune_bytes r +:+ s) = rune_bytes r +:+ compact q false s.
Proof.
  assert (∀ a b c, byte_val a ≠ 226%N → is_line_sep a b c = false) as Hne.
  { intros a b c Ha. destruct (is_line_sep a b c) eqn:Hl; [|done]. by apply line_sep_byte in Hl. }
  destruct r as [a|a b|a b c|a b c d|a]; cbn [rune_bytes rune_wf]; intros Hwf Hok Hr; [done| | | |done];
    autorewrite with append.
  - pose proof (utf8_2_range _ _ Hwf) as Ha. unfold utf8_2, in_range in Hwf. rewrite !andb_true_iff, !N.leb_le in Hwf.
    destruct Hwf as [Ha' Hb]. rewrite compact_lead, compact_cont by (done || (intros; apply Hne; lia)). done.
  - pose proof (utf8_3_range _ _ _ Hwf) as Ha. assert (cont b = true ∧ cont c = true) as [Hb Hc].
    { revert Hwf. unfold utf8_3, cont, in_range. rewrite ?andb_true_iff, ?orb_true_iff, ?andb_true_iff, ?N.leb_le, ?N.eqb_eq. lia. }
    rewrite compact_lead, !compact_cont; try done.
    + unfold is_ascii_byte. apply N.ltb_ge. lia.
    + by intros ? ? ? [= <- <- _].
  - pose proof (utf8_4_range _ _ _ _ Hwf) as Ha. assert (cont b = true ∧ cont c = true ∧ cont d = true) as (Hb & Hc & Hd).
    { revert Hwf. unfold utf8_4, cont, in_range. rewrite ?andb_true_iff, ?orb_true_iff, ?andb_true_iff, ?N.leb_le, ?N.eqb_eq. lia. }
    rewrite compact_lead, !compact_cont; try done.
    + unfold is_ascii_byte. apply N.ltb_ge. lia.
    + intros; apply Hne; lia.
Qed.

Lemma html_esc a : is_html a = true → esc_u00 a = esc_ascii a ∧ is_ascii_byte a = true.
Proof. by destruct a as [[] [] [] [] [] [] [] []]. Qed.

Ltac plain_rune Heq Hplain :=
  rewrite Heq, compact_rune by done; apply Hplain; [by apply next_rune_cons|];
  cbn [rune_bytes] in *; rewrite !append_cons in *; injection Heq as <- _; eauto.

Lemma compact_string_rune n a s1 rn s' t' u0 :
  bool_decide (a = quote_char) = false → bool_decide (a = backslash) = false → (byte_val a <? 32)%N = false →
  rune_ok rn = true → rune_wf rn = true → String a s1 = rune_bytes rn +:+ s' →
  parse_string n (compact true false s') = Some (t', u0) →
  parse_string (S n) (compact true false (String a s1)) = Some (rune_text rn +:+ t', u0).
Proof.
  intros Hq Hb Hc Hok Hwf Heq Hp'.
  assert (∀ u, next_rune u = Some (rn, compact true false s') → (∃ u', u = String a u') →
    parse_string (S n) u = Some (rune_text rn +:+ t', u0)) as Hplain.
  { intros u Hnu [u' ->]. by rewrite (parse_string_next _ _ _ _ _ Hq Hb Hc Hnu), Hp'. }
  destruct rn as [a'|a' b|a' b c|a' b c d|]; [| | | |done].
  + cbn [rune_bytes] in Heq. rewrite append_cons in Heq. injection Heq as <- ->.
    destruct (is_html a) eqn:Hh.
    * cbn [compact]. rewrite Hh. destruct (html_esc a Hh) as [-> Ha].
      rewrite parse_string_ascii by done. by rewrite append_empty_l, Hp'.
    * rewrite append_empty_l. cbn [rune_wf] in Hwf. rewrite compact_in; [|by unfold kept; rewrite Hh, Hwf|left; by apply bool_decide_eq_false in Hq].
      rewrite Hb. apply Hplain; [|eauto]. cbn [next_rune andb]. by rewrite Hwf.
  + plain_rune Heq Hplain.
  + destruct (is_line_sep a' b c) eqn:Hl.
    * rewrite Heq. cbn [rune_bytes]. autorewrite with append. cbn [compact].
      cbn [rune_bytes] in Heq. rewrite append_cons in Heq. injection Heq as <- _.
      assert (is_html a = false) as -> by (apply line_sep_byte in Hl; by destruct a as [[] [] [] [] [] [] [] []]).
      rewrite Hl, (parse_string_line_sep n a b c _ Hl), Hp'. done.
    * plain_rune Heq Hplain.
  + plain_rune Heq Hplain.
Qed.

Lemma compact_string n s t r :
  utf8_valid s = true → parse_string n s = Some (t, r) →
  parse_string n (compact true false s) = Some (t, compact false false r).
Proof.
  revert s t r. induction n as [|n IH]; intros s t r Hv; [done|].
  destruct s as [|a s1]; [done|]. cbn [parse_string].
  destruct (bool_decide (a = quote_char)) eqn:Hq.
  { apply bool_decide_eq_true in Hq as ->. intros [= <- <-]. by rewrite compact_close. }
  apply bool_decide_eq_false in Hq as Hq'.
  destruct (bool_decide (a = backslash)) eqn:Hb.
  - apply bool_decide_eq_true in Hb as ->. rewrite utf8_valid_ascii in Hv by done.
    rewrite compact_in by auto. change (bool_decide (backslash = backslash) && negb false) with true.
    destruct s1 as [|e s2]; [done|]. destruct (bool_decide (e = "u"%char)) eqn:He.
    + apply bool_decide_eq_true in He as ->. rewrite utf8_valid_ascii in Hv by done.
      destruct (hex4 s2) as [[c s3]|] eqn:Hh; [|done]. destruct (unescape_u c s3) as [t1 s4] eqn:Hu.
      intros (t' & Hp & ->)%prepend_some. rewrite (hex4_valid _ _ _ Hh) in Hv.
      apply IH in Hp; [|by eapply unescape_u_valid].
      rewrite compact_in by auto. change (bool_decide ("u"%char = backslash) && negb true) with false.
      cbn [parse_string]. eval_bytes. by rewrite hex4_compact, Hh, (unescape_compact _ _ _ _ Hu), Hp.
    + destruct (simple_escape e) as [te|] eqn:Hs; [|done]. intros (t' & Hp & ->)%prepend_some.
      rewrite utf8_valid_ascii in Hv by (by eapply simple_escape_ascii).
      rewrite compact_in by (by auto || by eapply simple_escape_kept). rewrite andb_false_r.
      cbn [parse_string]. change (bool_decide (backslash = quote_char)) with false.
      change (bool_decide (backslash = backslash)) with true. cbn iota. rewrite He, Hs. by rewrite (IH _ _ _ Hv Hp).
  - destruct (byte_val a <? 32)%N eqn:Hc; [done|].
    destruct (next_rune (String a s1)) as [[rn s']|] eqn:Hn; [|done]. intros (t' & Hp & ->)%prepend_some.
    apply (utf8_valid_next _ _ _ Hn) in Hv as (Hok & Hwf & Heq & Hv). pose proof (IH _ _ _ Hv Hp) as Hp'.
    exact (compact_string_rune n a s1 rn s' t' _ Hq Hb Hc Hok Hwf Heq Hp').
Qed.

(** ** Values *)

Lemma compact_num l r : num_text l = true → compact false false (l +:+ r) = l +:+ compact false false r.
Proof.
  induction l as [|a l IH]; [done|]. unfold num_text in *. cbn. intros [Ha Hl]%andb_true_iff.
  assert (kept a = true ∧ is_ws a = false ∧ bool_decide (a = quote_char) = false) as (Hk & Hw & Hq)
    by (by destruct a as [[] [] [] [] [] [] [] []]).
  rewrite !append_cons, compact_out, Hq by done. by rewrite IH.
Qed.

Lemma ends_compact t : ends t = true → ends (compact false false t) = true.
Proof.
  unfold ends. rewrite skip_compact. destruct (skip_ws t) as [|a u]; [done|]. intros Ha.
  assert (kept a = true ∧ is_ws a = false) as [Hk Hw] by (by destruct a as [[] [] [] [] [] [] [] []]).
  by rewrite compact_out.
Qed.

Definition value_compacts (n : nat) : Prop := ∀ s v r,
  utf8_valid s = true → parse_value n s = Some (v, r) → ends r = true →
  parse_value n (compact false false s) = Some (v, compact false false r).
Definition elems_compact (n : nat) : Prop := ∀ s l r,
  utf8_valid s = true → parse_elems n s = Some (l, r) →
  parse_elems n (compact false false s) = Some (l, compact false false r).
Definition members_compact (n : nat) : Prop := ∀ s ms r,
  utf8_valid s = true → parse_members n s = Some (ms, r) →
  parse_members n (compact false false s) = Some (ms, compact false false r).

(** Structural bytes are copied; other first bytes are not taken for one. *)
Lemma skip_compact_byte s a u :
  skip_ws s = String a u → kept a = true → is_ws a = false →
  skip_ws (compact false false s) = String a (compact (bool_decide (a = quote_char)) false u).
Proof. intros Hs Hk Ha. by rewrite skip_compact, Hs, compact_out. Qed.

Lemma skip_ws_head s a u : skip_ws s = String a u → is_ws a = false.
Proof. induction s as [|b s IH]; [done|]. cbn [skip_ws]. destruct (is_ws b) eqn:Hb; [done|]. by intros [= -> _]. Qed.

Lemma skip_compact_other s a u :
  skip_ws s = String a u → ∃ b v, skip_ws (compact false false s) = String b v ∧ (b = a ∨ b = backslash).
Proof.
  intros Hs. rewrite skip_compact, Hs. apply compact_head. intros _. by eapply skip_ws_head.
Qed.

(** The bytes of a literal name. *)
Definition name_text (p : string) : bool :=
  forallb (λ a, kept a && negb (is_ws a) && negb (bool_decide (a = quote_char))) (String.list_ascii_of_string p).

Lemma compact_name p r : name_text p = true → compact false false (p +:+ r) = p +:+ compact false false r.
Proof.
  induction p as [|a p IH]; [done|]. unfold name_text in *. cbn.
  rewrite !andb_true_iff, !negb_true_iff. intros [[[Ha Hw] Hq] Hp]. rewrite !append_cons, compact_out, Hq by done.
  by rewrite IH.
Qed.

Lemma head_compact n a s1 v r :
  elems_compact n → members_compact n → is_ws a = false → utf8_valid (String a s1) = true →
  parse_head n a s1 = Some (v, r) → ends r = true →
  ∃ u, compact false false (String a s1) = String a u ∧ parse_head n a u = Some (v, compact false false r).
Proof.
  intros IHe IHm Hws Hv. unfold parse_head.
  destruct (bool_decide (a = quote_char)) eqn:Hq.
  { apply bool_decide_eq_true in Hq as ->. rewrite utf8_valid_ascii in Hv by done.
    destruct (parse_string n s1) as [[t r']|] eqn:Hp; [|done]. intros [= <- <-] _.
    rewrite compact_out by done. eexists. split; [done|]. eval_bytes. by rewrite (compact_string _ _ _ _ Hv Hp). }
  destruct (bool_decide (a = "{"%char)) eqn:Ho.
  { apply bool_decide_eq_true in Ho as ->. rewrite utf8_valid_ascii in Hv by done.
    rewrite compact_out by done. intros Hp _. eexists. split; [done|]. eval_bytes.
    destruct (skip_ws s1) as [|b s2] eqn:Hs; [done|]. destruct (bool_decide (b = "}"%char)) eqn:Hb.
    - apply bool_decide_eq_true in Hb as ->. injection Hp as <- <-. by rewrite (skip_compact_byte _ _ _ Hs).
    - destruct (parse_members n s1) as [[ms r']|] eqn:Hm; [|done]. injection Hp as <- <-.
      destruct (skip_compact_other _ _ _ Hs) as (b' & u & -> & Hb').
      rewrite (IHm _ _ _ Hv Hm). by destruct Hb' as [-> | ->]; [rewrite Hb|]. }
  destruct (bool_decide (a = "["%char)) eqn:Hk.
  { apply bool_decide_eq_true in Hk as ->. rewrite utf8_valid_ascii in Hv by done.
    rewrite compact_out by done. intros Hp _. eexists. split; [done|]. eval_bytes.
    destruct (skip_ws s1) as [|b s2] eqn:Hs; [done|]. destruct (bool_decide (b = "]"%char)) eqn:Hb.
    - apply bool_decide_eq_true in Hb as ->. injection Hp as <- <-. by rewrite (skip_compact_byte _ _ _ Hs).
    - destruct (parse_elems n s1) as [[ms r']|] eqn:Hm; [|done]. injection Hp as <- <-.
      destruct (skip_compact_other _ _ _ Hs) as (b' & u & -> & Hb').
      rewrite (IHe _ _ _ Hv Hm). by destruct Hb' as [-> | ->]; [rewrite Hb|]. }
  destruct (strip "null" (String a s1)) as [r0|] eqn:H1.
  { intros [= <- <-] _. pose proof (strip_split _ _ _ H1) as ->. rewrite compact_name by done.
    injection (strip_split _ _ _ H1) as -> _. eexists. split; [done|]. done. }
  destruct (strip "true" (String a s1)) as [r0|] eqn:H2.
  { intros [= <- <-] _. pose proof (strip_split _ _ _ H2) as ->. rewrite compact_name by done.
    injection (strip_split _ _ _ H2) as -> _. eexists. split; [done|]. done. }
  destruct (strip "false" (String a s1)) as [r0|] eqn:H3.
  { intros [= <- <-] _. pose proof (strip_split _ _ _ H3) as ->. rewrite compact_name by done.
    injection (strip_split _ _ _ H3) as -> _. eexists. split; [done|]. done. }
  destruct (scan_num (String a s1)) as [[l r']|] eqn:Hn; [|done]. intros [= <- <-] Hr.
  pose proof (scan_num_text _ _ _ Hn) as Htext. destruct (num_head_byte _ _ _ Hn) as (a' & l' & -> & Ha').
  apply scan_num_split in Hn as [Heq Hl]. rewrite Heq, compact_num by done. injection Heq as <- ->.
  rewrite append_cons. eexists. split; [done|].
  apply num_head_facts in Ha' as (_ & _ & _ & _ & Hn & Ht & Hf & _). cbn [strip]. rewrite Hn, Ht, Hf.
  specialize (Hl (compact false false r') (ends_no_num _ (ends_compact _ Hr))). rewrite append_cons in Hl. by rewrite Hl.
Qed.

Lemma parse_value_compact n : elems_compact n → members_compact n → value_compacts (S n).
Proof.
  intros IHe IHm s v r Hv. rewrite !parse_value_skip, skip_compact.
  destruct (skip_ws s) as [|a s1] eqn:Hs; [done|]. intros Hp Hr.
  apply head_compact in Hp as (u & -> & Hu); [done|done..|by eapply skip_ws_head|by rewrite <- Hs, skip_ws_valid|done].
Qed.

Lemma ends_byte r a u : skip_ws r = String a u → delim (String a "") = true → ends r = true.
Proof. unfold ends. by intros ->. Qed.

Lemma parse_elems_compact n : value_compacts n → elems_compact n → elems_compact (S n).
Proof.
  intros IHv IHe s l r Hv. cbn [parse_elems]. destruct (parse_value n s) as [[v r1]|] eqn:Hp; [|done]. cbn.
  destruct (parse_splits n) as [Hsv _]. destruct (Hsv _ _ _ Hv Hp) as [Hr1 _].
  destruct (skip_ws r1) as [|a r2] eqn:Hs; [done|].
  destruct (bool_decide (a = "]"%char)) eqn:Ha.
  - apply bool_decide_eq_true in Ha as ->. intros [= <- <-].
    rewrite (IHv _ _ _ Hv Hp) by (by eapply ends_byte). cbn. by rewrite (skip_compact_byte _ _ _ Hs).
  - destruct (bool_decide (a = ","%char)) eqn:Hc; [|done]. apply bool_decide_eq_true in Hc as ->.
    destruct (parse_elems n r2) as [[l' r3]|] eqn:He; [|done]. intros [= <- <-].
    rewrite (IHv _ _ _ Hv Hp) by (by eapply ends_byte). cbn. rewrite (skip_compact_byte _ _ _ Hs) by done. eval_bytes.
    by rewrite (IHe r2 l' r3) by (done || by eapply skip_ws_tail).
Qed.

Lemma parse_members_compact n : value_compacts n → members_compact n → members_compact (S n).
Proof.
  intros IHv IHm s ms r Hv. cbn [parse_members]. destruct (skip_ws s) as [|q s1] eqn:Hs; [done|].
  destruct (bool_decide (q = quote_char)) eqn:Hq; [|done]. apply bool_decide_eq_true in Hq as ->.
  assert (utf8_valid s1 = true) as Hv1 by (by eapply skip_ws_tail).
  destruct (parse_string n s1) as [[k r0]|] eqn:Hk; [|done]. cbn.
  destruct (parse_string_split _ _ _ _ Hv1 Hk) as [Hv0 _].
  rewrite (skip_compact_byte _ _ _ Hs) by done. eval_bytes. rewrite (compact_string _ _ _ _ Hv1 Hk). cbn.
  destruct (skip_ws r0) as [|c r1] eqn:Hs0; [done|].
  destruct (bool_decide (c = ":"%char)) eqn:Hc; [|done]. apply bool_decide_eq_true in Hc as ->.
  assert (utf8_valid r1 = true) as Hvr by (by eapply skip_ws_tail).
  destruct (parse_value n r1) as [[v r2]|] eqn:Hp; [|done]. cbn.
  rewrite (skip_compact_byte _ _ _ Hs0) by done. eval_bytes.
  destruct (parse_splits n) as [Hsv _]. destruct (Hsv _ _ _ Hvr Hp) as [Hv2 _].
  destruct (skip_ws r2) as [|a r3] eqn:Hs2; [done|]. destruct (bool_decide (a = "}"%char)) eqn:Ha.
  - apply bool_decide_eq_true in Ha as ->. intros [= <- <-].
    rewrite (IHv _ _ _ Hvr Hp) by (by eapply ends_byte). cbn. by rewrite (skip_compact_byte _ _ _ Hs2).
  - destruct (bool_decide (a = ","%char)) eqn:Hcm; [|done]. apply bool_decide_eq_true in Hcm as ->.
    destruct (parse_members n r3) as [[ms' r4]|] eqn:He; [|done]. intros [= <- <-].
    rewrite (IHv _ _ _ Hvr Hp) by (by eapply ends_byte). cbn. rewrite (skip_compact_byte _ _ _ Hs2) by done. eval_bytes.
    by rewrite (IHm r3 ms' r4) by (done || by eapply skip_ws_tail).
Qed.

Lemma parse_compacts n : value_compacts n ∧ elems_compact n ∧ members_compact n.
Proof.
  induction n as [|n (IHv & IHe & IHm)]; [by split_and!; intros ? ? ? _ ?|].
  split_and!; [by apply parse_value_compact|by apply parse_elems_compact|by apply parse_members_compact].
Qed.

(** ** Compaction keeps UTF-8 *)

Lemma hex_byte_ascii a : is_ascii_byte (hex_digit (byte_val a / 16)) = true ∧ is_ascii_byte (hex_digit (byte_val a mod 16)) = true.
Proof. by destruct a as [[] [] [] [] [] [] [] []]. Qed.

Lemma esc_u00_valid a s : utf8_valid (esc_u00 a +:+ s) = utf8_valid s.
Proof.
  destruct (hex_byte_ascii a) as [H1 H2]. unfold esc_u00, esc. autorewrite with append.
  do 4 rewrite utf8_valid_ascii by done. by rewrite !utf8_valid_ascii.
Qed.

Lemma esc_line_sep_valid c s : utf8_valid (esc_line_sep c +:+ s) = utf8_valid s.
Proof. unfold esc_line_sep, esc. autorewrite with append. destruct (_ =? _)%N; by rewrite !utf8_valid_ascii. Qed.

Lemma utf8_valid_cons r s : rune_wf r = true → rune_ok r = true → utf8_valid (rune_bytes r +:+ s) = utf8_valid s.
Proof.
  intros Hwf Hok. unfold utf8_valid. rewrite runes_next, (next_rune_cons _ _ Hwf Hok). cbn [forallb]. by rewrite Hok.
Qed.

Lemma compact_valid q e s : utf8_valid s = true → utf8_valid (compact q e s) = true.
Proof.
  revert q e. induction s as [s IH] using string_len_ind. intros q e Hv.
  destruct (next_rune s) as [[r s']|] eqn:Hn; [|by destruct s].
  pose proof (next_rune_length _ _ _ Hn) as Hlen.
  destruct (utf8_valid_next _ _ _ Hn Hv) as (Hok & Hwf & Heq & Hv').
  assert (∀ q e, utf8_valid (compact q e s') = true) as IH' by (intros; by apply IH).
  clear IH Hn Hv. rewrite Heq. clear Heq s Hlen.
  assert (match r with R1 _ => False | R3 a b c => is_line_sep a b c = false | _ => True end →
    utf8_valid (compact q e (rune_bytes r +:+ s')) = true) as Hplain.
  { intros Hr. rewrite compact_rune by done. by rewrite utf8_valid_cons. }
  revert Hok Hwf Hplain.
  destruct r as [a|a b|a b c|a b c d|a]; intros Hok Hwf Hplain; [|by apply Hplain| |by apply Hplain|done].
  - cbn [rune_bytes]. rewrite append_cons, append_empty_l. cbn [rune_wf] in Hwf. destruct (is_html a) eqn:Hh.
    + cbn [compact]. rewrite Hh. by rewrite esc_u00_valid.
    + destruct (kept_facts a) as [_ Hl]; [unfold kept; by rewrite Hh, Hwf|]. rewrite compact_step by eauto.
      destruct q; [by rewrite utf8_valid_ascii|]. destruct (is_ws a); [done|by rewrite utf8_valid_ascii].
  - destruct (is_line_sep a b c) eqn:Hl; [|by apply Hplain].
    cbn [rune_bytes]. autorewrite with append. cbn [compact].
    assert (is_html a = false) as -> by (apply line_sep_byte in Hl; by destruct a as [[] [] [] [] [] [] [] []]).
    by rewrite Hl, esc_line_sep_valid.
Qed.

(** The compacted text of a value reads as that value in any place. *)
Lemma MarshalRaw_reads raw v text :
  utf8_valid raw = true → Parse raw = Some v → MarshalRaw raw = Some text → reads_to text v.
Proof.
  unfold MarshalRaw. intros Hv Hp Hm. rewrite Hp in Hm. case_bool_decide; [done|]. injection Hm as <-. unfold Parse in Hp.
  destruct (parse_value (S (String.length raw)) raw) as [[v' r]|] eqn:Hr; [|done].
  case_bool_decide as Hs; [|done]. injection Hp as ->.
  destruct (parse_compacts (S (String.length raw))) as [Hc _].
  assert (ends r = true) as He by (unfold ends; by rewrite Hs).
  specialize (Hc _ _ _ Hv Hr He). rewrite (compact_skip r), Hs in Hc.
  destruct (parse_splits (S (String.length raw))) as [Hsp _].
  destruct (Hsp _ _ _ (compact_valid false false raw Hv) Hc) as (_ & x & Heq & Hx).
  rewrite append_nil_r in Heq. by rewrite Heq.
Qed.
