(* ===== verification/GoTime.v ===== *)
(** * Instants as text

    [time.Time.MarshalJSON] of an instant in UTC: the layout of RFC 3339 with
    the fraction of the second without trailing zeros.  Instants are counted
    in microseconds since 1970. *)

From S2P Require Import Prelude GoStrings Json.

(** ** The calendar

    Days since 1970-01-01 and dates of the proleptic Gregorian calendar: years
    begin in March and are grouped in eras of 400 years, or 146097 days. *)

Definition year_of_era (doe : Z) : Z := (doe - doe / 1460 + doe / 36524 - doe / 146096) / 365.
Definition day_of_year (doe yoe : Z) : Z := doe - (365 * yoe + yoe / 4 - yoe / 100).

Definition civil_from_days (z : Z) : Z * Z * Z :=
  let z := z + 719468 in
  let era := z / 146097 in
  let doe := z mod 146097 in
  let yoe := year_of_era doe in
  let doy := day_of_year doe yoe in
  let mp := (5 * doy + 2) / 153 in
  let d := doy - (153 * mp + 2) / 5 + 1 in
  let m := if mp <? 10 then mp + 3 else mp - 9 in
  (yoe + era * 400 + (if m <=? 2 then 1 else 0), m, d).

Definition days_from_civil (y m d : Z) : Z :=
  let y := if m <=? 2 then y - 1 else y in
  let era := y / 400 in
  let yoe := y mod 400 in
  let mp := if 2 <? m then m - 3 else m + 9 in
  let doy := (153 * mp + 2) / 5 + d - 1 in
  era * 146097 + (yoe * 365 + yoe / 4 - yoe / 100 + doy) - 719468.

(** ** The text *)

(** [n] decimal digits. *)
Fixpoint digits (n : nat) (x : Z) : string :=
  match n with
  | O => ""
  | S n' => digits n' (x / 10) +:+ String (ascii_of_N (Z.to_N (48 + x mod 10))) ""
  end.

(** The fraction: a point and the digits up to the last that is not zero. *)
Fixpoint fraction (n : nat) (x : Z) : string :=
  match n with
  | O => ""
  | S n' => if x mod 10 =? 0 then fraction n' (x / 10) else "." +:+ digits n x
  end.

Definition rfc3339 (t : Z) : string :=
  let secs := t / 1000000 in
  let '(y, m, d) := civil_from_days (secs / 86400) in
  let s := secs mod 86400 in
  string_concat [digits 4 y; "-"; digits 2 m; "-"; digits 2 d; "T";
    digits 2 (s / 3600); ":"; digits 2 (s / 60 mod 60); ":"; digits 2 (s mod 60); fraction 6 (t mod 1000000); "Z"].

Definition year_of (t : Z) : Z := let '(y, _, _) := civil_from_days (t / 1000000 / 86400) in y.

(** [MarshalJSON] fails for a year that has not four digits. *)
Definition time_json (t : Z) : option json :=
  if (0 <=? year_of t) && (year_of t <=? 9999) then Some (JStr (rfc3339 t)) else None.

Example rfc3339_epoch : rfc3339 0 = "1970-01-01T00:00:00Z".
Proof. vm_compute. reflexivity. Qed.
Example rfc3339_leap : rfc3339 1709211599120000 = "2024-02-29T12:59:59.12Z".
Proof. vm_compute. reflexivity. Qed.
Example rfc3339_before : rfc3339 (-1) = "1969-12-31T23:59:59.999999Z".
Proof. vm_compute. reflexivity. Qed.

(** ** The calendar is one to one *)

(** The year and the day of the year of a day of an era. *)
Lemma era_day doe :
  0 ≤ doe < 146097 → 0 ≤ year_of_era doe ≤ 399 ∧ 0 ≤ day_of_year doe (year_of_era doe) ≤ 365.
Proof. unfold day_of_year, year_of_era. intros. Z.to_euclidean_division_equations. lia. Qed.

(** The date of a day is the date of that day. *)
Lemma days_from_civil_from_days z :
  let '(y, m, d) := civil_from_days z in days_from_civil y m d = z ∧ 1 ≤ m ≤ 12 ∧ 1 ≤ d ≤ 31.
Proof.
  unfold civil_from_days. cbn zeta. set (doe := (z + 719468) mod 146097). set (era := (z + 719468) / 146097).
  assert (z + 719468 = era * 146097 + doe) as Hz by (unfold era, doe; rewrite (Z.div_mod (z + 719468) 146097) at 1 by lia; lia).
  destruct (era_day doe) as [Hy Hdoy]; [apply Z.mod_pos_bound; lia|].
  set (yoe := year_of_era doe) in *. set (doy := day_of_year doe yoe) in *. set (mp := (5 * doy + 2) / 153).
  set (q := (153 * mp + 2) / 5).
  assert (0 ≤ mp ≤ 11 ∧ 1 ≤ doy - q + 1 ≤ 31) as (Hm & Hd).
  { unfold q, mp. clearbody doy. Z.to_euclidean_division_equations. lia. }
  unfold days_from_civil. cbn zeta. destruct (mp <? 10) eqn:H10; [apply Z.ltb_lt in H10|apply Z.ltb_ge in H10].
  - assert ((mp + 3 <=? 2) = false) as -> by (apply Z.leb_gt; lia). assert ((2 <? mp + 3) = true) as -> by (apply Z.ltb_lt; lia).
    replace (mp + 3 - 3) with mp by lia. fold q. split; [|lia].
    rewrite Z.add_0_r, Z.div_add, Z.mod_add, (Z.div_small yoe), (Z.mod_small yoe) by lia.
    unfold doy, day_of_year in *. lia.
  - assert ((mp - 9 <=? 2) = true) as -> by (apply Z.leb_le; lia). assert ((2 <? mp - 9) = false) as -> by (apply Z.ltb_ge; lia).
    replace (mp - 9 + 9) with mp by lia. fold q. split; [|lia]. replace (yoe + era * 400 + 1 - 1) with (yoe + era * 400) by lia.
    rewrite Z.div_add, Z.mod_add, (Z.div_small yoe), (Z.mod_small yoe) by lia. unfold doy, day_of_year in *. lia.
Qed.
