(* ===== verification/Models.v ===== *)
(** * Rows of the database

    The structs of [internal/store/sqlc/models.go], which are the rows of the
    tables that [migrations/] creates.  A nullable column ([pgtype.Text],
    [pgtype.Int4], a nullable [pgtype.UUID] or [pgtype.Timestamptz]) is an
    [option], [None] standing for [Valid = false]; a [NOT NULL] column always
    scans to a valid value and has the type of that value.  Timestamps are
    instants in microseconds. *)

From S2P Require Import Prelude GoStrings.

(** ** UUIDs

    The 16 bytes of a UUID, read as one big-endian number. *)
Record UUID : Type := mkUUID { uuid_val : N; uuid_lt : (uuid_val <? 2 ^ 128)%N = true }.

Lemma UUID_eq (u v : UUID) : uuid_val u = uuid_val v → u = v.
Proof.
  destruct u as [n Hn], v as [m Hm]. simpl. intros <-. f_equal. apply (proof_irrel Hn Hm).
Qed.

#[global] Instance UUID_eq_dec : EqDecision UUID.
Proof.
  intros u v. refine (cast_if (decide (uuid_val u = uuid_val v)));
    [by apply UUID_eq | by intros ->].
Defined.

Definition uuid_of_N (n : N) : option UUID :=
  match (n <? 2 ^ 128)%N as b return (n <? 2 ^ 128)%N = b → option UUID with
  | true => λ H, Some (mkUUID n H)
  | false => λ _, None
  end eq_refl.

Lemma uuid_of_N_val u : uuid_of_N (uuid_val u) = Some u.
Proof.
  unfold uuid_of_N. destruct u as [n Hn]. simpl.
  generalize (eq_refl (n <? 2 ^ 128)%N). generalize (n <? 2 ^ 128)%N at 2 3 as b.
  intros [|] Hb; [|congruence]. by rewrite (proof_irrel Hb Hn).
Qed.

#[global] Program Instance UUID_countable : Countable UUID :=
  {| encode u := encode (uuid_val u); decode p := n ← decode p; uuid_of_N n |}.
Next Obligation.
  intros u. apply bind_Some. exists (uuid_val u). split; [apply decode_encode|apply uuid_of_N_val].
Qed.

#[global] Instance UUID_inhabited : Inhabited UUID := populate (mkUUID 0 eq_refl).

(** ** Rows *)

Record User := mkUser {
  User_ID : UUID;
  User_Email : string;
  User_PasswordHash : string;
  User_Role : string;
  User_CreatedAt : Z;
  User_UpdatedAt : Z
}.

Record RefreshToken := mkRefreshToken {
  RefreshToken_ID : UUID;
  RefreshToken_UserID : UUID;
  RefreshToken_TokenHash : string;
  RefreshToken_ExpiresAt : Z;
  RefreshToken_RevokedAt : option Z;
  RefreshToken_CreatedAt : Z
}.

Record Order := mkOrder {
  Order_ID : UUID;
  Order_UserID : UUID;
  Order_Status : string;
  Order_AmountCents : Z;
  Order_Currency : string;
  Order_Description : option string;
  Order_CreatedAt : Z;
  Order_UpdatedAt : Z
}.

Record Payment := mkPayment {
  Payment_ID : UUID;
  Payment_OrderID : UUID;
  Payment_Status : string;
  Payment_AmountCents : Z;
  Payment_Provider : string;
  Payment_ProviderRef : option string;
  Payment_FailureReason : option string;
  Payment_CreatedAt : Z;
  Payment_UpdatedAt : Z
}.

Record IdempotencyKey := mkIdempotencyKey {
  IdempotencyKey_ID : UUID;
  IdempotencyKey_UserID : UUID;
  IdempotencyKey_Key : string;
  IdempotencyKey_Method : string;
  IdempotencyKey_Path : string;
  IdempotencyKey_RequestHash : string;
  IdempotencyKey_ResponseBody : option string;
  IdempotencyKey_StatusCode : option Z;
  IdempotencyKey_ResourceType : option string;
  IdempotencyKey_ResourceID : option UUID;
  IdempotencyKey_CreatedAt : Z
}.

Record OutboxEvent := mkOutboxEvent {
  OutboxEvent_ID : UUID;
  OutboxEvent_AggregateType : string;
  OutboxEvent_AggregateID : UUID;
  OutboxEvent_EventType : string;
  OutboxEvent_Payload : string;
  OutboxEvent_PublishedAt : option Z;
  OutboxEvent_Attempt : Z;
  OutboxEvent_LastError : option string;
  OutboxEvent_CreatedAt : Z;
  OutboxEvent_PartitionKey : UUID
}.

Record ProcessedEvent := mkProcessedEvent {
  ProcessedEvent_EventID : UUID;
  ProcessedEvent_ConsumerName : string;
  ProcessedEvent_ProcessedAt : Z
}.

Record NotificationDelivery := mkNotificationDelivery {
  NotificationDelivery_ID : UUID;
  NotificationDelivery_EventID : UUID;
  NotificationDelivery_Channel : string;
  NotificationDelivery_Recipient : string;
  NotificationDelivery_Status : string;
  NotificationDelivery_Attempt : Z;
  NotificationDelivery_LastError : option string;
  NotificationDelivery_CreatedAt : Z;
  NotificationDelivery_UpdatedAt : Z
}.

(** ** The database: one finite map per table, keyed by its primary key *)

Record DB := mkDB {
  users : gmap UUID User;
  refresh_tokens : gmap UUID RefreshToken;
  orders : gmap UUID Order;
  payments : gmap UUID Payment;
  idempotency_keys : gmap UUID IdempotencyKey;
  outbox_events : gmap UUID OutboxEvent;
  processed_events : gmap (UUID * string) ProcessedEvent;
  notification_deliveries : gmap UUID NotificationDelivery
}.

(** The database after the migrations. *)
Definition empty_db : DB := mkDB ∅ ∅ ∅ ∅ ∅ ∅ ∅ ∅.

Definition set_users m db := mkDB m (refresh_tokens db) (orders db) (payments db)
  (idempotency_keys db) (outbox_events db) (processed_events db) (notification_deliveries db).
Definition set_refresh_tokens m db := mkDB (users db) m (orders db) (payments db)
  (idempotency_keys db) (outbox_events db) (processed_events db) (notification_deliveries db).
Definition set_orders m db := mkDB (users db) (refresh_tokens db) m (payments db)
  (idempotency_keys db) (outbox_events db) (processed_events db) (notification_deliveries db).
Definition set_payments m db := mkDB (users db) (refresh_tokens db) (orders db) m
  (idempotency_keys db) (outbox_events db) (processed_events db) (notification_deliveries db).
Definition set_idempotency_keys m db := mkDB (users db) (refresh_tokens db) (orders db) (payments db)
  m (outbox_events db) (processed_events db) (notification_deliveries db).
Definition set_outbox_events m db := mkDB (users db) (refresh_tokens db) (orders db) (payments db)
  (idempotency_keys db) m (processed_events db) (notification_deliveries db).
Definition set_processed_events m db := mkDB (users db) (refresh_tokens db) (orders db) (payments db)
  (idempotency_keys db) (outbox_events db) m (notification_deliveries db).
Definition set_notification_deliveries m db := mkDB (users db) (refresh_tokens db) (orders db) (payments db)
  (idempotency_keys db) (outbox_events db) (processed_events db) m.

(** ** Constraints of the schema ([migrations/001] to [004]) *)

Definition role_check (r : string) : bool := bool_decide (r = "customer") || bool_decide (r = "admin").

Definition order_status_check (s : string) : bool :=
  bool_decide (s = "pending_payment") || bool_decide (s = "paid")
  || bool_decide (s = "payment_failed") || bool_decide (s = "cancelled").

(** As migration 003 leaves it: "processing" is gone. *)
Definition payment_status_check (s : string) : bool :=
  bool_decide (s = "succeeded") || bool_decide (s = "failed").

Definition event_aggregate_check (agg ev : string) : bool :=
  (bool_decide (agg = "order") && (bool_decide (ev = "order.created") || bool_decide (ev = "order.cancelled")))
  || (bool_decide (agg = "payment") && (bool_decide (ev = "payment.succeeded") || bool_decide (ev = "payment.failed"))).

Definition delivery_status_check (s : string) : bool :=
  bool_decide (s = "pending") || bool_decide (s = "sent") || bool_decide (s = "failed").

(** A value of type [TEXT]: UTF-8 without the character NUL. *)
Definition text_ok (s : string) : bool :=
  utf8_valid s && forallb (λ a, negb (byte_val a =? 0)%N) (String.list_ascii_of_string s).

Lemma runes_ascii_cons a s : is_ascii_byte a = true → utf8_valid (String a s) = utf8_valid s.
Proof.
  intros Ha. unfold utf8_valid. rewrite (runes_next (String a s)). cbn [next_rune]. by rewrite Ha.
Qed.

Lemma text_ok_ascii_cons a s :
  is_ascii_byte a = true → negb (byte_val a =? 0)%N = true → text_ok (String a s) = text_ok s.
Proof. intros Ha Hn. unfold text_ok. rewrite runes_ascii_cons by done. cbn. by rewrite Hn. Qed.

Definition opt_text_ok (o : option string) : bool :=
  match o with Some s => text_ok s | None => true end.
