(* ===== verification/World.v ===== *)
(** * The world a process runs in

    The Go functions of the program are functions in a state-and-error monad
    [M]: they read and write a [World] and return a value or an [error].
    Everything that is not the program's own code is in the class [External]:
    the faults of the connections, the clock, fresh UUIDs, pgx's UUID
    conversions, the JSON form of pgx's types, Unicode case tables.  The
    theorems hold for every instance of it; [ExternalLaws] names the few
    documented facts that some of them rely on. *)

From S2P Require Import Prelude GoStrings Json Models.

(** ** Errors *)

Inductive error : Type :=
  (* internal/service/auth_service.go *)
  | ErrEmailAlreadyExists | ErrInvalidCredentials | ErrInvalidInput | ErrInvalidRefreshToken
  (* internal/service/order_service.go *)
  | ErrIdempotencyKeyRequired | ErrIdempotencyConflict | ErrOrderForbidden
  | ErrOrderInvalidStatus | ErrOrderNotFound
  (* internal/consumer, internal/auth, internal/distributedlock *)
  | ErrInvalidMessage | ErrInvalidToken | ErrLockNotAcquired
  (* pgx: no row for a [:one] query; an error reported by the server, with its SQLSTATE *)
  | ErrNoRows
  | PgError (code : string)
  (* a conversion to a UUID failed *)
  | ErrUUID (src : string)
  (* encoding/json *)
  | ErrJSON
  (* a connection or client error (timeout, reset, cancelled context) *)
  | ErrInfra (msg : string)
  (* errors.New, and fmt.Errorf with %w: the text around the wrapped error *)
  | ErrNew (msg : string)
  | ErrWrap (pre : string) (inner : error) (post : string).

#[global] Instance error_eq_dec : EqDecision error.
Proof. solve_decision. Defined.

(** [errors.Is]: the error or one it wraps. *)
Fixpoint errors_Is (e target : error) : bool :=
  bool_decide (e = target) ||
  match e with ErrWrap _ inner _ => errors_Is inner target | _ => false end.

(** [errors.As] to a [*pgconn.PgError]: its code. *)
Fixpoint errors_As_PgError (e : error) : option string :=
  match e with
  | PgError code => Some code
  | ErrWrap _ inner _ => errors_As_PgError inner
  | _ => None
  end.

(** [err.Error()].  The text of an error made outside the repository is
    [ext] of it. *)
Fixpoint error_text (ext : error → string) (e : error) : string :=
  match e with
  | ErrEmailAlreadyExists => "email already exists"
  | ErrInvalidCredentials => "invalid credentials"
  | ErrInvalidInput => "invalid input"
  | ErrInvalidRefreshToken => "invalid refresh token"
  | ErrIdempotencyKeyRequired => "idempotency key required"
  | ErrIdempotencyConflict => "idempotency conflict"
  | ErrOrderForbidden => "order forbidden"
  | ErrOrderInvalidStatus => "order invalid status"
  | ErrOrderNotFound => "order not found"
  | ErrInvalidMessage => "invalid event message"
  | ErrInvalidToken => "invalid token"
  | ErrLockNotAcquired => "lock not acquired"
  | ErrNoRows | PgError _ | ErrUUID _ | ErrJSON => ext e
  | ErrInfra msg | ErrNew msg => msg
  | ErrWrap pre inner post => pre +:+ error_text ext inner +:+ post
  end.

Inductive result (A : Type) : Type := Ok (a : A) | Err (e : error).
Arguments Ok {A} a.
Arguments Err {A} e.

Definition is_ok {A} (r : result A) : bool := match r with Ok _ => true | Err _ => false end.

(** ** Faults

    What happens to a call that reaches a server: nothing wrong, a failure
    before it took effect, or a failure after it took effect (the answer is
    lost). *)
Inductive Fault : Type := NoFault | FailBefore (msg : string) | FailAfter (msg : string).

(** ** Metrics and Kafka records *)

Inductive Metric : Type :=
  | OrdersCreatedTotal
  | PaymentsTotal (status : string)
  | OutboxEventsPublishedTotal (event_type : string)
  | OutboxEventsFailedTotal (event_type : string)
  | ConsumerEventsProcessedTotal (event_type : string)
  | ConsumerEventsDuplicateTotal (event_type : string)
  | HTTPRequestsTotal (method path status : string)
  (* one observation of the histogram, in microseconds *)
  | HTTPRequestDurationSeconds (method path status : string) (elapsed : Z)
  | RateLimitAllowedTotal (scope : string)
  | RateLimitBlockedTotal (scope : string).

#[global] Instance Metric_eq_dec : EqDecision Metric.
Proof. solve_decision. Defined.

(** A record of the topic: its key and its value. *)
Record KafkaRecord := mkKafkaRecord { rec_topic : string; rec_key : string; rec_value : string }.

#[global] Instance KafkaRecord_eq_dec : EqDecision KafkaRecord.
Proof. solve_decision. Defined.

(** ** The state of the world

    [w_tick] counts the calls to servers and indexes the oracles of
    [External]; [w_seed] counts the generated UUIDs; [w_txnow] is the start
    time of the open transaction, which is what [NOW()] means in it;
    [w_metrics] lists the increments of counters, latest first; [w_topic] is
    the Kafka log, latest record first. *)
Record World := mkWorld {
  w_db : DB;
  w_tick : nat;
  w_seed : nat;
  w_txnow : option Z;
  w_metrics : list Metric;
  w_topic : list KafkaRecord
}.

Definition set_db db w := mkWorld db (w_tick w) (w_seed w) (w_txnow w) (w_metrics w) (w_topic w).
Definition set_txnow t w := mkWorld (w_db w) (w_tick w) (w_seed w) t (w_metrics w) (w_topic w).
Definition add_metric m w := mkWorld (w_db w) (w_tick w) (w_seed w) (w_txnow w) (m :: w_metrics w) (w_topic w).
Definition add_record r w := mkWorld (w_db w) (w_tick w) (w_seed w) (w_txnow w) (w_metrics w) (r :: w_topic w).
Definition next_tick w := mkWorld (w_db w) (S (w_tick w)) (w_seed w) (w_txnow w) (w_metrics w) (w_topic w).
Definition next_seed w := mkWorld (w_db w) (w_tick w) (S (w_seed w)) (w_txnow w) (w_metrics w) (w_topic w).

Definition init_world (db : DB) : World := mkWorld db 0 0 None [] [].

(** ** Code outside the repository *)

Class External := {
  (* the fate of the n-th call to a server, and the time at which it runs *)
  fault : nat → Fault;
  clock : nat → Z;
  (* rows locked by other transactions, seen by [SKIP LOCKED] *)
  locked_rows : nat → gset UUID;
  (* github.com/google/uuid: [uuid.NewString], [uuid.Parse] *)
  uuid_NewString : nat → string;
  uuid_Parse : string → bool;
  (* pgtype.UUID: [Scan] of a string, [String] of a valid UUID *)
  UUID_Scan : string → option UUID;
  UUID_String : UUID → string;
  (* the JSONB column type: what is read back from the text stored *)
  jsonb : string → option string;
  (* json.Marshal of the structs that hold pgtype values *)
  json_Order : Order → result string;
  json_Payment : Payment → result string;
  (* unicode.ToUpper and ToLower on text outside ASCII *)
  unicode_upper : string → string;
  unicode_lower : string → string;
  (* unicode.IsPrint on the encoding of a rune outside ASCII *)
  unicode_is_print : string → bool;
  (* the text of an error of another package *)
  ext_text : error → string
}.

(** Documented facts about that code. *)
Class ExternalLaws `(External) := {
  (* a printed UUID reads back as itself *)
  UUID_Scan_String u : UUID_Scan (UUID_String u) = Some u;
  (* the empty string is no UUID *)
  UUID_Scan_empty : UUID_Scan "" = None;
  (* a UUID generated as text is the text pgx prints *)
  uuid_New_canonical n : ∃ u, UUID_String u = uuid_NewString n;
  (* google/uuid accepts what pgx prints *)
  uuid_Parse_String u : uuid_Parse (UUID_String u) = true;
  (* a UUID is printed with hexadecimal digits and dashes *)
  UUID_String_ascii u : is_ascii (UUID_String u) = true;
  (* google/uuid refuses the empty string *)
  uuid_Parse_empty : uuid_Parse "" = false;
  (* pgx reads 32 hexadecimal digits, with any byte in the four places of the
     dashes; google/uuid wants dashes there: a text that both read is ASCII,
     without a NUL, and so can be stored in a TEXT column *)
  uuid_Parse_text s u : UUID_Scan s = Some u → uuid_Parse (sanitize s) = true → text_ok (sanitize s) = true
}.

(** A member of the payload of an event: a text or an integer. *)
Definition flat (m : string * json) : Prop := (∃ s, m.2 = JStr s) ∨ ∃ z, m.2 = JInt z.

(** What PostgreSQL promises of a [jsonb] column, for objects without nested
    values: the text read back is UTF-8 and has the same members, whose order
    is not kept. *)
Class JsonbLaws `(External) := {
  jsonb_object text ms p :
    Parse text = Some (JObj ms) → NoDup ms.*1 → Forall flat ms → jsonb text = Some p →
    utf8_valid p = true ∧ ∃ ms', Parse p = Some (JObj ms') ∧ ms' ≡ₚ ms
}.

(** [String] of a nullable UUID: empty when it is not valid. *)
Definition UUID_opt_String `{External} (o : option UUID) : string :=
  match o with Some u => UUID_String u | None => "" end.

(** ** The monad *)

Definition M (A : Type) : Type := World → result A * World.

Definition ret {A} (a : A) : M A := λ w, (Ok a, w).
Definition throw {A} (e : error) : M A := λ w, (Err e, w).
Definition bind {A B} (m : M A) (f : A → M B) : M B := λ w,
  match m w with
  | (Ok a, w') => f a w'
  | (Err e, w') => (Err e, w')
  end.

(** [v, err := m] with both looked at. *)
Definition try {A} (m : M A) : M (result A) := λ w, let '(r, w') := m w in (Ok r, w').

Definition lift {A} (r : result A) : M A := λ w, (r, w).

Declare Scope go_scope.
Notation "'let*' x ':=' m 'in' k" := (bind m (λ x, k))
  (at level 10, x name, m at level 100, k at level 200) : go_scope.
Notation "'do*' m 'in' k" := (bind m (λ _, k))
  (at level 10, m at level 100, k at level 200) : go_scope.
#[global] Open Scope go_scope.

(** [if c { return zero, e }] in front of the rest. *)
Notation "'return_if' c 'with_err' e 'in' k" := (if c then throw e else k)
  (at level 10, c at level 100, e at level 100, k at level 200) : go_scope.

Definition inc (m : Metric) : M unit := λ w, (Ok tt, add_metric m w).

Section calls.
Context `{External}.

(** [uuid.NewString()] *)
Definition NewString : M string := λ w, (Ok (uuid_NewString (w_seed w)), next_seed w).

(** [NOW()]: the start of the transaction, or the time of the statement. *)
Definition sql_now (w : World) : Z := default (clock (w_tick w)) (w_txnow w).

(** One statement sent to the server. *)
Definition query {A} (q : DB → Z → result (A * DB)) : M A := λ w,
  let w1 := next_tick w in
  match fault (w_tick w) with
  | FailBefore msg => (Err (ErrInfra msg), w1)
  | FailAfter msg =>
    match q (w_db w) (sql_now w) with
    | Ok (_, db) => (Err (ErrInfra msg), set_db db w1)
    | Err _ => (Err (ErrInfra msg), w1)
    end
  | NoFault =>
    match q (w_db w) (sql_now w) with
    | Ok (a, db) => (Ok a, set_db db w1)
    | Err e => (Err e, w1)
    end
  end.

(** [time.Now().UTC()] *)
Definition time_now : M Z := λ w, (Ok (clock (w_tick w)), next_tick w).
End calls.

#[global] Arguments sql_now : simpl never.

(** ** Reasoning: inversion of runs that return *)

Lemma bind_ok {A B} (m : M A) (f : A → M B) w b w' :
  bind m f w = (Ok b, w') → ∃ a w1, m w = (Ok a, w1) ∧ f a w1 = (Ok b, w').
Proof. unfold bind. destruct (m w) as [[a|e] w1]; [eauto|done]. Qed.

Lemma bind_eval {A B} (m : M A) (f : A → M B) w a w1 :
  m w = (Ok a, w1) → bind m f w = f a w1.
Proof. unfold bind. by intros ->. Qed.

Lemma bind_eval_err {A B} (m : M A) (f : A → M B) w e w1 :
  m w = (Err e, w1) → bind m f w = (Err e, w1).
Proof. unfold bind. by intros ->. Qed.

Lemma try_ok {A} (m : M A) w r w' : try m w = (r, w') → ∃ r0, r = Ok r0 ∧ m w = (r0, w').
Proof. unfold try. destruct (m w) as [r0 w0]. intros [= <- <-]. eauto. Qed.

Lemma try_eval {A} (m : M A) w r w1 : m w = (r, w1) → try m w = (Ok r, w1).
Proof. unfold try. by intros ->. Qed.

Lemma ret_ok {A} (a b : A) w w' : ret a w = (Ok b, w') → b = a ∧ w' = w.
Proof. by intros [= <- <-]. Qed.

Lemma lift_ok {A} (r : result A) a w w' : lift r w = (Ok a, w') → r = Ok a ∧ w' = w.
Proof. by intros [= <- <-]. Qed.

Lemma throw_ok {A} e (b : A) w w' : throw e w = (Ok b, w') → False.
Proof. done. Qed.

Section query_facts.
Context `{External}.

(** What a statement can do: answer and change the tables as it says, or
    fail, with or without having changed them. *)
Lemma query_cases {A} (q : DB → Z → result (A * DB)) w r w' :
  query q w = (r, w') →
  (∃ a db, r = Ok a ∧ q (w_db w) (sql_now w) = Ok (a, db) ∧ w' = set_db db (next_tick w))
  ∨ (∃ e, r = Err e ∧ w' = next_tick w)
  ∨ (∃ e a db, r = Err e ∧ q (w_db w) (sql_now w) = Ok (a, db) ∧ w' = set_db db (next_tick w)).
Proof.
  unfold query. destruct (fault (w_tick w)) as [|msg|msg]; cbn zeta.
  - destruct (q (w_db w) (sql_now w)) as [[a db]|e]; intros [= <- <-]; eauto 10.
  - intros [= <- <-]; eauto 10.
  - destruct (q (w_db w) (sql_now w)) as [[a db]|e]; intros [= <- <-]; eauto 10.
Qed.

Lemma query_ok {A} (q : DB → Z → result (A * DB)) w a w' :
  query q w = (Ok a, w') →
  ∃ db, q (w_db w) (sql_now w) = Ok (a, db) ∧ w' = set_db db (next_tick w).
Proof. intros Hq. apply query_cases in Hq. naive_solver. Qed.

Lemma query_nofault {A} (q : DB → Z → result (A * DB)) w :
  fault (w_tick w) = NoFault →
  query q w = match q (w_db w) (sql_now w) with
              | Ok (a, db) => (Ok a, set_db db (next_tick w))
              | Err e => (Err e, next_tick w)
              end.
Proof. unfold query. by intros ->. Qed.

Lemma NewString_ok w s w' :
  NewString w = (Ok s, w') → s = uuid_NewString (w_seed w) ∧ w' = next_seed w.
Proof. by intros [= <- <-]. Qed.
End query_facts.

(** Computations that leave the tables alone, whatever happens. *)
Definition readonly {A} (m : M A) : Prop := ∀ w, w_db (m w).2 = w_db w.

Lemma readonly_run {A} (m : M A) w r w' : readonly m → m w = (r, w') → w_db w' = w_db w.
Proof. intros Hr Hm. specialize (Hr w). by rewrite Hm in Hr. Qed.

Lemma readonly_ret {A} (a : A) : readonly (ret a).
Proof. done. Qed.
Lemma readonly_throw {A} e : readonly (@throw A e).
Proof. done. Qed.
Lemma readonly_lift {A} (r : result A) : readonly (lift r).
Proof. done. Qed.
Lemma readonly_inc m : readonly (inc m).
Proof. done. Qed.
Lemma readonly_NewString `{External} : readonly NewString.
Proof. done. Qed.
Lemma readonly_time_now `{External} : readonly time_now.
Proof. done. Qed.
Lemma readonly_bind {A B} (m : M A) (f : A → M B) :
  readonly m → (∀ a, readonly (f a)) → readonly (bind m f).
Proof.
  intros Hm Hf w. unfold bind. specialize (Hm w). destruct (m w) as [[a|e] w1]; [|done].
  simpl in Hm. by rewrite Hf.
Qed.
Lemma readonly_try {A} (m : M A) : readonly m → readonly (try m).
Proof. intros Hm w. unfold try. specialize (Hm w). by destruct (m w). Qed.
Lemma readonly_query `{External} {A} (q : DB → Z → result (A * DB)) :
  (∀ db now a db', q db now = Ok (a, db') → db' = db) → readonly (query q).
Proof.
  intros Hq w. destruct (query q w) as [r w'] eqn:Hr. apply query_cases in Hr. simpl.
  destruct Hr as [(?&?&?&?%Hq&->)|[(?&?&->)|(?&?&?&?&?%Hq&->)]]; by subst.
Qed.

#[export] Hint Resolve readonly_ret readonly_throw readonly_lift readonly_inc readonly_NewString
  readonly_time_now readonly_bind readonly_try : orderdb.

(** Computations that count nothing and send nothing. *)
Definition silent {A} (m : M A) : Prop :=
  ∀ w, w_metrics (m w).2 = w_metrics w ∧ w_topic (m w).2 = w_topic w.

Lemma silent_run {A} (m : M A) w r w' :
  silent m → m w = (r, w') → w_metrics w' = w_metrics w ∧ w_topic w' = w_topic w.
Proof. intros Hs Hm. specialize (Hs w). by rewrite Hm in Hs. Qed.

Lemma silent_ret {A} (a : A) : silent (ret a).
Proof. done. Qed.
Lemma silent_throw {A} e : silent (@throw A e).
Proof. done. Qed.
Lemma silent_lift {A} (r : result A) : silent (lift r).
Proof. done. Qed.
Lemma silent_NewString `{External} : silent NewString.
Proof. done. Qed.
Lemma silent_bind {A B} (m : M A) (f : A → M B) : silent m → (∀ a, silent (f a)) → silent (bind m f).
Proof.
  intros Hm Hf w. unfold bind. specialize (Hm w). destruct (m w) as [[a|e] w1]; [|done].
  simpl in Hm. destruct Hm as [<- <-]. apply Hf.
Qed.
Lemma silent_try {A} (m : M A) : silent m → silent (try m).
Proof. intros Hm w. unfold try. specialize (Hm w). by destruct (m w). Qed.
Lemma silent_query `{External} {A} (q : DB → Z → result (A * DB)) : silent (query q).
Proof.
  intros w. destruct (query q w) as [r w'] eqn:Hr. apply query_cases in Hr. simpl.
  by destruct Hr as [(?&?&?&?&->)|[(?&?&->)|(?&?&?&?&?&->)]].
Qed.

#[export] Hint Resolve silent_ret silent_throw silent_lift silent_NewString silent_bind silent_try
  silent_query : orderdb.
