(* ===== verification/Sqlc.v ===== *)
(** * The generated queries

    [internal/store/sqlc/*.sql.go]: each function sends the SQL text in the
    constant above it and scans the row that comes back.  The definitions
    below give that SQL its meaning on the tables of [Models], under the
    constraints of [migrations/]: the parameters are converted to the column
    types, then the [CHECK] constraints, the unique keys and the foreign keys
    are tested, in this order, as PostgreSQL does for one row.  The SQLSTATE
    codes are those of PostgreSQL: 22021 ill-formed text, 22P02 ill-formed
    JSON, 22003 integer out of range, 23514 check, 23505 unique, 23503 foreign
    key, 2201W negative [LIMIT].  A [:one] query without a row gives
    [pgx.ErrNoRows]. *)

From S2P Require Import Prelude GoStrings Json Models World.

(** ** Conditions on one row, with the code of the violation *)

Fixpoint first_violation (gs : list (bool * string)) : option string :=
  match gs with
  | [] => None
  | (ok, code) :: gs' => if ok then first_violation gs' else Some code
  end.

Definition guarded {A} (gs : list (bool * string)) (a : A) : result A :=
  match first_violation gs with Some code => Err (PgError code) | None => Ok a end.

(** A [:one] query: the row, or [pgx.ErrNoRows]. *)
Definition one_row {A B} (o : option A) (k : A → result B) : result B :=
  match o with Some a => k a | None => Err ErrNoRows end.

Definition absent `{Countable K} {A} (k : K) (m : gmap K A) : bool := bool_decide (m !! k = None).
Definition present `{Countable K} {A} (k : K) (m : gmap K A) : bool := bool_decide (is_Some (m !! k)).

(** ** Parameters *)

Record CreateUserParams := mkCreateUserParams {
  qCreateUser_ID : UUID;
  qCreateUser_Email : string;
  qCreateUser_PasswordHash : string;
  qCreateUser_Role : string
}.

Record CreateRefreshTokenParams := mkCreateRefreshTokenParams {
  qCreateRefreshToken_ID : UUID;
  qCreateRefreshToken_UserID : UUID;
  qCreateRefreshToken_TokenHash : string;
  qCreateRefreshToken_ExpiresAt : Z
}.

Record CreateOrderParams := mkCreateOrderParams {
  qCreateOrder_ID : UUID;
  qCreateOrder_UserID : UUID;
  qCreateOrder_Status : string;
  qCreateOrder_AmountCents : Z;
  qCreateOrder_Currency : string;
  qCreateOrder_Description : option string
}.

Record UpdateOrderStatusParams := mkUpdateOrderStatusParams {
  qUpdateOrderStatus_ID : UUID;
  qUpdateOrderStatus_Status : string
}.

Record CreatePaymentParams := mkCreatePaymentParams {
  qCreatePayment_ID : UUID;
  qCreatePayment_OrderID : UUID;
  qCreatePayment_Status : string;
  qCreatePayment_AmountCents : Z;
  qCreatePayment_Provider : string;
  qCreatePayment_ProviderRef : option string;
  qCreatePayment_FailureReason : option string
}.

Record CreateIdempotencyKeyParams := mkCreateIdempotencyKeyParams {
  qCreateIdempotencyKey_ID : UUID;
  qCreateIdempotencyKey_UserID : UUID;
  qCreateIdempotencyKey_Key : string;
  qCreateIdempotencyKey_Method : string;
  qCreateIdempotencyKey_Path : string;
  qCreateIdempotencyKey_RequestHash : string;
  qCreateIdempotencyKey_ResponseBody : string;
  qCreateIdempotencyKey_StatusCode : option Z;
  qCreateIdempotencyKey_ResourceType : option string;
  qCreateIdempotencyKey_ResourceID : option UUID
}.

Record GetIdempotencyKeyParams := mkGetIdempotencyKeyParams {
  qGetIdempotencyKey_UserID : UUID;
  qGetIdempotencyKey_Key : string
}.

Record CreateOutboxEventParams := mkCreateOutboxEventParams {
  qCreateOutboxEvent_ID : UUID;
  qCreateOutboxEvent_AggregateType : string;
  qCreateOutboxEvent_AggregateID : UUID;
  qCreateOutboxEvent_PartitionKey : UUID;
  qCreateOutboxEvent_EventType : string;
  qCreateOutboxEvent_Payload : string
}.

Record MarkOutboxEventFailedParams := mkMarkOutboxEventFailedParams {
  qMarkOutboxEventFailed_ID : UUID;
  qMarkOutboxEventFailed_LastError : option string
}.

Record TryCreateProcessedEventParams := mkTryCreateProcessedEventParams {
  qTryCreateProcessedEvent_EventID : UUID;
  qTryCreateProcessedEvent_ConsumerName : string
}.

Record CreateNotificationDeliveryParams := mkCreateNotificationDeliveryParams {
  qCreateNotificationDelivery_ID : UUID;
  qCreateNotificationDelivery_EventID : UUID;
  qCreateNotificationDelivery_Channel : string;
  qCreateNotificationDelivery_Recipient : string;
  qCreateNotificationDelivery_Status : string
}.

Section queries.
Context `{External}.

(** ** users.sql *)

Definition CreateUser (arg : CreateUserParams) : M User :=
  query (λ db now,
    let row := mkUser (qCreateUser_ID arg) (qCreateUser_Email arg) (qCreateUser_PasswordHash arg)
                      (qCreateUser_Role arg) now now in
    guarded [
      (text_ok (qCreateUser_Email arg) && text_ok (qCreateUser_PasswordHash arg)
       && text_ok (qCreateUser_Role arg), "22021");
      (role_check (qCreateUser_Role arg), "23514");
      (absent (qCreateUser_ID arg) (users db), "23505");
      (bool_decide (lookup_by (λ u, bool_decide (User_Email u = qCreateUser_Email arg)) (users db) = None), "23505")
    ] (row, set_users (<[qCreateUser_ID arg := row]> (users db)) db)).

Definition GetUser (id : UUID) : M User :=
  query (λ db _, one_row (users db !! id) (λ u, Ok (u, db))).

Definition GetUserByEmail (email : string) : M User :=
  query (λ db _,
    if text_ok email
    then one_row (lookup_by (λ u, bool_decide (User_Email u = email)) (users db)) (λ u, Ok (u, db))
    else Err (PgError "22021")).

(** ** refresh_tokens.sql *)

Definition CreateRefreshToken (arg : CreateRefreshTokenParams) : M RefreshToken :=
  query (λ db now,
    let row := mkRefreshToken (qCreateRefreshToken_ID arg) (qCreateRefreshToken_UserID arg)
                 (qCreateRefreshToken_TokenHash arg) (qCreateRefreshToken_ExpiresAt arg) None now in
    guarded [
      (text_ok (qCreateRefreshToken_TokenHash arg), "22021");
      (absent (qCreateRefreshToken_ID arg) (refresh_tokens db), "23505");
      (bool_decide (lookup_by (λ t, bool_decide (RefreshToken_TokenHash t = qCreateRefreshToken_TokenHash arg))
                              (refresh_tokens db) = None), "23505");
      (present (qCreateRefreshToken_UserID arg) (users db), "23503")
    ] (row, set_refresh_tokens (<[qCreateRefreshToken_ID arg := row]> (refresh_tokens db)) db)).

Definition GetRefreshTokenByHash (tokenHash : string) : M RefreshToken :=
  query (λ db _,
    if text_ok tokenHash
    then one_row (lookup_by (λ t, bool_decide (RefreshToken_TokenHash t = tokenHash)) (refresh_tokens db))
                 (λ t, Ok (t, db))
    else Err (PgError "22021")).

(** [SET revoked_at = NOW() WHERE id = $1 AND revoked_at IS NULL] *)
Definition revoke (now : Z) (t : RefreshToken) : RefreshToken :=
  mkRefreshToken (RefreshToken_ID t) (RefreshToken_UserID t) (RefreshToken_TokenHash t)
    (RefreshToken_ExpiresAt t) (Some now) (RefreshToken_CreatedAt t).

Definition RevokeRefreshToken (id : UUID) : M RefreshToken :=
  query (λ db now,
    one_row (refresh_tokens db !! id) (λ t,
      match RefreshToken_RevokedAt t with
      | Some _ => Err ErrNoRows
      | None => Ok (revoke now t, set_refresh_tokens (<[id := revoke now t]> (refresh_tokens db)) db)
      end)).

(** ** orders.sql *)

Definition CreateOrder (arg : CreateOrderParams) : M Order :=
  query (λ db now,
    let row := mkOrder (qCreateOrder_ID arg) (qCreateOrder_UserID arg) (qCreateOrder_Status arg)
                 (qCreateOrder_AmountCents arg) (qCreateOrder_Currency arg) (qCreateOrder_Description arg) now now in
    guarded [
      (text_ok (qCreateOrder_Status arg) && text_ok (qCreateOrder_Currency arg)
       && opt_text_ok (qCreateOrder_Description arg), "22021");
      (order_status_check (qCreateOrder_Status arg) && (0 <? qCreateOrder_AmountCents arg), "23514");
      (absent (qCreateOrder_ID arg) (orders db), "23505");
      (present (qCreateOrder_UserID arg) (users db), "23503")
    ] (row, set_orders (<[qCreateOrder_ID arg := row]> (orders db)) db)).

Definition GetOrder (id : UUID) : M Order :=
  query (λ db _, one_row (orders db !! id) (λ o, Ok (o, db))).

(** [FOR UPDATE] also locks the row until the transaction ends: [Locks] says
    which locks a statement takes, and [Serializability] what they are for. *)
Definition GetOrderForUpdate (id : UUID) : M Order :=
  query (λ db _, one_row (orders db !! id) (λ o, Ok (o, db))).

Definition ListOrders : M (list Order) :=
  query (λ db _, Ok (order_by_desc Order_CreatedAt (rows (orders db)), db)).

Definition ListOrdersByUser (userID : UUID) : M (list Order) :=
  query (λ db _,
    Ok (order_by_desc Order_CreatedAt (select (λ o, bool_decide (Order_UserID o = userID)) (orders db)), db)).

Definition with_status (status : string) (now : Z) (o : Order) : Order :=
  mkOrder (Order_ID o) (Order_UserID o) status (Order_AmountCents o) (Order_Currency o)
    (Order_Description o) (Order_CreatedAt o) now.

Definition UpdateOrderStatus (arg : UpdateOrderStatusParams) : M Order :=
  query (λ db now,
    if text_ok (qUpdateOrderStatus_Status arg) then
      one_row (orders db !! qUpdateOrderStatus_ID arg) (λ o,
        let row := with_status (qUpdateOrderStatus_Status arg) now o in
        guarded [(order_status_check (qUpdateOrderStatus_Status arg), "23514")]
          (row, set_orders (<[qUpdateOrderStatus_ID arg := row]> (orders db)) db))
    else Err (PgError "22021")).

(** ** payments.sql *)

Definition CreatePayment (arg : CreatePaymentParams) : M Payment :=
  query (λ db now,
    let row := mkPayment (qCreatePayment_ID arg) (qCreatePayment_OrderID arg) (qCreatePayment_Status arg)
                 (qCreatePayment_AmountCents arg) (qCreatePayment_Provider arg)
                 (qCreatePayment_ProviderRef arg) (qCreatePayment_FailureReason arg) now now in
    guarded [
      (text_ok (qCreatePayment_Status arg) && text_ok (qCreatePayment_Provider arg)
       && opt_text_ok (qCreatePayment_ProviderRef arg) && opt_text_ok (qCreatePayment_FailureReason arg), "22021");
      (payment_status_check (qCreatePayment_Status arg) && (0 <? qCreatePayment_AmountCents arg), "23514");
      (absent (qCreatePayment_ID arg) (payments db), "23505");
      (present (qCreatePayment_OrderID arg) (orders db), "23503")
    ] (row, set_payments (<[qCreatePayment_ID arg := row]> (payments db)) db)).

Definition GetPayment (id : UUID) : M Payment :=
  query (λ db _, one_row (payments db !! id) (λ p, Ok (p, db))).

(** ** idempotency.sql *)

Definition same_key (userID : UUID) (key : string) (k : IdempotencyKey) : bool :=
  bool_decide (IdempotencyKey_UserID k = userID) && bool_decide (IdempotencyKey_Key k = key).

Definition CreateIdempotencyKey (arg : CreateIdempotencyKeyParams) : M IdempotencyKey :=
  query (λ db now,
    match jsonb (qCreateIdempotencyKey_ResponseBody arg) with
    | None => Err (PgError "22P02")
    | Some body =>
      let row := mkIdempotencyKey (qCreateIdempotencyKey_ID arg) (qCreateIdempotencyKey_UserID arg)
                   (qCreateIdempotencyKey_Key arg) (qCreateIdempotencyKey_Method arg)
                   (qCreateIdempotencyKey_Path arg) (qCreateIdempotencyKey_RequestHash arg) (Some body)
                   (qCreateIdempotencyKey_StatusCode arg) (qCreateIdempotencyKey_ResourceType arg)
                   (qCreateIdempotencyKey_ResourceID arg) now in
      guarded [
        (text_ok (qCreateIdempotencyKey_Key arg) && text_ok (qCreateIdempotencyKey_Method arg)
         && text_ok (qCreateIdempotencyKey_Path arg) && text_ok (qCreateIdempotencyKey_RequestHash arg)
         && opt_text_ok (qCreateIdempotencyKey_ResourceType arg), "22021");
        (absent (qCreateIdempotencyKey_ID arg) (idempotency_keys db), "23505");
        (bool_decide (lookup_by (same_key (qCreateIdempotencyKey_UserID arg) (qCreateIdempotencyKey_Key arg))
                                (idempotency_keys db) = None), "23505");
        (present (qCreateIdempotencyKey_UserID arg) (users db), "23503")
      ] (row, set_idempotency_keys (<[qCreateIdempotencyKey_ID arg := row]> (idempotency_keys db)) db)
    end).

Definition GetIdempotencyKey (arg : GetIdempotencyKeyParams) : M IdempotencyKey :=
  query (λ db _,
    if text_ok (qGetIdempotencyKey_Key arg)
    then one_row (lookup_by (same_key (qGetIdempotencyKey_UserID arg) (qGetIdempotencyKey_Key arg))
                            (idempotency_keys db)) (λ k, Ok (k, db))
    else Err (PgError "22021")).

(** ** outbox.sql *)

Definition CreateOutboxEvent (arg : CreateOutboxEventParams) : M OutboxEvent :=
  query (λ db now,
    match jsonb (qCreateOutboxEvent_Payload arg) with
    | None => Err (PgError "22P02")
    | Some payload =>
      let row := mkOutboxEvent (qCreateOutboxEvent_ID arg) (qCreateOutboxEvent_AggregateType arg)
                   (qCreateOutboxEvent_AggregateID arg) (qCreateOutboxEvent_EventType arg) payload None 0 None now
                   (qCreateOutboxEvent_PartitionKey arg) in
      guarded [
        (text_ok (qCreateOutboxEvent_AggregateType arg) && text_ok (qCreateOutboxEvent_EventType arg), "22021");
        (event_aggregate_check (qCreateOutboxEvent_AggregateType arg) (qCreateOutboxEvent_EventType arg), "23514");
        (absent (qCreateOutboxEvent_ID arg) (outbox_events db), "23505")
      ] (row, set_outbox_events (<[qCreateOutboxEvent_ID arg := row]> (outbox_events db)) db)
    end).

(** [WHERE published_at IS NULL ORDER BY created_at LIMIT $1 FOR UPDATE SKIP LOCKED] *)
Definition claimable (locked : gset UUID) (e : OutboxEvent) : bool :=
  bool_decide (OutboxEvent_PublishedAt e = None) && bool_decide (OutboxEvent_ID e ∉ locked).

Definition ClaimOutboxEvents (limit : Z) : M (list OutboxEvent) := λ w,
  query (λ db _,
    if bool_decide (limit < 0) then Err (PgError "2201W")
    else Ok (take (Z.to_nat limit)
               (order_by OutboxEvent_CreatedAt (select (claimable (locked_rows (w_tick w))) (outbox_events db))), db)) w.

Definition mark_published (now : Z) (e : OutboxEvent) : OutboxEvent :=
  mkOutboxEvent (OutboxEvent_ID e) (OutboxEvent_AggregateType e) (OutboxEvent_AggregateID e)
    (OutboxEvent_EventType e) (OutboxEvent_Payload e) (Some now) (OutboxEvent_Attempt e) None
    (OutboxEvent_CreatedAt e) (OutboxEvent_PartitionKey e).

Definition MarkOutboxEventPublished (id : UUID) : M OutboxEvent :=
  query (λ db now,
    one_row (outbox_events db !! id) (λ e,
      Ok (mark_published now e, set_outbox_events (<[id := mark_published now e]> (outbox_events db)) db))).

Definition mark_failed (lastError : option string) (e : OutboxEvent) : OutboxEvent :=
  mkOutboxEvent (OutboxEvent_ID e) (OutboxEvent_AggregateType e) (OutboxEvent_AggregateID e)
    (OutboxEvent_EventType e) (OutboxEvent_Payload e) (OutboxEvent_PublishedAt e) (OutboxEvent_Attempt e + 1)
    lastError (OutboxEvent_CreatedAt e) (OutboxEvent_PartitionKey e).

Definition MarkOutboxEventFailed (arg : MarkOutboxEventFailedParams) : M OutboxEvent :=
  query (λ db _,
    if opt_text_ok (qMarkOutboxEventFailed_LastError arg) then
      one_row (outbox_events db !! qMarkOutboxEventFailed_ID arg) (λ e,
        let row := mark_failed (qMarkOutboxEventFailed_LastError arg) e in
        guarded [
          (bool_decide (OutboxEvent_Attempt row ≤ int32_max), "22003");
          (bool_decide (0 ≤ OutboxEvent_Attempt row), "23514")
        ] (row, set_outbox_events (<[qMarkOutboxEventFailed_ID arg := row]> (outbox_events db)) db))
    else Err (PgError "22021")).

(** ** processed_events.sql *)

(** [ON CONFLICT DO NOTHING RETURNING ...]: no row when the key exists. *)
Definition TryCreateProcessedEvent (arg : TryCreateProcessedEventParams) : M ProcessedEvent :=
  query (λ db now,
    let key := (qTryCreateProcessedEvent_EventID arg, qTryCreateProcessedEvent_ConsumerName arg) in
    let row := mkProcessedEvent key.1 key.2 now in
    if text_ok (qTryCreateProcessedEvent_ConsumerName arg) then
      match processed_events db !! key with
      | Some _ => Err ErrNoRows
      | None => Ok (row, set_processed_events (<[key := row]> (processed_events db)) db)
      end
    else Err (PgError "22021")).

(** ** notification_deliveries.sql *)

Definition CreateNotificationDelivery (arg : CreateNotificationDeliveryParams) : M NotificationDelivery :=
  query (λ db now,
    let row := mkNotificationDelivery (qCreateNotificationDelivery_ID arg) (qCreateNotificationDelivery_EventID arg)
                 (qCreateNotificationDelivery_Channel arg) (qCreateNotificationDelivery_Recipient arg)
                 (qCreateNotificationDelivery_Status arg) 0 None now now in
    guarded [
      (text_ok (qCreateNotificationDelivery_Channel arg) && text_ok (qCreateNotificationDelivery_Recipient arg)
       && text_ok (qCreateNotificationDelivery_Status arg), "22021");
      (delivery_status_check (qCreateNotificationDelivery_Status arg), "23514");
      (absent (qCreateNotificationDelivery_ID arg) (notification_deliveries db), "23505")
    ] (row, set_notification_deliveries
              (<[qCreateNotificationDelivery_ID arg := row]> (notification_deliveries db)) db)).
End queries.

(** ** What a query that answers has done *)

Lemma guarded_ok {A} gs (a b : A) : guarded gs a = Ok b → b = a ∧ Forall (λ g, g.1 = true) gs.
Proof.
  unfold guarded. induction gs as [|[ok code] gs IH]; cbn; [by intros [= <-]|].
  destruct ok; [|done]. intros Hg. apply IH in Hg as [-> Hall]. split; [done|]. by constructor.
Qed.

Lemma guarded_pass {A} gs (a : A) : Forall (λ g, g.1 = true) gs → guarded gs a = Ok a.
Proof.
  unfold guarded. intros Hg. assert (first_violation gs = None) as ->; [|done].
  induction Hg as [|[ok code] gs Hok Hg IH]; [done|]. simpl in *. by rewrite Hok.
Qed.

Lemma one_row_ok {A B} (o : option A) (k : A → result B) b :
  one_row o k = Ok b → ∃ a, o = Some a ∧ k a = Ok b.
Proof. destruct o; [eauto|done]. Qed.

(** Turn the hypotheses a passed guard leaves into propositions. *)
Ltac split_guards :=
  repeat match goal with
  | H : Forall _ (_ :: _) |- _ => apply Forall_cons in H as [? H]; cbn [fst] in *
  | H : Forall _ [] |- _ => clear H
  | H : _ && _ = true |- _ => apply andb_true_iff in H as [? ?]
  | H : bool_decide _ = true |- _ => apply bool_decide_eq_true in H
  | H : absent _ _ = true |- _ => unfold absent in H
  | H : present _ _ = true |- _ => unfold present in H
  | H : (_ <? _) = true |- _ => apply Z.ltb_lt in H
  end.

Ltac query_inv H :=
  apply query_ok in H; destruct H as (? & H & ?); subst;
  repeat match type of H with
  | (if ?c then _ else _) = _ => destruct c eqn:?; [|discriminate H]
  | one_row _ _ = _ => apply one_row_ok in H; destruct H as (? & ? & H)
  | guarded _ _ = _ => apply guarded_ok in H; destruct H as [H ?]; split_guards
  | match ?x with _ => _ end = _ => destruct x eqn:?; try discriminate H
  end; simplify_eq/=.

Ltac readonly_query :=
  apply readonly_query; intros ? ? ? ? Hq; cbn beta in Hq;
  try match type of Hq with (if ?c then _ else _) = _ => destruct c; [|discriminate Hq] end;
  try (apply one_row_ok in Hq as (? & ? & ?)); by simplify_eq.

Section query_effects.
Context `{External}.

Lemma CreateUser_ok arg w u w' :
  CreateUser arg w = (Ok u, w') →
  users (w_db w) !! qCreateUser_ID arg = None ∧
  lookup_by (λ u, bool_decide (User_Email u = qCreateUser_Email arg)) (users (w_db w)) = None ∧
  role_check (qCreateUser_Role arg) = true ∧
  u = mkUser (qCreateUser_ID arg) (qCreateUser_Email arg) (qCreateUser_PasswordHash arg)
        (qCreateUser_Role arg) (sql_now w) (sql_now w) ∧
  w' = set_db (set_users (<[User_ID u := u]> (users (w_db w))) (w_db w)) (next_tick w).
Proof. unfold CreateUser. intros Hq. by query_inv Hq. Qed.

Lemma GetUser_ok id w u w' :
  GetUser id w = (Ok u, w') → users (w_db w) !! id = Some u ∧ w' = next_tick w.
Proof. unfold GetUser. intros Hq. query_inv Hq. by destruct w. Qed.

Lemma GetUserByEmail_ok email w u w' :
  GetUserByEmail email w = (Ok u, w') →
  lookup_by (λ u, bool_decide (User_Email u = email)) (users (w_db w)) = Some u ∧ w' = next_tick w.
Proof. unfold GetUserByEmail. intros Hq. query_inv Hq. by destruct w. Qed.

Lemma CreateRefreshToken_ok arg w t w' :
  CreateRefreshToken arg w = (Ok t, w') →
  refresh_tokens (w_db w) !! qCreateRefreshToken_ID arg = None ∧
  lookup_by (λ t, bool_decide (RefreshToken_TokenHash t = qCreateRefreshToken_TokenHash arg))
    (refresh_tokens (w_db w)) = None ∧
  is_Some (users (w_db w) !! qCreateRefreshToken_UserID arg) ∧
  t = mkRefreshToken (qCreateRefreshToken_ID arg) (qCreateRefreshToken_UserID arg)
        (qCreateRefreshToken_TokenHash arg) (qCreateRefreshToken_ExpiresAt arg) None (sql_now w) ∧
  w' = set_db (set_refresh_tokens (<[RefreshToken_ID t := t]> (refresh_tokens (w_db w))) (w_db w)) (next_tick w).
Proof. unfold CreateRefreshToken. intros Hq. by query_inv Hq. Qed.

Lemma GetRefreshTokenByHash_ok h w t w' :
  GetRefreshTokenByHash h w = (Ok t, w') →
  lookup_by (λ t, bool_decide (RefreshToken_TokenHash t = h)) (refresh_tokens (w_db w)) = Some t ∧
  w' = next_tick w.
Proof. unfold GetRefreshTokenByHash. intros Hq. query_inv Hq. by destruct w. Qed.

Lemma RevokeRefreshToken_ok id w t w' :
  RevokeRefreshToken id w = (Ok t, w') →
  ∃ t0, refresh_tokens (w_db w) !! id = Some t0 ∧ RefreshToken_RevokedAt t0 = None ∧
    t = revoke (sql_now w) t0 ∧
    w' = set_db (set_refresh_tokens (<[id := t]> (refresh_tokens (w_db w))) (w_db w)) (next_tick w).
Proof. unfold RevokeRefreshToken. intros Hq. query_inv Hq. eauto. Qed.

Lemma CreateOrder_ok arg w o w' :
  CreateOrder arg w = (Ok o, w') →
  orders (w_db w) !! qCreateOrder_ID arg = None ∧
  is_Some (users (w_db w) !! qCreateOrder_UserID arg) ∧
  0 < qCreateOrder_AmountCents arg ∧
  order_status_check (qCreateOrder_Status arg) = true ∧
  o = mkOrder (qCreateOrder_ID arg) (qCreateOrder_UserID arg) (qCreateOrder_Status arg)
        (qCreateOrder_AmountCents arg) (qCreateOrder_Currency arg) (qCreateOrder_Description arg)
        (sql_now w) (sql_now w) ∧
  w' = set_db (set_orders (<[Order_ID o := o]> (orders (w_db w))) (w_db w)) (next_tick w).
Proof. unfold CreateOrder. intros Hq. by query_inv Hq. Qed.

Lemma GetOrder_ok id w o w' :
  GetOrder id w = (Ok o, w') → orders (w_db w) !! id = Some o ∧ w' = next_tick w.
Proof. unfold GetOrder. intros Hq. query_inv Hq. by destruct w. Qed.

Lemma GetOrderForUpdate_ok id w o w' :
  GetOrderForUpdate id w = (Ok o, w') → orders (w_db w) !! id = Some o ∧ w' = next_tick w.
Proof. unfold GetOrderForUpdate. intros Hq. query_inv Hq. by destruct w. Qed.

Lemma UpdateOrderStatus_ok arg w o w' :
  UpdateOrderStatus arg w = (Ok o, w') →
  ∃ o0, orders (w_db w) !! qUpdateOrderStatus_ID arg = Some o0 ∧
    o = with_status (qUpdateOrderStatus_Status arg) (sql_now w) o0 ∧
    w' = set_db (set_orders (<[qUpdateOrderStatus_ID arg := o]> (orders (w_db w))) (w_db w)) (next_tick w).
Proof. unfold UpdateOrderStatus. intros Hq. query_inv Hq. eauto. Qed.

Lemma CreatePayment_ok arg w p w' :
  CreatePayment arg w = (Ok p, w') →
  payments (w_db w) !! qCreatePayment_ID arg = None ∧
  is_Some (orders (w_db w) !! qCreatePayment_OrderID arg) ∧
  0 < qCreatePayment_AmountCents arg ∧
  payment_status_check (qCreatePayment_Status arg) = true ∧
  p = mkPayment (qCreatePayment_ID arg) (qCreatePayment_OrderID arg) (qCreatePayment_Status arg)
        (qCreatePayment_AmountCents arg) (qCreatePayment_Provider arg) (qCreatePayment_ProviderRef arg)
        (qCreatePayment_FailureReason arg) (sql_now w) (sql_now w) ∧
  w' = set_db (set_payments (<[Payment_ID p := p]> (payments (w_db w))) (w_db w)) (next_tick w).
Proof. unfold CreatePayment. intros Hq. by query_inv Hq. Qed.

Lemma GetPayment_ok id w p w' :
  GetPayment id w = (Ok p, w') → payments (w_db w) !! id = Some p ∧ w' = next_tick w.
Proof. unfold GetPayment. intros Hq. query_inv Hq. by destruct w. Qed.

Lemma CreateIdempotencyKey_ok arg w k w' :
  CreateIdempotencyKey arg w = (Ok k, w') →
  ∃ body, jsonb (qCreateIdempotencyKey_ResponseBody arg) = Some body ∧
  idempotency_keys (w_db w) !! qCreateIdempotencyKey_ID arg = None ∧
  lookup_by (same_key (qCreateIdempotencyKey_UserID arg) (qCreateIdempotencyKey_Key arg))
    (idempotency_keys (w_db w)) = None ∧
  is_Some (users (w_db w) !! qCreateIdempotencyKey_UserID arg) ∧
  text_ok (qCreateIdempotencyKey_Key arg) = true ∧
  k = mkIdempotencyKey (qCreateIdempotencyKey_ID arg) (qCreateIdempotencyKey_UserID arg)
        (qCreateIdempotencyKey_Key arg) (qCreateIdempotencyKey_Method arg) (qCreateIdempotencyKey_Path arg)
        (qCreateIdempotencyKey_RequestHash arg) (Some body) (qCreateIdempotencyKey_StatusCode arg)
        (qCreateIdempotencyKey_ResourceType arg) (qCreateIdempotencyKey_ResourceID arg) (sql_now w) ∧
  w' = set_db (set_idempotency_keys (<[IdempotencyKey_ID k := k]> (idempotency_keys (w_db w))) (w_db w))
         (next_tick w).
Proof. unfold CreateIdempotencyKey. intros Hq. query_inv Hq. eauto 10. Qed.

Lemma GetIdempotencyKey_ok arg w k w' :
  GetIdempotencyKey arg w = (Ok k, w') →
  lookup_by (same_key (qGetIdempotencyKey_UserID arg) (qGetIdempotencyKey_Key arg)) (idempotency_keys (w_db w))
    = Some k ∧ w' = next_tick w.
Proof. unfold GetIdempotencyKey. intros Hq. query_inv Hq. by destruct w. Qed.

Lemma CreateOutboxEvent_ok arg w e w' :
  CreateOutboxEvent arg w = (Ok e, w') →
  ∃ payload, jsonb (qCreateOutboxEvent_Payload arg) = Some payload ∧
  outbox_events (w_db w) !! qCreateOutboxEvent_ID arg = None ∧
  event_aggregate_check (qCreateOutboxEvent_AggregateType arg) (qCreateOutboxEvent_EventType arg) = true ∧
  e = mkOutboxEvent (qCreateOutboxEvent_ID arg) (qCreateOutboxEvent_AggregateType arg)
        (qCreateOutboxEvent_AggregateID arg) (qCreateOutboxEvent_EventType arg) payload None 0 None (sql_now w)
        (qCreateOutboxEvent_PartitionKey arg) ∧
  w' = set_db (set_outbox_events (<[OutboxEvent_ID e := e]> (outbox_events (w_db w))) (w_db w)) (next_tick w).
Proof. unfold CreateOutboxEvent. intros Hq. query_inv Hq. eauto 10. Qed.

Lemma ClaimOutboxEvents_ok limit w es w' :
  ClaimOutboxEvents limit w = (Ok es, w') →
  0 ≤ limit ∧
  es = take (Z.to_nat limit) (order_by OutboxEvent_CreatedAt
         (select (claimable (locked_rows (w_tick w))) (outbox_events (w_db w)))) ∧
  w' = next_tick w.
Proof.
  unfold ClaimOutboxEvents. intros Hq. apply query_ok in Hq as (db & Hq & ->).
  case_bool_decide; [done|]. simplify_eq. split; [lia|]. by destruct w.
Qed.

Lemma MarkOutboxEventPublished_ok id w e w' :
  MarkOutboxEventPublished id w = (Ok e, w') →
  ∃ e0, outbox_events (w_db w) !! id = Some e0 ∧ e = mark_published (sql_now w) e0 ∧
    w' = set_db (set_outbox_events (<[id := e]> (outbox_events (w_db w))) (w_db w)) (next_tick w).
Proof. unfold MarkOutboxEventPublished. intros Hq. query_inv Hq. eauto. Qed.

Lemma MarkOutboxEventFailed_ok arg w e w' :
  MarkOutboxEventFailed arg w = (Ok e, w') →
  ∃ e0, outbox_events (w_db w) !! qMarkOutboxEventFailed_ID arg = Some e0 ∧
    e = mark_failed (qMarkOutboxEventFailed_LastError arg) e0 ∧
    0 ≤ OutboxEvent_Attempt e ≤ int32_max ∧
    w' = set_db (set_outbox_events (<[qMarkOutboxEventFailed_ID arg := e]> (outbox_events (w_db w))) (w_db w))
           (next_tick w).
Proof. unfold MarkOutboxEventFailed. intros Hq. query_inv Hq. eauto 10. Qed.

Lemma TryCreateProcessedEvent_ok arg w pe w' :
  TryCreateProcessedEvent arg w = (Ok pe, w') →
  let key := (qTryCreateProcessedEvent_EventID arg, qTryCreateProcessedEvent_ConsumerName arg) in
  processed_events (w_db w) !! key = None ∧
  pe = mkProcessedEvent key.1 key.2 (sql_now w) ∧
  w' = set_db (set_processed_events (<[key := pe]> (processed_events (w_db w))) (w_db w)) (next_tick w).
Proof. unfold TryCreateProcessedEvent. intros Hq. by query_inv Hq. Qed.

Lemma CreateNotificationDelivery_ok arg w d w' :
  CreateNotificationDelivery arg w = (Ok d, w') →
  notification_deliveries (w_db w) !! qCreateNotificationDelivery_ID arg = None ∧
  delivery_status_check (qCreateNotificationDelivery_Status arg) = true ∧
  d = mkNotificationDelivery (qCreateNotificationDelivery_ID arg) (qCreateNotificationDelivery_EventID arg)
        (qCreateNotificationDelivery_Channel arg) (qCreateNotificationDelivery_Recipient arg)
        (qCreateNotificationDelivery_Status arg) 0 None (sql_now w) (sql_now w) ∧
  w' = set_db (set_notification_deliveries (<[NotificationDelivery_ID d := d]>
                 (notification_deliveries (w_db w))) (w_db w)) (next_tick w).
Proof. unfold CreateNotificationDelivery. intros Hq. by query_inv Hq. Qed.

(** *** Queries that only read *)

Lemma readonly_GetUser id : readonly (GetUser id).
Proof. readonly_query. Qed.
Lemma readonly_GetUserByEmail email : readonly (GetUserByEmail email).
Proof. readonly_query. Qed.
Lemma readonly_GetRefreshTokenByHash h : readonly (GetRefreshTokenByHash h).
Proof. readonly_query. Qed.
Lemma readonly_GetOrder id : readonly (GetOrder id).
Proof. readonly_query. Qed.
Lemma readonly_GetOrderForUpdate id : readonly (GetOrderForUpdate id).
Proof. readonly_query. Qed.
Lemma readonly_GetPayment id : readonly (GetPayment id).
Proof. readonly_query. Qed.
Lemma readonly_GetIdempotencyKey arg : readonly (GetIdempotencyKey arg).
Proof. readonly_query. Qed.
Lemma readonly_ListOrders : readonly (ListOrders).
Proof. readonly_query. Qed.
Lemma readonly_ListOrdersByUser id : readonly (ListOrdersByUser id).
Proof. readonly_query. Qed.
End query_effects.

#[export] Hint Resolve readonly_GetUser readonly_GetUserByEmail readonly_GetRefreshTokenByHash
  readonly_GetOrder readonly_GetOrderForUpdate readonly_GetPayment readonly_GetIdempotencyKey
  readonly_ListOrders readonly_ListOrdersByUser : orderdb.
