(* ===== verification/Store.v ===== *)
(** * The data access layer

    [internal/store/store.go]: each method converts its textual UUIDs with
    pgx's [Scan], turns empty strings into NULLs and calls the generated query;
    [WithTx] runs a function in a transaction that is committed when it returns
    no error and rolled back otherwise. *)

From S2P Require Import Prelude GoStrings Json Models World.
From S2P Require Import Sqlc.

(** ** Parameters *)

Record CreateUserParams := mkCreateUserParams {
  sCreateUser_ID : string;
  sCreateUser_Email : string;
  sCreateUser_PasswordHash : string;
  sCreateUser_Role : string
}.

Record CreateRefreshTokenParams := mkCreateRefreshTokenParams {
  sCreateRefreshToken_ID : string;
  sCreateRefreshToken_UserID : string;
  sCreateRefreshToken_TokenHash : string;
  sCreateRefreshToken_ExpiresAt : Z
}.

Record CreateOrderParams := mkCreateOrderParams {
  sCreateOrder_ID : string;
  sCreateOrder_UserID : string;
  sCreateOrder_Status : string;
  sCreateOrder_AmountCents : Z;
  sCreateOrder_Currency : string;
  sCreateOrder_Description : string
}.

Record CreateIdempotencyKeyParams := mkCreateIdempotencyKeyParams {
  sCreateIdempotencyKey_ID : string;
  sCreateIdempotencyKey_UserID : string;
  sCreateIdempotencyKey_Key : string;
  sCreateIdempotencyKey_Method : string;
  sCreateIdempotencyKey_Path : string;
  sCreateIdempotencyKey_RequestHash : string;
  sCreateIdempotencyKey_ResponseBody : string;
  sCreateIdempotencyKey_StatusCode : Z;
  sCreateIdempotencyKey_ResourceType : string;
  sCreateIdempotencyKey_ResourceID : string
}.

Record CreateOutboxEventParams := mkCreateOutboxEventParams {
  sCreateOutboxEvent_ID : string;
  sCreateOutboxEvent_AggregateType : string;
  sCreateOutboxEvent_AggregateID : string;
  sCreateOutboxEvent_PartitionKey : string;
  sCreateOutboxEvent_EventType : string;
  sCreateOutboxEvent_Payload : string
}.

Record CreatePaymentParams := mkCreatePaymentParams {
  sCreatePayment_ID : string;
  sCreatePayment_OrderID : string;
  sCreatePayment_Status : string;
  sCreatePayment_AmountCents : Z;
  sCreatePayment_Provider : string;
  sCreatePayment_ProviderRef : string;
  sCreatePayment_FailureReason : string
}.

Record CreateNotificationDeliveryParams := mkCreateNotificationDeliveryParams {
  sCreateNotificationDelivery_ID : string;
  sCreateNotificationDelivery_EventID : string;
  sCreateNotificationDelivery_Channel : string;
  sCreateNotificationDelivery_Recipient : string;
  sCreateNotificationDelivery_Status : string
}.

(** [pgtype.Text{String: s, Valid: s != ""}] *)
Definition text (s : string) : option string := if bool_decide (s = "") then None else Some s.

(** [pgtype.Int4{Int32: n, Valid: n > 0}] *)
Definition int4 (n : Z) : option Z := if bool_decide (0 < n) then Some n else None.

Section store.
Context `{External}.

(** [id := pgtype.UUID{}; err := id.Scan(s)] *)
Definition scan (s : string) : M UUID :=
  match UUID_Scan s with Some u => ret u | None => throw (ErrUUID s) end.

Definition CreateUser (params : CreateUserParams) : M User :=
  let* id := scan (sCreateUser_ID params) in
  Sqlc.CreateUser (Sqlc.mkCreateUserParams id (sCreateUser_Email params)
    (sCreateUser_PasswordHash params) (sCreateUser_Role params)).

Definition GetUserByEmail (email : string) : M User := Sqlc.GetUserByEmail email.

Definition GetUser (id : string) : M User :=
  let* userID := scan id in Sqlc.GetUser userID.

Definition CreateRefreshToken (params : CreateRefreshTokenParams) : M RefreshToken :=
  let* id := scan (sCreateRefreshToken_ID params) in
  let* userID := scan (sCreateRefreshToken_UserID params) in
  Sqlc.CreateRefreshToken (Sqlc.mkCreateRefreshTokenParams id userID
    (sCreateRefreshToken_TokenHash params) (sCreateRefreshToken_ExpiresAt params)).

Definition GetRefreshTokenByHash (tokenHash : string) : M RefreshToken :=
  Sqlc.GetRefreshTokenByHash tokenHash.

Definition RevokeRefreshToken (id : string) : M RefreshToken :=
  let* tokenID := scan id in Sqlc.RevokeRefreshToken tokenID.

Definition CreateOrder (params : CreateOrderParams) : M Order :=
  let* id := scan (sCreateOrder_ID params) in
  let* userID := scan (sCreateOrder_UserID params) in
  Sqlc.CreateOrder (Sqlc.mkCreateOrderParams id userID (sCreateOrder_Status params)
    (sCreateOrder_AmountCents params) (sCreateOrder_Currency params) (text (sCreateOrder_Description params))).

Definition GetOrder (id : string) : M Order :=
  let* orderID := scan id in Sqlc.GetOrder orderID.

Definition ListOrdersByUser (userID : string) : M (list Order) :=
  let* id := scan userID in Sqlc.ListOrdersByUser id.

Definition ListOrders : M (list Order) := Sqlc.ListOrders.

Definition CreateIdempotencyKey (params : CreateIdempotencyKeyParams) : M IdempotencyKey :=
  let* id := scan (sCreateIdempotencyKey_ID params) in
  let* userID := scan (sCreateIdempotencyKey_UserID params) in
  let* resourceID :=
    (if bool_decide (sCreateIdempotencyKey_ResourceID params = "") then ret None
     else let* u := scan (sCreateIdempotencyKey_ResourceID params) in ret (Some u)) in
  Sqlc.CreateIdempotencyKey (Sqlc.mkCreateIdempotencyKeyParams id userID
    (sCreateIdempotencyKey_Key params) (sCreateIdempotencyKey_Method params)
    (sCreateIdempotencyKey_Path params) (sCreateIdempotencyKey_RequestHash params)
    (sCreateIdempotencyKey_ResponseBody params) (int4 (sCreateIdempotencyKey_StatusCode params))
    (text (sCreateIdempotencyKey_ResourceType params)) resourceID).

Definition GetIdempotencyKey (userID key : string) : M IdempotencyKey :=
  let* id := scan userID in Sqlc.GetIdempotencyKey (Sqlc.mkGetIdempotencyKeyParams id key).

Definition CreateOutboxEvent (params : CreateOutboxEventParams) : M OutboxEvent :=
  let* id := scan (sCreateOutboxEvent_ID params) in
  let* aggregateID := scan (sCreateOutboxEvent_AggregateID params) in
  let* partitionKey := scan (sCreateOutboxEvent_PartitionKey params) in
  Sqlc.CreateOutboxEvent (Sqlc.mkCreateOutboxEventParams id (sCreateOutboxEvent_AggregateType params)
    aggregateID partitionKey (sCreateOutboxEvent_EventType params) (sCreateOutboxEvent_Payload params)).

Definition GetOrderForUpdate (id : string) : M Order :=
  let* orderID := scan id in Sqlc.GetOrderForUpdate orderID.

Definition UpdateOrderStatus (id status : string) : M Order :=
  let* orderID := scan id in Sqlc.UpdateOrderStatus (Sqlc.mkUpdateOrderStatusParams orderID status).

Definition CreatePayment (params : CreatePaymentParams) : M Payment :=
  let* id := scan (sCreatePayment_ID params) in
  let* orderID := scan (sCreatePayment_OrderID params) in
  Sqlc.CreatePayment (Sqlc.mkCreatePaymentParams id orderID (sCreatePayment_Status params)
    (sCreatePayment_AmountCents params) (sCreatePayment_Provider params)
    (text (sCreatePayment_ProviderRef params)) (text (sCreatePayment_FailureReason params))).

Definition GetPayment (id : string) : M Payment :=
  let* paymentID := scan id in Sqlc.GetPayment paymentID.

Definition ClaimOutboxEvents (limit : Z) : M (list OutboxEvent) := Sqlc.ClaimOutboxEvents limit.

Definition MarkOutboxEventPublished (id : string) : M OutboxEvent :=
  let* eventID := scan id in Sqlc.MarkOutboxEventPublished eventID.

Definition MarkOutboxEventFailed (id lastError : string) : M OutboxEvent :=
  let* eventID := scan id in
  Sqlc.MarkOutboxEventFailed (Sqlc.mkMarkOutboxEventFailedParams eventID (text lastError)).

Definition TryCreateProcessedEvent (eventID consumerName : string) : M ProcessedEvent :=
  let* id := scan eventID in
  Sqlc.TryCreateProcessedEvent (Sqlc.mkTryCreateProcessedEventParams id consumerName).

Definition CreateNotificationDelivery (params : CreateNotificationDeliveryParams) : M NotificationDelivery :=
  let* id := scan (sCreateNotificationDelivery_ID params) in
  let* eventID := scan (sCreateNotificationDelivery_EventID params) in
  Sqlc.CreateNotificationDelivery (Sqlc.mkCreateNotificationDeliveryParams id eventID
    (sCreateNotificationDelivery_Channel params) (sCreateNotificationDelivery_Recipient params)
    (sCreateNotificationDelivery_Status params)).

(** [s.pool.Begin(ctx)]: the transaction's [NOW()] is fixed here. *)
Definition Begin : M unit := λ w,
  match fault (w_tick w) with
  | NoFault => (Ok tt, set_txnow (Some (clock (w_tick w))) (next_tick w))
  | FailBefore msg | FailAfter msg => (Err (ErrInfra msg), next_tick w)
  end.

(** [tx.Rollback(ctx)]: the tables are as they were at [Begin]; its own
    error is ignored ([defer]). *)
Definition Rollback (db : DB) (w : World) : World := set_txnow None (set_db db w).

(** [tx.Commit(ctx)]: with [FailAfter] the server has committed and the
    client is told of an error. *)
Definition Commit (db : DB) : M unit := λ w,
  match fault (w_tick w) with
  | NoFault => (Ok tt, set_txnow None (next_tick w))
  | FailBefore msg => (Err (ErrInfra msg), Rollback db (next_tick w))
  | FailAfter msg => (Err (ErrInfra msg), set_txnow None (next_tick w))
  end.

(** [WithTx(ctx, fn)].  Here a transaction is one step of the world: its
    statements run on the tables without interleaving.  [Interleaving] runs
    them statement by statement among those of others, and [Serializability]
    proves that this makes no difference. *)
Definition WithTx {A} (fn : M A) : M A := λ w,
  match Begin w with
  | (Err e, w1) => (Err e, w1)
  | (Ok _, w1) =>
    match fn w1 with
    | (Err e, w2) => (Err e, Rollback (w_db w) w2)
    | (Ok a, w2) =>
      match Commit (w_db w) w2 with
      | (Err e, w3) => (Err e, w3)
      | (Ok _, w3) => (Ok a, w3)
      end
    end
  end.
End store.

(** ** Inversion of store methods *)

Section store_facts.
Context `{External}.

Lemma scan_ok s w u w' : scan s w = (Ok u, w') → UUID_Scan s = Some u ∧ w' = w.
Proof. unfold scan. destruct (UUID_Scan s); [by intros [= <- <-]|done]. Qed.

Lemma scan_eval s u w : UUID_Scan s = Some u → scan s w = (Ok u, w).
Proof. unfold scan. by intros ->. Qed.

Lemma readonly_scan s : readonly (scan s).
Proof. unfold scan. destruct (UUID_Scan s); eauto with orderdb. Qed.

Lemma Begin_ok w t w' : Begin w = (Ok t, w') → w' = set_txnow (Some (clock (w_tick w))) (next_tick w).
Proof. unfold Begin. destruct (fault (w_tick w)); by intros [= _ <-]. Qed.

(** What a transaction can do to the tables: nothing, or everything that its
    function did in a run that returned a value. *)
Lemma WithTx_cases {A} (fn : M A) w r w' :
  WithTx fn w = (r, w') →
  (w_db w' = w_db w ∧ is_ok r = false)
  ∨ ∃ a w1 w2, Begin w = (Ok tt, w1) ∧ fn w1 = (Ok a, w2) ∧ w_db w' = w_db w2 ∧
      (r = Ok a ∨ ∃ msg, r = Err (ErrInfra msg) ∧ fault (w_tick w2) = FailAfter msg).
Proof.
  unfold WithTx, Begin. destruct (fault (w_tick w)) eqn:Hf; [|by intros [= <- <-]; left..].
  destruct (fn _) as [[a|e] w2] eqn:Hfn.
  - unfold Commit. destruct (fault (w_tick w2)) as [|msg|msg] eqn:Hc; intros [= <- <-];
      [right| by left |right]; exists a; eauto 10.
  - intros [= <- <-]. by left.
Qed.

Lemma WithTx_ok {A} (fn : M A) w a w' :
  WithTx fn w = (Ok a, w') →
  ∃ w1 w2, Begin w = (Ok tt, w1) ∧ fn w1 = (Ok a, w2) ∧ w_db w' = w_db w2.
Proof. intros Hw. apply WithTx_cases in Hw as [[_ ?]|(?&?&?&?&?&?&[?|?])]; naive_solver. Qed.

(** A lost answer: the caller sees an error of the connection. *)
Definition lost_answer {A} (r : result A) : Prop := ∃ msg, r = Err (ErrInfra msg).

(** The effect of a transaction from the effect of its function. *)
Lemma WithTx_outcome {A} (fn : M A) (P : A → DB → Prop) w r w' :
  (∀ w1 a w2, w_db w1 = w_db w → fn w1 = (Ok a, w2) → P a (w_db w2)) →
  WithTx fn w = (r, w') →
  (w_db w' = w_db w ∧ is_ok r = false) ∨ (∃ a, P a (w_db w') ∧ (r = Ok a ∨ lost_answer r)).
Proof.
  intros HP Hw. apply WithTx_cases in Hw as [?|(a & w1 & w2 & Hb & Hf & Hdb & Hr)]; [by left|right].
  apply Begin_ok in Hb. apply HP in Hf; [|by subst w1]. exists a. split; [by rewrite Hdb|].
  destruct Hr as [?|(msg & ? & _)]; [by left|right; by exists msg].
Qed.

(** The run of a transaction whose connection does not fail. *)
Lemma WithTx_eval {A} (fn : M A) w a w2 :
  fault (w_tick w) = NoFault →
  fn (set_txnow (Some (clock (w_tick w))) (next_tick w)) = (Ok a, w2) →
  fault (w_tick w2) = NoFault →
  WithTx fn w = (Ok a, set_txnow None (next_tick w2)).
Proof. unfold WithTx, Begin, Commit. intros -> -> ->. done. Qed.

Lemma WithTx_eval_err {A} (fn : M A) w e w2 :
  fault (w_tick w) = NoFault →
  fn (set_txnow (Some (clock (w_tick w))) (next_tick w)) = (Err e, w2) →
  WithTx fn w = (Err e, Rollback (w_db w) w2).
Proof. unfold WithTx, Begin. by intros -> ->. Qed.
End store_facts.

#[export] Hint Resolve readonly_scan : orderdb.

Section store_readonly.
Context `{External}.

Lemma readonly_store_GetOrder id : readonly (GetOrder id).
Proof. unfold GetOrder. eauto with orderdb. Qed.
Lemma readonly_store_GetOrderForUpdate id : readonly (GetOrderForUpdate id).
Proof. unfold GetOrderForUpdate. eauto with orderdb. Qed.
Lemma readonly_store_GetPayment id : readonly (GetPayment id).
Proof. unfold GetPayment. eauto with orderdb. Qed.
Lemma readonly_store_GetIdempotencyKey u k : readonly (GetIdempotencyKey u k).
Proof. unfold GetIdempotencyKey. eauto with orderdb. Qed.
Lemma readonly_store_ListOrdersByUser u : readonly (ListOrdersByUser u).
Proof. unfold ListOrdersByUser. eauto with orderdb. Qed.
Lemma readonly_store_GetUser u : readonly (GetUser u).
Proof. unfold GetUser. eauto with orderdb. Qed.
End store_readonly.

(** A transaction counts and sends what its function does. *)
Lemma silent_WithTx `{External} {A} (fn : M A) : silent fn → silent (WithTx fn).
Proof.
  intros Hs w. unfold WithTx, Begin, Commit. destruct (fault (w_tick w)); [|done..].
  specialize (Hs (set_txnow (Some (clock (w_tick w))) (next_tick w))).
  destruct (fn _) as [[a|e] w2]; [|done]. by destruct (fault (w_tick w2)).
Qed.

Lemma silent_scan `{External} s : silent (scan s).
Proof. unfold scan. destruct (UUID_Scan s); eauto with orderdb. Qed.

#[export] Hint Resolve silent_WithTx silent_scan : orderdb.

(** Solve [silent] for the methods of this file and what is built of them. *)
Ltac silent_store :=
  repeat match goal with
  | |- silent (Store.CreateUser _) => unfold Store.CreateUser, Sqlc.CreateUser
  | |- silent (Store.GetUserByEmail _) => unfold Store.GetUserByEmail, Sqlc.GetUserByEmail
  | |- silent (Store.GetUser _) => unfold Store.GetUser, Sqlc.GetUser
  | |- silent (Store.CreateOrder _) => unfold Store.CreateOrder, Sqlc.CreateOrder
  | |- silent (Store.GetOrder _) => unfold Store.GetOrder, Sqlc.GetOrder
  | |- silent (Store.CreateIdempotencyKey _) => unfold Store.CreateIdempotencyKey, Sqlc.CreateIdempotencyKey
  | |- silent (Store.GetIdempotencyKey _ _) => unfold Store.GetIdempotencyKey, Sqlc.GetIdempotencyKey
  | |- silent (Store.CreateOutboxEvent _) => unfold Store.CreateOutboxEvent, Sqlc.CreateOutboxEvent
  | |- silent (Store.GetOrderForUpdate _) => unfold Store.GetOrderForUpdate, Sqlc.GetOrderForUpdate
  | |- silent (Store.UpdateOrderStatus _ _) => unfold Store.UpdateOrderStatus, Sqlc.UpdateOrderStatus
  | |- silent (Store.CreatePayment _) => unfold Store.CreatePayment, Sqlc.CreatePayment
  | |- silent (Store.GetPayment _) => unfold Store.GetPayment, Sqlc.GetPayment
  | |- silent (Store.TryCreateProcessedEvent _ _) => unfold Store.TryCreateProcessedEvent, Sqlc.TryCreateProcessedEvent
  | |- silent (Store.CreateNotificationDelivery _) =>
    unfold Store.CreateNotificationDelivery, Sqlc.CreateNotificationDelivery
  | |- silent (bind _ _) => apply silent_bind; [|intros ?]
  | |- silent (try _) => apply silent_try
  | |- silent (WithTx _) => apply silent_WithTx
  | |- silent (match ?x with _ => _ end) => destruct x
  | |- silent _ => solve [eauto with orderdb]
  end.

#[export] Hint Resolve readonly_store_GetOrder readonly_store_GetOrderForUpdate readonly_store_GetPayment
  readonly_store_GetIdempotencyKey readonly_store_ListOrdersByUser readonly_store_GetUser : orderdb.

(** [minv H]: take apart a run [H : m w = (Ok a, w')] statement by statement. *)
Ltac minv_step H :=
  lazymatch type of H with
  | bind _ _ _ = (Ok _, _) =>
    let a := fresh "a" in let w1 := fresh "w" in let H1 := fresh H in
    apply bind_ok in H; destruct H as (a & w1 & H1 & H); minv_step H1; minv_step H
  | ret _ _ = _ => apply ret_ok in H; destruct H as [? ?]; simplify_eq
  | lift _ _ = _ => apply lift_ok in H; destruct H as [? ?]; simplify_eq
  | throw _ _ = _ => destruct (throw_ok _ _ _ _ H)
  | try _ _ = _ =>
    let r := fresh "r" in let Hr := fresh H in
    apply try_ok in H; destruct H as (r & Hr & H); simplify_eq
  | NewString _ = _ => apply NewString_ok in H; destruct H as [? ?]; simplify_eq
  | scan _ _ = _ => apply scan_ok in H; destruct H as [? ?]; simplify_eq
  | (if ?c then _ else _) _ = _ => destruct c eqn:?; minv_step H
  | _ => idtac
  end.
