(* ===== verification/OrderService.v ===== *)
(** * The order service

    [internal/service/order_service.go] and [idempotency.go]: creating,
    listing, reading, paying and cancelling orders.  Every function keeps the
    order of the Go statements: the validation, the lookup of the idempotency
    key outside the transaction, then one transaction with its inserts. *)

From S2P Require Import Prelude GoStrings Sha256 Json Models World.
From S2P Require Import Sqlc.
From S2P Require Import Store.

(** ** Constants *)

Definition OrderStatusPendingPayment : string := "pending_payment".
Definition OrderStatusPaid : string := "paid".
Definition OrderStatusPaymentFailed : string := "payment_failed".
Definition OrderStatusCancelled : string := "cancelled".
Definition PaymentStatusSucceeded : string := "succeeded".
Definition PaymentStatusFailed : string := "failed".
Definition PaymentProviderMock : string := "mock".
Definition AggregateTypeOrder : string := "order".
Definition AggregateTypePayment : string := "payment".
Definition EventTypeOrderCreated : string := "order.created".
Definition EventTypeOrderCancelled : string := "order.cancelled".
Definition EventTypePaymentSucceeded : string := "payment.succeeded".
Definition EventTypePaymentFailed : string := "payment.failed".

Definition StatusOK : Z := 200.
Definition StatusCreated : Z := 201.

(** ** Parameters and results *)

Record CreateOrderParams := mkCreateOrderParams {
  CreateOrder_UserID : string;
  CreateOrder_IdempotencyKey : string;
  CreateOrder_Method : string;
  CreateOrder_Path : string;
  CreateOrder_AmountCents : Z;
  CreateOrder_Currency : string;
  CreateOrder_Description : string
}.

Record CreateOrderResult := mkCreateOrderResult {
  CreateOrderResult_Order : Order;
  CreateOrderResult_StatusCode : Z;
  CreateOrderResult_Cached : bool
}.

Record ListOrdersParams := mkListOrdersParams { ListOrders_UserID : string; ListOrders_Role : string }.

Record GetOrderParams := mkGetOrderParams {
  GetOrder_UserID : string; GetOrder_Role : string; GetOrder_OrderID : string
}.

Record PayOrderParams := mkPayOrderParams {
  PayOrder_UserID : string;
  PayOrder_Role : string;
  PayOrder_OrderID : string;
  PayOrder_IdempotencyKey : string;
  PayOrder_Method : string;
  PayOrder_Path : string
}.

Record PayOrderResult := mkPayOrderResult {
  PayOrderResult_Order : Order;
  PayOrderResult_Payment : Payment;
  PayOrderResult_StatusCode : Z;
  PayOrderResult_Cached : bool
}.

Record CancelOrderParams := mkCancelOrderParams {
  CancelOrder_UserID : string; CancelOrder_Role : string; CancelOrder_OrderID : string
}.

(** ** Payloads of events *)

Definition orderCreatedEventPayload (orderID userID status : string) (amountCents : Z)
    (currency description : string) : json :=
  JObj [("order_id", JStr orderID); ("user_id", JStr userID); ("status", JStr status);
        ("amount_cents", JInt amountCents); ("currency", JStr currency); ("description", JStr description)].

Definition paymentEventPayload (paymentID orderID userID status : string) (amountCents : Z)
    (currency provider providerRef failureReason : string) : json :=
  JObj ([("payment_id", JStr paymentID); ("order_id", JStr orderID); ("user_id", JStr userID);
         ("status", JStr status); ("amount_cents", JInt amountCents); ("currency", JStr currency);
         ("provider", JStr provider)]
        ++ omitempty "provider_ref" providerRef ++ omitempty "failure_reason" failureReason).

Definition orderCancelledEventPayload (orderID userID status : string) : json :=
  JObj [("order_id", JStr orderID); ("user_id", JStr userID); ("status", JStr status)].

(** [json.Marshal] of strings and integers does not fail. *)
Definition json_Marshal (v : json) : result string := Ok (Marshal v).

(** [HashRequestBody] *)
Definition HashRequestBody (value : json) : result string :=
  match json_Marshal value with
  | Ok bytes => Ok (hex_encode (Sum256 bytes))
  | Err e => Err e
  end.

Definition create_request (amountCents : Z) (currency description : string) : json :=
  JObj [("amount_cents", JInt amountCents); ("currency", JStr currency); ("description", JStr description)].

Definition pay_request (orderID : string) : json := JObj [("order_id", JStr orderID)].

(** [mockPayment]: the status, the provider's reference, the failure reason. *)
Definition mockPayment (paymentID : string) : string * string * string :=
  if HasSuffix paymentID "0" || HasSuffix paymentID "f"
  then (PaymentStatusFailed, "", "mock payment declined")
  else (PaymentStatusSucceeded, "mock_" +:+ paymentID, "").

(** [int(existing.StatusCode.Int32)], 200 when it is zero or NULL. *)
Definition stored_status (code : option Z) : Z :=
  let statusCode := default 0 code in
  if bool_decide (statusCode = 0) then StatusOK else statusCode.

(** The order may be paid or cancelled. *)
Definition status_open (status : string) : bool :=
  negb (negb (bool_decide (status = OrderStatusPendingPayment))
        && negb (bool_decide (status = OrderStatusPaymentFailed))).

#[global] Arguments mockPayment : simpl never.
#[global] Arguments status_open : simpl never.
#[global] Arguments HashRequestBody : simpl never.

Section order_service.
Context `{External}.

(** The stored request differs from this one. *)
Definition idempotency_conflict (existing : IdempotencyKey) (method path requestHash : string) : bool :=
  negb (bool_decide (IdempotencyKey_Method existing = method))
  || negb (bool_decide (IdempotencyKey_Path existing = path))
  || negb (bool_decide (IdempotencyKey_RequestHash existing = requestHash)).

(** [role != "admin" && order.UserID.String() != userID] *)
Definition order_forbidden (role userID : string) (order : Order) : bool :=
  negb (bool_decide (role = "admin")) && negb (bool_decide (UUID_String (Order_UserID order) = userID)).

(** *** CreateOrder *)

(** The function run in the transaction. *)
Definition create_order_tx (params : CreateOrderParams)
    (idempotencyKey currency description requestHash : string) : M Order :=
  let* orderID := NewString in
  let* order := Store.CreateOrder (Store.mkCreateOrderParams orderID (CreateOrder_UserID params)
                  OrderStatusPendingPayment (CreateOrder_AmountCents params) currency description) in
  let* eventPayload := lift (json_Marshal (orderCreatedEventPayload orderID (CreateOrder_UserID params)
                  OrderStatusPendingPayment (CreateOrder_AmountCents params) currency description)) in
  let* eventID := NewString in
  do* Store.CreateOutboxEvent (Store.mkCreateOutboxEventParams eventID AggregateTypeOrder
        (UUID_String (Order_ID order)) (UUID_String (Order_ID order)) EventTypeOrderCreated eventPayload) in
  let* responseBody := lift (json_Order order) in
  let* keyID := NewString in
  do* Store.CreateIdempotencyKey (Store.mkCreateIdempotencyKeyParams keyID (CreateOrder_UserID params)
        idempotencyKey (CreateOrder_Method params) (CreateOrder_Path params) requestHash responseBody
        StatusCreated "order" (UUID_String (Order_ID order))) in
  ret order.

Definition CreateOrder (params : CreateOrderParams) : M CreateOrderResult :=
  let idempotencyKey := TrimSpace (CreateOrder_IdempotencyKey params) in
  return_if bool_decide (idempotencyKey = "") with_err ErrIdempotencyKeyRequired in
  let currency := TrimSpace (ToUpper unicode_upper (CreateOrder_Currency params)) in
  let description := TrimSpace (CreateOrder_Description params) in
  return_if bool_decide (CreateOrder_UserID params = "")
            || (CreateOrder_AmountCents params <=? 0) || bool_decide (currency = "")
    with_err ErrInvalidInput in
  let* requestHash := lift (HashRequestBody
                        (create_request (CreateOrder_AmountCents params) currency description)) in
  let* found := try (Store.GetIdempotencyKey (CreateOrder_UserID params) idempotencyKey) in
  match found with
  | Ok existing =>
    return_if idempotency_conflict existing (CreateOrder_Method params) (CreateOrder_Path params) requestHash
      with_err ErrIdempotencyConflict in
    let* order := Store.GetOrder (UUID_opt_String (IdempotencyKey_ResourceID existing)) in
    ret (mkCreateOrderResult order (stored_status (IdempotencyKey_StatusCode existing)) true)
  | Err _ =>
    let* createdOrder := WithTx (create_order_tx params idempotencyKey currency description requestHash) in
    do* inc OrdersCreatedTotal in
    ret (mkCreateOrderResult createdOrder StatusCreated false)
  end.

(** *** ListOrders and GetOrder *)

Definition ListOrders (params : ListOrdersParams) : M (list Order) :=
  if bool_decide (ListOrders_Role params = "admin") then Store.ListOrders
  else Store.ListOrdersByUser (ListOrders_UserID params).

Definition GetOrder (params : GetOrderParams) : M Order :=
  let* found := try (Store.GetOrder (GetOrder_OrderID params)) in
  match found with
  | Err _ => throw ErrOrderNotFound
  | Ok order =>
    return_if order_forbidden (GetOrder_Role params) (GetOrder_UserID params) order
      with_err ErrOrderForbidden in
    ret order
  end.

(** *** PayOrder *)

Definition pay_order_tx (params : PayOrderParams) (idempotencyKey requestHash : string) : M PayOrderResult :=
  let* found := try (Store.GetOrderForUpdate (PayOrder_OrderID params)) in
  match found with
  | Err _ => throw ErrOrderNotFound
  | Ok order =>
    return_if order_forbidden (PayOrder_Role params) (PayOrder_UserID params) order
      with_err ErrOrderForbidden in
    return_if negb (status_open (Order_Status order)) with_err ErrOrderInvalidStatus in
    let* paymentID := NewString in
    let '(paymentStatus, providerRef, failureReason) := mockPayment paymentID in
    let failed := bool_decide (paymentStatus = PaymentStatusFailed) in
    let nextOrderStatus := if failed then OrderStatusPaymentFailed else OrderStatusPaid in
    let eventType := if failed then EventTypePaymentFailed else EventTypePaymentSucceeded in
    let* payment := Store.CreatePayment (Store.mkCreatePaymentParams paymentID (UUID_String (Order_ID order))
                      paymentStatus (Order_AmountCents order) PaymentProviderMock providerRef failureReason) in
    let* updatedOrder := Store.UpdateOrderStatus (UUID_String (Order_ID order)) nextOrderStatus in
    let* eventPayload := lift (json_Marshal (paymentEventPayload (UUID_String (Payment_ID payment))
                      (UUID_String (Order_ID order)) (UUID_String (Order_UserID order)) (Payment_Status payment)
                      (Payment_AmountCents payment) (Order_Currency order) (Payment_Provider payment)
                      providerRef failureReason)) in
    let* eventID := NewString in
    do* Store.CreateOutboxEvent (Store.mkCreateOutboxEventParams eventID AggregateTypePayment
          (UUID_String (Payment_ID payment)) (UUID_String (Order_ID order)) eventType eventPayload) in
    let* responseBody := lift (json_Payment payment) in
    let* keyID := NewString in
    do* Store.CreateIdempotencyKey (Store.mkCreateIdempotencyKeyParams keyID (PayOrder_UserID params)
          idempotencyKey (PayOrder_Method params) (PayOrder_Path params) requestHash responseBody
          StatusOK "payment" (UUID_String (Payment_ID payment))) in
    ret (mkPayOrderResult updatedOrder payment StatusOK false)
  end.

Definition PayOrder (params : PayOrderParams) : M PayOrderResult :=
  return_if bool_decide (PayOrder_UserID params = "") || bool_decide (PayOrder_OrderID params = "")
    with_err ErrInvalidInput in
  let idempotencyKey := TrimSpace (PayOrder_IdempotencyKey params) in
  return_if bool_decide (idempotencyKey = "") with_err ErrIdempotencyKeyRequired in
  let* requestHash := lift (HashRequestBody (pay_request (PayOrder_OrderID params))) in
  let* found := try (Store.GetIdempotencyKey (PayOrder_UserID params) idempotencyKey) in
  match found with
  | Ok existing =>
    return_if idempotency_conflict existing (PayOrder_Method params) (PayOrder_Path params) requestHash
      with_err ErrIdempotencyConflict in
    let* payment := Store.GetPayment (UUID_opt_String (IdempotencyKey_ResourceID existing)) in
    let* order := Store.GetOrder (UUID_String (Payment_OrderID payment)) in
    ret (mkPayOrderResult order payment (stored_status (IdempotencyKey_StatusCode existing)) true)
  | Err _ =>
    let* result := WithTx (pay_order_tx params idempotencyKey requestHash) in
    do* inc (PaymentsTotal (Payment_Status (PayOrderResult_Payment result))) in
    ret result
  end.

(** *** CancelOrder *)

Definition cancel_order_tx (params : CancelOrderParams) : M Order :=
  let* found := try (Store.GetOrderForUpdate (CancelOrder_OrderID params)) in
  match found with
  | Err _ => throw ErrOrderNotFound
  | Ok order =>
    return_if order_forbidden (CancelOrder_Role params) (CancelOrder_UserID params) order
      with_err ErrOrderForbidden in
    return_if negb (status_open (Order_Status order)) with_err ErrOrderInvalidStatus in
    let* updatedOrder := Store.UpdateOrderStatus (UUID_String (Order_ID order)) OrderStatusCancelled in
    let* eventPayload := lift (json_Marshal (orderCancelledEventPayload (UUID_String (Order_ID updatedOrder))
                      (UUID_String (Order_UserID updatedOrder)) (Order_Status updatedOrder))) in
    let* eventID := NewString in
    do* Store.CreateOutboxEvent (Store.mkCreateOutboxEventParams eventID AggregateTypeOrder
          (UUID_String (Order_ID updatedOrder)) (UUID_String (Order_ID updatedOrder))
          EventTypeOrderCancelled eventPayload) in
    ret updatedOrder
  end.

Definition CancelOrder (params : CancelOrderParams) : M Order :=
  return_if bool_decide (CancelOrder_UserID params = "") || bool_decide (CancelOrder_OrderID params = "")
    with_err ErrInvalidInput in
  WithTx (cancel_order_tx params).
End order_service.
