(* ===== verification/Spec.v ===== *)
(** * The abstract order system

    What the services promise about the tables, as a transition system: each
    constructor of [db_step] is one committed transaction (or one statement
    outside a transaction) of the program.  The files of the services prove
    that every function only ever makes such steps, whatever the connections
    do ([CreateOrder_refines], ...); [Invariants] derives the properties of
    every reachable database by induction on the steps. *)

From S2P Require Import Prelude GoStrings Sha256 Json Models World.
From S2P Require Import Sqlc.
From S2P Require Import Store.
From S2P Require Import OrderService.

(** ** The tables after a step *)

Definition put_order o db := set_orders (<[Order_ID o := o]> (orders db)) db.
Definition put_payment p db := set_payments (<[Payment_ID p := p]> (payments db)) db.
Definition put_event e db := set_outbox_events (<[OutboxEvent_ID e := e]> (outbox_events db)) db.
Definition put_key k db := set_idempotency_keys (<[IdempotencyKey_ID k := k]> (idempotency_keys db)) db.
Definition put_user u db := set_users (<[User_ID u := u]> (users db)) db.
Definition put_token t db := set_refresh_tokens (<[RefreshToken_ID t := t]> (refresh_tokens db)) db.
Definition put_processed e db :=
  set_processed_events (<[(ProcessedEvent_EventID e, ProcessedEvent_ConsumerName e) := e]> (processed_events db)) db.
Definition put_delivery d db :=
  set_notification_deliveries (<[NotificationDelivery_ID d := d]> (notification_deliveries db)) db.

(** ** Conditions on new rows *)

(** An event that is recorded with a change: unpublished, of the given type,
    about the given aggregate, keyed by the given order, with the given payload. *)
Record fresh_event `{External} (db : DB) (agg : string) (aggID : UUID) (type : string) (order : UUID)
    (payload : json) (e : OutboxEvent) : Prop := {
  fe_new : outbox_events db !! OutboxEvent_ID e = None;
  fe_agg : OutboxEvent_AggregateType e = agg;
  fe_aggID : OutboxEvent_AggregateID e = aggID;
  fe_type : OutboxEvent_EventType e = type;
  fe_key : OutboxEvent_PartitionKey e = order;
  fe_unpublished : OutboxEvent_PublishedAt e = None;
  fe_attempt : OutboxEvent_Attempt e = 0;
  fe_payload : jsonb (Marshal payload) = Some (OutboxEvent_Payload e)
}.

(** An idempotency record of a user for a resource. *)
Record fresh_key (db : DB) (user : UUID) (code : Z) (type : string) (resource : UUID) (k : IdempotencyKey) : Prop := {
  fk_new : idempotency_keys db !! IdempotencyKey_ID k = None;
  fk_unused : lookup_by (same_key (IdempotencyKey_UserID k) (IdempotencyKey_Key k)) (idempotency_keys db) = None;
  fk_user : IdempotencyKey_UserID k = user;
  fk_has_user : is_Some (users db !! user);
  fk_code : IdempotencyKey_StatusCode k = Some code;
  fk_type : IdempotencyKey_ResourceType k = Some type;
  fk_resource : IdempotencyKey_ResourceID k = Some resource;
  fk_key : tidy (IdempotencyKey_Key k)
}.

(** The hash of a request: the SHA-256 digest of its JSON text. *)
Definition request_digest (request : json) : string := hex_encode (Sum256 (Marshal request)).

(** A new order of a user, waiting for its payment. *)
Record fresh_order (db : DB) (o : Order) : Prop := {
  fo_new : orders db !! Order_ID o = None;
  fo_user : is_Some (users db !! Order_UserID o);
  fo_amount : 0 < Order_AmountCents o;
  fo_status : Order_Status o = OrderStatusPendingPayment;
  fo_currency : tidy (Order_Currency o);
  fo_description d : Order_Description o = Some d → tidy d
}.

(** The mock provider declines the attempts whose identifier is printed with
    a "0" or an "f" at the end, whatever the order and the amount. *)
Definition declined `{External} (id : UUID) : bool :=
  match last_char (UUID_String id) with
  | Some a => bool_decide (a = "0"%char ∨ a = "f"%char)
  | None => false
  end.

(** What it answers: the status, its reference and the reason of a refusal,
    as the columns of the payment hold them. *)
Definition provider_answer `{External} (id : UUID) : string * option string * option string :=
  if declined id then (PaymentStatusFailed, None, Some "mock payment declined")
  else (PaymentStatusSucceeded, Some ("mock_" +:+ UUID_String id), None).

(** A payment attempt for an order, with the answer of the provider. *)
Record fresh_payment `{External} (db : DB) (o : Order) (p : Payment) : Prop := {
  fp_new : payments db !! Payment_ID p = None;
  fp_order : Payment_OrderID p = Order_ID o;
  fp_amount : Payment_AmountCents p = Order_AmountCents o;
  fp_provider : Payment_Provider p = PaymentProviderMock;
  fp_answer : (Payment_Status p, Payment_ProviderRef p, Payment_FailureReason p) = provider_answer (Payment_ID p)
}.

Lemma fp_status `{External} db o p :
  fresh_payment db o p → Payment_Status p = PaymentStatusSucceeded ∨ Payment_Status p = PaymentStatusFailed.
Proof. intros [_ _ _ _ Ha]. unfold provider_answer in Ha. destruct (declined _); simplify_eq; auto. Qed.

(** The status of the order and the type of the event that go with the
    status of a payment. *)
Definition paid_status (st : string) : string :=
  if bool_decide (st = PaymentStatusFailed) then OrderStatusPaymentFailed else OrderStatusPaid.
Definition paid_event (st : string) : string :=
  if bool_decide (st = PaymentStatusFailed) then EventTypePaymentFailed else EventTypePaymentSucceeded.

(** The name under which the notification consumer records events. *)
Definition ConsumerNameNotification : string := "notification-consumer".

(** ** Steps *)

Inductive db_step `{External} (db : DB) : DB → Prop :=
  (* OrderService.CreateOrder *)
  | step_create o e k orderID userID :
      fresh_order db o → UUID_Scan orderID = Some (Order_ID o) → UUID_Scan userID = Some (Order_UserID o) →
      fresh_event db AggregateTypeOrder (Order_ID o) EventTypeOrderCreated (Order_ID o)
        (orderCreatedEventPayload orderID userID OrderStatusPendingPayment (Order_AmountCents o)
           (Order_Currency o) (default "" (Order_Description o))) e →
      fresh_key db (Order_UserID o) StatusCreated "order" (Order_ID o) k →
      IdempotencyKey_RequestHash k = request_digest
        (create_request (Order_AmountCents o) (Order_Currency o) (default "" (Order_Description o))) →
      db_step db (put_key k (put_event e (put_order o db)))
  (* OrderService.PayOrder *)
  | step_pay o p e k user now orderID :
      orders db !! Order_ID o = Some o → status_open (Order_Status o) = true →
      fresh_payment db o p →
      fresh_event db AggregateTypePayment (Payment_ID p) (paid_event (Payment_Status p)) (Order_ID o)
        (paymentEventPayload (UUID_String (Payment_ID p)) (UUID_String (Order_ID o)) (UUID_String (Order_UserID o))
           (Payment_Status p) (Payment_AmountCents p) (Order_Currency o) (Payment_Provider p)
           (default "" (Payment_ProviderRef p)) (default "" (Payment_FailureReason p))) e →
      fresh_key db user StatusOK "payment" (Payment_ID p) k →
      UUID_Scan orderID = Some (Order_ID o) → IdempotencyKey_RequestHash k = request_digest (pay_request orderID) →
      db_step db (put_key k (put_event e (put_order (with_status (paid_status (Payment_Status p)) now o) (put_payment p db))))
  (* OrderService.CancelOrder *)
  | step_cancel o e now :
      orders db !! Order_ID o = Some o → status_open (Order_Status o) = true →
      fresh_event db AggregateTypeOrder (Order_ID o) EventTypeOrderCancelled (Order_ID o)
        (orderCancelledEventPayload (UUID_String (Order_ID o)) (UUID_String (Order_UserID o)) OrderStatusCancelled) e →
      db_step db (put_event e (put_order (with_status OrderStatusCancelled now o) db))
  (* AuthService.RegisterUser *)
  | step_register u :
      users db !! User_ID u = None →
      lookup_by (λ u', bool_decide (User_Email u' = User_Email u)) (users db) = None →
      role_check (User_Role u) = true →
      db_step db (put_user u db)
  (* AuthService.Login *)
  | step_login t token :
      refresh_tokens db !! RefreshToken_ID t = None →
      lookup_by (λ t', bool_decide (RefreshToken_TokenHash t' = RefreshToken_TokenHash t)) (refresh_tokens db) = None →
      is_Some (users db !! RefreshToken_UserID t) → RefreshToken_RevokedAt t = None →
      RefreshToken_TokenHash t = hex_encode (Sum256 token) →
      db_step db (put_token t db)
  (* AuthService.Logout *)
  | step_logout t now :
      refresh_tokens db !! RefreshToken_ID t = Some t → RefreshToken_RevokedAt t = None →
      db_step db (put_token (revoke now t) db)
  (* OutboxPublisher.PublishBatch: one claimed event *)
  | step_published e now :
      outbox_events db !! OutboxEvent_ID e = Some e →
      db_step db (put_event (mark_published now e) db)
  | step_failed e err :
      outbox_events db !! OutboxEvent_ID e = Some e →
      0 ≤ OutboxEvent_Attempt e + 1 ≤ int32_max →
      db_step db (put_event (mark_failed err e) db)
  (* EventHandler.Handle *)
  | step_process pe d :
      ProcessedEvent_ConsumerName pe = ConsumerNameNotification →
      processed_events db !! (ProcessedEvent_EventID pe, ProcessedEvent_ConsumerName pe) = None →
      notification_deliveries db !! NotificationDelivery_ID d = None →
      NotificationDelivery_EventID d = ProcessedEvent_EventID pe →
      NotificationDelivery_Status d = "sent" →
      db_step db (put_delivery d (put_processed pe db)).

(** The databases the program can produce, from the migrated one. *)
Definition reachable `{External} (db : DB) : Prop := rtc db_step empty_db db.

(** ** Every row is stored under its primary key *)

Record keyed (db : DB) : Prop := {
  keyed_users id u : users db !! id = Some u → User_ID u = id;
  keyed_tokens id t : refresh_tokens db !! id = Some t → RefreshToken_ID t = id;
  keyed_orders id o : orders db !! id = Some o → Order_ID o = id;
  keyed_payments id p : payments db !! id = Some p → Payment_ID p = id;
  keyed_keys id k : idempotency_keys db !! id = Some k → IdempotencyKey_ID k = id;
  keyed_events id e : outbox_events db !! id = Some e → OutboxEvent_ID e = id;
  keyed_processed id c pe : processed_events db !! (id, c) = Some pe →
    ProcessedEvent_EventID pe = id ∧ ProcessedEvent_ConsumerName pe = c;
  keyed_deliveries id d : notification_deliveries db !! id = Some d → NotificationDelivery_ID d = id
}.

Lemma keyed_empty : keyed empty_db.
Proof. split; intros * Hl; cbn in Hl; by apply lookup_empty_Some in Hl. Qed.

(** Case analysis on a row of a table into which a row was inserted. *)
Ltac insert_cases H :=
  cbn in H;
  lazymatch type of H with
  | <[_ := _]> _ !! _ = Some _ => apply lookup_insert_Some in H as [[? ?]|[? H]]; simplify_eq/=
  | _ => idtac
  end.

Lemma keyed_step `{External} db db' : db_step db db' → keyed db → keyed db'.
Proof.
  intros Hstep [Hu Ht Ho Hp Hk He Hpe Hd].
  destruct Hstep; split; intros * Hl; insert_cases Hl; eauto.
Qed.

Lemma reachable_keyed `{External} db : reachable db → keyed db.
Proof. revert db. apply (rtc_ind_r keyed); eauto using keyed_empty, keyed_step. Qed.

(** An invariant of the steps holds in every reachable database. *)
Lemma reachable_ind_keyed `{External} (P : DB → Prop) :
  P empty_db →
  (∀ db db', reachable db → keyed db → P db → db_step db db' → P db') →
  ∀ db, reachable db → P db.
Proof.
  intros H0 Hs. apply (rtc_ind_r P); [done|]. intros db db' Hr Hstep HP.
  apply (Hs db); [done|by apply reachable_keyed|done|done].
Qed.
