(* ===== verification/OrderRefine.v ===== *)
(** * The order service implements the abstract system

    Every transaction of [OrderService] is one step of [db_step], and every
    function leaves the tables as they were or makes exactly that step, for
    all fault schedules. *)

From S2P Require Import Prelude GoStrings Sha256 Json Models World.
From S2P Require Import Sqlc.
From S2P Require Import Store.
From S2P Require Import OrderService.
From S2P Require Import Spec.

(** The tables are unchanged, or changed by one step. *)
Definition opt_step `{External} (db db' : DB) : Prop := db' = db ∨ db_step db db'.

(** Unfold the store methods of a run and use what their queries say. *)
Ltac store_inv H :=
  lazymatch type of H with
  | Store.CreateOrder _ _ = _ => unfold Store.CreateOrder in H
  | Store.CreateOutboxEvent _ _ = _ => unfold Store.CreateOutboxEvent in H
  | Store.CreateIdempotencyKey _ _ = _ => unfold Store.CreateIdempotencyKey in H
  | Store.GetOrderForUpdate _ _ = _ => unfold Store.GetOrderForUpdate in H
  | Store.GetOrder _ _ = _ => unfold Store.GetOrder in H
  | Store.GetPayment _ _ = _ => unfold Store.GetPayment in H
  | Store.CreatePayment _ _ = _ => unfold Store.CreatePayment in H
  | Store.UpdateOrderStatus _ _ _ = _ => unfold Store.UpdateOrderStatus in H
  end; minv_step H.

(** ** What the services check first

    The currency, the description and the hash that CreateOrder works with,
    and the requests that pass its validation and that of PayOrder. *)
Section checks.
Context `{External}.

Definition create_currency (params : CreateOrderParams) : string :=
  TrimSpace (ToUpper unicode_upper (CreateOrder_Currency params)).
Definition create_description (params : CreateOrderParams) : string :=
  TrimSpace (CreateOrder_Description params).
Definition create_hash (params : CreateOrderParams) : string :=
  request_digest
    (create_request (CreateOrder_AmountCents params) (create_currency params) (create_description params)).
Definition pay_hash (params : PayOrderParams) : string :=
  request_digest (pay_request (PayOrder_OrderID params)).

(** A request passes the validation of CreateOrder, of PayOrder. *)
Definition create_valid (params : CreateOrderParams) : bool :=
  negb (bool_decide (TrimSpace (CreateOrder_IdempotencyKey params) = "")) &&
  negb (bool_decide (CreateOrder_UserID params = "") || (CreateOrder_AmountCents params <=? 0)
        || bool_decide (create_currency params = "")).
Definition pay_valid (params : PayOrderParams) : bool :=
  negb (bool_decide (PayOrder_UserID params = "") || bool_decide (PayOrder_OrderID params = "")) &&
  negb (bool_decide (TrimSpace (PayOrder_IdempotencyKey params) = "")).

(** What a transaction is given by a request that passed. *)
Record create_checked (params : CreateOrderParams) (key currency description hash : string) : Prop := {
  cc_key : tidy key;
  cc_currency : tidy currency;
  cc_description : description ≠ "" → tidy description;
  cc_hash : hash = request_digest (create_request (CreateOrder_AmountCents params) currency description)
}.
Record pay_checked (params : PayOrderParams) (key hash : string) : Prop := {
  pc_key : tidy key;
  pc_hash : hash = request_digest (pay_request (PayOrder_OrderID params))
}.

Lemma create_valid_checked params :
  create_valid params = true →
  create_checked params (TrimSpace (CreateOrder_IdempotencyKey params)) (create_currency params)
    (create_description params) (create_hash params).
Proof.
  unfold create_valid. rewrite andb_true_iff, !negb_true_iff, !orb_false_iff, !bool_decide_eq_false.
  intros [Hk [_ Hc]]. split; [by apply TrimSpace_tidy..|by apply TrimSpace_tidy|done].
Qed.

Lemma pay_valid_checked params :
  pay_valid params = true → pay_checked params (TrimSpace (PayOrder_IdempotencyKey params)) (pay_hash params).
Proof.
  unfold pay_valid. rewrite andb_true_iff, !negb_true_iff, bool_decide_eq_false.
  intros [_ Hk]. split; [by apply TrimSpace_tidy|done].
Qed.
End checks.

(** ** What the transactions do

    The rows a transaction reads and writes, and the request they come from. *)

(** The idempotency record of a request. *)
Record key_for (key method path hash : string) (code : Z) (resource : UUID) (k : IdempotencyKey) : Prop := {
  kf_key : IdempotencyKey_Key k = key;
  kf_method : IdempotencyKey_Method k = method;
  kf_path : IdempotencyKey_Path k = path;
  kf_hash : IdempotencyKey_RequestHash k = hash;
  kf_code : IdempotencyKey_StatusCode k = Some code;
  kf_resource : IdempotencyKey_ResourceID k = Some resource;
  kf_text : text_ok key = true
}.

(** CreateOrder: the order [o], its event [e] and the idempotency record [k]. *)
Record create_outcome `{External} (params : CreateOrderParams) (key currency description hash : string)
    (db : DB) (o : Order) (e : OutboxEvent) (k : IdempotencyKey) (db' : DB) : Prop := {
  co_step : db_step db db';
  co_db : db' = put_key k (put_event e (put_order o db));
  co_fresh : fresh_order db o;
  co_user : UUID_Scan (CreateOrder_UserID params) = Some (Order_UserID o);
  co_amount : Order_AmountCents o = CreateOrder_AmountCents params;
  co_currency : Order_Currency o = currency;
  co_description : Order_Description o = text description;
  co_key_user : IdempotencyKey_UserID k = Order_UserID o;
  co_event : OutboxEvent_PublishedAt e = None;
  co_key : key_for key (CreateOrder_Method params) (CreateOrder_Path params) hash StatusCreated (Order_ID o) k
}.

(** PayOrder: the order [o] that is paid, the event and the idempotency record. *)
Record pay_outcome `{External} (params : PayOrderParams) (key hash : string)
    (db : DB) (r : PayOrderResult) (o : Order) (e : OutboxEvent) (k : IdempotencyKey) (db' : DB) : Prop := {
  po_step : db_step db db';
  po_db : db' = put_key k (put_event e (put_order (PayOrderResult_Order r) (put_payment (PayOrderResult_Payment r) db)));
  po_order : orders db !! Order_ID o = Some o;
  po_id : UUID_Scan (PayOrder_OrderID params) = Some (Order_ID o);
  po_allowed : order_forbidden (PayOrder_Role params) (PayOrder_UserID params) o = false;
  po_open : status_open (Order_Status o) = true;
  po_payment : fresh_payment db o (PayOrderResult_Payment r);
  po_updated : PayOrderResult_Order r =
    with_status (paid_status (Payment_Status (PayOrderResult_Payment r))) (Order_UpdatedAt (PayOrderResult_Order r)) o;
  po_code : PayOrderResult_StatusCode r = StatusOK;
  po_cached : PayOrderResult_Cached r = false;
  po_key_user : UUID_Scan (PayOrder_UserID params) = Some (IdempotencyKey_UserID k);
  po_event : OutboxEvent_PublishedAt e = None;
  po_key : key_for key (PayOrder_Method params) (PayOrder_Path params) hash StatusOK
             (Payment_ID (PayOrderResult_Payment r)) k
}.

(** CancelOrder: the order [o] that is cancelled, its event. *)
Record cancel_outcome `{External} (params : CancelOrderParams)
    (db : DB) (updated o : Order) (e : OutboxEvent) (db' : DB) : Prop := {
  xo_step : db_step db db';
  xo_db : db' = put_event e (put_order updated db);
  xo_order : orders db !! Order_ID o = Some o;
  xo_id : UUID_Scan (CancelOrder_OrderID params) = Some (Order_ID o);
  xo_allowed : order_forbidden (CancelOrder_Role params) (CancelOrder_UserID params) o = false;
  xo_open : status_open (Order_Status o) = true;
  xo_updated : updated = with_status OrderStatusCancelled (Order_UpdatedAt updated) o;
  xo_event : OutboxEvent_PublishedAt e = None
}.

Lemma text_tidy s d : (s ≠ "" → tidy s) → text s = Some d → tidy d.
Proof. unfold text. case_bool_decide; [done|]. intros Hs [= <-]. auto. Qed.

Lemma text_default s : default "" (text s) = s.
Proof. unfold text. by case_bool_decide; subst. Qed.

Section refine.
Context `{External} `{!ExternalLaws _}.

Lemma scan_String u v : UUID_Scan (UUID_String u) = Some v → v = u.
Proof. rewrite UUID_Scan_String. congruence. Qed.

Lemma UUID_String_nonempty u : UUID_String u ≠ "".
Proof. intros Heq. pose proof (UUID_Scan_String u) as Hs. rewrite Heq, UUID_Scan_empty in Hs. done. Qed.

Lemma fresh_event_frame db db' agg aggID ty order payload e :
  outbox_events db = outbox_events db' →
  fresh_event db agg aggID ty order payload e → fresh_event db' agg aggID ty order payload e.
Proof. intros Heq []. split; try done. by rewrite <- Heq. Qed.

Lemma fresh_key_frame db db' user code ty res k :
  idempotency_keys db = idempotency_keys db' → users db = users db' →
  fresh_key db user code ty res k → fresh_key db' user code ty res k.
Proof. intros Hk Hu []. split; rewrite <- ?Hk, <- ?Hu; done. Qed.

(** The idempotency record that closes a transaction. *)
Lemma put_key_ok p w k w' resource :
  Store.CreateIdempotencyKey p w = (Ok k, w') →
  sCreateIdempotencyKey_ResourceID p = UUID_String resource → tidy (sCreateIdempotencyKey_Key p) →
  0 < sCreateIdempotencyKey_StatusCode p → sCreateIdempotencyKey_ResourceType p ≠ "" →
  UUID_Scan (sCreateIdempotencyKey_UserID p) = Some (IdempotencyKey_UserID k) ∧
  fresh_key (w_db w) (IdempotencyKey_UserID k) (sCreateIdempotencyKey_StatusCode p) (sCreateIdempotencyKey_ResourceType p) resource k ∧
  IdempotencyKey_Key k = sCreateIdempotencyKey_Key p ∧
  IdempotencyKey_Method k = sCreateIdempotencyKey_Method p ∧
  IdempotencyKey_Path k = sCreateIdempotencyKey_Path p ∧
  IdempotencyKey_RequestHash k = sCreateIdempotencyKey_RequestHash p ∧
  text_ok (sCreateIdempotencyKey_Key p) = true ∧
  w_db w' = put_key k (w_db w).
Proof.
  intros Hk Hr Hkey Hc Ht. pose proof (UUID_String_nonempty resource) as Hne.
  store_inv Hk; rewrite Hr in *; split_guards; [done|].
  apply Sqlc.CreateIdempotencyKey_ok in Hk as (body & ? & ? & ? & ? & ? & -> & ->). cbn in *.
  unfold int4, text in *. rewrite !bool_decide_eq_true_2 by done.
  rewrite bool_decide_eq_false_2 by done. simplify_eq.
  match goal with H : UUID_Scan (UUID_String _) = _ |- _ => apply scan_String in H as -> end.
  split_and!; done.
Qed.

(** The event that a transaction records. *)
Lemma put_event_ok p w e w' agg order payload :
  Store.CreateOutboxEvent p w = (Ok e, w') →
  sCreateOutboxEvent_AggregateID p = UUID_String agg →
  sCreateOutboxEvent_PartitionKey p = UUID_String order →
  sCreateOutboxEvent_Payload p = Marshal payload →
  fresh_event (w_db w) (sCreateOutboxEvent_AggregateType p) agg (sCreateOutboxEvent_EventType p) order payload e ∧
  w_db w' = put_event e (w_db w).
Proof.
  intros He Ha Ho Hp. store_inv He. rewrite Ha, Ho, Hp in *.
  repeat match goal with H : UUID_Scan (UUID_String _) = _ |- _ => apply scan_String in H as -> end.
  apply Sqlc.CreateOutboxEvent_ok in He as (body & Hb & ? & ? & -> & ->). cbn in *. done.
Qed.

(** Use the effect of every store call of a run. *)
Ltac run_inv :=
  repeat (match goal with
  | Hq : Store.CreateOrder _ _ = (Ok _, _) |- _ =>
    store_inv Hq; apply Sqlc.CreateOrder_ok in Hq as (? & ? & ? & _ & ? & ?); subst
  | Hq : Store.CreatePayment _ _ = (Ok _, _) |- _ =>
    store_inv Hq; apply Sqlc.CreatePayment_ok in Hq as (? & ? & ? & ? & ? & ?); subst
  | Hq : Store.UpdateOrderStatus _ _ _ = (Ok _, _) |- _ =>
    store_inv Hq; apply Sqlc.UpdateOrderStatus_ok in Hq as (? & ? & ? & ?); subst
  | Hq : Store.GetOrderForUpdate _ _ = (Ok _, _) |- _ =>
    store_inv Hq; apply Sqlc.GetOrderForUpdate_ok in Hq as (? & ?); subst
  | Hq : Store.CreateOutboxEvent _ _ = (Ok _, _) |- _ =>
    eapply put_event_ok in Hq as [? ?]; [|reflexivity..]
  | Hq : Store.CreateIdempotencyKey _ _ = (Ok _, _) |- _ =>
    eapply put_key_ok in Hq as (? & ? & ? & ? & ? & ? & ? & ?); [|reflexivity|assumption|done|done]
  | Hq : UUID_Scan (UUID_String _) = Some _ |- _ => apply scan_String in Hq; subst
  end; cbn [sCreateIdempotencyKey_UserID] in *; simplify_eq).

(** The order that a transaction locked is the one it reads again. *)
Ltac reread o :=
  repeat match goal with
  | Hq : UUID_Scan (UUID_String _) = Some _ |- _ => apply scan_String in Hq
  | Ho : orders ?db !! Order_ID o = Some o, Hx : orders ?db !! Order_ID o = Some ?x |- _ =>
    is_var x; rewrite Ho in Hx; injection Hx as <-
  end; subst; simplify_eq;
  repeat match goal with H : context [sql_now ?w] |- _ => let n := fresh "now" in set (n := sql_now w) in *; clearbody n end.

(** *** CreateOrder *)

Lemma create_order_tx_step params key currency description hash w o w' :
  create_checked params key currency description hash →
  create_order_tx params key currency description hash w = (Ok o, w') →
  ∃ e k, create_outcome params key currency description hash (w_db w) o e k (w_db w').
Proof.
  intros [Hkey Hcur Hdesc Hhash]. unfold create_order_tx, json_Marshal. intros Htx. minv_step Htx.
  run_inv. cbn in *. simplify_eq. eexists _, _.
  match goal with Hk : fresh_key (w_db ?w1) _ _ _ _ _, Hdb : w_db ?w1 = _ |- _ => rewrite Hdb in * end.
  assert (∀ d, text description = Some d → tidy d) as Hd by (intros d; by apply text_tidy).
  split; first [eassumption | reflexivity | by split | by eapply fe_unpublished | idtac].
  - match goal with Hdb : w_db ?w2 = _ |- db_step _ (w_db ?w2) => rewrite Hdb end.
    eapply (step_create _ (mkOrder _ _ _ _ _ _ _ _)); cbn; rewrite ?text_default;
      first [eassumption | by split | congruence | idtac].
    + eapply fresh_event_frame; [|eassumption]; done.
    + eapply fresh_key_frame; [| |eassumption]; done.
  - split; first [done | by eapply fk_code | by eapply fk_resource].
Qed.

(** *** PayOrder *)

Lemma mockPayment_status paymentID st ref reason :
  mockPayment paymentID = (st, ref, reason) →
  (st = PaymentStatusSucceeded ∧ ref = "mock_" +:+ paymentID ∧ reason = "") ∨
  (st = PaymentStatusFailed ∧ ref = "" ∧ reason = "mock payment declined").
Proof. unfold mockPayment. destruct (_ || _); intros [= <- <- <-]; auto. Qed.

(** The provider's answer, as the columns of the payment hold it. *)
Lemma mockPayment_answer id :
  let '(st, ref, reason) := mockPayment (UUID_String id) in (st, text ref, text reason) = provider_answer id.
Proof.
  unfold mockPayment, provider_answer, declined. rewrite !HasSuffix_char.
  destruct (last_char (UUID_String id)) as [a|]; [|done].
  repeat case_bool_decide; naive_solver.
Qed.

Lemma GetOrderForUpdate_found id w o w' :
  keyed (w_db w) →
  Store.GetOrderForUpdate id w = (Ok o, w') →
  UUID_Scan id = Some (Order_ID o) ∧ orders (w_db w) !! Order_ID o = Some o ∧ w_db w' = w_db w.
Proof.
  intros Hk Hq. store_inv Hq. apply Sqlc.GetOrderForUpdate_ok in Hq as [Ho ->].
  pose proof (keyed_orders _ Hk _ _ Ho) as Heq. by rewrite Heq.
Qed.

Lemma pay_order_tx_step params key hash w r w' :
  keyed (w_db w) → pay_checked params key hash →
  pay_order_tx params key hash w = (Ok r, w') →
  ∃ o e k, pay_outcome params key hash (w_db w) r o e k (w_db w').
Proof.
  intros Hkeyed [Hkey Hhash]. unfold pay_order_tx, json_Marshal. intros Htx. minv_step Htx.
  destruct r0 as [o|]; [|done]. minv_step Htx.
  apply GetOrderForUpdate_found in Htx0 as (Hid & Ho & Hdb0); [|done].
  destruct (uuid_New_canonical (w_seed w0)) as [pid Hpid]. rewrite <- Hpid in Htx.
  pose proof (mockPayment_answer pid) as Hmock. destruct (mockPayment (UUID_String pid)) as [[st ref] reason].
  minv_step Htx. run_inv. cbn in *. rewrite Hdb0 in *. reread o.
  set (p := mkPayment _ _ _ _ _ _ _ _ _) in *. clear Hdb0.
  assert (fresh_payment (w_db w) o p) as Hp by (split; subst p; cbn; try done; naive_solver).
  assert (status_open (Order_Status o) = true) as Hopen by (by destruct (status_open _)).
  match goal with Hk : fresh_key (w_db ?w1) _ _ _ _ ?k, He : fresh_event _ _ _ _ _ _ ?e, Hdb : w_db ?w1 = _ |- _ =>
    rewrite Hdb in *; exists o, e, k
  end.
  split; first [done | by eapply fe_unpublished | by split; first [done | by eapply fk_code | by eapply fk_resource] | idtac].
  match goal with Hdb : w_db ?w2 = _ |- db_step _ (w_db ?w2) => rewrite Hdb end.
  eapply (step_pay _ o p); first [done | idtac].
  - subst p. cbn. rewrite !text_default. eapply fresh_event_frame; [|eassumption]; done.
  - eapply fresh_key_frame; [| |eassumption]; done.
Qed.

(** *** CancelOrder *)

Lemma cancel_order_tx_step params w o' w' :
  keyed (w_db w) →
  cancel_order_tx params w = (Ok o', w') →
  ∃ o e, cancel_outcome params (w_db w) o' o e (w_db w').
Proof.
  intros Hkeyed. unfold cancel_order_tx, json_Marshal. intros Htx. minv_step Htx.
  destruct r as [o|]; [|done]. minv_step Htx.
  apply GetOrderForUpdate_found in Htx0 as (Hid & Ho & Hdb0); [|done].
  run_inv. cbn in *. rewrite Hdb0 in *. reread o. clear Hdb0.
  assert (status_open (Order_Status o) = true) as Hopen by (by destruct (status_open _)).
  match goal with He : fresh_event _ _ _ _ _ _ ?e |- _ => exists o, e end.
  split; first [done | by eapply fe_unpublished | idtac].
  match goal with Hdb : w_db ?w2 = _ |- db_step _ (w_db ?w2) => rewrite Hdb end.
  eapply step_cancel; [done..|]. eapply fresh_event_frame; [|eassumption]; done.
Qed.
(** *** The three functions, whatever the connections do *)

(** A request that does not pass the validation reaches no server. *)
Lemma CreateOrder_invalid params w : create_valid params = false → ∃ e, CreateOrder params w = (Err e, w).
Proof.
  unfold CreateOrder, create_valid. cbn zeta. fold (create_currency params).
  destruct (bool_decide _); [by eexists|]. destruct (_ || _); [by eexists|done].
Qed.
Lemma PayOrder_invalid params w : pay_valid params = false → ∃ e, PayOrder params w = (Err e, w).
Proof.
  unfold PayOrder, pay_valid. cbn zeta.
  destruct (_ || _); [by eexists|]. destruct (bool_decide _); [by eexists|done].
Qed.

(** Nothing happened, and the answer is an error or a stored one; or the
    transaction committed, and the answer is its result or was lost. *)
Lemma CreateOrder_cases params w r w' :
  CreateOrder params w = (r, w') →
  (w_db w' = w_db w ∧ ∀ res, r = Ok res → CreateOrderResult_Cached res = true)
  ∨ ∃ o e k,
    create_outcome params (TrimSpace (CreateOrder_IdempotencyKey params)) (create_currency params)
      (create_description params) (create_hash params) (w_db w) o e k (w_db w') ∧
    (r = Ok (mkCreateOrderResult o StatusCreated false) ∨ lost_answer r).
Proof.
  intros Hrun. destruct (create_valid params) eqn:Hv.
  2: { destruct (CreateOrder_invalid params w Hv) as [e He]. rewrite He in Hrun. left. by simplify_eq. }
  apply create_valid_checked in Hv as Hok. revert Hrun. unfold CreateOrder, HashRequestBody, json_Marshal. cbn zeta.
  destruct (bool_decide _); [by intros [= <- <-]; left|].
  destruct (_ || _); [by intros [= <- <-]; left|].
  fold (create_currency params) (create_description params) (request_digest (create_request
    (CreateOrder_AmountCents params) (create_currency params) (create_description params))) (create_hash params).
  unfold bind at 1, lift. unfold bind at 1, try.
  destruct (Store.GetIdempotencyKey _ _ w) as [found w1] eqn:Hg.
  apply readonly_run in Hg; [|eauto with orderdb]. destruct found as [existing|e].
  - destruct (idempotency_conflict _ _ _ _); [by intros [= <- <-]; left|].
    unfold bind. destruct (Store.GetOrder _ w1) as [go w2] eqn:Ho.
    apply readonly_run in Ho; [|eauto with orderdb].
    destruct go; intros [= <- <-]; left; split; try congruence; naive_solver.
  - unfold bind at 1. destruct (WithTx _ w1) as [rt w2] eqn:Ht. intros Hr.
    eapply (WithTx_outcome _ (λ o db', ∃ e k, create_outcome params _ _ _ _ (w_db w) o e k db')) in Ht.
    2: { intros w3 o w4 Hw3 Hf. apply create_order_tx_step in Hf; [|done]. by rewrite <- Hg, <- Hw3. }
    destruct Ht as [[Hdb Hno]|(o & (e' & k & Hout) & [->|[msg ->]])].
    + left. destruct rt; [done|]. injection Hr as <- <-. split; [congruence|done].
    + injection Hr as <- <-. right. exists o, e', k. split; [done|by left].
    + injection Hr as <- <-. right. exists o, e', k. split; [done|right; by exists msg].
Qed.

Lemma PayOrder_cases params w r w' :
  keyed (w_db w) →
  PayOrder params w = (r, w') →
  (w_db w' = w_db w ∧ ∀ res, r = Ok res → PayOrderResult_Cached res = true)
  ∨ ∃ res o e k,
    pay_outcome params (TrimSpace (PayOrder_IdempotencyKey params)) (pay_hash params)
      (w_db w) res o e k (w_db w') ∧
    (r = Ok res ∨ lost_answer r).
Proof.
  intros Hk Hrun. destruct (pay_valid params) eqn:Hv.
  2: { destruct (PayOrder_invalid params w Hv) as [e He]. rewrite He in Hrun. left. by simplify_eq. }
  apply pay_valid_checked in Hv as Hok. revert Hrun. unfold PayOrder, HashRequestBody, json_Marshal. cbn zeta.
  destruct (_ || _); [by intros [= <- <-]; left|].
  destruct (bool_decide _); [by intros [= <- <-]; left|].
  fold (request_digest (pay_request (PayOrder_OrderID params))) (pay_hash params).
  unfold bind at 1, lift. unfold bind at 1, try.
  destruct (Store.GetIdempotencyKey _ _ w) as [found w1] eqn:Hg.
  apply readonly_run in Hg; [|eauto with orderdb]. destruct found as [existing|e].
  - destruct (idempotency_conflict _ _ _ _); [by intros [= <- <-]; left|].
    unfold bind at 1. destruct (Store.GetPayment _ w1) as [gp w2] eqn:Hp.
    apply readonly_run in Hp; [|eauto with orderdb].
    destruct gp as [p|]; [|intros [= <- <-]; left; split; congruence].
    unfold bind. destruct (Store.GetOrder _ w2) as [go w3] eqn:Ho.
    apply readonly_run in Ho; [|eauto with orderdb].
    destruct go; intros [= <- <-]; left; split; try congruence; naive_solver.
  - unfold bind at 1. destruct (WithTx _ w1) as [rt w2] eqn:Ht. intros Hr.
    eapply (WithTx_outcome _ (λ res db', ∃ o e k, pay_outcome params _ _ (w_db w) res o e k db')) in Ht.
    2: { intros w3 res w4 Hw3 Hf. apply pay_order_tx_step in Hf; [|congruence|done]. by rewrite <- Hg, <- Hw3. }
    destruct Ht as [[Hdb Hno]|(res & (o & e' & k & Hout) & [->|[msg ->]])].
    + left. destruct rt; [done|]. injection Hr as <- <-. split; [congruence|done].
    + injection Hr as <- <-. right. exists res, o, e', k. split; [done|by left].
    + injection Hr as <- <-. right. exists res, o, e', k. split; [done|right; by exists msg].
Qed.

Lemma CancelOrder_cases params w r w' :
  keyed (w_db w) →
  CancelOrder params w = (r, w') →
  (w_db w' = w_db w ∧ is_ok r = false)
  ∨ ∃ res o e, cancel_outcome params (w_db w) res o e (w_db w') ∧ (r = Ok res ∨ lost_answer r).
Proof.
  intros Hk. unfold CancelOrder. destruct (_ || _); [by intros [= <- <-]; left|]. intros Ht.
  eapply (WithTx_outcome _ (λ res db', ∃ o e, cancel_outcome params (w_db w) res o e db')) in Ht.
  2: { intros w3 res w4 Hw3 Hf. apply cancel_order_tx_step in Hf; [|congruence]. by rewrite <- Hw3. }
  destruct Ht as [?|(res & (o & e' & Hout) & Hr)]; [by left|right]. by exists res, o, e'.
Qed.

Lemma readonly_ListOrders_service params : readonly (OrderService.ListOrders params).
Proof. unfold OrderService.ListOrders. case_bool_decide; [unfold Store.ListOrders|]; eauto with orderdb. Qed.

Lemma readonly_GetOrder_service params : readonly (OrderService.GetOrder params).
Proof.
  unfold OrderService.GetOrder. apply readonly_bind; [eauto with orderdb|].
  intros [o|]; [destruct (order_forbidden _ _ _)|]; eauto with orderdb.
Qed.

(** *** Every function of the service is a step of the abstract system, or none *)

(** CreateOrder changes the tables by one [step_create] or not at all. *)
Lemma CreateOrder_step params w r w' :
  CreateOrder params w = (r, w') → opt_step (w_db w) (w_db w').
Proof. intros [[? _]|(o & e & k & Hout & _)]%CreateOrder_cases; [by left|right; by eapply co_step]. Qed.

Lemma PayOrder_step params w r w' :
  keyed (w_db w) → PayOrder params w = (r, w') → opt_step (w_db w) (w_db w').
Proof.
  intros Hk Hr. apply PayOrder_cases in Hr as [[? _]|(res & o & e & k & Hout & _)]; [by left| |done].
  right. by eapply po_step.
Qed.

Lemma CancelOrder_step params w r w' :
  keyed (w_db w) → CancelOrder params w = (r, w') → opt_step (w_db w) (w_db w').
Proof.
  intros Hk Hr. apply CancelOrder_cases in Hr as [[? _]|(res & o & e & Hout & _)]; [by left| |done].
  right. by eapply xo_step.
Qed.
End refine.
