(* ===== verification/Evolution.v ===== *)
(** * How rows evolve

    Along the steps of the abstract system no row disappears; users, payments
    and idempotency records never change, an order changes its status only
    while it is open, an event only its publication data, a refresh token only
    from live to revoked. *)

From S2P Require Import Prelude GoStrings Json Models World.
From S2P Require Import Sqlc.
From S2P Require Import OrderService.
From S2P Require Import Spec.

(** ** Evolution of one row *)

(** The columns of an order that never change. *)
Definition order_fixed (o : Order) :=
  (Order_ID o, Order_UserID o, Order_AmountCents o, Order_Currency o, Order_Description o, Order_CreatedAt o).

(** One transition of an order: it was open, and is paid, failed or cancelled. *)
Inductive order_move : Order → Order → Prop :=
  | move_paid o now : status_open (Order_Status o) = true → order_move o (with_status OrderStatusPaid now o)
  | move_failed o now : status_open (Order_Status o) = true → order_move o (with_status OrderStatusPaymentFailed now o)
  | move_cancelled o now : status_open (Order_Status o) = true → order_move o (with_status OrderStatusCancelled now o).

(** The columns of an event that never change. *)
Definition event_fixed (e : OutboxEvent) :=
  (OutboxEvent_ID e, OutboxEvent_AggregateType e, OutboxEvent_AggregateID e, OutboxEvent_EventType e,
   OutboxEvent_Payload e, OutboxEvent_CreatedAt e, OutboxEvent_PartitionKey e).

(** Once published, always published. *)
Definition event_evolves (e e' : OutboxEvent) : Prop :=
  event_fixed e' = event_fixed e ∧ (is_Some (OutboxEvent_PublishedAt e) → is_Some (OutboxEvent_PublishedAt e')).

Definition token_evolves (t t' : RefreshToken) : Prop :=
  t' = t ∨ (RefreshToken_RevokedAt t = None ∧ ∃ now, t' = revoke now t).

#[global] Instance event_evolves_refl : Reflexive event_evolves.
Proof. by intros e. Qed.
#[global] Instance event_evolves_trans : Transitive event_evolves.
Proof. intros e1 e2 e3 [? ?] [? ?]. split; [congruence|auto]. Qed.

Lemma order_move_fixed o o' : order_move o o' → order_fixed o' = order_fixed o.
Proof. by destruct 1. Qed.

Lemma order_moves_fixed o o' : rtc order_move o o' → order_fixed o' = order_fixed o.
Proof. induction 1; [done|]. etransitivity; [done|]. by apply order_move_fixed. Qed.

(** Paid and cancelled are final. *)
Lemma order_move_closed o o' : status_open (Order_Status o) = false → rtc order_move o o' → o' = o.
Proof. intros Hc Hr. destruct Hr as [|o o1 o2 Hm]; [done|]. destruct Hm; congruence. Qed.

Lemma with_status_move st o now :
  status_open (Order_Status o) = true → order_move o (with_status (paid_status st) now o).
Proof. intros Hs. unfold paid_status. case_bool_decide; by constructor. Qed.

(** ** Evolution of the tables along a step *)

(** Look up a row in a table that a step may have updated. *)
Ltac updated :=
  cbn; lazymatch goal with
  | |- ∃ _, <[?k := _]> _ !! ?i = Some _ ∧ _ =>
    destruct (decide (k = i)); simplify_eq/=; rewrite ?lookup_insert_eq, ?lookup_insert_ne by done; eauto
  | |- <[?k := _]> _ !! ?i = Some _ =>
    destruct (decide (k = i)); simplify_eq/=; rewrite ?lookup_insert_eq, ?lookup_insert_ne by done; eauto
  | |- _ => eauto
  end.

Section evolution.
Context `{External}.

Lemma step_order db db' id o :
  db_step db db' → orders db !! id = Some o →
  ∃ o', orders db' !! id = Some o' ∧ rtc order_move o o'.
Proof.
  intros Hstep Ho.
  destruct Hstep; try match goal with Hf : fresh_order _ _ |- _ => destruct Hf end; updated;
    try (by eauto using rtc_refl); eexists; (split; [done|]); apply rtc_once;
    [by apply with_status_move|by constructor].
Qed.

Lemma step_user db db' id u : db_step db db' → users db !! id = Some u → users db' !! id = Some u.
Proof. intros Hstep Hu. destruct Hstep; updated. Qed.

Lemma step_payment db db' id p : db_step db db' → payments db !! id = Some p → payments db' !! id = Some p.
Proof.
  intros Hstep Hp.
  destruct Hstep; try match goal with Hf : fresh_payment _ _ _ |- _ => destruct Hf end; updated.
Qed.

Lemma step_key db db' id k :
  db_step db db' → idempotency_keys db !! id = Some k → idempotency_keys db' !! id = Some k.
Proof.
  intros Hstep Hp.
  destruct Hstep; try match goal with Hf : fresh_key _ _ _ _ _ _ |- _ => destruct Hf end; updated.
Qed.

Lemma step_event db db' id e :
  db_step db db' → outbox_events db !! id = Some e →
  ∃ e', outbox_events db' !! id = Some e' ∧ event_evolves e e'.
Proof.
  intros Hstep He.
  destruct Hstep; try match goal with Hf : fresh_event _ _ _ _ _ _ _ |- _ => destruct Hf end; updated;
    eexists; (split; [done|]); split; cbn; by eauto.
Qed.

Lemma step_token db db' id t :
  db_step db db' → refresh_tokens db !! id = Some t →
  ∃ t', refresh_tokens db' !! id = Some t' ∧ token_evolves t t'.
Proof.
  intros Hstep Ht. destruct Hstep; updated; try (eexists; split; [done|]; by left).
  eexists; split; [done|]. right. eauto.
Qed.

Lemma step_processed db db' k pe :
  db_step db db' → processed_events db !! k = Some pe → processed_events db' !! k = Some pe.
Proof. intros Hstep Hp. destruct Hstep; updated. Qed.

Lemma step_delivery db db' id d :
  db_step db db' → notification_deliveries db !! id = Some d → notification_deliveries db' !! id = Some d.
Proof. intros Hstep Hp. destruct Hstep; updated. Qed.

(** Any number of steps. *)
Lemma steps_order db db' id o :
  rtc db_step db db' → orders db !! id = Some o →
  ∃ o', orders db' !! id = Some o' ∧ rtc order_move o o'.
Proof.
  intros Hr. revert o. induction Hr as [|db1 db2 db3 Hs _ IH]; intros o Ho; [by eauto using rtc_refl|].
  destruct (step_order _ _ _ _ Hs Ho) as (o2 & Ho2 & ?). destruct (IH _ Ho2) as (o3 & ? & ?).
  exists o3. split; [done|by etransitivity].
Qed.

Lemma steps_event db db' id e :
  rtc db_step db db' → outbox_events db !! id = Some e →
  ∃ e', outbox_events db' !! id = Some e' ∧ event_evolves e e'.
Proof.
  intros Hr. revert e. induction Hr as [|db1 db2 db3 Hs _ IH]; intros e He; [by exists e|].
  destruct (step_event _ _ _ _ Hs He) as (e2 & He2 & ?). destruct (IH _ He2) as (e3 & ? & ?).
  exists e3. split; [done|by etransitivity].
Qed.

Lemma steps_user db db' id u : rtc db_step db db' → users db !! id = Some u → users db' !! id = Some u.
Proof. induction 1; eauto using step_user. Qed.
Lemma steps_payment db db' id p : rtc db_step db db' → payments db !! id = Some p → payments db' !! id = Some p.
Proof. induction 1; eauto using step_payment. Qed.
Lemma steps_key db db' id k :
  rtc db_step db db' → idempotency_keys db !! id = Some k → idempotency_keys db' !! id = Some k.
Proof. induction 1; eauto using step_key. Qed.
Lemma steps_processed db db' k pe :
  rtc db_step db db' → processed_events db !! k = Some pe → processed_events db' !! k = Some pe.
Proof. induction 1; eauto using step_processed. Qed.
Lemma steps_delivery db db' id d :
  rtc db_step db db' → notification_deliveries db !! id = Some d → notification_deliveries db' !! id = Some d.
Proof. induction 1; eauto using step_delivery. Qed.
Lemma steps_keyed db db' : rtc db_step db db' → keyed db → keyed db'.
Proof. induction 1; eauto using keyed_step. Qed.
End evolution.

#[export] Hint Resolve step_user step_payment step_key step_processed step_delivery : orderdb.
