(* ===== verification/Invariants.v ===== *)
(** * Invariants of every reachable database

    By induction on the steps of the abstract system: the schema's foreign
    keys and unique keys, the ledger of orders and payments, the outbox, the
    idempotency records and the notifications. *)

From S2P Require Import Prelude GoStrings Json Models World.
From S2P Require Import Sqlc.
From S2P Require Import OrderService.
From S2P Require Import Spec.
From S2P Require Import Evolution.

(** ** Tools *)

Lemma insert_is_Some `{Countable K} {A} (m : gmap K A) k j x : is_Some (m !! k) → is_Some (<[j := x]> m !! k).
Proof. intros. apply lookup_insert_is_Some. destruct (decide (j = k)); auto. Qed.

#[export] Hint Resolve insert_is_Some : orderdb.

(** A column is unique when equal values are in the same row. *)
Definition unique_on `{Countable K} {A B} (P : A → Prop) (f : A → B) (m : gmap K A) : Prop :=
  ∀ i j x y, m !! i = Some x → m !! j = Some y → P x → P y → f x = f y → i = j.

Lemma unique_on_insert `{Countable K} {A B} (P : A → Prop) (f : A → B) (m : gmap K A) k x :
  unique_on P f m → (P x → ∀ j y, j ≠ k → m !! j = Some y → P y → f y ≠ f x) → unique_on P f (<[k := x]> m).
Proof.
  intros Hu Hx i j a b Hi Hj Ha Hb Hf.
  apply lookup_insert_Some in Hi as [[-> ->]|[Hki Hi]], Hj as [[-> ->]|[Hkj Hj]]; [done|..].
  - destruct (Hx Ha _ _ (not_eq_sym Hkj) Hj Hb). done.
  - destruct (Hx Hb _ _ (not_eq_sym Hki) Hi Ha). done.
  - by eapply Hu.
Qed.

(** Replacing a row by one with the same value. *)
Lemma unique_on_update `{Countable K} {A B} (P : A → Prop) (f : A → B) (m : gmap K A) k x x' :
  unique_on P f m → m !! k = Some x → f x' = f x → (P x' → P x) → unique_on P f (<[k := x']> m).
Proof.
  intros Hu Hk Hf HP. apply unique_on_insert; [done|]. intros HPx' j y Hj Hy HPy Heq.
  apply Hj. eapply Hu; eauto; congruence.
Qed.

(** ** The schema *)

Record schema_ok (db : DB) : Prop := {
  sc_order_user id o : orders db !! id = Some o → is_Some (users db !! Order_UserID o);
  sc_order_amount id o : orders db !! id = Some o → 0 < Order_AmountCents o;
  sc_order_status id o : orders db !! id = Some o → order_status_check (Order_Status o) = true;
  sc_payment_order id p : payments db !! id = Some p →
    ∃ o, orders db !! Payment_OrderID p = Some o ∧ Payment_AmountCents p = Order_AmountCents o;
  sc_payment_status id p : payments db !! id = Some p →
    Payment_Status p = PaymentStatusSucceeded ∨ Payment_Status p = PaymentStatusFailed;
  sc_key_user id k : idempotency_keys db !! id = Some k → is_Some (users db !! IdempotencyKey_UserID k);
  sc_token_user id t : refresh_tokens db !! id = Some t → is_Some (users db !! RefreshToken_UserID t);
  sc_role id u : users db !! id = Some u → role_check (User_Role u) = true;
  sc_email : unique_on (λ _, True) User_Email (users db);
  sc_token_hash : unique_on (λ _, True) RefreshToken_TokenHash (refresh_tokens db);
  sc_key : unique_on (λ _, True) (λ k, (IdempotencyKey_UserID k, IdempotencyKey_Key k)) (idempotency_keys db);
  sc_attempt id e : outbox_events db !! id = Some e → 0 ≤ OutboxEvent_Attempt e ≤ int32_max
}.

Lemma schema_empty : schema_ok empty_db.
Proof.
  split; try (intros * Hl; cbn in Hl; by apply lookup_empty_Some in Hl);
    intros i j x y Hi; cbn in Hi; by apply lookup_empty_Some in Hi.
Qed.

(** Open the conditions on the new rows of a step. *)
Ltac fresh_inv :=
  repeat match goal with
  | Hf : fresh_order _ _ |- _ => destruct Hf
  | Hf : fresh_payment _ _ _ |- _ => pose proof (fp_status _ _ _ Hf); destruct Hf
  | Hf : fresh_event _ _ _ _ _ _ _ |- _ => destruct Hf
  | Hf : fresh_key _ _ _ _ _ _ |- _ => destruct Hf
  end.

Lemma paid_status_check st : order_status_check (paid_status st) = true.
Proof. unfold paid_status. by case_bool_decide. Qed.

Lemma step_payment_order `{External} db db' p :
  db_step db db' →
  (∃ o, orders db !! Payment_OrderID p = Some o ∧ Payment_AmountCents p = Order_AmountCents o) →
  ∃ o, orders db' !! Payment_OrderID p = Some o ∧ Payment_AmountCents p = Order_AmountCents o.
Proof.
  intros Hs (o & Ho & Ha). destruct (step_order _ _ _ _ Hs Ho) as (o' & Ho' & Hm%order_moves_fixed).
  exists o'. unfold order_fixed in Hm. split; [done|congruence].
Qed.

Lemma schema_step `{External} db db' : keyed db → db_step db db' → schema_ok db → schema_ok db'.
Proof.
  intros Hk Hs [Hou Hoa Hos Hpo Hps Hku Htu Hr He Hth Hkk Hat].
  assert (∀ p, (∃ o, orders db !! Payment_OrderID p = Some o ∧ Payment_AmountCents p = Order_AmountCents o) →
    ∃ o, orders db' !! Payment_OrderID p = Some o ∧ Payment_AmountCents p = Order_AmountCents o) as Hpay
    by (intros; by eapply step_payment_order).
  assert (∀ u, is_Some (users db !! u) → is_Some (users db' !! u)) as Husr
    by (intros u [x Hx]; exists x; by eapply step_user).
  split.
  - intros id o Hl. apply Husr. destruct Hs; fresh_inv; insert_cases Hl; eauto.
  - intros id o Hl. destruct Hs; fresh_inv; insert_cases Hl; eauto.
  - intros id o Hl. destruct Hs; fresh_inv; insert_cases Hl; eauto using paid_status_check.
    by match goal with Ho : Order_Status _ = _ |- _ => rewrite Ho end.
  - intros id p Hl. apply Hpay. clear Hpay Husr. destruct Hs; fresh_inv; insert_cases Hl; eauto.
    eexists; split; [|done]. congruence.
  - intros id p Hl. destruct Hs; fresh_inv; insert_cases Hl; eauto.
  - intros id k Hl. apply Husr. destruct Hs; fresh_inv; insert_cases Hl; eauto; congruence.
  - intros id t Hl. apply Husr. destruct Hs; fresh_inv; insert_cases Hl; eauto.
  - intros id u Hl. destruct Hs; fresh_inv; insert_cases Hl; eauto.
  - destruct Hs; cbn; try done. apply unique_on_insert; [done|]. intros _ j y _ Hy _ Heq.
    match goal with Hl : lookup_by _ (users db) = None |- _ =>
      rewrite lookup_by_None in Hl; specialize (Hl _ _ Hy); by apply bool_decide_eq_false in Hl end.
  - destruct Hs; cbn; try done; [|by eapply unique_on_update].
    apply unique_on_insert; [done|]. intros _ j y _ Hy _ Heq.
    match goal with Hl : lookup_by _ (refresh_tokens db) = None |- _ =>
      rewrite lookup_by_None in Hl; specialize (Hl _ _ Hy); by apply bool_decide_eq_false in Hl end.
  - destruct Hs; fresh_inv; cbn; try done; (apply unique_on_insert; [done|]); intros _ j y _ Hy _ [= Hu' Hk'];
      match goal with Hl : lookup_by _ (idempotency_keys db) = None |- _ =>
        rewrite lookup_by_None in Hl; specialize (Hl _ _ Hy); unfold same_key in Hl;
        rewrite !bool_decide_eq_true_2 in Hl by done; done end.
  - intros id e Hl. destruct Hs; fresh_inv; insert_cases Hl; eauto; unfold int32_max in *; lia.
Qed.

Lemma reachable_schema `{External} db : reachable db → schema_ok db.
Proof. revert db. apply reachable_ind_keyed; eauto using schema_empty, schema_step. Qed.

(** ** The ledger *)

(** The payment succeeded, or was declined, for an order. *)
Definition succeeded_for (id : UUID) (p : Payment) : Prop :=
  Payment_OrderID p = id ∧ Payment_Status p = PaymentStatusSucceeded.
Definition failed_for (id : UUID) (p : Payment) : Prop :=
  Payment_OrderID p = id ∧ Payment_Status p = PaymentStatusFailed.

Record ledger_ok (db : DB) : Prop := {
  lg_paid id o : orders db !! id = Some o →
    Order_Status o = OrderStatusPaid ↔ ∃ pid p, payments db !! pid = Some p ∧ succeeded_for id p;
  lg_once : unique_on (λ p, Payment_Status p = PaymentStatusSucceeded) Payment_OrderID (payments db);
  lg_pending id o pid p : orders db !! id = Some o → Order_Status o = OrderStatusPendingPayment →
    payments db !! pid = Some p → Payment_OrderID p ≠ id;
  lg_failed id o : orders db !! id = Some o → Order_Status o = OrderStatusPaymentFailed →
    ∃ pid p, payments db !! pid = Some p ∧ failed_for id p
}.

Lemma ledger_empty : ledger_ok empty_db.
Proof.
  split; try (intros * Hl; cbn in Hl; by apply lookup_empty_Some in Hl);
    intros i j x y Hi; cbn in Hi; by apply lookup_empty_Some in Hi.
Qed.

(** The tables of the ledger after a step. *)
Lemma ledger_frame db db' :
  orders db' = orders db → payments db' = payments db → ledger_ok db → ledger_ok db'.
Proof. intros Ho Hp [H1 H2 H3 H4]. split; intros *; rewrite ?Ho, ?Hp; eauto. Qed.

(** A new order has no payments yet. *)
Lemma ledger_create db o :
  schema_ok db → fresh_order db o → ledger_ok db → ledger_ok (put_order o db).
Proof.
  intros Hsc [Hnew _ _ Hst] [Hpaid Honce Hpend Hfail].
  assert (∀ pid p, payments db !! pid = Some p → Payment_OrderID p ≠ Order_ID o) as Hno.
  { intros pid p Hp Heq. destruct (sc_payment_order _ Hsc _ _ Hp) as (o' & Ho' & _). congruence. }
  split; cbn.
  - intros id o' [[<- <-]|[_ Ho']]%lookup_insert_Some; [|by apply Hpaid].
    rewrite Hst. split; [done|]. intros (pid & p & Hp & Hid & _). by destruct (Hno _ _ Hp).
  - done.
  - intros id o' pid p [[<- <-]|[_ Ho']]%lookup_insert_Some; eauto.
  - intros id o' [[<- <-]|[_ Ho']]%lookup_insert_Some; eauto. by rewrite Hst.
Qed.

(** Closing an open order without a payment. *)
Lemma ledger_cancel db o now :
  orders db !! Order_ID o = Some o → status_open (Order_Status o) = true →
  ledger_ok db → ledger_ok (put_order (with_status OrderStatusCancelled now o) db).
Proof.
  intros Ho Hopen [Hpaid Honce Hpend Hfail]. split; cbn.
  - intros id o' [[<- <-]|[_ Ho']]%lookup_insert_Some; [|by apply Hpaid].
    split; [done|]. intros Hs. apply (Hpaid _ _ Ho) in Hs. by rewrite Hs in Hopen.
  - done.
  - intros id o' pid p [[<- <-]|[_ Ho']]%lookup_insert_Some; [done|eauto].
  - intros id o' [[<- <-]|[_ Ho']]%lookup_insert_Some; [done|eauto].
Qed.

Lemma paid_status_cases st :
  st = PaymentStatusSucceeded ∨ st = PaymentStatusFailed →
  (st = PaymentStatusSucceeded ∧ paid_status st = OrderStatusPaid)
  ∨ (st = PaymentStatusFailed ∧ paid_status st = OrderStatusPaymentFailed).
Proof. intros [->| ->]; [by left|by right]. Qed.

(** A payment attempt on an open order. *)
Lemma ledger_pay `{External} db o p now :
  orders db !! Order_ID o = Some o → status_open (Order_Status o) = true → fresh_payment db o p →
  ledger_ok db → ledger_ok (put_order (with_status (paid_status (Payment_Status p)) now o) (put_payment p db)).
Proof.
  intros Ho Hopen Hf [Hpaid Honce Hpend Hfail]. pose proof (fp_status _ _ _ Hf) as Hst. destruct Hf as [Hnew Hord _ _ _].
  assert (∀ pid q, payments db !! pid = Some q → ¬ succeeded_for (Order_ID o) q) as Hno.
  { intros pid q Hq Hs. assert (Order_Status o = OrderStatusPaid) as Hs' by (apply (Hpaid _ _ Ho); eauto).
    by rewrite Hs' in Hopen. }
  apply paid_status_cases in Hst. split; cbn.
  - intros id o' [[<- <-]|[Hne Ho']]%lookup_insert_Some; cbn.
    + destruct Hst as [[Hst ->]|[Hst ->]]; (split; [|intros (pid & q & Hq & Hs)]); try done.
      * intros _. exists (Payment_ID p), p. by rewrite lookup_insert_eq.
      * exfalso. apply lookup_insert_Some in Hq as [[_ <-]|[_ Hq]]; [|by eapply Hno].
        destruct Hs as [_ Hs]. by rewrite Hst in Hs.
    + rewrite (Hpaid _ _ Ho'). split; intros (pid & q & Hq & Hs); exists pid, q.
      * split; [|done]. rewrite lookup_insert_ne; [done|]. intros Heq. congruence.
      * apply lookup_insert_Some in Hq as [[_ <-]|[_ Hq]]; [|done]. destruct Hs. congruence.
  - apply unique_on_insert; [done|]. intros Hsucc j q _ Hq Hqs Heq. eapply Hno; [done|]. split; congruence.
  - intros id o' pid q [[<- <-]|[Hne Ho']]%lookup_insert_Some; cbn.
    + by destruct Hst as [[_ ->]|[_ ->]].
    + intros Hs [[_ <-]|[_ Hq]]%lookup_insert_Some; [congruence|eauto].
  - intros id o' [[<- <-]|[Hne Ho']]%lookup_insert_Some; cbn.
    + intros Hs. exists (Payment_ID p), p. rewrite lookup_insert_eq.
      destruct Hst as [[_ Heq]|[Hst _]]; [by rewrite Heq in Hs|done].
    + intros Hs. destruct (Hfail _ _ Ho' Hs) as (pid & q & Hq & Hf). exists pid, q.
      rewrite lookup_insert_ne; [done|]. intros Heq. congruence.
Qed.

Lemma ledger_step `{External} db db' :
  keyed db → schema_ok db → db_step db db' → ledger_ok db → ledger_ok db'.
Proof.
  intros Hk Hsc Hs Hl. destruct Hs; try (by eapply ledger_frame; [..|exact Hl]).
  - eapply ledger_frame; [..|by eapply (ledger_create db o)]; done.
  - eapply ledger_frame; [..|by eapply (ledger_pay db o p now)]; done.
  - eapply ledger_frame; [..|by eapply (ledger_cancel db o now)]; done.
Qed.

Lemma reachable_ledger `{External} db : reachable db → ledger_ok db.
Proof.
  revert db. apply reachable_ind_keyed; [apply ledger_empty|].
  intros db db' Hr Hk Hl Hs. eapply ledger_step; eauto using reachable_schema.
Qed.
