(* ===== verification/Bookkeeping.v ===== *)
(** * Invariants of the bookkeeping tables

    The outbox records exactly one event per business fact, the idempotency
    records point at what they created, and the notifications match the
    processed events one to one. *)

From S2P Require Import Prelude GoStrings Json Models World.
From S2P Require Import Sqlc.
From S2P Require Import OrderService.
From S2P Require Import Spec.
From S2P Require Import Evolution Invariants.

(** ** The outbox *)

(** The event [e] reports that an order was created, or cancelled. *)
Definition order_event (type : string) (id : UUID) (e : OutboxEvent) : Prop :=
  OutboxEvent_AggregateType e = AggregateTypeOrder ∧ OutboxEvent_AggregateID e = id ∧
  OutboxEvent_EventType e = type ∧ OutboxEvent_PartitionKey e = id.

(** The event [e] reports the payment [p]. *)
Definition payment_event (p : Payment) (e : OutboxEvent) : Prop :=
  OutboxEvent_AggregateType e = AggregateTypePayment ∧ OutboxEvent_AggregateID e = Payment_ID p ∧
  OutboxEvent_EventType e = paid_event (Payment_Status p) ∧ OutboxEvent_PartitionKey e = Payment_OrderID p.

(** What an event reports: its aggregate and its type. *)
Definition event_subject (e : OutboxEvent) :=
  (OutboxEvent_AggregateType e, OutboxEvent_AggregateID e, OutboxEvent_EventType e).

Record outbox_ok (db : DB) : Prop := {
  ob_created id o : orders db !! id = Some o →
    ∃ eid e, outbox_events db !! eid = Some e ∧ order_event EventTypeOrderCreated id e;
  ob_cancelled id o : orders db !! id = Some o →
    Order_Status o = OrderStatusCancelled ↔
    ∃ eid e, outbox_events db !! eid = Some e ∧ order_event EventTypeOrderCancelled id e;
  ob_paid id p : payments db !! id = Some p →
    ∃ eid e, outbox_events db !! eid = Some e ∧ payment_event p e;
  ob_sound eid e : outbox_events db !! eid = Some e →
    (∃ id o, orders db !! id = Some o ∧
       (order_event EventTypeOrderCreated id e ∨ order_event EventTypeOrderCancelled id e))
    ∨ ∃ p, payments db !! Payment_ID p = Some p ∧ payment_event p e;
  ob_once : unique_on (λ _, True) event_subject (outbox_events db)
}.

Lemma outbox_empty : outbox_ok empty_db.
Proof.
  split; try (intros * Hl; cbn in Hl; by apply lookup_empty_Some in Hl);
    intros i j x y Hi; cbn in Hi; by apply lookup_empty_Some in Hi.
Qed.

Lemma order_event_fixed type id e e' :
  event_fixed e' = event_fixed e → order_event type id e' ↔ order_event type id e.
Proof. unfold event_fixed, order_event. intros [= ? ? ? ? ? ? ?]. intuition congruence. Qed.
Lemma payment_event_fixed p e e' : event_fixed e' = event_fixed e → payment_event p e' ↔ payment_event p e.
Proof. unfold event_fixed, payment_event. intros [= ? ? ? ? ? ? ?]. intuition congruence. Qed.
Lemma event_subject_fixed e e' : event_fixed e' = event_fixed e → event_subject e' = event_subject e.
Proof. unfold event_fixed, event_subject. intros [= ? ? ? ? ? ? ?]. congruence. Qed.

(** The events that a step adds: those that were not there, up to the
    publication data. *)
Definition same_events (db db' : DB) : Prop :=
  (∀ eid e, outbox_events db !! eid = Some e → ∃ e', outbox_events db' !! eid = Some e' ∧ event_fixed e' = event_fixed e) ∧
  (∀ eid e', outbox_events db' !! eid = Some e' → ∃ e, outbox_events db !! eid = Some e ∧ event_fixed e' = event_fixed e).

(** Steps that touch neither orders nor payments and add no event. *)
Lemma outbox_frame db db' :
  orders db' = orders db → payments db' = payments db → same_events db db' → outbox_ok db → outbox_ok db'.
Proof.
  intros Ho Hp [Hto Hfrom] [H1 H2 H3 H4 H5].
  assert (∀ type id, (∃ eid e, outbox_events db !! eid = Some e ∧ order_event type id e) ↔
    ∃ eid e, outbox_events db' !! eid = Some e ∧ order_event type id e) as Hoe.
  { intros type id. split; intros (eid & e & He & Hoe); [apply Hto in He|apply Hfrom in He];
      destruct He as (e' & He' & Hf); exists eid, e'; (split; [done|]);
      by apply (order_event_fixed _ _ _ _ Hf). }
  split; rewrite ?Ho, ?Hp.
  - intros id o Hl. apply Hoe. eauto.
  - intros id o Hl. rewrite <- Hoe. eauto.
  - intros id p Hl. destruct (H3 _ _ Hl) as (eid & e & He & Hpe). apply Hto in He as (e' & He' & Hf).
    exists eid, e'. split; [done|]. by apply (payment_event_fixed _ _ _ Hf).
  - intros eid e' He'. destruct (Hfrom _ _ He') as (e & He & Hf). destruct (H4 _ _ He) as [(id & o & Hl & Hoe')|(p & Hl & Hpe)].
    + left. exists id, o. split; [done|]. by rewrite !(order_event_fixed _ _ _ _ Hf).
    + right. exists p. split; [done|]. by rewrite (payment_event_fixed _ _ _ Hf).
  - intros i j x y Hi Hj _ _ Heq. apply Hfrom in Hi as (x0 & Hi & Hx), Hj as (y0 & Hj & Hy).
    apply (H5 _ _ _ _ Hi Hj); [done..|]. by rewrite <- (event_subject_fixed _ _ Hx), <- (event_subject_fixed _ _ Hy).
Qed.

Lemma same_events_refl db db' : outbox_events db' = outbox_events db → same_events db db'.
Proof. intros Heq. split; intros eid e; rewrite Heq; eauto. Qed.

Lemma same_events_update db e e' :
  outbox_events db !! OutboxEvent_ID e = Some e → event_fixed e' = event_fixed e → same_events db (put_event e' db).
Proof.
  intros He Hf. assert (OutboxEvent_ID e' = OutboxEvent_ID e) as Hid by (unfold event_fixed in Hf; congruence).
  split; cbn; rewrite Hid; intros eid x Hx.
  - destruct (decide (OutboxEvent_ID e = eid)) as [<-|Hne].
    + exists e'. rewrite lookup_insert_eq. split; [done|congruence].
    + exists x. by rewrite lookup_insert_ne.
  - apply lookup_insert_Some in Hx as [[<- <-]|[_ Hx]]; eauto.
Qed.

Lemma event_exists_insert db (Q : OutboxEvent → Prop) e :
  outbox_events db !! OutboxEvent_ID e = None →
  (∃ eid x, <[OutboxEvent_ID e := e]> (outbox_events db) !! eid = Some x ∧ Q x) ↔
  Q e ∨ ∃ eid x, outbox_events db !! eid = Some x ∧ Q x.
Proof.
  intros Hnew. split.
  - intros (eid & x & [[<- <-]|[_ Hx]]%lookup_insert_Some & HQ); eauto.
  - intros [HQ|(eid & x & Hx & HQ)].
    + exists (OutboxEvent_ID e), e. by rewrite lookup_insert_eq.
    + exists eid, x. rewrite lookup_insert_ne; [done|]. intros Heq. congruence.
Qed.

(** An event about a subject that no event reports yet. *)
Lemma outbox_once_insert m e :
  unique_on (λ _, True) event_subject m →
  (∀ eid x, m !! eid = Some x → event_subject x ≠ event_subject e) →
  unique_on (λ _, True) event_subject (<[OutboxEvent_ID e := e]> m).
Proof. intros Hu Hn. apply unique_on_insert; [done|]. intros _ j y _ Hy _. by eapply Hn. Qed.

(** An event about an order is not an event about a payment. *)
Lemma order_payment_event type id p e : order_event type id e → ¬ payment_event p e.
Proof. intros (Ha & _) (Hb & _). by rewrite Ha in Hb. Qed.

Lemma outbox_create db o e :
  fresh_order db o → keyed db →
  outbox_events db !! OutboxEvent_ID e = None → order_event EventTypeOrderCreated (Order_ID o) e →
  outbox_ok db → outbox_ok (put_event e (put_order o db)).
Proof.
  intros [Hnew _ _ Hst] Hk He Hoe [H1 H2 H3 H4 H5].
  assert (∀ eid x ty, outbox_events db !! eid = Some x → ¬ order_event ty (Order_ID o) x) as Hno.
  { intros eid x ty Hx Hxo. pose proof Hxo as (Hagg & Hid & _).
    destruct (H4 _ _ Hx) as [(id & o' & Ho' & [Hev|Hev])|(p & _ & Hp)].
    - destruct Hev as (_ & Hid' & _). congruence.
    - destruct Hev as (_ & Hid' & _). congruence.
    - by eapply order_payment_event. }
  split; cbn.
  - intros id o' Hl. rewrite event_exists_insert by done.
    apply lookup_insert_Some in Hl as [[<- <-]|[_ Hl]]; eauto.
  - intros id o' Hl. rewrite event_exists_insert by done.
    apply lookup_insert_Some in Hl as [[<- <-]|[Hne Hl]].
    + rewrite Hst. split; [done|]. intros [(_ & _ & Ht & _)|(eid & x & Hx & Hxo)]; [|by destruct (Hno _ _ _ Hx Hxo)].
      destruct Hoe as (_ & _ & Ht' & _). by rewrite Ht' in Ht.
    + rewrite (H2 _ _ Hl). split; [by right|]. intros [(_ & Hid & _)|?]; [|done].
      destruct Hoe as (_ & Hid' & _). congruence.
  - intros id p Hp. rewrite event_exists_insert by done. right. eauto.
  - intros eid x [[<- <-]|[_ Hx]]%lookup_insert_Some.
    + left. exists (Order_ID o), o. rewrite lookup_insert_eq. auto.
    + destruct (H4 _ _ Hx) as [(id & o' & Ho' & Hev)|?]; [left|by right].
      exists id, o'. rewrite lookup_insert_ne; [done|]. intros Heq. congruence.
  - apply outbox_once_insert; [done|]. intros eid x Hx Heq. destruct Hoe as (Ha & Hb & Hc & Hd).
    destruct (H4 _ _ Hx) as [(id & o' & Ho' & [Hev|Hev])|(p & _ & Hp)]; unfold event_subject in Heq.
    + destruct Hev as (? & ? & ? & ?). congruence.
    + destruct Hev as (? & ? & ? & ?). congruence.
    + destruct Hp as (Hp & _). rewrite Ha, Hp in Heq. done.
Qed.

Lemma outbox_cancel db o now e :
  orders db !! Order_ID o = Some o → status_open (Order_Status o) = true →
  outbox_events db !! OutboxEvent_ID e = None → order_event EventTypeOrderCancelled (Order_ID o) e →
  outbox_ok db → outbox_ok (put_event e (put_order (with_status OrderStatusCancelled now o) db)).
Proof.
  intros Ho Hopen He Hoe [H1 H2 H3 H4 H5].
  assert (∀ eid x, outbox_events db !! eid = Some x → ¬ order_event EventTypeOrderCancelled (Order_ID o) x) as Hno.
  { intros eid x Hx Hxo. assert (Order_Status o = OrderStatusCancelled) as Hs by (apply (H2 _ _ Ho); eauto).
    by rewrite Hs in Hopen. }
  split; cbn.
  - intros id o' Hl. rewrite event_exists_insert by done. right.
    apply lookup_insert_Some in Hl as [[<- <-]|[_ Hl]]; eauto.
  - intros id o' Hl. rewrite event_exists_insert by done.
    apply lookup_insert_Some in Hl as [[<- <-]|[Hne Hl]]; cbn; [naive_solver|].
    rewrite (H2 _ _ Hl). split; [by right|]. intros [(_ & Hid & _)|?]; [|done].
    destruct Hoe as (_ & Hid' & _). congruence.
  - intros id p Hp. rewrite event_exists_insert by done. right. eauto.
  - intros eid x [[<- <-]|[_ Hx]]%lookup_insert_Some.
    + left. eexists (Order_ID o), _. rewrite lookup_insert_eq. auto.
    + destruct (H4 _ _ Hx) as [(id & o' & Ho' & Hev)|?]; [left|by right].
      destruct (decide (Order_ID o = id)) as [<-|Hne]; [eexists (Order_ID o), _|exists id, o'];
        rewrite ?lookup_insert_eq, ?lookup_insert_ne by done; eauto.
  - apply outbox_once_insert; [done|]. intros eid x Hx Heq. destruct Hoe as (Ha & Hb & Hc & Hd).
    destruct (H4 _ _ Hx) as [(id & o' & Ho' & [Hev|Hev])|(p & _ & Hp)]; unfold event_subject in Heq.
    + destruct Hev as (_ & _ & Ht & _). rewrite Hc, Ht in Heq. done.
    + destruct Hev as (? & Hid & ? & ?). apply (Hno _ _ Hx).
      assert (id = Order_ID o) as -> by congruence. done.
    + destruct Hp as (Hp & _). rewrite Ha, Hp in Heq. done.
Qed.

Lemma paid_status_not_cancelled st : paid_status st ≠ OrderStatusCancelled.
Proof. unfold paid_status. by case_bool_decide. Qed.

Lemma outbox_pay `{External} db o p now e :
  orders db !! Order_ID o = Some o → status_open (Order_Status o) = true → fresh_payment db o p → keyed db →
  outbox_events db !! OutboxEvent_ID e = None → payment_event p e →
  outbox_ok db →
  outbox_ok (put_event e (put_order (with_status (paid_status (Payment_Status p)) now o) (put_payment p db))).
Proof.
  intros Ho Hopen [Hnew _ _ _ _] Hk He Hpe [H1 H2 H3 H4 H5].
  split; cbn.
  - intros id o' Hl. rewrite event_exists_insert by done. right.
    apply lookup_insert_Some in Hl as [[<- <-]|[_ Hl]]; eauto.
  - intros id o' Hl. rewrite event_exists_insert by done.
    assert (¬ order_event EventTypeOrderCancelled id e) as Hnoe by (intros Hoe; by apply (order_payment_event _ _ p _ Hoe)).
    apply lookup_insert_Some in Hl as [[<- <-]|[Hne Hl]]; cbn.
    + split; [intros Hs; by destruct (paid_status_not_cancelled _ Hs)|].
      intros [?|Hc]; [done|]. apply (H2 _ _ Ho) in Hc. by rewrite Hc in Hopen.
    + rewrite (H2 _ _ Hl). naive_solver.
  - intros id q Hq. rewrite event_exists_insert by done.
    apply lookup_insert_Some in Hq as [[<- <-]|[_ Hq]]; [by left|right; eauto].
  - intros eid x [[<- <-]|[_ Hx]]%lookup_insert_Some.
    + right. exists p. by rewrite lookup_insert_eq.
    + destruct (H4 _ _ Hx) as [(id & o' & Ho' & Hev)|(q & Hq & Hqe)].
      * left. destruct (decide (Order_ID o = id)) as [<-|Hne]; [eexists (Order_ID o), _|exists id, o'];
          rewrite ?lookup_insert_eq, ?lookup_insert_ne by done; eauto.
      * right. exists q. rewrite lookup_insert_ne; [done|]. intros Heq. congruence.
  - apply outbox_once_insert; [done|]. intros eid x Hx Heq. destruct Hpe as (Ha & Hb & Hc & Hd).
    destruct (H4 _ _ Hx) as [(id & o' & Ho' & [Hev|Hev])|(q & Hq & Hp)]; unfold event_subject in Heq.
    + destruct Hev as (Hev & _). rewrite Ha, Hev in Heq. done.
    + destruct Hev as (Hev & _). rewrite Ha, Hev in Heq. done.
    + destruct Hp as (_ & Hqid & _). assert (Payment_ID q = Payment_ID p) as Hid by congruence. congruence.
Qed.

Lemma outbox_step `{External} db db' : keyed db → db_step db db' → outbox_ok db → outbox_ok db'.
Proof.
  intros Hk Hs Hob. destruct Hs; try (by eapply outbox_frame; [..|exact Hob]; try done; apply same_events_refl).
  - eapply (outbox_frame (put_event e (put_order o db))); [done|done|by apply same_events_refl|].
    fresh_inv. by apply outbox_create.
  - eapply (outbox_frame (put_event e (put_order (with_status (paid_status (Payment_Status p)) now o) (put_payment p db))));
      [done|done|by apply same_events_refl|].
    pose proof H2 as [_ Hpo _ _ _]. destruct H3. apply outbox_pay; try done.
    split_and!; congruence.
  - destruct H2. by apply outbox_cancel.
  - eapply outbox_frame; [..|exact Hob]; [done|done|]. by eapply same_events_update.
  - eapply outbox_frame; [..|exact Hob]; [done|done|]. by eapply same_events_update.
Qed.

Lemma reachable_outbox `{External} db : reachable db → outbox_ok db.
Proof. revert db. apply reachable_ind_keyed; eauto using outbox_empty, outbox_step. Qed.

(** ** The idempotency records *)

(** The record [k] points at the order, or the payment, that its request made. *)
Definition key_of_order (db : DB) (k : IdempotencyKey) (o : Order) : Prop :=
  IdempotencyKey_ResourceType k = Some "order" ∧ IdempotencyKey_ResourceID k = Some (Order_ID o) ∧
  IdempotencyKey_StatusCode k = Some StatusCreated ∧ orders db !! Order_ID o = Some o ∧
  IdempotencyKey_UserID k = Order_UserID o.
Definition key_of_payment (db : DB) (k : IdempotencyKey) (p : Payment) : Prop :=
  IdempotencyKey_ResourceType k = Some "payment" ∧ IdempotencyKey_ResourceID k = Some (Payment_ID p) ∧
  IdempotencyKey_StatusCode k = Some StatusOK ∧ payments db !! Payment_ID p = Some p.

Definition key_resource (k : IdempotencyKey) := (IdempotencyKey_ResourceType k, IdempotencyKey_ResourceID k).

Record keys_ok (db : DB) : Prop := {
  ky_sound id k : idempotency_keys db !! id = Some k →
    (∃ o, key_of_order db k o) ∨ (∃ p, key_of_payment db k p);
  ky_order id o : orders db !! id = Some o → ∃ kid k, idempotency_keys db !! kid = Some k ∧ key_of_order db k o;
  ky_payment id p : payments db !! id = Some p → ∃ kid k, idempotency_keys db !! kid = Some k ∧ key_of_payment db k p;
  ky_once : unique_on (λ _, True) key_resource (idempotency_keys db)
}.

Lemma keys_empty : keys_ok empty_db.
Proof.
  split; try (intros * Hl; cbn in Hl; by apply lookup_empty_Some in Hl);
    intros i j x y Hi; cbn in Hi; by apply lookup_empty_Some in Hi.
Qed.

Lemma key_of_order_fixed db db' k o o' :
  key_of_order db k o → orders db' !! Order_ID o = Some o' → order_fixed o' = order_fixed o → key_of_order db' k o'.
Proof.
  intros (Ht & Hr & Hc & _ & Hu) Ho'. unfold order_fixed. intros [= ? ? ? ? ? ?].
  split_and!; try congruence.
Qed.

(** The records that were there stay sound. *)
Lemma keys_sound_step `{External} db db' k :
  db_step db db' →
  ((∃ o, key_of_order db k o) ∨ (∃ p, key_of_payment db k p)) →
  (∃ o, key_of_order db' k o) ∨ (∃ p, key_of_payment db' k p).
Proof.
  intros Hs [[o Ho]|[p Hp]].
  - left. pose proof Ho as (_ & _ & _ & Hl & _).
    destruct (step_order _ _ _ _ Hs Hl) as (o' & Ho' & Hm%order_moves_fixed).
    exists o'. by eapply key_of_order_fixed.
  - right. exists p. destruct Hp as (? & ? & ? & Hl). split_and!; try done. by eapply step_payment.
Qed.

(** An order of the tables after a step was there before, or is the one of
    [step_create]. *)
Lemma step_order_origin `{External} db db' id o' :
  db_step db db' → orders db' !! id = Some o' →
  (∃ o, orders db !! id = Some o ∧ order_fixed o' = order_fixed o)
  ∨ (orders db !! id = None ∧ ∃ k, idempotency_keys db' !! IdempotencyKey_ID k = Some k ∧ key_of_order db' k o').
Proof.
  intros Hs Hl. destruct Hs; cbn in Hl; try (left; by eauto).
  - apply lookup_insert_Some in Hl as [[<- <-]|[_ Hl]]; [right|left; by eauto].
    destruct H0, H4. split; [done|]. exists k. unfold key_of_order. cbn. rewrite !lookup_insert_eq.
    by split_and!.
  - apply lookup_insert_Some in Hl as [[<- <-]|[_ Hl]]; left; eauto.
  - apply lookup_insert_Some in Hl as [[<- <-]|[_ Hl]]; left; eauto.
Qed.

Lemma step_payment_origin `{External} db db' id p :
  db_step db db' → payments db' !! id = Some p →
  payments db !! id = Some p
  ∨ (payments db !! id = None ∧ ∃ k, idempotency_keys db' !! IdempotencyKey_ID k = Some k ∧ key_of_payment db' k p).
Proof.
  intros Hs Hl. destruct Hs; cbn in Hl; try (by left).
  apply lookup_insert_Some in Hl as [[<- <-]|[_ Hl]]; [right|by left].
  destruct H2, H4. split; [done|]. exists k. unfold key_of_payment. cbn. rewrite !lookup_insert_eq.
  by split_and!.
Qed.

(** A new record points at a new resource. *)
Lemma step_key_origin `{External} db db' id k :
  keyed db → db_step db db' → idempotency_keys db' !! id = Some k →
  idempotency_keys db !! id = Some k
  ∨ idempotency_keys db' = <[id := k]> (idempotency_keys db) ∧
    ((∃ o, key_of_order db' k o ∧ orders db !! Order_ID o = None)
     ∨ (∃ p, key_of_payment db' k p ∧ payments db !! Payment_ID p = None)).
Proof.
  intros Hk Hs Hl. destruct Hs; cbn in Hl; try (by left);
    (apply lookup_insert_Some in Hl as [[<- <-]|[_ Hl]]; [right|by left]); (split; [done|]).
  - left. exists o. destruct H0, H4. split; [|done]. unfold key_of_order. cbn. rewrite lookup_insert_eq. by split_and!.
  - right. exists p. destruct H2, H4. split; [|done]. unfold key_of_payment. cbn. rewrite lookup_insert_eq. by split_and!.
Qed.

Lemma keys_step `{External} db db' : keyed db → db_step db db' → keys_ok db → keys_ok db'.
Proof.
  intros Hk Hs [Hsound Hord Hpay Honce]. split.
  - intros id k Hl. destruct (step_key_origin _ _ _ _ Hk Hs Hl) as [Hl'|(_ & [(o & Ho & _)|(p & Hp & _)])];
      [|by left; exists o|by right; exists p].
    eapply keys_sound_step; eauto.
  - intros id o' Hl. destruct (step_order_origin _ _ _ _ Hs Hl) as [(o & Ho & Hf)|(_ & k & ? & ?)]; [|by exists (IdempotencyKey_ID k), k].
    destruct (Hord _ _ Ho) as (kid & k & Hkl & Hko). exists kid, k. split; [by eapply step_key|].
    eapply key_of_order_fixed; [done| |done]. by rewrite (keyed_orders _ Hk _ _ Ho).
  - intros id p Hl. destruct (step_payment_origin _ _ _ _ Hs Hl) as [Hp|(_ & k & ? & ?)]; [|by exists (IdempotencyKey_ID k), k].
    destruct (Hpay _ _ Hp) as (kid & k & Hkl & (? & ? & ? & ?)). exists kid, k. split; [by eapply step_key|].
    split_and!; try done. by eapply step_payment.
  - intros i j x y Hi Hj _ _ Heq. unfold key_resource in Heq. injection Heq as Hty Hres.
    destruct (step_key_origin _ _ _ _ Hk Hs Hi) as [Hi'|(Hins & Hnew)],
      (step_key_origin _ _ _ _ Hk Hs Hj) as [Hj'|(Hins' & Hnew')].
    + apply (Honce _ _ _ _ Hi' Hj'); [done..|]. unfold key_resource. congruence.
    + exfalso. destruct (Hsound _ _ Hi') as [[o (? & ? & ? & ? & ?)]|[p (? & ? & ? & ?)]],
        Hnew' as [(o' & (? & ? & ? & ? & ?) & ?)|(p' & (? & ? & ? & ?) & ?)]; congruence.
    + exfalso. destruct (Hsound _ _ Hj') as [[o (? & ? & ? & ? & ?)]|[p (? & ? & ? & ?)]],
        Hnew as [(o' & (? & ? & ? & ? & ?) & ?)|(p' & (? & ? & ? & ?) & ?)]; congruence.
    + rewrite Hins in Hj. apply lookup_insert_Some in Hj as [[? _]|[Hne Hj]]; [done|].
      exfalso. destruct (Hsound _ _ Hj) as [[o (? & ? & ? & ? & ?)]|[p (? & ? & ? & ?)]],
        Hnew' as [(o' & (? & ? & ? & ? & ?) & ?)|(p' & (? & ? & ? & ?) & ?)]; congruence.
Qed.

Lemma reachable_keys `{External} db : reachable db → keys_ok db.
Proof. revert db. apply reachable_ind_keyed; eauto using keys_empty, keys_step. Qed.

(** ** The notifications *)

Record notified_ok (db : DB) : Prop := {
  nf_sound id d : notification_deliveries db !! id = Some d →
    NotificationDelivery_Status d = "sent" ∧
    is_Some (processed_events db !! (NotificationDelivery_EventID d, ConsumerNameNotification));
  nf_complete eid c pe : processed_events db !! (eid, c) = Some pe →
    c = ConsumerNameNotification ∧
    ∃ id d, notification_deliveries db !! id = Some d ∧ NotificationDelivery_EventID d = eid;
  nf_once : unique_on (λ _, True) NotificationDelivery_EventID (notification_deliveries db)
}.

Lemma notified_empty : notified_ok empty_db.
Proof.
  split; try (intros * Hl; cbn in Hl; by apply lookup_empty_Some in Hl);
    intros i j x y Hi; cbn in Hi; by apply lookup_empty_Some in Hi.
Qed.

Lemma notified_process db pe d :
  ProcessedEvent_ConsumerName pe = ConsumerNameNotification →
  processed_events db !! (ProcessedEvent_EventID pe, ProcessedEvent_ConsumerName pe) = None →
  notification_deliveries db !! NotificationDelivery_ID d = None →
  NotificationDelivery_EventID d = ProcessedEvent_EventID pe →
  NotificationDelivery_Status d = "sent" →
  notified_ok db → notified_ok (put_delivery d (put_processed pe db)).
Proof.
  intros Hc Hnew Hnd Hid Hst [H1 H2 H3]. rewrite Hc in Hnew. split; cbn; rewrite ?Hc.
  - intros id d' [[<- <-]|[_ Hl]]%lookup_insert_Some.
    + split; [done|]. rewrite Hid, lookup_insert_eq. by eexists.
    + destruct (H1 _ _ Hl) as [? ?]. split; [done|]. by apply insert_is_Some.
  - intros eid c pe' [[[= <- <-] <-]|[_ Hl]]%lookup_insert_Some.
    + split; [done|]. exists (NotificationDelivery_ID d), d. by rewrite lookup_insert_eq.
    + destruct (H2 _ _ _ Hl) as (-> & id & d' & Hd' & He). split; [done|]. exists id, d'.
      rewrite lookup_insert_ne; [done|]. intros Heq. congruence.
  - apply unique_on_insert; [done|]. intros _ j y _ Hy _ Heq. destruct (H1 _ _ Hy) as [_ [? Hp]]. congruence.
Qed.

Lemma notified_step `{External} db db' : db_step db db' → notified_ok db → notified_ok db'.
Proof.
  intros Hs Hn. destruct Hs; try (destruct Hn; by split).
  by apply notified_process.
Qed.

Lemma reachable_notified `{External} db : reachable db → notified_ok db.
Proof. revert db. apply reachable_ind_keyed; eauto using notified_empty, notified_step. Qed.
