(* ===== verification/Rows.v ===== *)
(** * What the services put into the rows

    No column that a service trims is blank or has white space around it, the
    payments hold what the provider answered, the records of requests hold the
    digests of these requests, and the sessions those of their tokens.  None of
    this is checked by the schema: it holds because of what the services check
    and compute before they write. *)

From S2P Require Import Prelude GoStrings Sha256 Json Models World.
From S2P Require Import Sqlc.
From S2P Require Import OrderService.
From S2P Require Import Spec.
From S2P Require Import Evolution Invariants Bookkeeping.

Section rows.
Context `{External}.

(** The request that made an order, or a payment, can be told from the
    record: its hash is the digest of the columns of the order, or of a text
    of the identifier of the order that was paid. *)
Definition hash_of_order (db : DB) (k : IdempotencyKey) (o : Order) : Prop :=
  key_of_order db k o ∧ IdempotencyKey_RequestHash k = request_digest
    (create_request (Order_AmountCents o) (Order_Currency o) (default "" (Order_Description o))).
Definition hash_of_payment (db : DB) (k : IdempotencyKey) (p : Payment) : Prop :=
  key_of_payment db k p ∧ ∃ orderID, UUID_Scan orderID = Some (Payment_OrderID p) ∧
    IdempotencyKey_RequestHash k = request_digest (pay_request orderID).

Record rows_ok (db : DB) : Prop := {
  ro_order id o : orders db !! id = Some o →
    tidy (Order_Currency o) ∧ ∀ d, Order_Description o = Some d → tidy d;
  ro_payment id p : payments db !! id = Some p →
    Payment_Provider p = PaymentProviderMock ∧
    (Payment_Status p, Payment_ProviderRef p, Payment_FailureReason p) = provider_answer id;
  ro_token id t : refresh_tokens db !! id = Some t → ∃ token, RefreshToken_TokenHash t = hex_encode (Sum256 token);
  ro_key id k : idempotency_keys db !! id = Some k →
    tidy (IdempotencyKey_Key k) ∧ ((∃ o, hash_of_order db k o) ∨ ∃ p, hash_of_payment db k p)
}.

Lemma rows_empty : rows_ok empty_db.
Proof. split; intros * Hl; cbn in Hl; by apply lookup_empty_Some in Hl. Qed.

(** A record keeps telling the request. *)
Lemma hash_step db db' k :
  db_step db db' → (∃ o, hash_of_order db k o) ∨ (∃ p, hash_of_payment db k p) →
  (∃ o, hash_of_order db' k o) ∨ ∃ p, hash_of_payment db' k p.
Proof.
  intros Hs [(o & Ho & Hh)|(p & Hp & Hh)].
  - left. pose proof Ho as (_ & _ & _ & Hl & _).
    destruct (step_order _ _ _ _ Hs Hl) as (o' & Ho' & Hm%order_moves_fixed).
    exists o'. split; [by eapply key_of_order_fixed|]. unfold order_fixed in Hm.
    assert (Order_AmountCents o' = Order_AmountCents o ∧ Order_Currency o' = Order_Currency o ∧
      Order_Description o' = Order_Description o) as (-> & -> & ->) by (split_and!; congruence). done.
  - right. exists p. split; [|done]. destruct Hp as (? & ? & ? & Hl). split_and!; try done. by eapply step_payment.
Qed.

(** The record that a step adds does. *)
Lemma new_hash db db' id k :
  keyed db → db_step db db' → idempotency_keys db !! id = None → idempotency_keys db' !! id = Some k →
  tidy (IdempotencyKey_Key k) ∧ ((∃ o, hash_of_order db' k o) ∨ ∃ p, hash_of_payment db' k p).
Proof.
  intros Hk Hs Hnew Hl.
  destruct Hs as [o e k0 oid uid Ho _ _ _ Hf Hh|o p e k0 user now oid Ho _ Hp _ Hf Hoid Hh|o e now|u|t tok|t now|e now|e err|pe d];
    cbn in Hl; try congruence;
    (apply lookup_insert_Some in Hl as [[_ ->]|[_ Hl]]; [|congruence]); (split; [by eapply fk_key|]).
  - left. exists o. destruct Hf. split; [|done]. unfold key_of_order. cbn. rewrite lookup_insert_eq. by split_and!.
  - right. exists p. destruct Hf, Hp. split; [|exists oid; split; [congruence|done]].
    unfold key_of_payment. cbn. rewrite lookup_insert_eq. by split_and!.
Qed.

Lemma rows_step db db' : keyed db → db_step db db' → rows_ok db → rows_ok db'.
Proof.
  intros Hk Hs [Ho Hp Ht Hkey]. split.
  - intros id o Hl. destruct Hs; fresh_inv; insert_cases Hl; eauto; by eapply Ho.
  - intros id p Hl. destruct Hs; fresh_inv; insert_cases Hl; eauto.
  - intros id t Hl. destruct Hs; insert_cases Hl; eauto.
  - intros id k Hl. destruct (idempotency_keys db !! id) as [k0|] eqn:Hk0; [|by eapply new_hash].
    assert (k0 = k) as -> by (pose proof (step_key _ _ _ _ Hs Hk0); congruence).
    destruct (Hkey _ _ Hk0) as [? ?]. split; [done|]. by eapply hash_step.
Qed.

Lemma reachable_rows db : reachable db → rows_ok db.
Proof. revert db. apply reachable_ind_keyed; eauto using rows_empty, rows_step. Qed.
End rows.
