(* ===== verification/Concrete.v ===== *)
(** * A concrete instance of the outside world

    UUIDs are printed and read in the canonical form, connections fail as a
    given schedule says, [jsonb] keeps the text of a JSON value.  The
    theorems are applied to it at concrete databases and requests. *)

From S2P Require Import Prelude GoStrings Json Models World.

(** ** UUIDs as text *)

(** The [n] low bytes of a number, most significant first. *)
Fixpoint num_bytes (n : nat) (x : N) : string :=
  match n with
  | O => ""
  | S n' => num_bytes n' (x / 256) +:+ String (ascii_of_N (x mod 256)) ""
  end.

Fixpoint be_value (acc : N) (s : string) : N :=
  match s with
  | "" => acc
  | String a s' => be_value (256 * acc + byte_val a) s'
  end.

Lemma be_value_app acc s t : be_value acc (s +:+ t) = be_value (be_value acc s) t.
Proof. revert acc. induction s as [|a s IH]; intros acc; [done|]. rewrite append_cons. cbn. apply IH. Qed.

Lemma be_value_bytes n x : (x < 256 ^ N.of_nat n)%N → be_value 0 (num_bytes n x) = x.
Proof.
  revert x. induction n as [|n IH]; intros x Hx.
  - cbn in *. lia.
  - assert (256 ^ N.of_nat (S n) = 256 * 256 ^ N.of_nat n)%N as Hpow
      by (rewrite Nat2N.inj_succ; apply N.pow_succ_r').
    rewrite Hpow in Hx. cbn [num_bytes]. rewrite be_value_app, IH.
    + cbn [be_value]. unfold byte_val. rewrite N_ascii_embedding by (apply N.mod_lt; lia).
      symmetry. apply N.div_mod. lia.
    + apply N.Div0.div_lt_upper_bound. done.
Qed.

(** The dashes of the canonical form. *)
Definition dash (s : string) : string :=
  String.substring 0 8 s +:+ "-" +:+ String.substring 8 4 s +:+ "-" +:+ String.substring 12 4 s +:+ "-" +:+ String.substring 16 4 s
    +:+ "-" +:+ String.substring 20 12 s.

Definition undash (s : string) : string :=
  String.substring 0 8 s +:+ String.substring 9 4 s +:+ String.substring 14 4 s +:+ String.substring 19 4 s +:+ String.substring 24 12 s.

Definition uuid_string (u : UUID) : string := dash (hex_encode (num_bytes 16 (uuid_val u))).

Definition uuid_scan (s : string) : option UUID :=
  if bool_decide (String.length s = 36%nat) then
    match hex_decode (undash s) with Some b => uuid_of_N (be_value 0 b) | None => None end
  else None.

Lemma length_32_dash s :
  String.length s = 32%nat → undash (dash s) = s ∧ String.length (dash s) = 36%nat.
Proof.
  intros Hl. do 32 (destruct s as [|? s]; [discriminate Hl|]). destruct s; [|discriminate Hl].
  by split; vm_compute.
Qed.

Lemma length_num_bytes n x : String.length (num_bytes n x) = n.
Proof.
  revert x. induction n as [|n IH]; intros x; [done|]. cbn [num_bytes].
  rewrite length_append, IH. cbn. lia.
Qed.

Lemma length_hex_encode s : String.length (hex_encode s) = (2 * String.length s)%nat.
Proof. induction s as [|a s IH]; [done|]. cbn [hex_encode String.length]. rewrite IH. lia. Qed.

Lemma uuid_scan_string u : uuid_scan (uuid_string u) = Some u.
Proof.
  unfold uuid_scan, uuid_string.
  destruct (length_32_dash (hex_encode (num_bytes 16 (uuid_val u)))) as [Hu Hl];
    [by rewrite length_hex_encode, length_num_bytes|].
  rewrite Hl, Hu, hex_decode_encode, be_value_bytes; [apply uuid_of_N_val|].
  apply N.ltb_lt, (uuid_lt u).
Qed.

(** ** The bytes of texts *)

Definition all_bytes (f : ascii → bool) (s : string) : bool := forallb f (String.list_ascii_of_string s).

Lemma all_bytes_app f s t : all_bytes f (s +:+ t) = all_bytes f s && all_bytes f t.
Proof.
  induction s as [|a s IH]; [done|]. rewrite append_cons. unfold all_bytes in *. cbn. by rewrite IH, andb_assoc.
Qed.

Lemma all_bytes_substring f i n s : all_bytes f s = true → all_bytes f (String.substring i n s) = true.
Proof.
  revert i n. induction s as [|a s IH]; intros i n Hs; [by destruct i, n|].
  change (f a && all_bytes f s = true) in Hs. apply andb_true_iff in Hs as [Ha Hs].
  destruct i as [|i]; [|by apply IH]. destruct n as [|n]; [done|].
  change (f a && all_bytes f (String.substring 0 n s) = true). by rewrite Ha, IH.
Qed.

Lemma all_bytes_dash f s : f "-"%char = true → all_bytes f s = true → all_bytes f (dash s) = true.
Proof.
  intros Hd Hs. assert (all_bytes f "-" = true) as Hd' by (unfold all_bytes; cbn; by rewrite Hd).
  unfold dash. by rewrite !all_bytes_app, Hd', !all_bytes_substring.
Qed.

Lemma hex_encode_ascii s : is_ascii (hex_encode s) = true.
Proof.
  induction s as [|a s IH]; [done|]. cbn [hex_encode]. unfold is_ascii in *. cbn.
  rewrite IH. by destruct a as [[] [] [] [] [] [] [] []].
Qed.

Lemma uuid_string_ascii u : is_ascii (uuid_string u) = true.
Proof. apply all_bytes_dash; [done|apply hex_encode_ascii]. Qed.

(** A byte of a text that PostgreSQL stores: ASCII, not NUL. *)
Definition storable (a : ascii) : bool := is_ascii_byte a && negb (byte_val a =? 0)%N.

Lemma storable_text s : all_bytes storable s = true → text_ok s = true.
Proof.
  induction s as [|a s IH]; [done|]. change (all_bytes storable (String a s)) with (storable a && all_bytes storable s).
  rewrite andb_true_iff. intros [[Ha Hn]%andb_true_iff Hs]. by rewrite text_ok_ascii_cons, IH.
Qed.

Lemma hex_value_storable a n : hex_value a = Some n → storable a = true.
Proof. destruct a as [[] [] [] [] [] [] [] []]; vm_compute; congruence. Qed.

Lemma hex_decode_storable s b : hex_decode s = Some b → all_bytes storable s = true.
Proof.
  revert b. induction s as [s IH] using string_len_ind. intros b.
  destruct s as [|x [|y s]]; [done|done|]. cbn [hex_decode].
  destruct (hex_value x) eqn:Hx; [|done]. destruct (hex_value y) eqn:Hy; [|done].
  destruct (hex_decode s) eqn:Hs; [|done]. intros _. unfold all_bytes. cbn.
  rewrite (hex_value_storable _ _ Hx), (hex_value_storable _ _ Hy). cbn. eapply (IH s); [cbn; lia|exact Hs].
Qed.

(** ** The instance *)

Definition uuid (n : N) : UUID := default (mkUUID 0 eq_refl) (uuid_of_N n).

(** google/uuid wants the dashes, and also reads the URN form. *)
Definition canonical (s : string) : bool := bool_decide (s = dash (undash s)) && bool_decide (is_Some (uuid_scan s)).
Definition uuid_parse (s : string) : bool :=
  canonical s ||
  (bool_decide (s = "urn:uuid:" +:+ String.substring 9 36 s) && canonical (String.substring 9 36 s)).

Lemma length_uuid_hex u : String.length (hex_encode (num_bytes 16 (uuid_val u))) = 32%nat.
Proof. by rewrite length_hex_encode, length_num_bytes. Qed.

Lemma uuid_string_canonical u : canonical (uuid_string u) = true.
Proof.
  unfold canonical. rewrite uuid_scan_string, andb_true_iff, !bool_decide_eq_true. split; [|done].
  unfold uuid_string. by rewrite (proj1 (length_32_dash _ (length_uuid_hex u))).
Qed.

Lemma canonical_storable s : canonical s = true → all_bytes storable s = true.
Proof.
  unfold canonical, uuid_scan. rewrite andb_true_iff, !bool_decide_eq_true. intros [Hs [u Hu]]. rewrite Hs.
  case_bool_decide; [|done]. destruct (hex_decode (undash s)) eqn:Hd; [|done].
  apply all_bytes_dash; [done|by eapply hex_decode_storable].
Qed.

Lemma uuid_parse_text s : uuid_parse s = true → text_ok s = true.
Proof.
  intros [Hs|[Hs Hc]%andb_true_iff]%orb_true_iff; [by apply storable_text, canonical_storable|].
  apply bool_decide_eq_true in Hs. apply storable_text. rewrite Hs, all_bytes_app. by rewrite (canonical_storable _ Hc).
Qed.

(** Generated UUIDs: a version-4 pattern around a counter, whose last digit
    decides what the mock provider answers. *)
Definition generated (n : nat) : UUID :=
  uuid (0x6ba7b8109dad4000800000c04fd43000 + 7 * N.of_nat n + 1).

Definition json_time (t : Z) : json := JStr (pretty t).
Definition json_text (s : option string) : json := match s with Some s => JStr s | None => JNull end.

Definition concrete (schedule : nat → Fault) (locked : nat → gset UUID) : External := {|
  fault := schedule;
  clock n := 1000 + Z.of_nat n;
  locked_rows := locked;
  uuid_NewString n := uuid_string (generated n);
  uuid_Parse := uuid_parse;
  UUID_Scan := uuid_scan;
  UUID_String := uuid_string;
  jsonb s := if utf8_valid s then match Parse s with Some _ => Some s | None => None end else None;
  json_Order o := Ok (Marshal (JObj [
    ("id", JStr (uuid_string (Order_ID o))); ("user_id", JStr (uuid_string (Order_UserID o)));
    ("status", JStr (Order_Status o)); ("amount_cents", JInt (Order_AmountCents o));
    ("currency", JStr (Order_Currency o)); ("description", json_text (Order_Description o));
    ("created_at", json_time (Order_CreatedAt o)); ("updated_at", json_time (Order_UpdatedAt o))]));
  json_Payment p := Ok (Marshal (JObj [
    ("id", JStr (uuid_string (Payment_ID p))); ("order_id", JStr (uuid_string (Payment_OrderID p)));
    ("status", JStr (Payment_Status p)); ("amount_cents", JInt (Payment_AmountCents p));
    ("provider", JStr (Payment_Provider p)); ("provider_ref", json_text (Payment_ProviderRef p));
    ("failure_reason", json_text (Payment_FailureReason p));
    ("created_at", json_time (Payment_CreatedAt p)); ("updated_at", json_time (Payment_UpdatedAt p))]));
  unicode_upper s := s;
  unicode_lower s := s;
  unicode_is_print _ := true;
  ext_text e := match e with ErrNoRows => "no rows in result set" | PgError c => "SQLSTATE " +:+ c | _ => "error" end
|}.

#[global] Instance concrete_laws schedule locked : ExternalLaws (concrete schedule locked).
Proof.
  split; cbn.
  - apply uuid_scan_string.
  - done.
  - intros n. by exists (generated n).
  - intros u. unfold uuid_parse. by rewrite uuid_string_canonical.
  - apply uuid_string_ascii.
  - done.
  - intros s _ _. apply uuid_parse_text.
Qed.

#[global] Instance concrete_jsonb schedule locked : JsonbLaws (concrete schedule locked).
Proof.
  split. intros text ms p Hp _ _. cbn. rewrite Hp. destruct (utf8_valid text) eqn:Hv; [|done].
  intros [= <-]. split; [done|]. by exists ms.
Qed.

(** The world in which nothing fails and no row is locked elsewhere. *)
Definition calm : External := concrete (λ _, NoFault) (λ _, ∅).
#[global] Instance calm_laws : ExternalLaws calm.
Proof. apply _. Qed.
#[global] Instance calm_jsonb : JsonbLaws calm.
Proof. apply _. Qed.

(** A database with two users. *)
Definition alice : UUID := uuid 0xa11ce.
Definition bob : UUID := uuid 0xb0b.
Definition two_users : DB :=
  set_users (<[alice := mkUser alice "alice@example.com" "hash" "customer" 0 0]>
             (<[bob := mkUser bob "bob@example.com" "hash" "customer" 0 0]> ∅)) empty_db.
