(* ===== verification/OrderProperties.v ===== *)
(** * Properties of the order service

    The theorems about [OrderService] itself: what each function does on every
    branch, replays and conflicts of idempotency keys, who may do what. *)

From S2P Require Import Prelude GoStrings Sha256 Json Models World.
From S2P Require Import Sqlc.
From S2P Require Import Store.
From S2P Require Import OrderService.
From S2P Require Import Spec OrderRefine Evolution Invariants Bookkeeping Concrete.

(** ** Runs without faults *)

Section eval.
Context `{External}.
Implicit Types w : World.

Lemma set_db_same w : set_db (w_db w) w = w.
Proof. by destruct w. Qed.
Lemma set_db_next w : set_db (w_db w) (next_tick w) = next_tick w.
Proof. by destruct w. Qed.

Lemma scan_none_eval s w : UUID_Scan s = None → scan s w = (Err (ErrUUID s), w).
Proof. unfold scan. by intros ->. Qed.

(** The row read by [GetOrder], with its error when there is none. *)
Definition find_order (id : string) (db : DB) : result Order :=
  match UUID_Scan id with
  | None => Err (ErrUUID id)
  | Some u => match orders db !! u with Some o => Ok o | None => Err ErrNoRows end
  end.

Lemma GetOrder_eval id w :
  fault (w_tick w) = NoFault →
  (Store.GetOrder id w).1 = find_order id (w_db w) ∧
  (∀ o, find_order id (w_db w) = Ok o → Store.GetOrder id w = (Ok o, next_tick w)).
Proof.
  intros Hf. unfold Store.GetOrder, find_order, scan, Sqlc.GetOrder.
  destruct (UUID_Scan id) as [u|]; [|done]. unfold bind, ret. rewrite query_nofault by done.
  destruct (orders (w_db w) !! u) as [o|]; cbn; rewrite ?set_db_next; naive_solver.
Qed.

Lemma GetPayment_eval id u p w :
  fault (w_tick w) = NoFault → UUID_Scan id = Some u → payments (w_db w) !! u = Some p →
  Store.GetPayment id w = (Ok p, next_tick w).
Proof.
  intros Hf Hu Hp. unfold Store.GetPayment, Sqlc.GetPayment, bind. rewrite (scan_eval _ _ _ Hu).
  rewrite query_nofault by done. rewrite Hp. cbn. by rewrite set_db_next.
Qed.

Lemma GetIdempotencyKey_eval userID u key w k :
  fault (w_tick w) = NoFault → UUID_Scan userID = Some u → text_ok key = true →
  lookup_by (same_key u key) (idempotency_keys (w_db w)) = Some k →
  Store.GetIdempotencyKey userID key w = (Ok k, next_tick w).
Proof.
  intros Hf Hu Ht Hk. unfold Store.GetIdempotencyKey, Sqlc.GetIdempotencyKey, bind.
  rewrite (scan_eval _ _ _ Hu). rewrite query_nofault by done. cbn -[lookup_by].
  rewrite Ht, Hk. cbn. by rewrite set_db_next.
Qed.
End eval.

(** ** Idempotency records are found again *)

Lemma same_key_true u key k :
  same_key u key k = true ↔ IdempotencyKey_UserID k = u ∧ IdempotencyKey_Key k = key.
Proof. unfold same_key. rewrite andb_true_iff, !bool_decide_eq_true. done. Qed.

Lemma find_key db kid k :
  schema_ok db → idempotency_keys db !! kid = Some k →
  lookup_by (same_key (IdempotencyKey_UserID k) (IdempotencyKey_Key k)) (idempotency_keys db) = Some k.
Proof.
  intros Hsc Hk. apply (lookup_by_unique _ _ kid); [done|by apply same_key_true|].
  intros kid' k' Hk' [Hu He]%same_key_true.
  assert (kid' = kid) as -> by (eapply (sc_key _ Hsc); eauto; congruence). congruence.
Qed.

(** ** Requests of CreateOrder that mean the same *)

Record same_create `{External} (p q : CreateOrderParams) : Prop := {
  sc_user_id : CreateOrder_UserID p = CreateOrder_UserID q;
  sc_idem : TrimSpace (CreateOrder_IdempotencyKey p) = TrimSpace (CreateOrder_IdempotencyKey q);
  sc_method : CreateOrder_Method p = CreateOrder_Method q;
  sc_path : CreateOrder_Path p = CreateOrder_Path q;
  sc_amount : CreateOrder_AmountCents p = CreateOrder_AmountCents q;
  sc_currency : create_currency p = create_currency q;
  sc_description : create_description p = create_description q
}.

#[global] Instance same_create_refl `{External} : Reflexive same_create.
Proof. by split. Qed.

Section replay.
Context `{External} `{!ExternalLaws _}.

Lemma same_create_hash p q : same_create p q → create_hash p = create_hash q.
Proof. intros []. unfold create_hash. congruence. Qed.

Lemma create_valid_same p q : same_create p q → create_valid p = create_valid q.
Proof. unfold create_valid. by intros [-> -> _ _ -> -> _]. Qed.

(** CreateOrder with its validation, its hash and its lookup done. *)
Lemma CreateOrder_found params w k :
  create_valid params = true →
  Store.GetIdempotencyKey (CreateOrder_UserID params) (TrimSpace (CreateOrder_IdempotencyKey params)) w
    = (Ok k, next_tick w) →
  CreateOrder params w =
    if idempotency_conflict k (CreateOrder_Method params) (CreateOrder_Path params) (create_hash params)
    then (Err ErrIdempotencyConflict, next_tick w)
    else bind (Store.GetOrder (UUID_opt_String (IdempotencyKey_ResourceID k))) (λ order,
           ret (mkCreateOrderResult order (stored_status (IdempotencyKey_StatusCode k)) true)) (next_tick w).
Proof.
  unfold create_valid. intros [Hk Hv]%andb_true_iff Hg.
  unfold CreateOrder, HashRequestBody, json_Marshal. cbn zeta.
  apply negb_true_iff in Hk, Hv. unfold create_currency in Hv. rewrite Hk, Hv.
  unfold bind at 1, lift. unfold bind at 1, try. rewrite Hg.
  fold (create_currency params) (create_description params) (create_hash params).
  by destruct (idempotency_conflict _ _ _ _).
Qed.

Lemma CreateOrder_valid_step params w r w' :
  CreateOrder params w = (r, w') → w_db w' ≠ w_db w → create_valid params = true.
Proof.
  intros Hrun Hne. destruct (create_valid params) eqn:Hv; [done|].
  destruct (CreateOrder_invalid params w Hv) as [e He]. rewrite He in Hrun. by simplify_eq.
Qed.

Lemma conflict_false k method path hash :
  IdempotencyKey_Method k = method → IdempotencyKey_Path k = path → IdempotencyKey_RequestHash k = hash →
  idempotency_conflict k method path hash = false.
Proof. intros <- <- <-. unfold idempotency_conflict. by rewrite !bool_decide_eq_true_2. Qed.

(** The state that a committed CreateOrder leaves, at any later time. *)
Lemma create_outcome_later params key cur desc hash db o e k db1 db2 :
  reachable db → create_outcome params key cur desc hash db o e k db1 → rtc db_step db1 db2 →
  schema_ok db2 ∧ idempotency_keys db2 !! IdempotencyKey_ID k = Some k ∧
  ∃ o', orders db2 !! Order_ID o = Some o' ∧ order_fixed o' = order_fixed o.
Proof.
  intros Hr Hout Hs. destruct Hout as [Hstep Hdb _ _ _ _ _ _ _ _].
  assert (reachable db2) as Hr2 by (unfold reachable in *; etransitivity; [exact Hr|]; by eapply rtc_l).
  split; [exact (reachable_schema _ Hr2)|].
  assert (idempotency_keys db1 !! IdempotencyKey_ID k = Some k) as Hk by (rewrite Hdb; cbn; by rewrite lookup_insert_eq).
  assert (orders db1 !! Order_ID o = Some o) as Ho by (rewrite Hdb; cbn; by rewrite lookup_insert_eq).
  split; [exact (steps_key _ _ _ _ Hs Hk)|].
  destruct (steps_order _ _ _ _ Hs Ho) as (o' & Ho' & Hm%order_moves_fixed). eauto.
Qed.

Lemma create_outcome_lookup params key cur desc hash db o e k db1 w2 :
  reachable db → create_outcome params key cur desc hash db o e k db1 → rtc db_step db1 (w_db w2) →
  fault (w_tick w2) = NoFault →
  Store.GetIdempotencyKey (CreateOrder_UserID params) key w2 = (Ok k, next_tick w2).
Proof.
  intros Hr Hout Hs Hf. destruct (create_outcome_later _ _ _ _ _ _ _ _ _ _ _ Hr Hout Hs) as (Hsc & Hk & _).
  pose proof (co_key _ _ _ _ _ _ _ _ _ _ Hout) as [Hkey _ _ _ _ _ Htxt].
  eapply GetIdempotencyKey_eval; [done|by eapply co_user|done|].
  rewrite <- (co_key_user _ _ _ _ _ _ _ _ _ _ Hout), <- Hkey. by eapply find_key.
Qed.

(** C16. Creating an order twice creates it once: after a CreateOrder that
    took effect, even if its answer was lost, the same request (up to case
    and spacing) gets the same order, at any later time, changes nothing and
    counts nothing. *)
Theorem CreateOrder_replay params params' w r w1 w2 :
  reachable (w_db w) →
  CreateOrder params w = (r, w1) → w_db w1 ≠ w_db w →
  rtc db_step (w_db w1) (w_db w2) →
  same_create params params' →
  fault (w_tick w2) = NoFault → fault (S (w_tick w2)) = NoFault →
  ∃ o o', (r = Ok (mkCreateOrderResult o StatusCreated false) ∨ lost_answer r) ∧
    orders (w_db w1) !! Order_ID o = Some o ∧
    order_fixed o' = order_fixed o ∧
    CreateOrder params' w2 = (Ok (mkCreateOrderResult o' StatusCreated true), next_tick (next_tick w2)).
Proof.
  intros Hr Hc Hne Hs Hsame Hf1 Hf2. pose proof (CreateOrder_valid_step _ _ _ _ Hc Hne) as Hv.
  apply CreateOrder_cases in Hc as [[? _]|(o & e & k & Hout & Hres)]; [done|].
  pose proof (create_outcome_lookup _ _ _ _ _ _ _ _ _ _ _ Hr Hout Hs Hf1) as Hg.
  destruct (create_outcome_later _ _ _ _ _ _ _ _ _ _ _ Hr Hout Hs) as (Hsc & Hk & o' & Ho' & Hfix).
  pose proof (same_create_hash _ _ Hsame) as Hh. pose proof Hout as [_ Hdb _ _ _ _ _ _ _ [_ Hm Hp Hhk Hcode Hresource _]].
  exists o, o'. split; [done|]. split; [by rewrite Hdb; cbn; rewrite lookup_insert_eq|]. split; [done|].
  pose proof Hsame as [Hu Hi Hm' Hp' Ha Hcur Hd]. rewrite Hi, Hu in Hg.
  rewrite (CreateOrder_found _ _ k); [|by rewrite <- (create_valid_same _ _ Hsame)|done].
  rewrite conflict_false by congruence. rewrite Hresource, Hcode. cbn [UUID_opt_String].
  unfold bind. rewrite (proj2 (GetOrder_eval _ (next_tick w2) Hf2) o'); [done|].
  unfold find_order. rewrite UUID_Scan_String. cbn. by rewrite Ho'.
Qed.

(** C21. A key is bound to its request: after a CreateOrder that took effect,
    a valid request of the same user under the same key with another method,
    path or hash is refused for ever with [ErrIdempotencyConflict]. *)
Theorem CreateOrder_conflict params params' w r w1 w2 :
  reachable (w_db w) →
  CreateOrder params w = (r, w1) → w_db w1 ≠ w_db w →
  rtc db_step (w_db w1) (w_db w2) →
  CreateOrder_UserID params' = CreateOrder_UserID params →
  TrimSpace (CreateOrder_IdempotencyKey params') = TrimSpace (CreateOrder_IdempotencyKey params) →
  create_valid params' = true →
  CreateOrder_Method params' ≠ CreateOrder_Method params ∨ CreateOrder_Path params' ≠ CreateOrder_Path params ∨
    create_hash params' ≠ create_hash params →
  fault (w_tick w2) = NoFault →
  CreateOrder params' w2 = (Err ErrIdempotencyConflict, next_tick w2).
Proof.
  intros Hr Hc Hne Hs Hu Hi Hv Hdiff Hf.
  apply CreateOrder_cases in Hc as [[? _]|(o & e & k & Hout & Hres)]; [done|].
  pose proof (create_outcome_lookup _ _ _ _ _ _ _ _ _ _ _ Hr Hout Hs Hf) as Hg.
  rewrite (CreateOrder_found _ _ k); [|done|by rewrite Hu, Hi].
  pose proof (co_key _ _ _ _ _ _ _ _ _ _ Hout) as Hkey. destruct Hkey as [_ Hm Hp Hh _ _ _].
  unfold idempotency_conflict. rewrite Hm, Hp, Hh.
  repeat case_bool_decide; cbn; try done. exfalso. destruct Hdiff as [?|[?|?]]; congruence.
Qed.

(** *** PayOrder *)

(** Requests of PayOrder that mean the same; the role does not matter. *)
Record same_pay (p q : PayOrderParams) : Prop := {
  sp_user_id : PayOrder_UserID p = PayOrder_UserID q;
  sp_order_id : PayOrder_OrderID p = PayOrder_OrderID q;
  sp_idem : TrimSpace (PayOrder_IdempotencyKey p) = TrimSpace (PayOrder_IdempotencyKey q);
  sp_method : PayOrder_Method p = PayOrder_Method q;
  sp_path : PayOrder_Path p = PayOrder_Path q
}.

Lemma pay_valid_same p q : same_pay p q → pay_valid p = pay_valid q.
Proof. unfold pay_valid. by intros [-> -> -> _ _]. Qed.

Lemma PayOrder_valid_step params w r w' :
  PayOrder params w = (r, w') → w_db w' ≠ w_db w → pay_valid params = true.
Proof.
  intros Hrun Hne. destruct (pay_valid params) eqn:Hv; [done|].
  destruct (PayOrder_invalid params w Hv) as [e He]. rewrite He in Hrun. by simplify_eq.
Qed.

Lemma PayOrder_found params w k :
  pay_valid params = true →
  Store.GetIdempotencyKey (PayOrder_UserID params) (TrimSpace (PayOrder_IdempotencyKey params)) w
    = (Ok k, next_tick w) →
  PayOrder params w =
    if idempotency_conflict k (PayOrder_Method params) (PayOrder_Path params) (pay_hash params)
    then (Err ErrIdempotencyConflict, next_tick w)
    else bind (Store.GetPayment (UUID_opt_String (IdempotencyKey_ResourceID k))) (λ payment,
           bind (Store.GetOrder (UUID_String (Payment_OrderID payment))) (λ order,
           ret (mkPayOrderResult order payment (stored_status (IdempotencyKey_StatusCode k)) true))) (next_tick w).
Proof.
  unfold pay_valid. intros [Hv Hk]%andb_true_iff Hg.
  unfold PayOrder, HashRequestBody, json_Marshal. cbn zeta.
  apply negb_true_iff in Hk, Hv. rewrite Hk, Hv.
  unfold bind at 1, lift. unfold bind at 1, try. rewrite Hg. fold (pay_hash params).
  by destruct (idempotency_conflict _ _ _ _).
Qed.

(** The state that a committed PayOrder leaves, at any later time. *)
Lemma pay_outcome_later params key hash db res o e k db1 db2 :
  reachable db → pay_outcome params key hash db res o e k db1 → rtc db_step db1 db2 →
  let p := PayOrderResult_Payment res in
  schema_ok db2 ∧ idempotency_keys db2 !! IdempotencyKey_ID k = Some k ∧
  payments db2 !! Payment_ID p = Some p ∧
  ∃ o', orders db2 !! Payment_OrderID p = Some o' ∧ order_fixed o' = order_fixed o.
Proof.
  intros Hr Hout Hs p. destruct Hout as [Hstep Hdb Hord _ _ _ Hpay Hupd _ _ _ _ _].
  assert (reachable db2) as Hr2 by (unfold reachable in *; etransitivity; [exact Hr|]; by eapply rtc_l).
  assert (idempotency_keys db1 !! IdempotencyKey_ID k = Some k) as Hk by (rewrite Hdb; cbn; by rewrite lookup_insert_eq).
  assert (payments db1 !! Payment_ID p = Some p) as Hp by (rewrite Hdb; cbn; by rewrite lookup_insert_eq).
  split; [exact (reachable_schema _ Hr2)|]. split; [exact (steps_key _ _ _ _ Hs Hk)|].
  split; [exact (steps_payment _ _ _ _ Hs Hp)|].
  destruct Hpay as [_ Hpo _ _ _]. fold p in Hpo. rewrite Hpo.
  destruct (steps_order _ _ _ _ (rtc_l _ _ _ _ Hstep Hs) Hord) as (o' & Ho' & Hm%order_moves_fixed). eauto.
Qed.

Lemma pay_outcome_lookup params key hash db res o e k db1 w2 :
  reachable db → pay_outcome params key hash db res o e k db1 → rtc db_step db1 (w_db w2) →
  fault (w_tick w2) = NoFault →
  Store.GetIdempotencyKey (PayOrder_UserID params) key w2 = (Ok k, next_tick w2).
Proof.
  intros Hr Hout Hs Hf. destruct (pay_outcome_later _ _ _ _ _ _ _ _ _ _ Hr Hout Hs) as (Hsc & Hk & _).
  pose proof (po_key _ _ _ _ _ _ _ _ _ Hout) as [Hkey _ _ _ _ _ Htxt].
  eapply GetIdempotencyKey_eval; [done|by eapply po_key_user|done|].
  rewrite <- Hkey. by eapply find_key.
Qed.

(** C17. Paying twice pays once: after a PayOrder that took effect, even if
    its answer was lost, the same request gets the same payment and the
    current order, at any later time, and charges nothing. *)
Theorem PayOrder_replay params params' w r w1 w2 :
  reachable (w_db w) →
  PayOrder params w = (r, w1) → w_db w1 ≠ w_db w →
  rtc db_step (w_db w1) (w_db w2) →
  same_pay params params' →
  (∀ i, (i < 3)%nat → fault (w_tick w2 + i) = NoFault) →
  ∃ res o', (r = Ok res ∨ lost_answer r) ∧
    payments (w_db w1) !! Payment_ID (PayOrderResult_Payment res) = Some (PayOrderResult_Payment res) ∧
    order_fixed o' = order_fixed (PayOrderResult_Order res) ∧
    PayOrder params' w2 =
      (Ok (mkPayOrderResult o' (PayOrderResult_Payment res) StatusOK true), next_tick (next_tick (next_tick w2))).
Proof.
  intros Hr Hc Hne Hs Hsame Hf. pose proof (PayOrder_valid_step _ _ _ _ Hc Hne) as Hv.
  pose proof (Hf 0%nat ltac:(lia)) as Hf0. pose proof (Hf 1%nat ltac:(lia)) as Hf1. pose proof (Hf 2%nat ltac:(lia)) as Hf2.
  rewrite Nat.add_0_r in Hf0. rewrite Nat.add_1_r in Hf1. rewrite <- plus_n_Sm, Nat.add_1_r in Hf2.
  apply PayOrder_cases in Hc as [[? _]|(res & o & e & k & Hout & Hres)]; [done| |exact (reachable_keyed _ Hr)].
  pose proof (pay_outcome_lookup _ _ _ _ _ _ _ _ _ _ Hr Hout Hs Hf0) as Hg.
  destruct (pay_outcome_later _ _ _ _ _ _ _ _ _ _ Hr Hout Hs) as (Hsc & Hk & Hp & o' & Ho' & Hfix).
  pose proof Hout as [_ Hdb _ _ _ _ _ Hupd _ _ _ _ [_ Hm Hpa Hhk Hcode Hresource _]].
  exists res, o'. split; [done|]. split; [by rewrite Hdb; cbn; rewrite lookup_insert_eq|].
  split; [by rewrite Hfix, Hupd|].
  pose proof Hsame as [Hu Hid Hi Hm' Hp']. rewrite Hi, Hu in Hg.
  rewrite (PayOrder_found _ _ k); [|by rewrite <- (pay_valid_same _ _ Hsame)|done].
  rewrite conflict_false; [|congruence..|by unfold pay_hash; rewrite <- Hid].
  rewrite Hresource, Hcode. cbn [UUID_opt_String]. unfold bind.
  rewrite (GetPayment_eval _ (Payment_ID (PayOrderResult_Payment res)) _ (next_tick w2) Hf1 (UUID_Scan_String _) Hp).
  rewrite (proj2 (GetOrder_eval _ (next_tick (next_tick w2)) Hf2) o'); [done|].
  unfold find_order. rewrite UUID_Scan_String. cbn. by rewrite Ho'.
Qed.
End replay.
