(* ===== verification/OrderTotal.v ===== *)
(** * The order service answers

    Runs in which no connection fails: every function returns, with the
    answer that the request and the tables determine. *)

From S2P Require Import Prelude GoStrings Sha256 Json Models World.
From S2P Require Import Sqlc.
From S2P Require Import Store.
From S2P Require Import OrderService.
From S2P Require Import Spec OrderRefine Evolution Invariants Bookkeeping Concrete.
From S2P Require Import OrderProperties.

(** The next [n] calls to a server do not fail. *)
Definition quiet `{External} (w : World) (n : nat) : Prop := ∀ i, (i < n)%nat → fault (w_tick w + i) = NoFault.

(** The world after [n] calls to a server and [m] fresh UUIDs. *)
Fixpoint ticks (n : nat) (w : World) : World := match n with O => w | S n' => next_tick (ticks n' w) end.

Section quiet.
Context `{External}.

Lemma quiet_head w n : quiet w (S n) → fault (w_tick w) = NoFault.
Proof. intros Hq. specialize (Hq 0%nat). rewrite Nat.add_0_r in Hq. apply Hq. lia. Qed.

(** Any world whose clock is [k] calls later. *)
Lemma quiet_at w w' n k : quiet w n → w_tick w' = (w_tick w + k)%nat → (k < n)%nat → fault (w_tick w') = NoFault.
Proof. intros Hq -> Hk. by apply Hq. Qed.

(** ** Statements that pass their guards *)

Lemma query_pass {A} (q : DB → Z → result (A * DB)) w a db :
  fault (w_tick w) = NoFault → q (w_db w) (sql_now w) = Ok (a, db) → query q w = (Ok a, set_db db (next_tick w)).
Proof. intros Hf Hq. by rewrite query_nofault, Hq. Qed.

Lemma bool_decide_is_None {A} (o : option A) `{!Decision (o = None)} : o = None → bool_decide (o = None) = true.
Proof. intros. by apply bool_decide_eq_true_2. Qed.
End quiet.

(** Discharge the guards of a statement from the context. *)
Ltac pass_guards :=
  apply guarded_pass; repeat constructor; cbn -[lookup_by];
  repeat match goal with H : _ = true |- _ => rewrite H end;
  unfold absent, present; try (apply bool_decide_eq_true_2; by eauto); try done.

Section statements.
Context `{External}.

Lemma CreateOrder_pass p w id u :
  fault (w_tick w) = NoFault →
  UUID_Scan (sCreateOrder_ID p) = Some id → UUID_Scan (sCreateOrder_UserID p) = Some u →
  text_ok (sCreateOrder_Status p) = true → text_ok (sCreateOrder_Currency p) = true →
  opt_text_ok (text (sCreateOrder_Description p)) = true →
  order_status_check (sCreateOrder_Status p) = true → 0 < sCreateOrder_AmountCents p →
  orders (w_db w) !! id = None → is_Some (users (w_db w) !! u) →
  let o := mkOrder id u (sCreateOrder_Status p) (sCreateOrder_AmountCents p) (sCreateOrder_Currency p)
             (text (sCreateOrder_Description p)) (sql_now w) (sql_now w) in
  Store.CreateOrder p w = (Ok o, set_db (put_order o (w_db w)) (next_tick w)).
Proof.
  intros Hf Hid Hu Ht1 Ht2 Ht3 Hs Ha%Z.ltb_lt Hn Hex o.
  unfold Store.CreateOrder, Sqlc.CreateOrder, bind. rewrite (scan_eval _ _ _ Hid), (scan_eval _ _ _ Hu).
  apply query_pass; [done|]. pass_guards.
Qed.

Lemma CreateOutboxEvent_pass p w id agg part body :
  fault (w_tick w) = NoFault →
  UUID_Scan (sCreateOutboxEvent_ID p) = Some id → UUID_Scan (sCreateOutboxEvent_AggregateID p) = Some agg →
  UUID_Scan (sCreateOutboxEvent_PartitionKey p) = Some part →
  text_ok (sCreateOutboxEvent_AggregateType p) = true → text_ok (sCreateOutboxEvent_EventType p) = true →
  event_aggregate_check (sCreateOutboxEvent_AggregateType p) (sCreateOutboxEvent_EventType p) = true →
  jsonb (sCreateOutboxEvent_Payload p) = Some body →
  outbox_events (w_db w) !! id = None →
  let e := mkOutboxEvent id (sCreateOutboxEvent_AggregateType p) agg (sCreateOutboxEvent_EventType p) body None 0
             None (sql_now w) part in
  Store.CreateOutboxEvent p w = (Ok e, set_db (put_event e (w_db w)) (next_tick w)).
Proof.
  intros Hf Hid Hagg Hpart Ht1 Ht2 Hc Hb Hn e.
  unfold Store.CreateOutboxEvent, Sqlc.CreateOutboxEvent, bind.
  rewrite (scan_eval _ _ _ Hid), (scan_eval _ _ _ Hagg), (scan_eval _ _ _ Hpart).
  apply query_pass; [done|]. cbn. rewrite Hb. pass_guards.
Qed.

Lemma CreateIdempotencyKey_pass p w id u res body :
  fault (w_tick w) = NoFault →
  UUID_Scan (sCreateIdempotencyKey_ID p) = Some id → UUID_Scan (sCreateIdempotencyKey_UserID p) = Some u →
  sCreateIdempotencyKey_ResourceID p ≠ "" → UUID_Scan (sCreateIdempotencyKey_ResourceID p) = Some res →
  text_ok (sCreateIdempotencyKey_Key p) = true → text_ok (sCreateIdempotencyKey_Method p) = true →
  text_ok (sCreateIdempotencyKey_Path p) = true → text_ok (sCreateIdempotencyKey_RequestHash p) = true →
  opt_text_ok (text (sCreateIdempotencyKey_ResourceType p)) = true →
  jsonb (sCreateIdempotencyKey_ResponseBody p) = Some body →
  idempotency_keys (w_db w) !! id = None →
  lookup_by (same_key u (sCreateIdempotencyKey_Key p)) (idempotency_keys (w_db w)) = None →
  is_Some (users (w_db w) !! u) →
  ∃ k w', Store.CreateIdempotencyKey p w = (Ok k, w') ∧ w_tick w' = S (w_tick w).
Proof.
  intros Hf Hid Hu Hne Hres Ht1 Ht2 Ht3 Ht4 Ht5 Hb Hn Hl Hex.
  unfold Store.CreateIdempotencyKey, Sqlc.CreateIdempotencyKey, bind.
  rewrite (scan_eval _ _ _ Hid), (scan_eval _ _ _ Hu), bool_decide_eq_false_2 by done.
  rewrite (scan_eval _ _ _ Hres). cbn. eexists _, (set_db _ (next_tick w)). split; [|reflexivity].
  apply query_pass; [done|]. cbn -[lookup_by]. rewrite Hb. pass_guards.
Qed.

Lemma UpdateOrderStatus_pass idtext status w id o :
  fault (w_tick w) = NoFault → UUID_Scan idtext = Some id → orders (w_db w) !! id = Some o → Order_ID o = id →
  text_ok status = true → order_status_check status = true →
  let o' := with_status status (sql_now w) o in
  Store.UpdateOrderStatus idtext status w = (Ok o', set_db (put_order o' (w_db w)) (next_tick w)).
Proof.
  intros Hf Hid Ho <- Ht Hc o'.
  unfold Store.UpdateOrderStatus, Sqlc.UpdateOrderStatus, bind. rewrite (scan_eval _ _ _ Hid).
  apply query_pass; [done|]. cbn. rewrite Ht, Ho. cbn. pass_guards.
Qed.

Lemma CreatePayment_pass p w id ord :
  fault (w_tick w) = NoFault →
  UUID_Scan (sCreatePayment_ID p) = Some id → UUID_Scan (sCreatePayment_OrderID p) = Some ord →
  text_ok (sCreatePayment_Status p) = true → text_ok (sCreatePayment_Provider p) = true →
  opt_text_ok (text (sCreatePayment_ProviderRef p)) = true →
  opt_text_ok (text (sCreatePayment_FailureReason p)) = true →
  payment_status_check (sCreatePayment_Status p) = true → 0 < sCreatePayment_AmountCents p →
  payments (w_db w) !! id = None → is_Some (orders (w_db w) !! ord) →
  let row := mkPayment id ord (sCreatePayment_Status p) (sCreatePayment_AmountCents p) (sCreatePayment_Provider p)
               (text (sCreatePayment_ProviderRef p)) (text (sCreatePayment_FailureReason p)) (sql_now w) (sql_now w) in
  Store.CreatePayment p w = (Ok row, set_db (put_payment row (w_db w)) (next_tick w)).
Proof.
  intros Hf Hid Hord Ht1 Ht2 Ht3 Ht4 Hs Ha%Z.ltb_lt Hn Hex row.
  unfold Store.CreatePayment, Sqlc.CreatePayment, bind. rewrite (scan_eval _ _ _ Hid), (scan_eval _ _ _ Hord).
  apply query_pass; [done|]. pass_guards.
Qed.
End statements.

(** The text of a hash can be stored. *)
Lemma text_ok_hex_digit n : (n < 16)%N → is_ascii_byte (hex_digit n) = true ∧ negb (byte_val (hex_digit n) =? 0)%N = true.
Proof. intros Hn. destruct n as [|[[[[]|[]|]|[[]|[]|]|]|[[[]|[]|]|[[]|[]|]|]|]]; try done; lia. Qed.

Lemma text_ok_hex s : text_ok (hex_encode s) = true.
Proof.
  induction s as [|a s IH]; [done|]. cbn [hex_encode].
  assert (byte_val a < 256)%N by apply N_ascii_bounded.
  destruct (text_ok_hex_digit (byte_val a / 16)) as [? ?]; [apply N.Div0.div_lt_upper_bound; lia|].
  destruct (text_ok_hex_digit (byte_val a mod 16)) as [? ?]; [apply N.mod_lt; lia|].
  by rewrite !text_ok_ascii_cons.
Qed.

(** What a request for a new order meets: a known user, an unused key, fresh
    UUIDs, text that PostgreSQL stores, JSON that it accepts. *)
Record create_ready `{External} (params : CreateOrderParams) (w : World) (u : UUID) : Prop := {
  cr_valid : create_valid params = true;
  cr_user : UUID_Scan (CreateOrder_UserID params) = Some u;
  cr_known : is_Some (users (w_db w) !! u);
  cr_unused : lookup_by (same_key u (TrimSpace (CreateOrder_IdempotencyKey params))) (idempotency_keys (w_db w)) = None;
  cr_key_text : text_ok (TrimSpace (CreateOrder_IdempotencyKey params)) = true;
  cr_method_text : text_ok (CreateOrder_Method params) = true;
  cr_path_text : text_ok (CreateOrder_Path params) = true;
  cr_currency_text : text_ok (create_currency params) = true;
  cr_description_text : opt_text_ok (text (create_description params)) = true;
  cr_order_id id : UUID_Scan (uuid_NewString (w_seed w)) = Some id → orders (w_db w) !! id = None;
  cr_event_id id : UUID_Scan (uuid_NewString (S (w_seed w))) = Some id → outbox_events (w_db w) !! id = None;
  cr_key_id id : UUID_Scan (uuid_NewString (S (S (w_seed w)))) = Some id → idempotency_keys (w_db w) !! id = None;
  cr_payload : is_Some (jsonb (Marshal (orderCreatedEventPayload (uuid_NewString (w_seed w)) (CreateOrder_UserID params)
    OrderStatusPendingPayment (CreateOrder_AmountCents params) (create_currency params) (create_description params))));
  cr_body id : UUID_Scan (uuid_NewString (w_seed w)) = Some id →
    let now := clock (S (w_tick w)) in
    ∃ body, json_Order (mkOrder id u OrderStatusPendingPayment (CreateOrder_AmountCents params) (create_currency params)
                          (text (create_description params)) now now) = Ok body ∧ is_Some (jsonb body)
}.

Section total.
Context `{External} `{!ExternalLaws _}.

Lemma scan_generated n : ∃ id, UUID_Scan (uuid_NewString n) = Some id ∧ UUID_String id = uuid_NewString n.
Proof. destruct (uuid_New_canonical n) as [id Hid]. exists id. by rewrite <- Hid, UUID_Scan_String. Qed.

(** The run of the transaction of CreateOrder. *)
Lemma create_order_tx_runs params w u w1 :
  create_ready params w u → w_db w1 = w_db w → w_seed w1 = w_seed w → w_txnow w1 = Some (clock (S (w_tick w))) →
  (∀ i, (i < 3)%nat → fault (w_tick w1 + i) = NoFault) →
  ∃ o w2, create_order_tx params (TrimSpace (CreateOrder_IdempotencyKey params)) (create_currency params)
            (create_description params) (create_hash params) w1 = (Ok o, w2) ∧
    w_tick w2 = (w_tick w1 + 3)%nat.
Proof.
  intros [Hv Hu Hex Hun Hkt Hmt Hpt Hct Hdt Hoid Heid Hkid [pl Hpl] Hbody] Hdb Hseed Hnow Hf.
  destruct (scan_generated (w_seed w)) as (oid & Ho & Hos), (scan_generated (S (w_seed w))) as (eid & He & _),
    (scan_generated (S (S (w_seed w)))) as (kid & Hk & _).
  specialize (Hoid _ Ho). specialize (Heid _ He). specialize (Hkid _ Hk).
  destruct (Hbody _ Ho) as (body & Hb & [b Hjb]). clear Hbody.
  apply andb_true_iff in Hv as [_ Hv]. rewrite !negb_orb, !andb_true_iff, !negb_true_iff in Hv.
  destruct Hv as [[_ Ha%Z.leb_gt] _].
  pose proof (Hf 0%nat ltac:(lia)) as Hf0. pose proof (Hf 1%nat ltac:(lia)) as Hf1. pose proof (Hf 2%nat ltac:(lia)) as Hf2.
  rewrite Nat.add_0_r in Hf0. rewrite Nat.add_1_r in Hf1. rewrite <- plus_n_Sm, Nat.add_1_r in Hf2.
  unfold create_order_tx, json_Marshal. rewrite <- Hseed, <- Hdb in *.
  erewrite bind_eval by reflexivity.
  erewrite bind_eval by (apply (CreateOrder_pass _ (next_seed w1) oid u); done).
  erewrite bind_eval by reflexivity. erewrite bind_eval by reflexivity.
  erewrite bind_eval by (eapply CreateOutboxEvent_pass; cbn;
    [exact Hf1|exact He|by rewrite UUID_Scan_String|by rewrite UUID_Scan_String|done|done|done|exact Hpl|done]).
  assert (sql_now (next_seed w1) = clock (S (w_tick w))) as -> by (unfold sql_now; cbn; by rewrite Hnow).
  match goal with |- context [json_Order ?x] => replace (json_Order x) with (Ok body : result string) by (symmetry; exact Hb) end.
  erewrite bind_eval by reflexivity. erewrite bind_eval by reflexivity.
  edestruct CreateIdempotencyKey_pass as (k & w3 & Hkey & Htick); [..|erewrite bind_eval by exact Hkey]; cbn.
  all: try first [exact Hf2|exact Hk|exact Hu|by rewrite UUID_Scan_String|apply UUID_String_nonempty|done|exact Hjb|apply text_ok_hex].
  unfold ret. eexists _, _. split; [done|]. rewrite Htick. cbn. lia.
Qed.

Lemma silent_create_order_tx params key cur desc hash : silent (create_order_tx params key cur desc hash).
Proof. unfold create_order_tx. silent_store. Qed.
Lemma silent_pay_order_tx params key hash : silent (pay_order_tx params key hash).
Proof. unfold pay_order_tx. silent_store. Qed.
Lemma silent_cancel_order_tx params : silent (cancel_order_tx params).
Proof. unfold cancel_order_tx. silent_store. Qed.

Lemma GetIdempotencyKey_none userID u key w :
  fault (w_tick w) = NoFault → UUID_Scan userID = Some u → text_ok key = true →
  lookup_by (same_key u key) (idempotency_keys (w_db w)) = None →
  Store.GetIdempotencyKey userID key w = (Err ErrNoRows, next_tick w).
Proof.
  intros Hf Hu Ht Hk. unfold Store.GetIdempotencyKey, Sqlc.GetIdempotencyKey, bind.
  rewrite (scan_eval _ _ _ Hu), query_nofault by done. cbn -[lookup_by]. by rewrite Ht, Hk.
Qed.

(** CreateOrder when the lookup finds no key. *)
Lemma CreateOrder_unfound params w e :
  create_valid params = true →
  Store.GetIdempotencyKey (CreateOrder_UserID params) (TrimSpace (CreateOrder_IdempotencyKey params)) w
    = (Err e, next_tick w) →
  CreateOrder params w =
    bind (WithTx (create_order_tx params (TrimSpace (CreateOrder_IdempotencyKey params)) (create_currency params)
            (create_description params) (create_hash params)))
      (λ o, bind (inc OrdersCreatedTotal) (λ _, ret (mkCreateOrderResult o StatusCreated false))) (next_tick w).
Proof.
  unfold create_valid. intros [Hk Hv]%andb_true_iff Hg.
  unfold CreateOrder, HashRequestBody, json_Marshal. cbn zeta.
  apply negb_true_iff in Hk, Hv. unfold create_currency in Hv. rewrite Hk, Hv.
  unfold bind at 1, lift. unfold bind at 1, try. by rewrite Hg.
Qed.

(** A transaction without faults, whose function takes [n] calls. *)
Lemma WithTx_runs {A} (fn : M A) w n :
  quiet w (n + 2) →
  (∀ w1, w_db w1 = w_db w → w_seed w1 = w_seed w → w_tick w1 = S (w_tick w) → w_txnow w1 = Some (clock (w_tick w)) →
    ∃ a w2, fn w1 = (Ok a, w2) ∧ w_tick w2 = (w_tick w1 + n)%nat) →
  ∃ a w', WithTx fn w = (Ok a, w').
Proof.
  intros Hq Hfn.
  destruct (Hfn (set_txnow (Some (clock (w_tick w))) (next_tick w))) as (a & w2 & Hrun & Htick); [done..|].
  eexists _, _. eapply WithTx_eval; [|exact Hrun|].
  - apply (quiet_at w w (n + 2) 0); [done|lia|lia].
  - apply (quiet_at w w2 (n + 2) (S n)); [done| |lia]. rewrite Htick. cbn. lia.
Qed.

Lemma quiet_after w w' n k : quiet w (k + n) → w_tick w' = (w_tick w + k)%nat → quiet w' n.
Proof. intros Hq Ht i Hi. rewrite Ht, <- Nat.add_assoc. apply Hq. lia. Qed.

(** C27. CreateOrder returns: for a valid request of a known user under an
    unused key, on a connection that does not fail, it answers with a new
    order, status 201, and has made its rows and counted it. *)
Theorem CreateOrder_succeeds params w u :
  create_ready params w u → quiet w 6 →
  ∃ o e k w',
    CreateOrder params w = (Ok (mkCreateOrderResult o StatusCreated false), w') ∧
    create_outcome params (TrimSpace (CreateOrder_IdempotencyKey params)) (create_currency params)
      (create_description params) (create_hash params) (w_db w) o e k (w_db w') ∧
    w_metrics w' = OrdersCreatedTotal :: w_metrics w ∧ w_topic w' = w_topic w.
Proof.
  intros Hready Hq. pose proof Hready as [Hv Hu _ Hun Hkt _ _ _ _ _ _ _ _ _].
  pose proof (GetIdempotencyKey_none _ _ _ _ (quiet_at w w 6 0 Hq ltac:(lia) ltac:(lia)) Hu Hkt Hun) as Hg.
  pose proof (CreateOrder_unfound _ _ _ Hv Hg) as Hrun.
  destruct (WithTx_runs (create_order_tx params (TrimSpace (CreateOrder_IdempotencyKey params)) (create_currency params)
            (create_description params) (create_hash params)) (next_tick w) 3) as (o & w1 & Htx).
  { apply (quiet_after w _ _ 1); [done|cbn; lia]. }
  { intros w2 Hdb Hseed Htick Hnow. eapply (create_order_tx_runs params w u); [done..|].
    intros i Hi. apply (quiet_at w (mkWorld (w_db w2) (w_tick w2 + i) (w_seed w2) None [] []) 6 (2 + i)); [done| |lia].
    cbn. rewrite Htick. cbn. lia. }
  destruct (silent_run _ _ _ _ (silent_WithTx _ (silent_create_order_tx _ _ _ _ _)) Htx) as [Hmet Htop].
  unfold bind in Hrun. rewrite Htx in Hrun. cbn in Hrun.
  destruct (CreateOrder_cases _ _ _ _ Hrun) as [[_ Hc]|(o' & e & k & Hout & [[= <-]|[? ?]])]; [|cbn in *|done].
  - by specialize (Hc _ eq_refl).
  - exists o, e, k. eexists. split; [exact Hrun|]. cbn. rewrite Hmet, Htop. done.
Qed.

(** ** The decision of PayOrder and CancelOrder *)

(** What the guards of the transaction answer for an order. *)
Definition order_refused (role userID orderID : string) (db : DB) : option error :=
  match find_order orderID db with
  | Err _ => Some ErrOrderNotFound
  | Ok o =>
    if order_forbidden role userID o then Some ErrOrderForbidden
    else if negb (status_open (Order_Status o)) then Some ErrOrderInvalidStatus
    else None
  end.

Lemma order_refused_None role userID orderID db :
  order_refused role userID orderID db = None →
  ∃ o, find_order orderID db = Ok o ∧ order_forbidden role userID o = false ∧ status_open (Order_Status o) = true.
Proof.
  unfold order_refused. destruct (find_order _ _) as [o|]; [|done].
  destruct (order_forbidden _ _ _) eqn:?; [done|]. destruct (status_open _) eqn:?; [|done]. eauto.
Qed.

Lemma GetOrderForUpdate_eval id w :
  fault (w_tick w) = NoFault →
  (∃ w', try (Store.GetOrderForUpdate id) w = (Ok (find_order id (w_db w)), w') ∧
     (is_ok (find_order id (w_db w)) = true → w' = next_tick w)).
Proof.
  intros Hf. unfold try, Store.GetOrderForUpdate, find_order, scan, Sqlc.GetOrderForUpdate.
  destruct (UUID_Scan id) as [u|]; [|by eexists]. unfold bind, ret. rewrite query_nofault by done.
  destruct (orders (w_db w) !! u) as [o|]; cbn; rewrite ?set_db_next; by eexists.
Qed.

Lemma find_order_keyed id db o : keyed db → find_order id db = Ok o → orders db !! Order_ID o = Some o.
Proof.
  intros Hk. unfold find_order. destruct (UUID_Scan id) as [u|]; [|done].
  destruct (orders db !! u) as [o'|] eqn:Ho; [|done]. intros [= <-]. by rewrite (keyed_orders _ Hk _ _ Ho).
Qed.

(** A transaction whose function fails changes nothing. *)
Lemma WithTx_refused {A} (fn : M A) w err :
  fault (w_tick w) = NoFault →
  (∀ w1, w_db w1 = w_db w → w_tick w1 = S (w_tick w) → ∃ w2, fn w1 = (Err err, w2)) →
  ∃ w', WithTx fn w = (Err err, w') ∧ w_db w' = w_db w.
Proof.
  intros Hf Hfn. destruct (Hfn (set_txnow (Some (clock (w_tick w))) (next_tick w))) as [w2 Hrun]; [done..|].
  eexists. split; [by apply WithTx_eval_err|done].
Qed.

(** *** CancelOrder *)

Record cancel_ready (params : CancelOrderParams) (w : World) : Prop := {
  xr_event_id id : UUID_Scan (uuid_NewString (w_seed w)) = Some id → outbox_events (w_db w) !! id = None;
  xr_payload o : find_order (CancelOrder_OrderID params) (w_db w) = Ok o → is_Some (jsonb (Marshal (orderCancelledEventPayload (UUID_String (Order_ID o))
    (UUID_String (Order_UserID o)) OrderStatusCancelled)))
}.

Lemma cancel_order_tx_refused params w1 err :
  order_refused (CancelOrder_Role params) (CancelOrder_UserID params) (CancelOrder_OrderID params) (w_db w1) = Some err →
  fault (w_tick w1) = NoFault →
  ∃ w2, cancel_order_tx params w1 = (Err err, w2).
Proof.
  unfold order_refused. intros Hr Hf. unfold cancel_order_tx, bind at 1.
  destruct (GetOrderForUpdate_eval (CancelOrder_OrderID params) w1 Hf) as (w' & -> & _).
  destruct (find_order _ _) as [o|]; [|simplify_eq; by eexists].
  destruct (order_forbidden _ _ _); [simplify_eq; by eexists|].
  destruct (status_open _); [done|]. simplify_eq/=. by eexists.
Qed.

Lemma cancel_order_tx_runs params w w1 :
  keyed (w_db w) → cancel_ready params w → w_db w1 = w_db w → w_seed w1 = w_seed w →
  order_refused (CancelOrder_Role params) (CancelOrder_UserID params) (CancelOrder_OrderID params) (w_db w) = None →
  (∀ i, (i < 3)%nat → fault (w_tick w1 + i) = NoFault) →
  ∃ o' w2, cancel_order_tx params w1 = (Ok o', w2) ∧ w_tick w2 = (w_tick w1 + 3)%nat.
Proof.
  intros Hk [Heid Hpl] Hdb Hseed (o & Ho & Hfb & Hop)%order_refused_None Hf.
  pose proof (Hf 0%nat ltac:(lia)) as Hf0. pose proof (Hf 1%nat ltac:(lia)) as Hf1. pose proof (Hf 2%nat ltac:(lia)) as Hf2.
  rewrite Nat.add_0_r in Hf0. rewrite Nat.add_1_r in Hf1. rewrite <- plus_n_Sm, Nat.add_1_r in Hf2.
  destruct (scan_generated (w_seed w)) as (eid & He & _). specialize (Heid _ He). rewrite <- Hseed, <- Hdb in *.
  pose proof (find_order_keyed _ _ _ Hk Ho) as Hord. destruct (Hpl o Ho) as [pl Hpl'].
  unfold cancel_order_tx, json_Marshal.
  destruct (GetOrderForUpdate_eval (CancelOrder_OrderID params) w1 Hf0) as (w' & Hrun & Hw').
  rewrite Ho in Hrun, Hw'. rewrite (Hw' eq_refl) in Hrun. rewrite (bind_eval _ _ _ _ _ Hrun), Hfb, Hop. cbn [negb].
  erewrite bind_eval by (eapply UpdateOrderStatus_pass; [exact Hf1|apply UUID_Scan_String|exact Hord|done..]).
  erewrite bind_eval by reflexivity. erewrite bind_eval by reflexivity.
  erewrite bind_eval by (eapply CreateOutboxEvent_pass; cbn;
    [exact Hf2|exact He|by rewrite UUID_Scan_String|by rewrite UUID_Scan_String|done|done|done|exact Hpl'|done]).
  eexists _, _. split; [done|]. cbn. lia.
Qed.

(** C26. CancelOrder, on every branch: on a connection that does not fail it
    answers [ErrOrderNotFound], [ErrOrderForbidden] or [ErrOrderInvalidStatus]
    and changes nothing, or cancels the order. *)
Theorem CancelOrder_answers params w :
  keyed (w_db w) → cancel_ready params w → quiet w 5 →
  CancelOrder_UserID params ≠ "" → CancelOrder_OrderID params ≠ "" →
  ∃ w', match order_refused (CancelOrder_Role params) (CancelOrder_UserID params) (CancelOrder_OrderID params) (w_db w) with
  | Some err => CancelOrder params w = (Err err, w') ∧ w_db w' = w_db w
  | None => ∃ o' o e, CancelOrder params w = (Ok o', w') ∧ cancel_outcome params (w_db w) o' o e (w_db w')
  end.
Proof.
  intros Hk Hready Hq Hu Ho. pose proof (quiet_at w w 5 0 Hq ltac:(lia) ltac:(lia)) as Hf0.
  assert (CancelOrder params w = WithTx (cancel_order_tx params) w) as Heq
    by (unfold CancelOrder; by rewrite !bool_decide_eq_false_2).
  destruct (order_refused _ _ _ _) as [err|] eqn:Hr.
  - rewrite Heq. apply WithTx_refused; [done|]. intros w1 Hdb Htick.
    apply cancel_order_tx_refused; [by rewrite Hdb|]. apply (quiet_at w w1 5 1); [done|lia|lia].
  - destruct (WithTx_runs (cancel_order_tx params) w 3) as (o' & w' & Htx); [done| |].
    + intros w1 Hdb Hseed Htick _. apply (cancel_order_tx_runs params w); try done.
      intros i Hi. rewrite Htick. replace (S (w_tick w) + i)%nat with (w_tick w + (1 + i))%nat by lia. apply Hq. lia.
    + rewrite <- Heq in Htx. exists w'.
      destruct (CancelOrder_cases _ _ _ _ Hk Htx) as [[_ ?]|(r & o & e & Hout & [[= <-]|[? ?]])]; [done| |done].
      by exists o', o, e.
Qed.

(** *** PayOrder *)

(** What a payment meets besides its order: a known user, an unused key,
    fresh UUIDs, text that PostgreSQL stores, JSON that it accepts. *)
Record pay_ready (params : PayOrderParams) (w : World) (u : UUID) : Prop := {
  pr_valid : pay_valid params = true;
  pr_user : UUID_Scan (PayOrder_UserID params) = Some u;
  pr_known : is_Some (users (w_db w) !! u);
  pr_unused : lookup_by (same_key u (TrimSpace (PayOrder_IdempotencyKey params))) (idempotency_keys (w_db w)) = None;
  pr_key_text : text_ok (TrimSpace (PayOrder_IdempotencyKey params)) = true;
  pr_method_text : text_ok (PayOrder_Method params) = true;
  pr_path_text : text_ok (PayOrder_Path params) = true;
  pr_ref_text : text_ok ("mock_" +:+ uuid_NewString (w_seed w)) = true;
  pr_payment_id id : UUID_Scan (uuid_NewString (w_seed w)) = Some id → payments (w_db w) !! id = None;
  pr_event_id id : UUID_Scan (uuid_NewString (S (w_seed w))) = Some id → outbox_events (w_db w) !! id = None;
  pr_key_id id : UUID_Scan (uuid_NewString (S (S (w_seed w)))) = Some id → idempotency_keys (w_db w) !! id = None;
  pr_payload o id st ref reason :
    find_order (PayOrder_OrderID params) (w_db w) = Ok o → UUID_Scan (uuid_NewString (w_seed w)) = Some id →
    mockPayment (uuid_NewString (w_seed w)) = (st, ref, reason) →
    is_Some (jsonb (Marshal (paymentEventPayload (UUID_String id) (UUID_String (Order_ID o)) (UUID_String (Order_UserID o))
      st (Order_AmountCents o) (Order_Currency o) PaymentProviderMock ref reason)));
  pr_body o id st ref reason :
    find_order (PayOrder_OrderID params) (w_db w) = Ok o → UUID_Scan (uuid_NewString (w_seed w)) = Some id →
    mockPayment (uuid_NewString (w_seed w)) = (st, ref, reason) →
    let now := clock (S (w_tick w)) in
    ∃ body, json_Payment (mkPayment id (Order_ID o) st (Order_AmountCents o) PaymentProviderMock (text ref) (text reason)
                            now now) = Ok body ∧ is_Some (jsonb body)
}.

Lemma pay_order_tx_refused params key hash w1 err :
  order_refused (PayOrder_Role params) (PayOrder_UserID params) (PayOrder_OrderID params) (w_db w1) = Some err →
  fault (w_tick w1) = NoFault →
  ∃ w2, pay_order_tx params key hash w1 = (Err err, w2).
Proof.
  unfold order_refused. intros Hr Hf. unfold pay_order_tx, bind at 1.
  destruct (GetOrderForUpdate_eval (PayOrder_OrderID params) w1 Hf) as (w' & -> & _).
  destruct (find_order _ _) as [o|]; [|simplify_eq; by eexists].
  destruct (order_forbidden _ _ _); [simplify_eq; by eexists|].
  destruct (status_open _); [done|]. simplify_eq/=. by eexists.
Qed.

(** The two outcomes of the provider, as the statements see them. *)
Lemma mockPayment_text paymentID st ref reason :
  mockPayment paymentID = (st, ref, reason) → text_ok ("mock_" +:+ paymentID) = true →
  text_ok st = true ∧ payment_status_check st = true ∧
  opt_text_ok (text ref) = true ∧ opt_text_ok (text reason) = true.
Proof.
  intros [(-> & -> & ->)|(-> & -> & ->)]%mockPayment_status Ht; [|done].
  unfold text at 1. case_bool_decide as He; [by rewrite append_cons in He|]. done.
Qed.

Lemma pay_order_tx_runs params w w1 u :
  reachable (w_db w) → pay_ready params w u → w_db w1 = w_db w → w_seed w1 = w_seed w →
  w_txnow w1 = Some (clock (S (w_tick w))) →
  order_refused (PayOrder_Role params) (PayOrder_UserID params) (PayOrder_OrderID params) (w_db w) = None →
  (∀ i, (i < 5)%nat → fault (w_tick w1 + i) = NoFault) →
  ∃ r w2, pay_order_tx params (TrimSpace (PayOrder_IdempotencyKey params)) (pay_hash params) w1 = (Ok r, w2) ∧
    w_tick w2 = (w_tick w1 + 5)%nat.
Proof.
  intros Hr [Hv Hu Hex Hun Hkt Hmt Hpt Hrt Hpid Heid Hkid Hpl Hbody] Hdb Hseed Hnow (o & Ho & Hfb & Hop)%order_refused_None Hf.
  pose proof (Hf 0%nat ltac:(lia)) as Hf0. pose proof (Hf 1%nat ltac:(lia)) as Hf1. pose proof (Hf 2%nat ltac:(lia)) as Hf2.
  pose proof (Hf 3%nat ltac:(lia)) as Hf3. pose proof (Hf 4%nat ltac:(lia)) as Hf4. clear Hf.
  rewrite Nat.add_0_r in Hf0. rewrite Nat.add_comm in Hf1, Hf2, Hf3, Hf4. cbn [Nat.add] in *.
  destruct (scan_generated (w_seed w)) as (pid & Hp & _), (scan_generated (S (w_seed w))) as (eid & He & _),
    (scan_generated (S (S (w_seed w)))) as (kid & Hk & _).
  specialize (Hpid _ Hp). specialize (Heid _ He). specialize (Hkid _ Hk).
  specialize (λ st ref reason, Hpl _ _ st ref reason Ho Hp). specialize (λ st ref reason, Hbody _ _ st ref reason Ho Hp).
  rewrite <- Hseed, <- Hdb in *.
  pose proof (find_order_keyed _ _ _ (reachable_keyed _ Hr) Ho) as Hord.
  pose proof (sc_order_amount _ (reachable_schema _ Hr) _ _ Hord) as Hamount. clear Hr.
  unfold pay_order_tx, json_Marshal.
  destruct (GetOrderForUpdate_eval (PayOrder_OrderID params) w1 Hf0) as (w' & Hrun & Hw').
  rewrite Ho in Hrun, Hw'. rewrite (Hw' eq_refl) in Hrun. rewrite (bind_eval _ _ _ _ _ Hrun), Hfb, Hop. cbn [negb].
  erewrite bind_eval by reflexivity. cbn [w_seed next_tick].
  destruct (mockPayment (uuid_NewString (w_seed w1))) as [[st ref] reason] eqn:Hmock.
  pose proof (mockPayment_status _ _ _ _ Hmock) as Hst.
  destruct (mockPayment_text _ _ _ _ Hmock Hrt) as (Ht1 & Hc & Ht2 & Ht3).
  destruct (Hpl _ _ _ eq_refl) as [pl Hpl']. destruct (Hbody _ _ _ eq_refl) as (body & Hb & [b Hjb]). clear Hpl Hbody.
  erewrite bind_eval by (eapply CreatePayment_pass;
    [exact Hf1|exact Hp|apply UUID_Scan_String|exact Ht1|done|exact Ht2|exact Ht3|exact Hc|done|exact Hpid|by eexists]).
  erewrite bind_eval by (eapply UpdateOrderStatus_pass; [exact Hf2|apply UUID_Scan_String|exact Hord|done| |];
    by destruct (bool_decide (st = PaymentStatusFailed))).
  erewrite bind_eval by reflexivity. erewrite bind_eval by reflexivity.
  erewrite bind_eval by (eapply CreateOutboxEvent_pass;
    [exact Hf3|exact He|apply UUID_Scan_String|apply UUID_Scan_String|done| | |exact Hpl'|exact Heid];
    by cbn; destruct (bool_decide (st = PaymentStatusFailed))).
  assert (sql_now (next_seed (next_tick w1)) = clock (S (w_tick w))) as -> by (unfold sql_now; cbn; by rewrite Hnow).
  match goal with |- context [json_Payment ?x] => replace (json_Payment x) with (Ok body : result string) by (symmetry; exact Hb) end.
  erewrite bind_eval by reflexivity. erewrite bind_eval by reflexivity.
  edestruct CreateIdempotencyKey_pass as (k & w3 & Hkey & Htick); [..|erewrite bind_eval by exact Hkey]; cbn.
  all: try first [exact Hf4|exact Hk|exact Hu|by rewrite UUID_Scan_String|apply UUID_String_nonempty|done|exact Hjb|apply text_ok_hex].
  unfold ret. eexists _, _. split; [done|]. rewrite Htick. cbn. lia.
Qed.

(** PayOrder when the lookup finds no key. *)
Lemma PayOrder_unfound params w e :
  pay_valid params = true →
  Store.GetIdempotencyKey (PayOrder_UserID params) (TrimSpace (PayOrder_IdempotencyKey params)) w
    = (Err e, next_tick w) →
  PayOrder params w =
    bind (WithTx (pay_order_tx params (TrimSpace (PayOrder_IdempotencyKey params)) (pay_hash params)))
      (λ result, bind (inc (PaymentsTotal (Payment_Status (PayOrderResult_Payment result)))) (λ _, ret result))
      (next_tick w).
Proof.
  unfold pay_valid. intros [Hv Hk]%andb_true_iff Hg.
  unfold PayOrder, HashRequestBody, json_Marshal. cbn zeta.
  apply negb_true_iff in Hk, Hv. rewrite Hk, Hv.
  unfold bind at 1, lift. unfold bind at 1, try. by rewrite Hg.
Qed.

(** C25. PayOrder, on every branch: under an unused key, on a connection that
    does not fail, it answers [ErrOrderNotFound], [ErrOrderForbidden] or
    [ErrOrderInvalidStatus] and changes nothing, or it pays the order (or
    records the declined payment) and counts the payment. *)
Theorem PayOrder_answers params w u :
  reachable (w_db w) → pay_ready params w u → quiet w 8 →
  ∃ w', match order_refused (PayOrder_Role params) (PayOrder_UserID params) (PayOrder_OrderID params) (w_db w) with
  | Some err => PayOrder params w = (Err err, w') ∧ w_db w' = w_db w
  | None => ∃ r o e k, PayOrder params w = (Ok r, w') ∧
      pay_outcome params (TrimSpace (PayOrder_IdempotencyKey params)) (pay_hash params) (w_db w) r o e k (w_db w') ∧
      w_metrics w' = PaymentsTotal (Payment_Status (PayOrderResult_Payment r)) :: w_metrics w ∧ w_topic w' = w_topic w
  end.
Proof.
  intros Hr Hready Hq. pose proof Hready as [Hv Hu _ Hun Hkt _ _ _ _ _ _ _ _].
  pose proof (GetIdempotencyKey_none _ _ _ _ (quiet_at w w 8 0 Hq ltac:(lia) ltac:(lia)) Hu Hkt Hun) as Hg.
  pose proof (PayOrder_unfound _ _ _ Hv Hg) as Hrun.
  destruct (order_refused _ _ _ _) as [err|] eqn:Hrf.
  - destruct (WithTx_refused (pay_order_tx params (TrimSpace (PayOrder_IdempotencyKey params)) (pay_hash params))
      (next_tick w) err) as (w' & Htx & Hdb).
    + apply (quiet_at w _ 8 1); [done|cbn; lia|lia].
    + intros w1 Hdb Htick. apply pay_order_tx_refused; [by rewrite Hdb|].
      apply (quiet_at w w1 8 2); [done|rewrite Htick; cbn; lia|lia].
    + exists w'. unfold bind in Hrun. by rewrite Htx in Hrun.
  - destruct (WithTx_runs (pay_order_tx params (TrimSpace (PayOrder_IdempotencyKey params)) (pay_hash params))
      (next_tick w) 5) as (r & w1 & Htx).
    + apply (quiet_after w _ _ 1); [done|cbn; lia].
    + intros w2 Hdb Hseed Htick Hnow. apply (pay_order_tx_runs params w _ u); try done.
      intros i Hi. rewrite Htick. cbn. replace (S (S (w_tick w + i))) with (w_tick w + (2 + i))%nat by lia. apply Hq. lia.
    + destruct (silent_run _ _ _ _ (silent_WithTx _ (silent_pay_order_tx _ _ _)) Htx) as [Hmet Htop].
      unfold bind in Hrun. rewrite Htx in Hrun. cbn in Hrun. eexists.
      destruct (PayOrder_cases _ _ _ _ (reachable_keyed _ Hr) Hrun)
        as [[_ Hc]|(r' & o & e & k & Hout & [[= <-]|[? ?]])]; [| |done].
      * apply WithTx_ok in Htx as (w3 & w4 & Hb & Hf & _). apply Begin_ok in Hb.
        apply pay_order_tx_step in Hf as (o & e & k & Hout); [|subst w3; exact (reachable_keyed _ Hr)|by apply pay_valid_checked].
        specialize (Hc _ eq_refl). by rewrite (po_cached _ _ _ _ _ _ _ _ _ Hout) in Hc.
      * exists r, o, e, k. split; [exact Hrun|]. cbn. rewrite Hmet, Htop. done.
Qed.
End total.
