(* ===== verification/Auth.v ===== *)
(** * Authentication

    [internal/auth] (access tokens, password hashes, refresh tokens) and
    [internal/service/auth_service.go].  The JWT and bcrypt packages and the
    system's random source are the class [AuthExternal]. *)

From S2P Require Import Prelude GoStrings Sha256 Json Models World.
From S2P Require Import Sqlc.
From S2P Require Import Store.
From S2P Require Import Spec Evolution Invariants.

(** ** base64.RawURLEncoding *)

Definition b64_char (n : N) : ascii :=
  if (n <? 26)%N then ascii_of_N (65 + n)
  else if (n <? 52)%N then ascii_of_N (71 + n)
  else if (n <? 62)%N then ascii_of_N (n - 4)
  else if (n =? 62)%N then "-"%char else "_"%char.

(** Three bytes make four characters; one or two bytes at the end make two or
    three. *)
Fixpoint RawURLEncoding (s : string) : string :=
  match s with
  | "" => ""
  | String a "" =>
    let x := (byte_val a * 16)%N in
    String (b64_char (x / 64)) (String (b64_char (x mod 64)) "")
  | String a (String b "") =>
    let x := ((byte_val a * 256 + byte_val b) * 4)%N in
    String (b64_char (x / 4096)) (String (b64_char (x / 64 mod 64)) (String (b64_char (x mod 64)) ""))
  | String a (String b (String c s')) =>
    let x := ((byte_val a * 256 + byte_val b) * 256 + byte_val c)%N in
    String (b64_char (x / 262144)) (String (b64_char (x / 4096 mod 64))
      (String (b64_char (x / 64 mod 64)) (String (b64_char (x mod 64)) (RawURLEncoding s'))))
  end.

Example RawURLEncoding_known : RawURLEncoding "light work." = "bGlnaHQgd29yay4".
Proof. vm_compute. reflexivity. Qed.

(** ** Claims of an access token *)

Record Claims := mkClaims {
  Claims_UserID : string;
  Claims_Email : string;
  Claims_Role : string;
  Claims_Subject : string;
  Claims_IssuedAt : Z;
  Claims_ExpiresAt : Z
}.

Record TokenManager := mkTokenManager { TokenManager_secret : string; TokenManager_ttl : Z }.
Definition NewTokenManager (secret : string) (ttl : Z) : TokenManager := mkTokenManager secret ttl.

(** [jwt.NewNumericDate]: whole seconds (instants are in microseconds). *)
Definition NewNumericDate (t : Z) : Z := t / 1000000 * 1000000.

Definition SigningMethodHS256 : string := "HS256".

Class AuthExternal := {
  (* token.SignedString with HS256 *)
  jwt_SignedString : string → Claims → result string;
  (* jwt.ParseWithClaims: the key function gets the name of the signing method;
     the claims and token.Valid *)
  jwt_ParseWithClaims : (string → result string) → Z → string → result (Claims * bool);
  (* bcrypt, with the salt drawn from the n-th random choice *)
  bcrypt_GenerateFromPassword : nat → string → result string;
  bcrypt_CompareHashAndPassword : string → string → bool;
  (* crypto/rand.Read of 32 bytes *)
  rand_Read32 : nat → result string
}.

(** The claims as they are read back from the JSON of a token: what is not
    UTF-8 in their texts has been replaced. *)
Definition json_claims (c : Claims) : Claims :=
  mkClaims (sanitize (Claims_UserID c)) (sanitize (Claims_Email c)) (sanitize (Claims_Role c))
    (sanitize (Claims_Subject c)) (Claims_IssuedAt c) (Claims_ExpiresAt c).

(** Documented facts about these packages. *)
Class AuthLaws `(AuthExternal) := {
  (* a signed token is accepted with its key until it expires *)
  jwt_sign_parse secret c token now kf :
    jwt_SignedString secret c = Ok token → kf SigningMethodHS256 = Ok secret → now < Claims_ExpiresAt c →
    jwt_ParseWithClaims kf now token = Ok (json_claims c, true);
  (* and not from then on *)
  jwt_expired secret c token now kf :
    jwt_SignedString secret c = Ok token → kf SigningMethodHS256 = Ok secret → Claims_ExpiresAt c ≤ now →
    ∃ e, jwt_ParseWithClaims kf now token = Err e;
  (* a password matches its hash *)
  bcrypt_matches n password hash :
    bcrypt_GenerateFromPassword n password = Ok hash → bcrypt_CompareHashAndPassword hash password = true
}.

Section auth.
Context `{External} `{AuthExternal}.

(** *** internal/auth *)

Definition GenerateAccessToken (m : TokenManager) (userID email role : string) : M string :=
  let* now := time_now in
  let claims := mkClaims userID email role userID (NewNumericDate now) (NewNumericDate (now + TokenManager_ttl m)) in
  lift (jwt_SignedString (TokenManager_secret m) claims).

Definition ParseAccessToken (m : TokenManager) (tokenString : string) : M Claims :=
  let* now := time_now in
  match jwt_ParseWithClaims
          (λ alg, if negb (bool_decide (alg = SigningMethodHS256)) then Err ErrInvalidToken
                  else Ok (TokenManager_secret m)) now tokenString with
  | Err _ => throw ErrInvalidToken
  | Ok (claims, valid) =>
    return_if negb valid with_err ErrInvalidToken in
    return_if bool_decide (Claims_UserID claims = "") || bool_decide (Claims_Email claims = "")
              || bool_decide (Claims_Role claims = "") with_err ErrInvalidToken in
    ret claims
  end.

Definition HashPassword (password : string) : M string := λ w,
  (bcrypt_GenerateFromPassword (w_seed w) password, next_seed w).

Definition CheckPasswordHash (password passwordHash : string) : bool :=
  bcrypt_CompareHashAndPassword passwordHash password.

Definition GenerateRefreshToken : M string := λ w,
  (match rand_Read32 (w_seed w) with Ok bytes => Ok (RawURLEncoding bytes) | Err e => Err e end, next_seed w).

Definition HashRefreshToken (token : string) : string := hex_encode (Sum256 token).

(** *** internal/service/auth_service.go *)

Record AuthService := mkAuthService { tokenManager : TokenManager; refreshTokenTTL : Z }.
Definition NewAuthService (tokenManager : TokenManager) (refreshTokenTTL : Z) : AuthService :=
  mkAuthService tokenManager refreshTokenTTL.

Record RegisterUserParams := mkRegisterUserParams {
  RegisterUser_Email : string; RegisterUser_Password : string; RegisterUser_Role : string
}.
Record LoginParams := mkLoginParams { Login_Email : string; Login_Password : string }.
Record LoginResult := mkLoginResult {
  LoginResult_User : User;
  LoginResult_AccessToken : string;
  LoginResult_RefreshToken : string;
  LoginResult_RefreshTokenExpiresAt : Z
}.
Record RefreshAccessTokenResult := mkRefreshAccessTokenResult {
  RefreshAccessTokenResult_User : User; RefreshAccessTokenResult_AccessToken : string
}.

Definition isUniqueViolation (err : error) : bool :=
  match errors_As_PgError err with Some code => bool_decide (code = "23505") | None => false end.

Definition normal_email (email : string) : string := TrimSpace (ToLower unicode_lower email).

Definition RegisterUser (params : RegisterUserParams) : M User :=
  let email := normal_email (RegisterUser_Email params) in
  return_if bool_decide (email = "") || bool_decide (RegisterUser_Password params = "") with_err ErrInvalidInput in
  let role := if bool_decide (RegisterUser_Role params = "") then "customer" else RegisterUser_Role params in
  return_if negb (bool_decide (role = "customer")) && negb (bool_decide (role = "admin")) with_err ErrInvalidInput in
  let* passwordHash := HashPassword (RegisterUser_Password params) in
  let* id := NewString in
  let* created := try (Store.CreateUser (Store.mkCreateUserParams id email passwordHash role)) in
  match created with
  | Err err => return_if isUniqueViolation err with_err ErrEmailAlreadyExists in throw err
  | Ok user => ret user
  end.

Definition Login (s : AuthService) (params : LoginParams) : M LoginResult :=
  let email := normal_email (Login_Email params) in
  return_if bool_decide (email = "") || bool_decide (Login_Password params = "") with_err ErrInvalidInput in
  let* found := try (Store.GetUserByEmail email) in
  match found with
  | Err _ => throw ErrInvalidCredentials
  | Ok user =>
    return_if negb (CheckPasswordHash (Login_Password params) (User_PasswordHash user)) with_err ErrInvalidCredentials in
    let* accessToken := GenerateAccessToken (tokenManager s) (UUID_String (User_ID user)) (User_Email user) (User_Role user) in
    let* refreshToken := GenerateRefreshToken in
    let* now := time_now in
    let refreshTokenExpiresAt := now + refreshTokenTTL s in
    let* id := NewString in
    do* Store.CreateRefreshToken (Store.mkCreateRefreshTokenParams id (UUID_String (User_ID user))
          (HashRefreshToken refreshToken) refreshTokenExpiresAt) in
    ret (mkLoginResult user accessToken refreshToken refreshTokenExpiresAt)
  end.

Definition RefreshAccessToken (s : AuthService) (refreshToken : string) : M RefreshAccessTokenResult :=
  return_if bool_decide (refreshToken = "") with_err ErrInvalidRefreshToken in
  let* found := try (Store.GetRefreshTokenByHash (HashRefreshToken refreshToken)) in
  match found with
  | Err _ => throw ErrInvalidRefreshToken
  | Ok storedToken =>
    match RefreshToken_RevokedAt storedToken with
    | Some _ => throw ErrInvalidRefreshToken
    | None =>
      let* now := time_now in
      return_if RefreshToken_ExpiresAt storedToken <? now with_err ErrInvalidRefreshToken in
      let* found := try (Store.GetUser (UUID_String (RefreshToken_UserID storedToken))) in
      match found with
      | Err _ => throw ErrInvalidRefreshToken
      | Ok user =>
        let* accessToken := GenerateAccessToken (tokenManager s) (UUID_String (User_ID user)) (User_Email user) (User_Role user) in
        ret (mkRefreshAccessTokenResult user accessToken)
      end
    end
  end.

Definition Logout (refreshToken : string) : M unit :=
  return_if bool_decide (refreshToken = "") with_err ErrInvalidRefreshToken in
  let* found := try (Store.GetRefreshTokenByHash (HashRefreshToken refreshToken)) in
  match found with
  | Err _ => throw ErrInvalidRefreshToken
  | Ok storedToken =>
    let* revoked := try (Store.RevokeRefreshToken (UUID_String (RefreshToken_ID storedToken))) in
    match revoked with
    | Err _ => throw ErrInvalidRefreshToken
    | Ok _ => ret tt
    end
  end.

Definition AuthService_ParseAccessToken (s : AuthService) (token : string) : M Claims :=
  ParseAccessToken (tokenManager s) token.

Definition AuthService_GetUser (id : string) : M User := Store.GetUser id.
End auth.

(** ** Effects of single statements

    A statement outside a transaction takes effect even when its answer is
    lost. *)

Section effects.
Context `{External} `{!ExternalLaws _} `{AuthExternal}.

(** What a statement did, if anything, is what it says it did. *)
Lemma query_effect {A} (q : DB → Z → result (A * DB)) w r w' :
  query q w = (r, w') →
  (w_db w' = w_db w ∧ is_ok r = false) ∨
  ∃ a, q (w_db w) (sql_now w) = Ok (a, w_db w') ∧ (r = Ok a ∨ is_ok r = false).
Proof. intros [(a & db & -> & Hq & ->)|[(e & -> & ->)|(e & a & db & -> & Hq & ->)]]%query_cases; eauto 10. Qed.

(** RegisterUser is all or nothing, whatever the connection does: the
    tables are as they were and the answer is an error, or exactly one user
    was inserted, with the address in lower case and the bcrypt hash of the
    password, never the password. *)
Lemma RegisterUser_cases params w r w' :
  RegisterUser params w = (r, w') →
  (w_db w' = w_db w ∧ is_ok r = false) ∨
  ∃ u, db_step (w_db w) (w_db w') ∧ w_db w' = put_user u (w_db w) ∧
    User_Email u = normal_email (RegisterUser_Email params) ∧ User_Email u ≠ "" ∧ text_ok (User_Email u) = true ∧
    RegisterUser_Password params ≠ "" ∧
    (∃ n, bcrypt_GenerateFromPassword n (RegisterUser_Password params) = Ok (User_PasswordHash u)) ∧
    (User_Role u = "customer" ∨ User_Role u = "admin") ∧
    User_Role u = (if bool_decide (RegisterUser_Role params = "") then "customer" else RegisterUser_Role params) ∧
    (r = Ok u ∨ is_ok r = false).
Proof.
  unfold RegisterUser. cbn zeta. destruct (_ || _) eqn:Hv; [by intros [= <- <-]; left|].
  apply orb_false_iff in Hv as [He Hpw]. apply bool_decide_eq_false in He, Hpw.
  set (role := if bool_decide (RegisterUser_Role params = "") then _ else _).
  destruct (_ && _) eqn:Hrole; [by intros [= <- <-]; left|].
  rewrite andb_false_iff, !negb_false_iff, !bool_decide_eq_true in Hrole.
  unfold bind at 1, HashPassword. destruct (bcrypt_GenerateFromPassword _ _) as [hash|e] eqn:Hh;
    [|by intros [= <- <-]; left].
  unfold bind at 1, NewString. unfold bind, try, Store.CreateUser, bind, scan.
  destruct (UUID_Scan _) as [id|]; [|by intros [= <- <-]; left]. unfold ret, Sqlc.CreateUser.
  match goal with |- context [query ?q ?w1] => destruct (query q w1) as [rq w2] eqn:Hq end.
  apply query_effect in Hq as [[Hdb Hno]|(u & Hq & Hr)].
  - destruct rq as [|e]; [done|]. intros Hrun. left. by destruct (isUniqueViolation e); injection Hrun as <- <-.
  - intros Hrun. right. exists u. cbn beta zeta in Hq. apply guarded_ok in Hq as [[= -> Hdb] Hg]. split_guards. cbn in *.
    assert (w_db w' = w_db w2) as -> by (destruct rq as [|e]; [|destruct (isUniqueViolation e)]; by injection Hrun as _ <-).
    split; [rewrite Hdb; by apply step_register|]. split_and!; try done; [by eexists|].
    destruct Hr as [->|?]; [by injection Hrun as <- _; left|]. right.
    destruct rq as [|e]; [done|destruct (isUniqueViolation e)]; by injection Hrun as <- _.
Qed.

(** Take the next call of a run apart. *)
Lemma bind_inv {A B} (m : M A) (f : A → M B) w r w' :
  bind m f w = (r, w') →
  (∃ a w1, m w = (Ok a, w1) ∧ f a w1 = (r, w')) ∨ (∃ e, m w = (Err e, w') ∧ r = Err e).
Proof. unfold bind. destruct (m w) as [[a|e] w1]; [eauto|]. intros [= <- <-]. eauto. Qed.

Lemma readonly_GenerateAccessToken m a b c : readonly (GenerateAccessToken m a b c).
Proof. unfold GenerateAccessToken. eauto with orderdb. Qed.
Lemma readonly_GenerateRefreshToken : readonly GenerateRefreshToken.
Proof. done. Qed.

(** A login that changed the tables has checked the password of the user
    with that address, has inserted one unrevoked refresh token that is the
    hash of the token in the answer, and nothing else. *)
Lemma Login_cases s params w r w' :
  Login s params w = (r, w') →
  (w_db w' = w_db w ∧ is_ok r = false) ∨
  ∃ u t token, db_step (w_db w) (w_db w') ∧ w_db w' = put_token t (w_db w) ∧
    lookup_by (λ u, bool_decide (User_Email u = normal_email (Login_Email params))) (users (w_db w)) = Some u ∧
    bcrypt_CompareHashAndPassword (User_PasswordHash u) (Login_Password params) = true ∧
    RefreshToken_UserID t = User_ID u ∧ RefreshToken_TokenHash t = HashRefreshToken token ∧
    RefreshToken_RevokedAt t = None ∧
    (is_ok r = false ∨ ∃ access, r = Ok (mkLoginResult u access token (RefreshToken_ExpiresAt t))).
Proof.
  unfold Login. cbn zeta. destruct (_ || _); [by intros [= <- <-]; left|].
  unfold bind at 1, try. destruct (Store.GetUserByEmail _ w) as [[u|e] w1] eqn:Hu; [|intros [= <- <-]; left].
  2: { apply readonly_run in Hu; [done|]. unfold Store.GetUserByEmail. eauto with orderdb. }
  apply Sqlc.GetUserByEmail_ok in Hu as [Hu ->]. unfold CheckPasswordHash.
  destruct (bcrypt_CompareHashAndPassword _ _) eqn:Hpw; [|by intros [= <- <-]; left]. cbn [negb].
  intros [(access & w2 & Ha & Hrun)|(e & Ha & ->)]%bind_inv;
    apply readonly_run in Ha; [|apply readonly_GenerateAccessToken|by left|apply readonly_GenerateAccessToken].
  apply bind_inv in Hrun as [(token & w3 & Ht & Hrun)|(e & Ht & ->)];
    apply readonly_run in Ht; [|apply readonly_GenerateRefreshToken|left; split; [by rewrite Ht, Ha|done]|apply readonly_GenerateRefreshToken].
  unfold bind at 1, time_now in Hrun. unfold bind at 1, NewString in Hrun.
  unfold bind, Store.CreateRefreshToken, bind, scan in Hrun.
  cbn [sCreateRefreshToken_ID sCreateRefreshToken_UserID] in Hrun. rewrite UUID_Scan_String in Hrun.
  assert (w_db w3 = w_db w) as Hdb3 by (cbn in *; congruence).
  destruct (UUID_Scan _) as [id|]; [|injection Hrun as <- <-; by left].
  unfold ret, Sqlc.CreateRefreshToken in Hrun.
  match type of Hrun with context [query ?q ?w1] => destruct (query q w1) as [rq w4] eqn:Hq end.
  apply query_effect in Hq as [[Hdb Hno]|(t & Hq & Hr)].
  - left. destruct rq; [done|]. injection Hrun as <- <-. cbn in Hdb. split; [congruence|done].
  - right. cbn beta zeta in Hq. apply guarded_ok in Hq as [[= -> Hdb] Hg]. split_guards. cbn in *. rewrite Hdb3 in *.
    assert (w_db w' = w_db w4) as -> by (destruct rq; by injection Hrun as _ <-).
    eexists u, _, token. split; [rewrite Hdb; by eapply step_login|]. split; [exact Hdb|]. split_and!; try done.
    destruct Hr as [->|?]; [right|left].
    + injection Hrun as <- _. by eexists.
    + destruct rq; [done|]. by injection Hrun as <- _.
Qed.

Lemma Logout_cases token w r w' :
  keyed (w_db w) → Logout token w = (r, w') →
  (w_db w' = w_db w ∧ is_ok r = false) ∨
  ∃ t now, db_step (w_db w) (w_db w') ∧ w_db w' = put_token (revoke now t) (w_db w) ∧
    refresh_tokens (w_db w) !! RefreshToken_ID t = Some t ∧
    RefreshToken_TokenHash t = HashRefreshToken token ∧ RefreshToken_RevokedAt t = None ∧
    (r = Ok tt ∨ r = Err ErrInvalidRefreshToken).
Proof.
  intros Hk. unfold Logout. case_bool_decide; [by intros [= <- <-]; left|].
  unfold bind at 1, try. destruct (Store.GetRefreshTokenByHash _ w) as [[t|e] w1] eqn:Ht; [|intros [= <- <-]; left].
  2: { apply readonly_run in Ht; [done|]. unfold Store.GetRefreshTokenByHash. eauto with orderdb. }
  apply Sqlc.GetRefreshTokenByHash_ok in Ht as [[Hh [id Hid]]%lookup_by_Some ->].
  apply bool_decide_eq_true in Hh. rewrite <- (keyed_tokens _ Hk _ _ Hid) in Hid.
  unfold Store.RevokeRefreshToken, bind, scan, try. rewrite UUID_Scan_String. unfold ret, Sqlc.RevokeRefreshToken.
  match goal with |- context [query ?q ?w1] => destruct (query q w1) as [rq w2] eqn:Hq end.
  intros Hrun. assert (w2 = w') as -> by (destruct rq; by injection Hrun as _ <-).
  apply query_effect in Hq as [[Hdb Hno]|(t' & Hq & Hr)].
  - left. destruct rq; [done|]. by injection Hrun as <-.
  - right. cbn [w_db next_tick] in Hq. apply one_row_ok in Hq as (t0 & Ht0 & Hq). rewrite Hid in Ht0. injection Ht0 as <-.
    destruct (RefreshToken_RevokedAt t) eqn:Hrev; [done|]. injection Hq as _ Hdb.
    eexists t, _. split; [|split; [symmetry; exact Hdb|]].
    + rewrite <- Hdb. by apply step_logout.
    + split_and!; try done. destruct rq; injection Hrun as <-; auto.
Qed.

Lemma readonly_RefreshAccessToken s token : readonly (RefreshAccessToken s token).
Proof.
  unfold RefreshAccessToken. case_bool_decide; [eauto with orderdb|].
  apply readonly_bind; [unfold Store.GetRefreshTokenByHash; eauto with orderdb|]. intros [t|]; [|eauto with orderdb].
  destruct (RefreshToken_RevokedAt t); [eauto with orderdb|]. apply readonly_bind; [eauto with orderdb|]. intros now.
  destruct (_ <? _); [eauto with orderdb|]. apply readonly_bind; [eauto with orderdb|].
  intros [u|]; [|eauto with orderdb]. apply readonly_bind; [apply readonly_GenerateAccessToken|eauto with orderdb].
Qed.
End effects.

(** ** Access and refresh tokens *)

Section tokens.
Context `{External} `{!ExternalLaws _} `{A : AuthExternal} `{!AuthLaws A}.

(** An access token is accepted with the texts it was issued for, as JSON
    keeps them, until it expires and no longer. *)
Lemma ParseAccessToken_issued m userID email role w token w1 w2 :
  GenerateAccessToken m userID email role w = (Ok token, w1) →
  sanitize userID ≠ "" → sanitize email ≠ "" → sanitize role ≠ "" →
  if clock (w_tick w2) <? NewNumericDate (clock (w_tick w) + TokenManager_ttl m) then
    ∃ c, ParseAccessToken m token w2 = (Ok c, next_tick w2) ∧
      Claims_UserID c = sanitize userID ∧ Claims_Email c = sanitize email ∧ Claims_Role c = sanitize role
  else ParseAccessToken m token w2 = (Err ErrInvalidToken, next_tick w2).
Proof.
  intros Hg Hu He Hr. unfold GenerateAccessToken, bind, time_now, lift in Hg. injection Hg as Hg _.
  unfold ParseAccessToken, bind, time_now. destruct (_ <? _) eqn:Hexp.
  - apply Z.ltb_lt in Hexp.
    rewrite (jwt_sign_parse _ _ _ (clock (w_tick w2)) _ Hg); [|by rewrite bool_decide_eq_true_2|exact Hexp].
    cbn -[sanitize]. rewrite !bool_decide_eq_false_2 by done. by eexists.
  - apply Z.ltb_ge in Hexp.
    by destruct (jwt_expired _ _ _ (clock (w_tick w2)) (λ alg, if negb (bool_decide (alg = SigningMethodHS256))
      then Err ErrInvalidToken else Ok (TokenManager_secret m)) Hg) as [e ->]; [by rewrite bool_decide_eq_true_2|..].
Qed.

(** A refresh token buys an access token only while its row is neither
    revoked nor expired, and only for the user of that row. *)
Lemma RefreshAccessToken_ok s token w res w' :
  RefreshAccessToken s token w = (Ok res, w') →
  ∃ t now, lookup_by (λ t, bool_decide (RefreshToken_TokenHash t = HashRefreshToken token)) (refresh_tokens (w_db w)) = Some t ∧
    RefreshToken_RevokedAt t = None ∧ now = clock (S (w_tick w)) ∧ now ≤ RefreshToken_ExpiresAt t ∧
    users (w_db w) !! RefreshToken_UserID t = Some (RefreshAccessTokenResult_User res).
Proof.
  unfold RefreshAccessToken. case_bool_decide; [done|].
  unfold bind at 1, try. destruct (Store.GetRefreshTokenByHash _ w) as [[t|e] w1] eqn:Ht; [|done].
  apply Sqlc.GetRefreshTokenByHash_ok in Ht as [Ht ->]. destruct (RefreshToken_RevokedAt t) eqn:Hr; [done|].
  unfold bind at 1, time_now. cbn [w_tick next_tick].
  destruct (RefreshToken_ExpiresAt t <? clock (S (w_tick w))) eqn:Hexp; [done|]. apply Z.ltb_ge in Hexp.
  unfold bind at 1. destruct (Store.GetUser _ _) as [[u|e] w2] eqn:Hu; [|done].
  unfold Store.GetUser, bind, scan in Hu. rewrite UUID_Scan_String in Hu. apply Sqlc.GetUser_ok in Hu as [Hu ->].
  intros (access & w3 & _ & [= <- _])%bind_ok. exists t, (clock (S (w_tick w))). cbn in Hu. auto.
Qed.

(** A revoked token stays revoked. *)
Lemma steps_revoked db db' id t :
  rtc db_step db db' → refresh_tokens db !! id = Some t → is_Some (RefreshToken_RevokedAt t) →
  refresh_tokens db' !! id = Some t.
Proof.
  intros Hs. revert t. induction Hs as [|db1 db2 db3 Hone _ IH]; intros t Ht [y Hy]; [done|].
  destruct (step_token _ _ _ _ Hone Ht) as (t' & Ht' & [-> |[Hn _]]); [|congruence]. apply IH; [done|by eexists].
Qed.

(** A refresh token whose row is revoked gets no access token. *)
Lemma RefreshAccessToken_revoked s token w id t :
  schema_ok (w_db w) → refresh_tokens (w_db w) !! id = Some t →
  RefreshToken_TokenHash t = HashRefreshToken token → is_Some (RefreshToken_RevokedAt t) →
  ∃ w', RefreshAccessToken s token w = (Err ErrInvalidRefreshToken, w').
Proof.
  intros Hsc Ht Hh [x Hx]. unfold RefreshAccessToken. case_bool_decide; [by eexists|].
  unfold bind at 1, try. destruct (Store.GetRefreshTokenByHash _ w) as [[t'|e] w1] eqn:Hg; [|by eexists].
  apply Sqlc.GetRefreshTokenByHash_ok in Hg as [[Hh' [id' Hid']]%lookup_by_Some ->].
  apply bool_decide_eq_true in Hh'.
  assert (id' = id) as -> by (eapply (sc_token_hash _ Hsc); eauto; congruence). simplify_eq. rewrite Hx. by eexists.
Qed.

(** C34. Logging out is final: after a Logout that took effect, even if its
    answer was lost, the refresh token is refused at any later time, whatever
    the connections do. *)
Theorem Logout_final token s w r w1 w2 :
  reachable (w_db w) → Logout token w = (r, w1) → r = Ok tt ∨ w_db w1 ≠ w_db w →
  rtc db_step (w_db w1) (w_db w2) →
  ∃ w3, RefreshAccessToken s token w2 = (Err ErrInvalidRefreshToken, w3) ∧ w_db w3 = w_db w2.
Proof.
  intros Hr Hl Hdone Hs. apply Logout_cases in Hl as [[Hdb Hno]|(t & now & Hstep & Hdb & Ht & Hh & _ & _)];
    [destruct Hdone as [->|[]]; done| |exact (reachable_keyed _ Hr)].
  assert (refresh_tokens (w_db w2) !! RefreshToken_ID t = Some (revoke now t)) as Ht2.
  { eapply steps_revoked; [exact Hs| |by eexists]. rewrite Hdb. cbn. by rewrite lookup_insert_eq. }
  assert (schema_ok (w_db w2)) as Hsc.
  { apply reachable_schema. unfold reachable in *. etransitivity; [exact Hr|]. by eapply rtc_l. }
  destruct (RefreshAccessToken_revoked s token w2 _ _ Hsc Ht2 Hh) as [w3 Hrun]; [by eexists|].
  exists w3. split; [done|]. by apply readonly_run in Hrun; [|apply readonly_RefreshAccessToken].
Qed.

(** An e-mail address is registered once: when it is taken, whatever the
    case and spacing of the request, RegisterUser answers
    [ErrEmailAlreadyExists] and changes nothing. *)
Lemma RegisterUser_taken params w hash id u :
  fault (w_tick w) = NoFault →
  RegisterUser_Password params ≠ "" → normal_email (RegisterUser_Email params) ≠ "" →
  RegisterUser_Role params ∈ [""; "customer"; "admin"] →
  bcrypt_GenerateFromPassword (w_seed w) (RegisterUser_Password params) = Ok hash → text_ok hash = true →
  text_ok (normal_email (RegisterUser_Email params)) = true →
  UUID_Scan (uuid_NewString (S (w_seed w))) = Some id →
  lookup_by (λ u, bool_decide (User_Email u = normal_email (RegisterUser_Email params))) (users (w_db w)) = Some u →
  ∃ w', RegisterUser params w = (Err ErrEmailAlreadyExists, w') ∧ w_db w' = w_db w.
Proof.
  intros Hf Hp He Hrole Hb Hht Het Hid Hu. unfold RegisterUser. cbn zeta.
  rewrite !(bool_decide_eq_false_2 (_ = "")) by done. cbn [orb].
  set (role := if bool_decide (RegisterUser_Role params = "") then _ else _).
  assert (role = "customer" ∨ role = "admin") as Hr'.
  { subst role. case_bool_decide; [by left|]. set_solver. }
  assert (text_ok role = true ∧ role_check role = true) as [Hrt Hrc] by (by destruct Hr' as [-> | ->]).
  assert (negb (bool_decide (role = "customer")) && negb (bool_decide (role = "admin")) = false) as ->
    by (by destruct Hr' as [-> | ->]).
  unfold bind at 1, HashPassword. rewrite Hb. unfold bind at 1, NewString. cbn [w_seed next_seed].
  unfold bind, try, Store.CreateUser, bind, scan. cbn [sCreateUser_ID]. rewrite Hid. unfold ret, Sqlc.CreateUser.
  rewrite query_nofault by exact Hf. unfold guarded. cbn -[lookup_by]. rewrite Het, Hht, Hrt, Hrc. cbn -[lookup_by].
  rewrite Hu. destruct (absent _ _); cbn; by eexists.
Qed.
End tokens.
