(* ===== verification/Publisher.v ===== *)
(** * The outbox publisher

    [internal/publisher/outbox_publisher.go]: [PublishBatch] claims the oldest
    unpublished events, hands each to the producer and marks it published or
    failed, all in one transaction.  The producer is an interface: the
    theorems hold for every implementation that keeps [ProducerLaws]. *)

From S2P Require Import Prelude GoStrings Json Models World.
From S2P Require Import Sqlc.
From S2P Require Import Store.
From S2P Require Import Spec Evolution Invariants.

(** ** The producer interface *)

(** [Publish(ctx, topic, key, payload)] *)
Class Producer := { Publish : string → string → string → M unit }.

(** What a producer may do: on success exactly this record is in the log; on
    an error it may be there or not (a delivery whose report is late).  The
    tables, the counters and the UUIDs are not its business. *)
Class ProducerLaws `(Producer) := {
  Publish_ok topic key payload w w' :
    Publish topic key payload w = (Ok tt, w') → w_topic w' = mkKafkaRecord topic key payload :: w_topic w;
  Publish_err topic key payload w e w' :
    Publish topic key payload w = (Err e, w') →
    w_topic w' = w_topic w ∨ w_topic w' = mkKafkaRecord topic key payload :: w_topic w;
  Publish_frame topic key payload w r w' :
    Publish topic key payload w = (r, w') →
    w_db w' = w_db w ∧ w_metrics w' = w_metrics w ∧ w_txnow w' = w_txnow w
}.

Record Config := mkConfig { Config_Topic : string; Config_BatchSize : Z }.

(** ** Messages *)

Record OutboxMessage := mkOutboxMessage {
  OutboxMessage_ID : string;
  OutboxMessage_AggregateType : string;
  OutboxMessage_AggregateID : string;
  OutboxMessage_EventType : string;
  OutboxMessage_Payload : string
}.

(** A member of an object whose value is already JSON text. *)
Definition raw_member (k raw : string) : string := quote k +:+ ":" +:+ raw.

(** [json.Marshal] of an [OutboxMessage]; it fails when the payload is no JSON text. *)
Definition MarshalMessage (m : OutboxMessage) : result string :=
  match MarshalRaw (OutboxMessage_Payload m) with
  | None => Err ErrJSON
  | Some raw => Ok ("{" +:+ join "," [
      raw_member "id" (quote (OutboxMessage_ID m));
      raw_member "aggregate_type" (quote (OutboxMessage_AggregateType m));
      raw_member "aggregate_id" (quote (OutboxMessage_AggregateID m));
      raw_member "event_type" (quote (OutboxMessage_EventType m));
      raw_member "payload" raw] +:+ "}")
  end.

Section publisher.
Context `{External} `{!Producer}.

Definition event_message (event : OutboxEvent) : OutboxMessage :=
  mkOutboxMessage (UUID_String (OutboxEvent_ID event)) (OutboxEvent_AggregateType event)
    (UUID_String (OutboxEvent_AggregateID event)) (OutboxEvent_EventType event) (OutboxEvent_Payload event).

(** The body of the loop over the claimed events. *)
Definition publish_event (cfg : Config) (event : OutboxEvent) : M unit :=
  let* message := lift (MarshalMessage (event_message event)) in
  let key := UUID_String (OutboxEvent_PartitionKey event) in
  let* published := try (Publish (Config_Topic cfg) key message) in
  match published with
  | Err err =>
    do* Store.MarkOutboxEventFailed (UUID_String (OutboxEvent_ID event)) (error_text ext_text err) in
    inc (OutboxEventsFailedTotal (OutboxEvent_EventType event))
  | Ok _ =>
    do* Store.MarkOutboxEventPublished (UUID_String (OutboxEvent_ID event)) in
    inc (OutboxEventsPublishedTotal (OutboxEvent_EventType event))
  end.

Fixpoint publish_events (cfg : Config) (events : list OutboxEvent) : M unit :=
  match events with
  | [] => ret tt
  | event :: events' => do* publish_event cfg event in publish_events cfg events'
  end.

Definition publish_batch_tx (cfg : Config) : M unit :=
  let* events := Store.ClaimOutboxEvents (Config_BatchSize cfg) in
  publish_events cfg events.

Definition PublishBatch (cfg : Config) : M unit := WithTx (publish_batch_tx cfg).

(** [Run]: the batches up to the cancellation of the context; [n] is the
    number of rounds of the ticker before it.  An error of a batch is logged
    and the next one runs. *)
Fixpoint Run (cfg : Config) (n : nat) : M unit :=
  do* try (PublishBatch cfg) in
  match n with
  | O => ret tt
  | S n' => Run cfg n'
  end.
End publisher.

(** ** One event *)

Section publish_event.
Context `{External} `{!ExternalLaws _} `{P : Producer} `{!ProducerLaws P}.

(** The message of an event, and its record. *)
Definition event_record (cfg : Config) (event : OutboxEvent) : option KafkaRecord :=
  match MarshalMessage (event_message event) with
  | Ok message => Some (mkKafkaRecord (Config_Topic cfg) (UUID_String (OutboxEvent_PartitionKey event)) message)
  | Err _ => None
  end.

(** What publishing one event did. *)
Inductive published_one (cfg : Config) (e : OutboxEvent) (w w' : World) : Prop :=
  | one_published rec now :
      event_record cfg e = Some rec → w_topic w' = rec :: w_topic w →
      w_db w' = put_event (mark_published now e) (w_db w) →
      w_metrics w' = OutboxEventsPublishedTotal (OutboxEvent_EventType e) :: w_metrics w →
      published_one cfg e w w'
  | one_failed rec err :
      event_record cfg e = Some rec → (w_topic w' = w_topic w ∨ w_topic w' = rec :: w_topic w) →
      w_db w' = put_event (mark_failed (text (error_text ext_text err)) e) (w_db w) →
      OutboxEvent_Attempt e + 1 ≤ int32_max →
      w_metrics w' = OutboxEventsFailedTotal (OutboxEvent_EventType e) :: w_metrics w →
      published_one cfg e w w'.

Lemma MarkPublished_run id w e w' :
  Store.MarkOutboxEventPublished (UUID_String id) w = (Ok e, w') →
  ∃ e0, outbox_events (w_db w) !! id = Some e0 ∧ e = mark_published (sql_now w) e0 ∧
    w_db w' = set_outbox_events (<[id := e]> (outbox_events (w_db w))) (w_db w) ∧
    w_metrics w' = w_metrics w ∧ w_topic w' = w_topic w.
Proof.
  unfold Store.MarkOutboxEventPublished. intros Hq. minv_step Hq.
  rewrite UUID_Scan_String in *. simplify_eq.
  apply Sqlc.MarkOutboxEventPublished_ok in Hq as (e0 & He0 & He & ->). eauto 10.
Qed.

Lemma MarkFailed_run id err w e w' :
  Store.MarkOutboxEventFailed (UUID_String id) err w = (Ok e, w') →
  ∃ e0, outbox_events (w_db w) !! id = Some e0 ∧ e = mark_failed (text err) e0 ∧
    OutboxEvent_Attempt e0 + 1 ≤ int32_max ∧
    w_db w' = set_outbox_events (<[id := e]> (outbox_events (w_db w))) (w_db w) ∧
    w_metrics w' = w_metrics w ∧ w_topic w' = w_topic w.
Proof.
  unfold Store.MarkOutboxEventFailed. intros Hq. minv_step Hq.
  rewrite UUID_Scan_String in *. simplify_eq.
  apply Sqlc.MarkOutboxEventFailed_ok in Hq as (e0 & He0 & He & Ha & ->). cbn in *. subst e. cbn in Ha.
  exists e0. split_and!; try done; lia.
Qed.

Lemma publish_event_run cfg e w w' :
  outbox_events (w_db w) !! OutboxEvent_ID e = Some e →
  publish_event cfg e w = (Ok tt, w') → published_one cfg e w w'.
Proof.
  intros He Hrun. unfold publish_event in Hrun. minv_step Hrun.
  destruct (Publish_frame _ _ _ _ _ _ Hrun0) as (Hdb & Hm & _).
  assert (event_record cfg e = Some (mkKafkaRecord (Config_Topic cfg) (UUID_String (OutboxEvent_PartitionKey e)) a))
    as Hrec by (unfold event_record; by match goal with Hm : MarshalMessage _ = _ |- _ => rewrite Hm end).
  destruct r as [[]|err]; minv_step Hrun.
  - apply MarkPublished_run in Hrun1 as (e0 & He0 & -> & Hdb' & Hm' & Ht').
    apply Publish_ok in Hrun0. injection Hrun as <-. rewrite Hdb in He0. simplify_eq.
    eapply one_published; [done|..]; cbn; [by rewrite Ht'|by rewrite Hdb', Hdb|by rewrite Hm', Hm].
  - apply MarkFailed_run in Hrun1 as (e0 & He0 & -> & Ha & Hdb' & Hm' & Ht').
    apply Publish_err in Hrun0. injection Hrun as <-. rewrite Hdb in He0. simplify_eq.
    eapply one_failed; [done|..]; cbn; [by rewrite Ht'|by rewrite Hdb', Hdb|done|by rewrite Hm', Hm].
Qed.
End publish_event.

(** ** The claimed events *)

Lemma NoDup_rows_id db : keyed db → NoDup (OutboxEvent_ID <$> rows (outbox_events db)).
Proof.
  intros Hk. unfold rows. rewrite <- list_fmap_compose.
  assert (OutboxEvent_ID ∘ snd <$> map_to_list (outbox_events db) = (map_to_list (outbox_events db)).*1) as ->.
  { apply list_fmap_ext. intros i [k e] Hi. cbn. apply (keyed_events _ Hk).
    apply elem_of_map_to_list. by eapply list_elem_of_lookup_2. }
  apply NoDup_fst_map_to_list.
Qed.

(** The events that a batch works on. *)
Definition claimed (limit : Z) (locked : gset UUID) (db : DB) : list OutboxEvent :=
  take (Z.to_nat limit) (order_by OutboxEvent_CreatedAt (select (claimable locked) (outbox_events db))).

Lemma claimed_sub limit locked db :
  claimed limit locked db ⊆+ select (claimable locked) (outbox_events db).
Proof.
  unfold claimed. etransitivity; [apply sublist_submseteq, sublist_take|].
  apply Permutation_submseteq, order_by_perm.
Qed.

Lemma elem_of_claimed limit locked db e :
  e ∈ claimed limit locked db → claimable locked e = true ∧ ∃ id, outbox_events db !! id = Some e.
Proof. intros He. apply elem_of_select. eapply elem_of_submseteq; [done|apply claimed_sub]. Qed.

Lemma claimed_stored limit locked db :
  keyed db → Forall (λ e, outbox_events db !! OutboxEvent_ID e = Some e) (claimed limit locked db).
Proof.
  intros Hk. apply Forall_forall. intros e [_ [id Hid]]%elem_of_claimed. by rewrite (keyed_events _ Hk _ _ Hid).
Qed.

Lemma claimed_NoDup limit locked db : keyed db → NoDup (OutboxEvent_ID <$> claimed limit locked db).
Proof.
  intros Hk. pose proof (NoDup_rows_id _ Hk) as Hnd.
  assert (claimed limit locked db ⊆+ rows (outbox_events db)) as [k Hperm]%submseteq_Permutation.
  { etransitivity; [apply claimed_sub|]. apply sublist_submseteq, sublist_filter. }
  rewrite Hperm, fmap_app in Hnd. by apply NoDup_app in Hnd as [? _].
Qed.

Lemma claimed_sorted limit locked db : StronglySorted (asc_le OutboxEvent_CreatedAt) (claimed limit locked db).
Proof.
  unfold claimed. pose proof (order_by_sorted OutboxEvent_CreatedAt (select (claimable locked) (outbox_events db))) as Hs.
  rewrite <- (take_drop (Z.to_nat limit)) in Hs. by apply StronglySorted_app_1_l in Hs.
Qed.

(** ** A batch *)

Section batch.
Context `{External} `{!ExternalLaws _} `{P : Producer} `{!ProducerLaws P}.

(** Publishing a list of events, one after the other. *)
Inductive published_list (cfg : Config) : list OutboxEvent → World → World → Prop :=
  | published_nil w : published_list cfg [] w w
  | published_cons e es w1 w2 w3 :
      published_one cfg e w1 w2 → published_list cfg es w2 w3 → published_list cfg (e :: es) w1 w3.

Lemma published_one_other cfg e w w' id :
  published_one cfg e w w' → OutboxEvent_ID e ≠ id → outbox_events (w_db w') !! id = outbox_events (w_db w) !! id.
Proof. intros [? ? _ _ -> _|? ? _ _ -> _ _] Hne; cbn; by rewrite lookup_insert_ne. Qed.

Lemma publish_events_run cfg es w w' :
  NoDup (OutboxEvent_ID <$> es) → Forall (λ e, outbox_events (w_db w) !! OutboxEvent_ID e = Some e) es →
  publish_events cfg es w = (Ok tt, w') → published_list cfg es w w'.
Proof.
  revert w. induction es as [|e es IH]; intros w Hnd Hst Hrun.
  - injection Hrun as <-. constructor.
  - apply bind_ok in Hrun as ([] & w1 & Hone & Hrun). cbn in Hnd. apply NoDup_cons in Hnd as [Hni Hnd].
    apply Forall_cons in Hst as [He Hst]. apply publish_event_run in Hone; [|done].
    econstructor; [exact Hone|]. apply IH; [done| |done]. apply Forall_forall. intros e' He'.
    rewrite Forall_forall in Hst. rewrite (published_one_other _ _ _ _ _ Hone); [by apply Hst|].
    intros Heq. apply Hni. rewrite Heq. by apply list_elem_of_fmap_2.
Qed.

Lemma publish_batch_tx_run cfg w w' :
  keyed (w_db w) → publish_batch_tx cfg w = (Ok tt, w') →
  0 ≤ Config_BatchSize cfg ∧ ∃ w1, w_db w1 = w_db w ∧ w_topic w1 = w_topic w ∧ w_metrics w1 = w_metrics w ∧
    published_list cfg (claimed (Config_BatchSize cfg) (locked_rows (w_tick w)) (w_db w)) w1 w'.
Proof.
  intros Hk Hrun. apply bind_ok in Hrun as (es & w1 & Hc & Hrun).
  apply Sqlc.ClaimOutboxEvents_ok in Hc as (Hl & -> & ->). split; [done|]. exists (next_tick w).
  split_and!; [done..|]. apply publish_events_run; [by apply claimed_NoDup|by apply claimed_stored|done].
Qed.

(** Each event makes one step of the abstract system. *)
Lemma published_one_step cfg e w w' :
  outbox_events (w_db w) !! OutboxEvent_ID e = Some e →
  0 ≤ OutboxEvent_Attempt e → published_one cfg e w w' → db_step (w_db w) (w_db w').
Proof.
  intros He Ha [? ? _ _ -> _|? ? _ _ -> ? _]; [by apply step_published|]. apply step_failed; [done|lia].
Qed.

Lemma published_list_steps cfg es w w' :
  NoDup (OutboxEvent_ID <$> es) →
  Forall (λ e, outbox_events (w_db w) !! OutboxEvent_ID e = Some e ∧ 0 ≤ OutboxEvent_Attempt e) es →
  published_list cfg es w w' → rtc db_step (w_db w) (w_db w').
Proof.
  intros Hnd Hst Hrun. induction Hrun as [|e es w1 w2 w3 Hone Hrun IH]; [done|].
  cbn in Hnd. apply NoDup_cons in Hnd as [Hni Hnd]. apply Forall_cons in Hst as [[He Ha] Hst].
  eapply rtc_l; [by eapply published_one_step|]. apply IH; [done|].
  eapply Forall_impl; [by apply Forall_and; split; [exact Hst|apply Forall_forall; intros x Hx; exact Hx]|].
  cbn. intros e' [[He' ?] Hin]. split; [|done]. rewrite (published_one_other _ _ _ _ _ Hone); [done|].
  intros Heq. apply Hni. rewrite Heq. by apply list_elem_of_fmap_2.
Qed.

(** *** The log, whether or not the batch commits *)

(** The log grew by records of these events. *)
Definition log_grew (cfg : Config) (es : list OutboxEvent) (w w' : World) : Prop :=
  ∃ recs, w_topic w' = recs ++ w_topic w ∧ Forall (λ rec, ∃ e, e ∈ es ∧ event_record cfg e = Some rec) recs.

Lemma log_grew_same cfg es w w' : w_topic w' = w_topic w → log_grew cfg es w w'.
Proof. intros Heq. exists []. by rewrite Heq. Qed.

Lemma log_grew_trans cfg es w1 w2 w3 : log_grew cfg es w1 w2 → log_grew cfg es w2 w3 → log_grew cfg es w1 w3.
Proof.
  intros (r1 & H1 & Hf1) (r2 & H2 & Hf2). exists (r2 ++ r1). rewrite H2, H1, app_assoc. split; [done|].
  by apply Forall_app.
Qed.

Lemma log_grew_sub cfg es es' w w' : es ⊆ es' → log_grew cfg es w w' → log_grew cfg es' w w'.
Proof.
  intros Hsub (recs & Ht & Hf). exists recs. split; [done|]. eapply Forall_impl; [exact Hf|]. naive_solver.
Qed.

Lemma publish_event_log cfg e w r w' : publish_event cfg e w = (r, w') → log_grew cfg [e] w w'.
Proof.
  unfold publish_event. unfold bind at 1, lift.
  destruct (MarshalMessage (event_message e)) as [msg|] eqn:Hm; [|intros [= _ <-]; by apply log_grew_same].
  unfold bind at 1, try. destruct (Publish _ _ _ w) as [rp w1] eqn:Hp. intros Hrun.
  assert (log_grew cfg [e] w w1) as Hlog.
  { assert (event_record cfg e = Some (mkKafkaRecord (Config_Topic cfg) (UUID_String (OutboxEvent_PartitionKey e)) msg))
      as Hrec by (unfold event_record; by rewrite Hm).
    destruct rp as [[]|err]; [apply Publish_ok in Hp|apply Publish_err in Hp as [Hp|Hp]];
      [|by apply log_grew_same|]; eexists [_]; (split; [exact Hp|]); (constructor; [|constructor]);
      exists e; (split; [apply list_elem_of_here|done]). }
  eapply log_grew_trans; [exact Hlog|]. apply log_grew_same. clear Hlog.
  destruct rp as [[]|err];
    (unfold bind in Hrun; match goal with Hb : context [?m w1] |- _ => assert (silent m) as Hs end;
      [unfold Store.MarkOutboxEventPublished, Sqlc.MarkOutboxEventPublished,
         Store.MarkOutboxEventFailed, Sqlc.MarkOutboxEventFailed; eauto with orderdb|]);
    match goal with Hs : silent ?m |- _ => destruct (m w1) as [[a|er] w2] eqn:Hm2;
      destruct (silent_run _ _ _ _ Hs Hm2) as [_ Ht]; injection Hrun as _ <-; done end.
Qed.

Lemma publish_events_log cfg es w r w' : publish_events cfg es w = (r, w') → log_grew cfg es w w'.
Proof.
  revert w. induction es as [|e es IH]; intros w.
  - intros [= _ <-]. by apply log_grew_same.
  - cbn [publish_events]. unfold bind. destruct (publish_event cfg e w) as [r1 w1] eqn:Hone. intros Hrun.
    apply publish_event_log in Hone. apply (log_grew_sub _ _ (e :: es)) in Hone; [|set_solver].
    destruct r1 as [a|er]; [|by injection Hrun as _ <-].
    eapply log_grew_trans; [exact Hone|]. eapply log_grew_sub; [|by eapply IH]. set_solver.
Qed.

(** The records that a batch may add are those of the events it claims. *)
Lemma publish_batch_tx_log cfg w r w' :
  publish_batch_tx cfg w = (r, w') →
  log_grew cfg (claimed (Config_BatchSize cfg) (locked_rows (w_tick w)) (w_db w)) w w'.
Proof.
  unfold publish_batch_tx, bind, Store.ClaimOutboxEvents.
  destruct (Sqlc.ClaimOutboxEvents (Config_BatchSize cfg) w) as [[es|er] w1] eqn:Hc; intros Hrun.
  - apply Sqlc.ClaimOutboxEvents_ok in Hc as (_ & -> & ->). by apply publish_events_log in Hrun.
  - injection Hrun as _ <-. apply log_grew_same.
    destruct (silent_run _ _ _ _ (silent_query _) Hc) as [_ Ht]. exact Ht.
Qed.

(** What a batch did: nothing to the tables, or all it claimed; the log has
    grown by records of claimed events in any case. *)
Lemma PublishBatch_cases cfg w r w' :
  keyed (w_db w) → PublishBatch cfg w = (r, w') →
  (∃ locked, log_grew cfg (claimed (Config_BatchSize cfg) locked (w_db w)) w w') ∧
  ((w_db w' = w_db w ∧ is_ok r = false) ∨
   ∃ locked w1 w2, w_db w1 = w_db w ∧ w_topic w1 = w_topic w ∧ w_db w2 = w_db w' ∧ w_topic w2 = w_topic w' ∧
     w_metrics w1 = w_metrics w ∧ w_metrics w2 = w_metrics w' ∧
     published_list cfg (claimed (Config_BatchSize cfg) locked (w_db w)) w1 w2 ∧ (r = Ok tt ∨ lost_answer r)).
Proof.
  intros Hk. unfold PublishBatch, WithTx, Begin, Commit.
  destruct (fault (w_tick w)) eqn:Hf;
    [|intros [= <- <-]; (split; [exists ∅; by apply log_grew_same|by left])..].
  set (w0 := set_txnow _ (next_tick w)). destruct (publish_batch_tx cfg w0) as [[[]|e] w2] eqn:Hfn.
  2: { intros [= <- <-]. split; [|by left]. exists (locked_rows (w_tick w0)).
       by apply publish_batch_tx_log in Hfn. }
  pose proof (publish_batch_tx_log _ _ _ _ Hfn) as Hlog.
  apply publish_batch_tx_run in Hfn as (_ & w1 & Hd1 & Ht1 & Hm1 & Hlist); [|done].
  destruct (fault (w_tick w2)) as [|msg|msg] eqn:Hc; intros [= <- <-];
    (split; [exists (locked_rows (w_tick w0)); exact Hlog|]).
  - right. exists (locked_rows (w_tick w0)), w1, w2. split_and!; try done. by left.
  - by left.
  - right. exists (locked_rows (w_tick w0)), w1, w2. split_and!; try done. right. by exists msg.
Qed.

Lemma PublishBatch_steps cfg w r w' :
  keyed (w_db w) → schema_ok (w_db w) → PublishBatch cfg w = (r, w') → rtc db_step (w_db w) (w_db w').
Proof.
  intros Hk Hsc Hrun. apply PublishBatch_cases in Hrun as [_ [[-> _]|(locked & w1 & w2 & Hd1 & _ & Hd2 & _ & _ & _ & Hl & _)]];
    [done| |done].
  rewrite <- Hd1, <- Hd2. eapply published_list_steps; [by apply claimed_NoDup| |exact Hl].
  rewrite Hd1. pose proof (claimed_stored (Config_BatchSize cfg) locked _ Hk) as Hst. rewrite Forall_forall in Hst |- *.
  intros e He. split; [by apply Hst|]. apply (sc_attempt _ Hsc _ _ (Hst _ He)).
Qed.

(** ** At least once, and nothing else *)

Lemma event_record_fixed cfg e e' : event_fixed e' = event_fixed e → event_record cfg e' = event_record cfg e.
Proof. unfold event_fixed, event_record, event_message. by intros [= -> -> -> -> -> _ ->]. Qed.

(** The log against the outbox: every published event is in the log, every
    record of the log is that of an event of the outbox. *)
Record log_ok (cfg : Config) (w : World) : Prop := {
  lo_sent id e : outbox_events (w_db w) !! id = Some e → is_Some (OutboxEvent_PublishedAt e) →
    ∃ rec, event_record cfg e = Some rec ∧ rec ∈ w_topic w;
  lo_sound rec : rec ∈ w_topic w →
    ∃ id e, outbox_events (w_db w) !! id = Some e ∧ event_record cfg e = Some rec
}.

Lemma published_one_log cfg e w w' :
  outbox_events (w_db w) !! OutboxEvent_ID e = Some e → published_one cfg e w w' → log_ok cfg w → log_ok cfg w'.
Proof.
  intros He Hone [Hsent Hsound].
  assert (∀ rec, rec ∈ w_topic w → rec ∈ w_topic w') as Hmono.
  { destruct Hone as [? ? _ -> _ _|? ? _ [-> | ->] _ _ _]; set_solver. }
  assert (∀ id x', outbox_events (w_db w') !! id = Some x' →
    (∃ x, outbox_events (w_db w) !! id = Some x ∧ event_fixed x' = event_fixed x ∧
       (is_Some (OutboxEvent_PublishedAt x') → is_Some (OutboxEvent_PublishedAt x) ∨
          ∃ rec, event_record cfg x = Some rec ∧ rec ∈ w_topic w'))) as Hback.
  { intros id x' Hx'. destruct Hone as [rec now Hrec Ht Hdb _|rec err Hrec Ht Hdb _ _]; rewrite Hdb in Hx'; cbn in Hx';
      apply lookup_insert_Some in Hx' as [[<- <-]|[_ Hx']]; [|by eauto 10| |by eauto 10];
      exists e; (split; [done|]); (split; [done|]); cbn; [|by auto].
    intros _. right. exists rec. split; [done|]. rewrite Ht. apply list_elem_of_here. }
  assert (∀ id x, outbox_events (w_db w) !! id = Some x →
    ∃ x', outbox_events (w_db w') !! id = Some x' ∧ event_fixed x' = event_fixed x) as Hforth.
  { intros id x Hx. destruct (decide (OutboxEvent_ID e = id)) as [<-|Hne]; [|by rewrite (published_one_other _ _ _ _ _ Hone Hne); eauto].
    simplify_eq. destruct Hone as [? now _ _ Hdb _|? err _ _ Hdb _ _]; rewrite Hdb; cbn; eexists;
      by rewrite lookup_insert_eq. }
  split.
  - intros id x' Hx' Hpub. destruct (Hback _ _ Hx') as (x & Hx & Hf & Hp).
    rewrite (event_record_fixed _ _ _ Hf). destruct (Hp Hpub) as [Hp'|?]; [|done].
    destruct (Hsent _ _ Hx Hp') as (rec & ? & ?). eauto.
  - intros rec Hrec.
    assert (rec ∈ w_topic w ∨ event_record cfg e = Some rec) as [Hin|Her].
    { destruct Hone as [r' ? Hr' Ht _ _|r' ? Hr' [Ht|Ht] _ _ _]; rewrite Ht in Hrec; set_solver. }
    + destruct (Hsound _ Hin) as (id & x & Hx & Hr). destruct (Hforth _ _ Hx) as (x' & Hx' & Hf).
      exists id, x'. by rewrite (event_record_fixed _ _ _ Hf).
    + destruct (Hforth _ _ He) as (x' & Hx' & Hf). exists (OutboxEvent_ID e), x'. by rewrite (event_record_fixed _ _ _ Hf).
Qed.

Lemma log_ok_grew cfg limit locked w w' :
  w_db w' = w_db w → log_grew cfg (claimed limit locked (w_db w)) w w' → log_ok cfg w → log_ok cfg w'.
Proof.
  intros Hdb (recs & Ht & Hf) [Hsent Hsound]. rewrite Forall_forall in Hf.
  split; rewrite Hdb; [intros id e He Hp|intros rec Hrec]; rewrite Ht in *.
  - destruct (Hsent _ _ He Hp) as (rec & ? & ?). exists rec. set_solver.
  - apply elem_of_app in Hrec as [Hin|Hin]; [|by apply Hsound].
    destruct (Hf _ Hin) as (e & [_ [id Hid]]%elem_of_claimed & Hrec). by exists id, e.
Qed.

Lemma log_ok_eq cfg w w' : w_db w' = w_db w → w_topic w' = w_topic w → log_ok cfg w → log_ok cfg w'.
Proof. intros Hd Ht [H1 H2]. split; rewrite Hd, Ht; auto. Qed.

Lemma published_list_log cfg es w w' :
  NoDup (OutboxEvent_ID <$> es) → Forall (λ e, outbox_events (w_db w) !! OutboxEvent_ID e = Some e) es →
  published_list cfg es w w' → log_ok cfg w → log_ok cfg w'.
Proof.
  intros Hnd Hst Hrun. induction Hrun as [|e es w1 w2 w3 Hone Hrun IH]; [done|]. intros Hlog.
  cbn in Hnd. apply NoDup_cons in Hnd as [Hni Hnd]. apply Forall_cons in Hst as [He Hst].
  apply IH; [done| |by eapply published_one_log]. rewrite Forall_forall in Hst |- *.
  intros e' He'. rewrite (published_one_other _ _ _ _ _ Hone); [by apply Hst|].
  intros Heq. apply Hni. rewrite Heq. by apply list_elem_of_fmap_2.
Qed.

Lemma PublishBatch_log cfg w r w' :
  keyed (w_db w) → PublishBatch cfg w = (r, w') → log_ok cfg w → log_ok cfg w'.
Proof.
  intros Hk Hrun Hlog.
  apply PublishBatch_cases in Hrun as [[locked Hg] [[Hdb _]|(locked' & w1 & w2 & Hd1 & Ht1 & Hd2 & Ht2 & _ & _ & Hl & _)]];
    [by eapply log_ok_grew| |done].
  apply (log_ok_eq _ w2); [done..|].
  eapply published_list_log; [by apply claimed_NoDup| |exact Hl|by apply (log_ok_eq _ w)].
  rewrite Hd1. by apply claimed_stored.
Qed.

End batch.

(** ** A producer that delivers *)

Class ReliableProducer `(Producer) := {
  Publish_delivers topic key payload w :
    Publish topic key payload w = (Ok tt, add_record (mkKafkaRecord topic key payload) w)
}.

(** The call of the goal, counted from the world [w]. *)
Ltac at_tick w k :=
  match goal with |- fault ?n = _ => replace n with (w_tick w + k)%nat by (cbn; lia) end.

Section progress.
Context `{External} `{!ExternalLaws _} `{P : Producer} `{!ReliableProducer P}.

Lemma publish_event_delivers cfg e w rec :
  outbox_events (w_db w) !! OutboxEvent_ID e = Some e → fault (w_tick w) = NoFault → event_record cfg e = Some rec →
  ∃ w', publish_event cfg e w = (Ok tt, w') ∧ w_tick w' = S (w_tick w) ∧ w_seed w' = w_seed w ∧
    w_topic w' = rec :: w_topic w ∧ ∃ now, w_db w' = put_event (mark_published now e) (w_db w).
Proof.
  intros He Hf Hrec. unfold event_record in Hrec. unfold publish_event.
  destruct (MarshalMessage (event_message e)) as [msg|]; [|done]. injection Hrec as <-.
  erewrite bind_eval by reflexivity. erewrite bind_eval by (apply try_eval, Publish_delivers).
  set (w1 := add_record _ w). eexists. split.
  - unfold bind at 1, Store.MarkOutboxEventPublished, bind, Sqlc.MarkOutboxEventPublished.
    rewrite (scan_eval _ _ _ (UUID_Scan_String (OutboxEvent_ID e))). rewrite query_nofault by exact Hf.
    cbn. rewrite He. cbn. reflexivity.
  - split_and!; [done..|]. by eexists.
Qed.

(** The events [es] are marked published, all else is as it was. *)
Definition marked (es : list OutboxEvent) (db db' : DB) : Prop :=
  (∀ e, e ∈ es → ∃ now, outbox_events db' !! OutboxEvent_ID e = Some (mark_published now e)) ∧
  (∀ id, id ∉ (OutboxEvent_ID <$> es) → outbox_events db' !! id = outbox_events db !! id) ∧
  (∃ evs, db' = set_outbox_events evs db).

Lemma publish_events_deliver cfg es recs w :
  NoDup (OutboxEvent_ID <$> es) → Forall (λ e, outbox_events (w_db w) !! OutboxEvent_ID e = Some e) es →
  (∀ i, (i < length es)%nat → fault (w_tick w + i) = NoFault) →
  Forall2 (λ e rec, event_record cfg e = Some rec) es recs →
  ∃ w', publish_events cfg es w = (Ok tt, w') ∧ w_tick w' = (w_tick w + length es)%nat ∧ w_seed w' = w_seed w ∧
    w_topic w' = rev recs ++ w_topic w ∧ marked es (w_db w) (w_db w').
Proof.
  intros Hnd Hst Hf Hrecs. revert w Hst Hf. induction Hrecs as [|e rec es recs Hrec Hrecs IH]; intros w Hst Hf.
  - eexists. split; [done|]. split; [cbn; lia|]. split; [done|]. split; [done|]. split; [set_solver|]. split; [done|].
    exists (outbox_events (w_db w)). by destruct (w_db w).
  - cbn in Hnd. apply NoDup_cons in Hnd as [Hni Hnd]. apply Forall_cons in Hst as [He Hst].
    assert (fault (w_tick w) = NoFault) as Hf0 by (at_tick w 0%nat; apply Hf; cbn; lia).
    destruct (publish_event_delivers cfg e w rec He Hf0 Hrec) as (w1 & Hrun & Htick & Hseed & Htop & now & Hdb).
    assert (∀ id, OutboxEvent_ID e ≠ id → outbox_events (w_db w1) !! id = outbox_events (w_db w) !! id) as Hother
      by (intros id Hne; rewrite Hdb; cbn; by rewrite lookup_insert_ne).
    destruct (IH Hnd w1) as (w' & Hrun' & Htick' & Hseed' & Htop' & Hm1 & Hm2 & evs & Hevs).
    { rewrite Forall_forall in Hst |- *. intros e' He'. rewrite Hother; [by apply Hst|].
      intros Heq. apply Hni. rewrite Heq. by apply list_elem_of_fmap_2. }
    { intros i Hi. rewrite Htick. at_tick w (S i). apply Hf. cbn. lia. }
    exists w'. split; [cbn [publish_events]; unfold bind; by rewrite Hrun|]. split_and!.
    + rewrite Htick', Htick. cbn. lia.
    + by rewrite Hseed', Hseed.
    + rewrite Htop', Htop. cbn. by rewrite <- app_assoc.
    + split_and!.
      * intros e' [->|Hin]%elem_of_cons; [|by apply Hm1]. exists now. rewrite Hm2 by done.
        rewrite Hdb. cbn. by rewrite lookup_insert_eq.
      * intros id Hid. cbn in Hid. apply not_elem_of_cons in Hid as [Hne Hid]. rewrite Hm2 by done. by apply Hother.
      * exists evs. by rewrite Hevs, Hdb.
Qed.

(** A batch with a producer and a connection that do not fail: every claimed
    event is sent, in the order of creation, and marked published. *)
Lemma PublishBatch_delivers cfg w recs :
  let es := claimed (Config_BatchSize cfg) (locked_rows (S (w_tick w))) (w_db w) in
  keyed (w_db w) → 0 ≤ Config_BatchSize cfg →
  (∀ i, (i < 3 + length es)%nat → fault (w_tick w + i) = NoFault) →
  Forall2 (λ e rec, event_record cfg e = Some rec) es recs →
  ∃ w', PublishBatch cfg w = (Ok tt, w') ∧ w_tick w' = (w_tick w + (3 + length es))%nat ∧ w_seed w' = w_seed w ∧
    w_topic w' = rev recs ++ w_topic w ∧ marked es (w_db w) (w_db w').
Proof.
  intros es Hk Hl Hf Hrecs. set (w0 := set_txnow (Some (clock (w_tick w))) (next_tick w)).
  assert (Sqlc.ClaimOutboxEvents (Config_BatchSize cfg) w0 = (Ok es, next_tick w0)) as Hclaim.
  { unfold Sqlc.ClaimOutboxEvents. rewrite query_nofault.
    - rewrite bool_decide_eq_false_2 by lia. by destruct w.
    - at_tick w 1%nat. apply Hf. lia. }
  destruct (publish_events_deliver cfg es recs (next_tick w0)) as (w' & Hrun & Htick & Hseed & Htop & Hm);
    [by apply claimed_NoDup|by apply claimed_stored| |done|].
  { intros i Hi. at_tick w (2 + i)%nat. apply Hf. lia. }
  eexists. split_and!.
  - eapply WithTx_eval; [|unfold publish_batch_tx; by rewrite (bind_eval _ _ _ _ _ Hclaim)|].
    + at_tick w 0%nat. apply Hf. lia.
    + rewrite Htick. at_tick w (2 + length es)%nat. apply Hf. lia.
  - cbn. rewrite Htick. cbn. lia.
  - exact Hseed.
  - exact Htop.
  - exact Hm.
Qed.
End progress.
