(* ===== verification/Consumer.v ===== *)
(** * The event consumer

    [internal/consumer/event_consumer.go]: [Handle] decodes a record, checks
    it, and in one transaction records the event as processed and its
    notification as sent; an event that was recorded before is a duplicate and
    does nothing. *)

From S2P Require Import Prelude GoStrings Json Models World.
From S2P Require Import Sqlc.
From S2P Require Import Store.
From S2P Require Import Spec Evolution Invariants Bookkeeping.

Definition NotificationChannelEmail : string := "email".
Definition NotificationStatusSent : string := "sent".

(** ** Decoding *)

Record OutboxMessage := mkOutboxMessage {
  OutboxMessage_ID : string;
  OutboxMessage_AggregateType : string;
  OutboxMessage_AggregateID : string;
  OutboxMessage_EventType : string;
  OutboxMessage_Payload : option json
}.

(** [json.Unmarshal(payload, &message)]; [None] is an error.  [null] leaves
    the struct as it is. *)
Definition decode_envelope (payload : string) : option OutboxMessage :=
  match Parse payload with
  | Some (JObj ms) =>
    let '(id, e1) := string_field "id" ms in
    let '(agg, e2) := string_field "aggregate_type" ms in
    let '(aggID, e3) := string_field "aggregate_id" ms in
    let '(type, e4) := string_field "event_type" ms in
    if e1 || e2 || e3 || e4 then None
    else Some (mkOutboxMessage id agg aggID type (raw_field "payload" ms))
  | Some JNull => Some (mkOutboxMessage "" "" "" "" None)
  | _ => None
  end.

(** [json.Unmarshal(message.Payload, &eventData)]: the [user_id].  A payload
    that is missing is the empty text, which is a syntax error. *)
Definition decode_user_id (payload : option json) : option string :=
  match payload with
  | Some (JObj ms) => let '(userID, e) := string_field "user_id" ms in if e then None else Some userID
  | Some JNull => Some ""
  | _ => None
  end.

Section consumer.
Context `{External}.

(** [fmt.Errorf("%w: ...", ErrInvalidMessage, ...)] *)
Definition invalid_message (detail : string) : error := ErrWrap "" ErrInvalidMessage (": " +:+ detail).
Definition q (s : string) : string := Quote unicode_is_print s.

(** The function run in the transaction; its result is [duplicate]. *)
Definition handle_tx (messageID userID : string) : M bool :=
  let* created := try (Store.TryCreateProcessedEvent messageID ConsumerNameNotification) in
  match created with
  | Err err => if errors_Is err ErrNoRows then ret true else throw err
  | Ok _ =>
    let* id := NewString in
    do* Store.CreateNotificationDelivery (Store.mkCreateNotificationDeliveryParams id messageID
          NotificationChannelEmail userID NotificationStatusSent) in
    ret false
  end.

(** The checks in front of the transaction: the message and the user, or the error. *)
Definition check_message (source payload : string) : result (OutboxMessage * string) :=
  match decode_envelope payload with
  | None => Err (invalid_message ("decode envelope from " +:+ q source +:+ ": " +:+ ext_text ErrJSON))
  | Some message =>
    if bool_decide (OutboxMessage_ID message = "") then Err (invalid_message "message id is required")
    else if negb (uuid_Parse (OutboxMessage_ID message))
    then Err (invalid_message ("invalid message id " +:+ q (OutboxMessage_ID message)))
    else if bool_decide (OutboxMessage_EventType message = "") then Err (invalid_message "event type is required")
    else
    match decode_user_id (OutboxMessage_Payload message) with
    | None => Err (invalid_message ("decode payload for event " +:+ q (OutboxMessage_ID message) +:+ ": " +:+ ext_text ErrJSON))
    | Some userID =>
      if bool_decide (userID = "")
      then Err (invalid_message ("user_id is required for event " +:+ q (OutboxMessage_ID message)))
      else if negb (uuid_Parse userID)
      then Err (invalid_message ("invalid user_id for event " +:+ q (OutboxMessage_ID message)))
      else Ok (message, userID)
    end
  end.

Definition Handle (source payload : string) : M unit :=
  let* checked := lift (check_message source payload) in
  let '(message, userID) := checked in
  let* handled := try (WithTx (handle_tx (OutboxMessage_ID message) userID)) in
  match handled with
  | Err err => throw (ErrWrap ("process event " +:+ q (OutboxMessage_ID message) +:+ ": ") err "")
  | Ok true => inc (ConsumerEventsDuplicateTotal (OutboxMessage_EventType message))
  | Ok false => inc (ConsumerEventsProcessedTotal (OutboxMessage_EventType message))
  end.

(** [handleRecord] of [cmd/consumer/main.go]: an invalid record is discarded. *)
Definition handleRecord (topic value : string) : M unit :=
  let* handled := try (Handle topic value) in
  match handled with
  | Ok _ => ret tt
  | Err err => if errors_Is err ErrInvalidMessage then ret tt else throw err
  end.
End consumer.

(** ** What Handle does *)

Section handle.
Context `{External}.

Lemma check_message_user source payload message userID :
  check_message source payload = Ok (message, userID) → uuid_Parse userID = true.
Proof.
  unfold check_message. destruct (decode_envelope payload) as [m|]; [|done].
  do 3 (case_match; [done|]). destruct (decode_user_id _) as [u|]; [|done].
  case_match; [done|]. destruct (uuid_Parse u) eqn:Hu; [|done]. by intros [= _ <-].
Qed.

Lemma check_message_err source payload e :
  check_message source payload = Err e → errors_Is e ErrInvalidMessage = true.
Proof.
  unfold check_message, invalid_message. intros Hc.
  repeat match type of Hc with
  | match ?x with _ => _ end = _ => destruct x
  | (if ?x then _ else _) = _ => destruct x
  end; by simplify_eq.
Qed.

(** What one transaction of the consumer does to the tables. *)
Inductive handled (id : UUID) (userID : string) (db db' : DB) : bool → Prop :=
  | handled_duplicate :
      is_Some (processed_events db !! (id, ConsumerNameNotification)) → db' = db → handled id userID db db' true
  | handled_new pe d :
      ProcessedEvent_EventID pe = id → ProcessedEvent_ConsumerName pe = ConsumerNameNotification →
      processed_events db !! (id, ConsumerNameNotification) = None →
      NotificationDelivery_EventID d = id → NotificationDelivery_Recipient d = userID →
      NotificationDelivery_Channel d = NotificationChannelEmail →
      NotificationDelivery_Status d = NotificationStatusSent →
      notification_deliveries db !! NotificationDelivery_ID d = None →
      db' = put_delivery d (put_processed pe db) → db_step db db' → handled id userID db db' false.

(** The only error without a row is that of an event recorded before. *)
Lemma TryCreateProcessedEvent_norows messageID name w e w' :
  Store.TryCreateProcessedEvent messageID name w = (Err e, w') → errors_Is e ErrNoRows = true →
  ∃ id, UUID_Scan messageID = Some id ∧ is_Some (processed_events (w_db w) !! (id, name)) ∧ w_db w' = w_db w.
Proof.
  unfold Store.TryCreateProcessedEvent, bind, scan. destruct (UUID_Scan messageID) as [id|];
    [|intros [= <- <-]; done].
  unfold ret, Sqlc.TryCreateProcessedEvent, query. cbn.
  destruct (fault (w_tick w)) as [|msg|msg].
  - destruct (text_ok name); [|by intros [= <- <-]].
    destruct (processed_events (w_db w) !! (id, name)) eqn:Hp; [|done].
    intros [= <- <-] _. exists id. rewrite Hp. by split_and!.
  - by intros [= <- <-].
  - destruct (text_ok name); [|by intros [= <- <-]].
    destruct (processed_events (w_db w) !! (id, name)); by intros [= <- <-].
Qed.

Lemma handle_tx_run messageID userID w dup w' :
  handle_tx messageID userID w = (Ok dup, w') →
  ∃ id, UUID_Scan messageID = Some id ∧ handled id userID (w_db w) (w_db w') dup.
Proof.
  unfold handle_tx. intros Hrun. apply bind_ok in Hrun as (created & w1 & Hc & Hrun).
  apply try_ok in Hc as (r & [= ->] & Hc). destruct r as [pe|err].
  - unfold Store.TryCreateProcessedEvent in Hc. minv_step Hc.
    apply Sqlc.TryCreateProcessedEvent_ok in Hc as (Hnew & -> & ->). cbn in Hnew.
    minv_step Hrun.
    match goal with Hn : Store.CreateNotificationDelivery _ _ = _ |- _ =>
      unfold Store.CreateNotificationDelivery in Hn; minv_step Hn;
      apply Sqlc.CreateNotificationDelivery_ok in Hn as (Hnd & _ & -> & ->) end. cbn in *. simplify_eq.
    eexists. split; [done|]. eapply (handled_new _ _ _ _ (mkProcessedEvent _ _ _) (mkNotificationDelivery _ _ _ _ _ _ _ _ _));
      try done. by apply step_process.
  - destruct (errors_Is err ErrNoRows) eqn:Hn; [|done]. injection Hrun as <- <-.
    destruct (TryCreateProcessedEvent_norows _ _ _ _ _ Hc Hn) as (id & Hid & Hp & Hdb).
    exists id. split; [done|]. by constructor.
Qed.

(** Handle checks, then makes one step, or none for a duplicate; on an
    error the tables are as they were, or the answer of the commit was lost. *)
Lemma Handle_cases source payload w r w' :
  Handle source payload w = (r, w') →
  (∃ e, check_message source payload = Err e ∧ r = Err e ∧ w' = w)
  ∨ ∃ message userID, check_message source payload = Ok (message, userID) ∧
    ((w_db w' = w_db w ∧ is_ok r = false) ∨
     ∃ id dup, UUID_Scan (OutboxMessage_ID message) = Some id ∧ handled id userID (w_db w) (w_db w') dup ∧
       (r = Ok tt ∨ is_ok r = false)).
Proof.
  unfold Handle. unfold bind at 1, lift. destruct (check_message source payload) as [[message userID]|e].
  2: { intros [= <- <-]. left. eauto. }
  intros Hrun. right. exists message, userID. split; [done|].
  unfold bind, try in Hrun. destruct (WithTx _ w) as [rt w1] eqn:Ht.
  eapply (WithTx_outcome _ (λ dup db', ∃ id, UUID_Scan (OutboxMessage_ID message) = Some id ∧
    handled id userID (w_db w) db' dup)) in Ht.
  2: { intros w2 dup w3 Hw2 Hf%handle_tx_run. by rewrite <- Hw2. }
  destruct Ht as [[Hdb Hno]|(dup & (id & Hid & Hh) & Hr)].
  - left. destruct rt; [done|]. by injection Hrun as <- <-.
  - right. exists id, dup. split; [done|]. destruct Hr as [->|[msg ->]].
    + destruct dup; injection Hrun as <- <-; (split; [done|by left]).
    + injection Hrun as <- <-. split; [done|by right].
Qed.

(** *** Runs without faults *)

(** The transaction on an event that was recorded before. *)
Lemma handle_tx_duplicate messageID userID w id :
  fault (w_tick w) = NoFault → UUID_Scan messageID = Some id →
  is_Some (processed_events (w_db w) !! (id, ConsumerNameNotification)) →
  handle_tx messageID userID w = (Ok true, next_tick w).
Proof.
  intros Hf Hid [pe Hp]. unfold handle_tx, Store.TryCreateProcessedEvent, Sqlc.TryCreateProcessedEvent.
  erewrite bind_eval; [|apply try_eval; unfold bind; rewrite (scan_eval _ _ _ Hid), query_nofault by done;
    cbn; rewrite Hp; reflexivity]. done.
Qed.

(** The transaction on a new event. *)
Lemma handle_tx_new messageID userID w id nid :
  fault (w_tick w) = NoFault → fault (S (w_tick w)) = NoFault →
  UUID_Scan messageID = Some id → processed_events (w_db w) !! (id, ConsumerNameNotification) = None →
  UUID_Scan (uuid_NewString (w_seed w)) = Some nid → notification_deliveries (w_db w) !! nid = None →
  text_ok userID = true →
  ∃ w', handle_tx messageID userID w = (Ok false, w') ∧ w_tick w' = (w_tick w + 2)%nat ∧ w_seed w' = S (w_seed w) ∧
    ∃ d, NotificationDelivery_ID d = nid ∧
      notification_deliveries (w_db w') = <[NotificationDelivery_ID d := d]> (notification_deliveries (w_db w)).
Proof.
  intros Hf0 Hf1 Hid Hp Hnid Hd Ht. unfold handle_tx, Store.TryCreateProcessedEvent, Sqlc.TryCreateProcessedEvent.
  erewrite bind_eval; [|apply try_eval; unfold bind; rewrite (scan_eval _ _ _ Hid), query_nofault by done;
    cbn; rewrite Hp; reflexivity].
  cbn beta iota. erewrite bind_eval by reflexivity.
  unfold Store.CreateNotificationDelivery, Sqlc.CreateNotificationDelivery. eexists. split.
  - unfold bind. cbn [Store.sCreateNotificationDelivery_ID Store.sCreateNotificationDelivery_EventID].
    cbn [w_seed next_seed set_db next_tick].
    rewrite (scan_eval _ _ _ Hnid), (scan_eval _ _ _ Hid), query_nofault by exact Hf1. cbn -[guarded].
    unfold guarded. cbn. rewrite Ht. unfold absent. rewrite (bool_decide_eq_true_2 _ Hd). cbn. reflexivity.
  - cbn. split_and!; [lia|done|]. by eexists (mkNotificationDelivery _ _ _ _ _ _ _ _ _).
Qed.

(** Handle with its checks done. *)
Lemma Handle_checked source payload message userID w dup w' :
  check_message source payload = Ok (message, userID) →
  WithTx (handle_tx (OutboxMessage_ID message) userID) w = (Ok dup, w') →
  Handle source payload w =
    (Ok tt, add_metric ((if dup : bool then ConsumerEventsDuplicateTotal else ConsumerEventsProcessedTotal)
                          (OutboxMessage_EventType message)) w').
Proof.
  intros Hc Ht. unfold Handle, bind, lift, try. rewrite Hc, Ht. by destruct dup.
Qed.

(** The checks do not depend on the name of the source. *)
Lemma check_message_source source source' payload x :
  check_message source payload = Ok x → check_message source' payload = Ok x.
Proof. unfold check_message. by destruct (decode_envelope payload). Qed.

(** Handling a record twice notifies once: after a Handle that took
    effect, even if its answer was lost, the same record is a duplicate at any
    later time: it is accepted, changes nothing and is counted as such. *)
Lemma Handle_again source source' payload w r w1 w2 :
  Handle source payload w = (r, w1) → r = Ok tt ∨ w_db w1 ≠ w_db w →
  rtc db_step (w_db w1) (w_db w2) →
  (∀ i, (i < 3)%nat → fault (w_tick w2 + i) = NoFault) →
  ∃ w3 type, Handle source' payload w2 = (Ok tt, w3) ∧ w_db w3 = w_db w2 ∧
    w_metrics w3 = ConsumerEventsDuplicateTotal type :: w_metrics w2.
Proof.
  intros Hrun Hdone Hsteps Hf. apply Handle_cases in Hrun as [(e & _ & -> & ->)|(message & userID & Hc & Hrest)].
  { destruct Hdone as [?|[]]; done. }
  destruct Hrest as [[Hdb Hno]|(id & dup & Hid & Hh & _)].
  { destruct Hdone as [->|[]]; done. }
  assert (is_Some (processed_events (w_db w1) !! (id, ConsumerNameNotification))) as [pe Hpe].
  { destruct Hh as [? ->|pe d <- Hn _ _ _ _ _ _ -> _]; [done|]. cbn. rewrite Hn, lookup_insert_eq. by eexists. }
  pose proof (steps_processed _ _ _ _ Hsteps Hpe) as Hpe2.
  pose proof (Hf 0%nat ltac:(lia)) as Hf0. pose proof (Hf 1%nat ltac:(lia)) as Hf1. pose proof (Hf 2%nat ltac:(lia)) as Hf2.
  rewrite Nat.add_comm in Hf0, Hf1, Hf2. cbn [Nat.add] in *.
  eexists _, (OutboxMessage_EventType message). split.
  - eapply (Handle_checked _ _ _ _ _ true); [by eapply check_message_source|].
    eapply WithTx_eval; [done|eapply handle_tx_duplicate; [exact Hf1|done|by eexists]|exact Hf2].
  - done.
Qed.

(** Handle returns: a well-formed record of a new event, on a connection
    that does not fail, is recorded as processed with one e-mail delivery to
    its user, and counted. *)
Lemma Handle_first source payload message userID w id nid :
  check_message source payload = Ok (message, userID) → UUID_Scan (OutboxMessage_ID message) = Some id →
  processed_events (w_db w) !! (id, ConsumerNameNotification) = None →
  UUID_Scan (uuid_NewString (w_seed w)) = Some nid → notification_deliveries (w_db w) !! nid = None →
  text_ok userID = true → (∀ i, (i < 4)%nat → fault (w_tick w + i) = NoFault) →
  ∃ w', Handle source payload w = (Ok tt, w') ∧ handled id userID (w_db w) (w_db w') false ∧
    w_metrics w' = ConsumerEventsProcessedTotal (OutboxMessage_EventType message) :: w_metrics w.
Proof.
  intros Hc Hid Hp Hnid Hd Ht Hf.
  pose proof (Hf 0%nat ltac:(lia)) as Hf0. pose proof (Hf 1%nat ltac:(lia)) as Hf1.
  pose proof (Hf 2%nat ltac:(lia)) as Hf2. pose proof (Hf 3%nat ltac:(lia)) as Hf3.
  rewrite Nat.add_comm in Hf0, Hf1, Hf2, Hf3. cbn [Nat.add] in *.
  set (w0 := set_txnow (Some (clock (w_tick w))) (next_tick w)).
  destruct (handle_tx_new (OutboxMessage_ID message) userID w0 id nid) as (w1 & Hrun & Htick & _); [done..|].
  assert (silent (handle_tx (OutboxMessage_ID message) userID)) as Hsil by (unfold handle_tx; silent_store).
  destruct (silent_run _ _ _ _ Hsil Hrun) as [Hm _].
  eexists. split; [|split].
  - eapply (Handle_checked _ _ _ _ _ false); [done|]. eapply WithTx_eval; [exact Hf0|exact Hrun|].
    rewrite Htick. cbn. by rewrite Nat.add_comm.
  - apply handle_tx_run in Hrun as (id' & Hid' & Hh). simplify_eq. exact Hh.
  - cbn. by rewrite Hm.
Qed.

(** *** Records that are never handled *)

(** An invalid record is refused without touching anything, and
    discarded: [handleRecord] answers with no error, so that its offset is
    committed. *)
Lemma Handle_invalid source payload e w :
  check_message source payload = Err e →
  Handle source payload w = (Err e, w) ∧ handleRecord source payload w = (Ok tt, w).
Proof.
  intros Hc. assert (Handle source payload w = (Err e, w)) as Hh by (unfold Handle, bind, lift; by rewrite Hc).
  split; [done|]. unfold handleRecord, bind, try. rewrite Hh, (check_message_err _ _ _ Hc). done.
Qed.

(** A record whose id google/uuid accepts and pgx does not (such as one
    in the form urn:uuid:...) is not discarded: [handleRecord] answers with an
    error in every world, so the consumer stops at its offset every time. *)
Lemma Handle_stuck source payload message userID w :
  check_message source payload = Ok (message, userID) → UUID_Scan (OutboxMessage_ID message) = None →
  ∃ e w', handleRecord source payload w = (Err e, w') ∧ w_db w' = w_db w.
Proof.
  intros Hc Hid. unfold handleRecord, Handle, bind, lift, try. rewrite Hc.
  assert (∀ w1, handle_tx (OutboxMessage_ID message) userID w1 = (Err (ErrUUID (OutboxMessage_ID message)), w1)) as Htx.
  { intros w1. unfold handle_tx, Store.TryCreateProcessedEvent, bind, try, scan. by rewrite Hid. }
  unfold WithTx, Begin. destruct (fault (w_tick w)); [rewrite Htx|..]; cbn;
    (rewrite bool_decide_eq_false_2 by done; cbn; eexists _, _; split; [done|done]).
Qed.
End handle.
