(* ===== verification/Scripts.v ===== *)
(** * Transactions as the statements they send

    A function that [WithTx] runs is, for the server, a sequence of
    statements, each chosen from the answers before it.  Here the five
    transactions of the program (creating, paying and cancelling an order,
    publishing a batch, handling a record) are written down as such
    sequences, in the order of the Go code; [run] executes one without
    interruption, and [scripts_adequate] says that this is the function of the
    service.  [Interleaving] executes several of them statement by
    statement. *)

From S2P Require Import Prelude GoStrings Sha256 Json Models World.
From S2P Require Import Sqlc.
From S2P Require Import Store.
From S2P Require Import OrderService.
From S2P Require Import Spec.
From S2P Require Import Publisher.
From S2P Require Import Consumer.

(** ** Calls and scripts *)

(** What a transaction calls: methods of the store, the UUID generator, the
    counters, the producer. *)
Inductive stmt : Type :=
  | SNewString
  | SInc (m : Metric)
  | SCreateOrder (params : Store.CreateOrderParams)
  | SGetOrderForUpdate (id : string)
  | SUpdateOrderStatus (id status : string)
  | SCreatePayment (params : Store.CreatePaymentParams)
  | SCreateOutboxEvent (params : Store.CreateOutboxEventParams)
  | SCreateIdempotencyKey (params : Store.CreateIdempotencyKeyParams)
  | SClaimOutboxEvents (limit : Z)
  | SMarkOutboxEventPublished (id : string)
  | SMarkOutboxEventFailed (id lastError : string)
  | STryCreateProcessedEvent (eventID consumerName : string)
  | SCreateNotificationDelivery (params : Store.CreateNotificationDeliveryParams)
  | SPublish (topic key payload : string).

Definition answer (s : stmt) : Type :=
  match s with
  | SNewString => string
  | SInc _ | SPublish _ _ _ => unit
  | SCreateOrder _ | SGetOrderForUpdate _ | SUpdateOrderStatus _ _ => Order
  | SCreatePayment _ => Payment
  | SCreateOutboxEvent _ | SMarkOutboxEventPublished _ | SMarkOutboxEventFailed _ _ => OutboxEvent
  | SCreateIdempotencyKey _ => IdempotencyKey
  | SClaimOutboxEvents _ => list OutboxEvent
  | STryCreateProcessedEvent _ _ => ProcessedEvent
  | SCreateNotificationDelivery _ => NotificationDelivery
  end.

(** A result, or a call and what is done with its result. *)
Inductive script (A : Type) : Type :=
  | sDone (r : result A)
  | sCall (s : stmt) (k : result (answer s) → script A).
Arguments sDone {A} r.
Arguments sCall {A} s k.

Fixpoint sBind {A B} (m : script A) (f : A → script B) : script B :=
  match m with
  | sDone (Ok a) => f a
  | sDone (Err e) => sDone (Err e)
  | sCall s k => sCall s (λ r, sBind (k r) f)
  end.

Definition sRet {A} (a : A) : script A := sDone (Ok a).
Definition sThrow {A} (e : error) : script A := sDone (Err e).
Definition call (s : stmt) : script (answer s) := sCall s sDone.

(** [v, err := call] with both looked at. *)
Definition attempt (s : stmt) : script (result (answer s)) := sCall s (λ r, sDone (Ok r)).

(** A script for its effect. *)
Definition sVoid {A} (m : script A) : script unit := sBind m (λ _, sRet tt).

Declare Scope script_scope.
Notation "'get*' x ':=' m 'in' k" := (sBind m (λ x, k))
  (at level 10, x name, m at level 100, k at level 200) : script_scope.
Notation "'send*' m 'in' k" := (sBind m (λ _, k))
  (at level 10, m at level 100, k at level 200) : script_scope.
#[local] Open Scope script_scope.

(** ** The transactions *)

Section scripts.
Context `{External}.

Definition create_order_script (params : CreateOrderParams)
    (idempotencyKey currency description requestHash : string) : script Order :=
  get* orderID := call SNewString in
  get* order := call (SCreateOrder (Store.mkCreateOrderParams orderID (CreateOrder_UserID params)
                  OrderStatusPendingPayment (CreateOrder_AmountCents params) currency description)) in
  get* eventPayload := sDone (json_Marshal (orderCreatedEventPayload orderID (CreateOrder_UserID params)
                  OrderStatusPendingPayment (CreateOrder_AmountCents params) currency description)) in
  get* eventID := call SNewString in
  send* call (SCreateOutboxEvent (Store.mkCreateOutboxEventParams eventID AggregateTypeOrder
        (UUID_String (Order_ID order)) (UUID_String (Order_ID order)) EventTypeOrderCreated eventPayload)) in
  get* responseBody := sDone (json_Order order) in
  get* keyID := call SNewString in
  send* call (SCreateIdempotencyKey (Store.mkCreateIdempotencyKeyParams keyID (CreateOrder_UserID params)
        idempotencyKey (CreateOrder_Method params) (CreateOrder_Path params) requestHash responseBody
        StatusCreated "order" (UUID_String (Order_ID order)))) in
  sRet order.

Definition pay_order_script (params : PayOrderParams) (idempotencyKey requestHash : string) : script PayOrderResult :=
  get* found := attempt (SGetOrderForUpdate (PayOrder_OrderID params)) in
  match found with
  | Err _ => sThrow ErrOrderNotFound
  | Ok order =>
    if order_forbidden (PayOrder_Role params) (PayOrder_UserID params) order then sThrow ErrOrderForbidden else
    if negb (status_open (Order_Status order)) then sThrow ErrOrderInvalidStatus else
    get* paymentID := call SNewString in
    let '(paymentStatus, providerRef, failureReason) := mockPayment paymentID in
    let failed := bool_decide (paymentStatus = PaymentStatusFailed) in
    let nextOrderStatus := if failed then OrderStatusPaymentFailed else OrderStatusPaid in
    let eventType := if failed then EventTypePaymentFailed else EventTypePaymentSucceeded in
    get* payment := call (SCreatePayment (Store.mkCreatePaymentParams paymentID (UUID_String (Order_ID order))
                      paymentStatus (Order_AmountCents order) PaymentProviderMock providerRef failureReason)) in
    get* updatedOrder := call (SUpdateOrderStatus (UUID_String (Order_ID order)) nextOrderStatus) in
    get* eventPayload := sDone (json_Marshal (paymentEventPayload (UUID_String (Payment_ID payment))
                      (UUID_String (Order_ID order)) (UUID_String (Order_UserID order)) (Payment_Status payment)
                      (Payment_AmountCents payment) (Order_Currency order) (Payment_Provider payment)
                      providerRef failureReason)) in
    get* eventID := call SNewString in
    send* call (SCreateOutboxEvent (Store.mkCreateOutboxEventParams eventID AggregateTypePayment
          (UUID_String (Payment_ID payment)) (UUID_String (Order_ID order)) eventType eventPayload)) in
    get* responseBody := sDone (json_Payment payment) in
    get* keyID := call SNewString in
    send* call (SCreateIdempotencyKey (Store.mkCreateIdempotencyKeyParams keyID (PayOrder_UserID params)
          idempotencyKey (PayOrder_Method params) (PayOrder_Path params) requestHash responseBody
          StatusOK "payment" (UUID_String (Payment_ID payment)))) in
    sRet (mkPayOrderResult updatedOrder payment StatusOK false)
  end.

Definition cancel_order_script (params : CancelOrderParams) : script Order :=
  get* found := attempt (SGetOrderForUpdate (CancelOrder_OrderID params)) in
  match found with
  | Err _ => sThrow ErrOrderNotFound
  | Ok order =>
    if order_forbidden (CancelOrder_Role params) (CancelOrder_UserID params) order then sThrow ErrOrderForbidden else
    if negb (status_open (Order_Status order)) then sThrow ErrOrderInvalidStatus else
    get* updatedOrder := call (SUpdateOrderStatus (UUID_String (Order_ID order)) OrderStatusCancelled) in
    get* eventPayload := sDone (json_Marshal (orderCancelledEventPayload (UUID_String (Order_ID updatedOrder))
                      (UUID_String (Order_UserID updatedOrder)) (Order_Status updatedOrder))) in
    get* eventID := call SNewString in
    send* call (SCreateOutboxEvent (Store.mkCreateOutboxEventParams eventID AggregateTypeOrder
          (UUID_String (Order_ID updatedOrder)) (UUID_String (Order_ID updatedOrder))
          EventTypeOrderCancelled eventPayload)) in
    sRet updatedOrder
  end.

Definition publish_event_script (cfg : Config) (event : OutboxEvent) : script unit :=
  get* message := sDone (MarshalMessage (event_message event)) in
  get* published := attempt (SPublish (Config_Topic cfg) (UUID_String (OutboxEvent_PartitionKey event)) message) in
  match published with
  | Err err =>
    send* call (SMarkOutboxEventFailed (UUID_String (OutboxEvent_ID event)) (error_text ext_text err)) in
    call (SInc (OutboxEventsFailedTotal (OutboxEvent_EventType event)))
  | Ok _ =>
    send* call (SMarkOutboxEventPublished (UUID_String (OutboxEvent_ID event))) in
    call (SInc (OutboxEventsPublishedTotal (OutboxEvent_EventType event)))
  end.

Fixpoint publish_events_script (cfg : Config) (events : list OutboxEvent) : script unit :=
  match events with
  | [] => sRet tt
  | event :: events' => send* publish_event_script cfg event in publish_events_script cfg events'
  end.

Definition publish_batch_script (cfg : Config) : script unit :=
  get* events := call (SClaimOutboxEvents (Config_BatchSize cfg)) in
  publish_events_script cfg events.

Definition handle_script (messageID userID : string) : script bool :=
  get* created := attempt (STryCreateProcessedEvent messageID ConsumerNameNotification) in
  match created with
  | Err err => if errors_Is err ErrNoRows then sRet true else sThrow err
  | Ok _ =>
    get* id := call SNewString in
    send* call (SCreateNotificationDelivery (Store.mkCreateNotificationDeliveryParams id messageID
          NotificationChannelEmail userID NotificationStatusSent)) in
    sRet false
  end.
End scripts.

(** ** Running a script without interruption *)

Section run.
Context `{External} `{P : Producer}.

Definition exec (s : stmt) : M (answer s) :=
  match s return M (answer s) with
  | SNewString => NewString
  | SInc m => inc m
  | SCreateOrder params => Store.CreateOrder params
  | SGetOrderForUpdate id => Store.GetOrderForUpdate id
  | SUpdateOrderStatus id status => Store.UpdateOrderStatus id status
  | SCreatePayment params => Store.CreatePayment params
  | SCreateOutboxEvent params => Store.CreateOutboxEvent params
  | SCreateIdempotencyKey params => Store.CreateIdempotencyKey params
  | SClaimOutboxEvents limit => Store.ClaimOutboxEvents limit
  | SMarkOutboxEventPublished id => Store.MarkOutboxEventPublished id
  | SMarkOutboxEventFailed id lastError => Store.MarkOutboxEventFailed id lastError
  | STryCreateProcessedEvent eventID name => Store.TryCreateProcessedEvent eventID name
  | SCreateNotificationDelivery params => Store.CreateNotificationDelivery params
  | SPublish topic key payload => Publish topic key payload
  end.

Fixpoint run {A} (sc : script A) : M A :=
  match sc with
  | sDone r => lift r
  | sCall s k => λ w, let '(r, w1) := exec s w in run (k r) w1
  end.

Lemma run_one_call s w : run (call s) w = exec s w.
Proof. cbn. by destruct (exec s w). Qed.

Lemma run_attempt s w : run (attempt s) w = try (exec s) w.
Proof. cbn. unfold try. by destruct (exec s w). Qed.

Lemma run_bind {A B} (m : script A) (f : A → script B) w :
  run (sBind m f) w = bind (run m) (λ a, run (f a)) w.
Proof.
  revert w. induction m as [[a|e]|s k IH]; intros w; [done..|].
  cbn. unfold bind. destruct (exec s w) as [r w1]. apply IH.
Qed.

Lemma run_bind_as {A B} (m : script A) (f : A → script B) (m' : M A) (f' : A → M B) w :
  (∀ w, run m w = m' w) → (∀ a w, run (f a) w = f' a w) → run (sBind m f) w = bind m' f' w.
Proof. intros Hm Hf. rewrite run_bind. unfold bind. rewrite Hm. destruct (m' w) as [[a|e] w1]; [apply Hf|done]. Qed.

(** A script for its effect has the effect. *)
Lemma run_void {A} (m : script A) w w' : run (sVoid m) w = (Ok tt, w') → ∃ a, run m w = (Ok a, w').
Proof.
  unfold sVoid. rewrite run_bind. unfold bind. destruct (run m w) as [[a|e] w1]; [|done].
  intros [= <-]. by exists a.
Qed.

(** Walk through a script and its function together. *)
Ltac adequate :=
  repeat first
  [ progress intros
  | match goal with
    | |- run (sBind _ _) _ = bind _ _ _ => apply run_bind_as
    | |- run (call _) _ = _ => rewrite run_one_call; reflexivity
    | |- run (attempt _) _ = _ => rewrite run_attempt; reflexivity
    | |- run (match ?x with _ => _ end) _ = _ => destruct x
    | |- run _ _ = _ => reflexivity
    end ].

Lemma run_create_order params key currency description hash w :
  run (create_order_script params key currency description hash) w
  = create_order_tx params key currency description hash w.
Proof. unfold create_order_script, create_order_tx. adequate. Qed.

Lemma run_pay_order params key hash w :
  run (pay_order_script params key hash) w = pay_order_tx params key hash w.
Proof. unfold pay_order_script, pay_order_tx. adequate. Qed.

Lemma run_cancel_order params w : run (cancel_order_script params) w = cancel_order_tx params w.
Proof. unfold cancel_order_script, cancel_order_tx. adequate. Qed.

Lemma run_handle messageID userID w : run (handle_script messageID userID) w = handle_tx messageID userID w.
Proof. unfold handle_script, handle_tx. adequate. Qed.

Lemma run_publish_events cfg events w : run (publish_events_script cfg events) w = publish_events cfg events w.
Proof.
  revert w. induction events as [|e events IH]; intros w; [done|]. cbn [publish_events_script publish_events].
  apply run_bind_as; [|done]. intros w1. unfold publish_event_script, publish_event. adequate.
Qed.

Lemma run_publish_batch cfg w : run (publish_batch_script cfg) w = publish_batch_tx cfg w.
Proof.
  unfold publish_batch_script, publish_batch_tx. apply run_bind_as; [intros; apply run_one_call|].
  intros es w1. apply run_publish_events.
Qed.
End run.

(** The sequences of statements are the program: run without interruption,
    each of the five scripts gives in every world the result and the world of
    the function that the service passes to [WithTx]. *)
Lemma scripts_adequate `{External} `{P : Producer} w :
  (∀ params key currency description hash,
     run (create_order_script params key currency description hash) w
     = create_order_tx params key currency description hash w) ∧
  (∀ params key hash, run (pay_order_script params key hash) w = pay_order_tx params key hash w) ∧
  (∀ params, run (cancel_order_script params) w = cancel_order_tx params w) ∧
  (∀ cfg, run (publish_batch_script cfg) w = publish_batch_tx cfg w) ∧
  (∀ messageID userID, run (handle_script messageID userID) w = handle_tx messageID userID w).
Proof.
  split_and!; intros; [apply run_create_order|apply run_pay_order|apply run_cancel_order|
    apply run_publish_batch|apply run_handle].
Qed.
