(* ===== verification/Locks.v ===== *)
(** * Row locks

    What PostgreSQL locks for a statement of a transaction, and keeps locked
    until the transaction ends: the rows read with [FOR UPDATE], the rows
    written, and the unique keys of the rows inserted.  A statement only looks
    at what it locks, at rows that are never removed, and at the absence of
    rows whose key it takes ([exec_stable]); so what other transactions do to
    the rest does not change its result. *)

From S2P Require Import Prelude GoStrings Json Models World.
From S2P Require Import Sqlc.
From S2P Require Import Store.
From S2P Require Import OrderService.
From S2P Require Import Spec.
From S2P Require Import Publisher.
From S2P Require Import Consumer.
From S2P Require Import Scripts.

(** ** Locks and writes *)

Inductive lock : Type :=
  | LOrder (id : UUID)
  | LPayment (id : UUID)
  | LEvent (id : UUID)
  | LIdempotencyKey (id : UUID)
  (* the unique key of idempotency_keys *)
  | LUserKey (userID : UUID) (key : string)
  | LProcessed (eventID : UUID) (consumerName : string)
  | LDelivery (id : UUID).

#[global] Instance lock_eq_dec : EqDecision lock.
Proof. solve_decision. Defined.

(** A row put into a table. *)
Inductive write : Type :=
  | WOrder (id : UUID) (o : Order)
  | WPayment (id : UUID) (p : Payment)
  | WEvent (id : UUID) (e : OutboxEvent)
  | WIdempotencyKey (id : UUID) (k : IdempotencyKey)
  | WProcessed (eventID : UUID) (consumerName : string) (pe : ProcessedEvent)
  | WDelivery (id : UUID) (d : NotificationDelivery).

Definition apply_write (wr : write) (db : DB) : DB :=
  match wr with
  | WOrder id o => set_orders (<[id := o]> (orders db)) db
  | WPayment id p => set_payments (<[id := p]> (payments db)) db
  | WEvent id e => set_outbox_events (<[id := e]> (outbox_events db)) db
  | WIdempotencyKey id k => set_idempotency_keys (<[id := k]> (idempotency_keys db)) db
  | WProcessed id name pe => set_processed_events (<[(id, name) := pe]> (processed_events db)) db
  | WDelivery id d => set_notification_deliveries (<[id := d]> (notification_deliveries db)) db
  end.

(** The first write of the list is the first that happened. *)
Fixpoint apply_writes (ws : list write) (db : DB) : DB :=
  match ws with
  | [] => db
  | wr :: ws' => apply_writes ws' (apply_write wr db)
  end.

Definition write_locks (wr : write) : list lock :=
  match wr with
  | WOrder id _ => [LOrder id]
  | WPayment id _ => [LPayment id]
  | WEvent id _ => [LEvent id]
  | WIdempotencyKey id k => [LIdempotencyKey id; LUserKey (IdempotencyKey_UserID k) (IdempotencyKey_Key k)]
  | WProcessed id name _ => [LProcessed id name]
  | WDelivery id _ => [LDelivery id]
  end.

Lemma apply_writes_app ws1 ws2 db : apply_writes (ws1 ++ ws2) db = apply_writes ws2 (apply_writes ws1 db).
Proof. revert db. induction ws1 as [|wr ws1 IH]; intros db; [done|]. apply IH. Qed.

Section statements.
Context `{External} `{P : Producer}.

(** The row that a statement with [RETURNING] has put into its table. *)
Definition writes_of (s : stmt) : answer s → list write :=
  match s return answer s → list write with
  | SNewString | SInc _ | SGetOrderForUpdate _ | SClaimOutboxEvents _ | SPublish _ _ _ => λ _, []
  | SCreateOrder _ => λ o, [WOrder (Order_ID o) o]
  | SUpdateOrderStatus id _ => λ o, match UUID_Scan id with Some u => [WOrder u o] | None => [] end
  | SCreatePayment _ => λ p, [WPayment (Payment_ID p) p]
  | SCreateOutboxEvent _ => λ e, [WEvent (OutboxEvent_ID e) e]
  | SMarkOutboxEventPublished id | SMarkOutboxEventFailed id _ =>
    λ e, match UUID_Scan id with Some u => [WEvent u e] | None => [] end
  | SCreateIdempotencyKey _ => λ k, [WIdempotencyKey (IdempotencyKey_ID k) k]
  | STryCreateProcessedEvent _ _ => λ pe, [WProcessed (ProcessedEvent_EventID pe) (ProcessedEvent_ConsumerName pe) pe]
  | SCreateNotificationDelivery _ => λ d, [WDelivery (NotificationDelivery_ID d) d]
  end.

(** The rows that a statement with [FOR UPDATE] locks. *)
Definition read_locks (s : stmt) : answer s → list lock :=
  match s return answer s → list lock with
  | SGetOrderForUpdate id => λ _, match UUID_Scan id with Some u => [LOrder u] | None => [] end
  | SClaimOutboxEvents _ => λ es, LEvent ∘ OutboxEvent_ID <$> es
  | _ => λ _, []
  end.

(** What a statement writes and locks; nothing when it fails. *)
Definition writes (s : stmt) (r : result (answer s)) : list write :=
  match r with Ok a => writes_of s a | Err _ => [] end.
Definition locks (s : stmt) (r : result (answer s)) : list lock :=
  match r with Ok a => read_locks s a ++ (writes_of s a ≫= write_locks) | Err _ => [] end.
End statements.

(** ** Tables that agree on what is locked *)

(** [db'] has what the holder of [l] saw in [db]. *)
Definition same (l : lock) (db db' : DB) : Prop :=
  match l with
  | LOrder id => orders db' !! id = orders db !! id
  | LPayment id => payments db' !! id = payments db !! id
  | LEvent id => outbox_events db' !! id = outbox_events db !! id
  | LIdempotencyKey id => idempotency_keys db' !! id = idempotency_keys db !! id
  (* no row with this key has appeared *)
  | LUserKey userID key => ∀ id k, same_key userID key k = true →
      idempotency_keys db' !! id = Some k → idempotency_keys db !! id = Some k
  | LProcessed id name => processed_events db' !! (id, name) = processed_events db !! (id, name)
  | LDelivery id => notification_deliveries db' !! id = notification_deliveries db !! id
  end.

(** No transaction removes rows. *)
Record grown (db db' : DB) : Prop := {
  gr_users id : is_Some (users db !! id) → is_Some (users db' !! id);
  gr_orders id : is_Some (orders db !! id) → is_Some (orders db' !! id);
  gr_processed k : is_Some (processed_events db !! k) → is_Some (processed_events db' !! k)
}.

Definition agree (L : list lock) (db db' : DB) : Prop := grown db db' ∧ ∀ l, l ∈ L → same l db db'.

#[global] Instance same_preorder l : PreOrder (same l).
Proof.
  split; [by intros db; destruct l; cbn|]. intros db1 db2 db3.
  destruct l; cbn; intros H12 H23; [congruence..| |congruence|congruence]. eauto.
Qed.

#[global] Instance grown_preorder : PreOrder grown.
Proof. split; [by intros db; split|]. intros db1 db2 db3 [] []. split; auto. Qed.

#[global] Instance agree_preorder L : PreOrder (agree L).
Proof.
  split; [by intros db; split|]. intros db1 db2 db3 [Hg1 Hs1] [Hg2 Hs2]. split; [by etransitivity|].
  intros l Hl. etransitivity; [by apply Hs1|by apply Hs2].
Qed.

Lemma agree_sub L L' db db' : L' ⊆ L → agree L db db' → agree L' db db'.
Proof. intros Hsub [Hg Hs]. split; [done|]. intros l Hl. apply Hs. by apply Hsub. Qed.

Lemma insert_present `{Countable K} {A} (m m' : gmap K A) i a k :
  (is_Some (m !! k) → is_Some (m' !! k)) → is_Some (<[i := a]> m !! k) → is_Some (<[i := a]> m' !! k).
Proof.
  intros Hm. destruct (decide (i = k)) as [->|Hne]; [by rewrite !lookup_insert_eq|].
  by rewrite !lookup_insert_ne.
Qed.

Lemma insert_grown `{Countable K} {A} (m : gmap K A) i a k : is_Some (m !! k) → is_Some (<[i := a]> m !! k).
Proof. intros ?. apply lookup_insert_is_Some. destruct (decide (i = k)); auto. Qed.

Lemma insert_same `{Countable K} {A} (m m' : gmap K A) i a k :
  m' !! k = m !! k → <[i := a]> m' !! k = <[i := a]> m !! k.
Proof.
  intros Hm. destruct (decide (i = k)) as [->|Hne]; [by rewrite !lookup_insert_eq|].
  by rewrite !lookup_insert_ne.
Qed.

Lemma insert_rows `{Countable K} {A} (m m' : gmap K A) (Q : A → Prop) i a :
  (∀ k x, Q x → m' !! k = Some x → m !! k = Some x) →
  ∀ k x, Q x → <[i := a]> m' !! k = Some x → <[i := a]> m !! k = Some x.
Proof.
  intros Hm k x Hx. destruct (decide (i = k)) as [->|Hne]; [by rewrite !lookup_insert_eq|].
  rewrite !lookup_insert_ne by done. eauto.
Qed.

(** The same write on both sides. *)
Lemma same_write l wr db db' : same l db db' → same l (apply_write wr db) (apply_write wr db').
Proof.
  destruct l, wr; cbn; intros Hs; try exact Hs; try (by apply insert_same).
  exact (insert_rows _ _ (λ k, same_key _ _ k = true) _ _ Hs).
Qed.

Lemma grown_write wr db db' : grown db db' → grown (apply_write wr db) (apply_write wr db').
Proof. intros [Hu Ho Hp]. destruct wr; split; cbn; auto; intros *; apply insert_present; auto. Qed.

Lemma agree_writes L ws db db' : agree L db db' → agree L (apply_writes ws db) (apply_writes ws db').
Proof.
  revert db db'. induction ws as [|wr ws IH]; intros db db' Ha; [done|]. apply IH. destruct Ha as [Hg Hs].
  split; [by apply grown_write|]. intros l Hl. apply same_write. auto.
Qed.

(** A write of a row that others have not locked. *)
Lemma same_foreign l wr db : l ∉ write_locks wr → same l db (apply_write wr db).
Proof.
  destruct l, wr; cbn; intros Hl; try done; try (rewrite lookup_insert_ne; [done|set_solver]).
  intros id' k' Hk [[<- <-]|[_ ?]]%lookup_insert_Some; [|done]. exfalso. apply Hl. unfold same_key in Hk.
  apply andb_true_iff in Hk as [<-%bool_decide_eq_true <-%bool_decide_eq_true]. set_solver.
Qed.

Lemma agree_foreign L ws db :
  (∀ wr l, wr ∈ ws → l ∈ write_locks wr → l ∉ L) → agree L db (apply_writes ws db).
Proof.
  revert db. induction ws as [|wr ws IH]; intros db Hws; [done|]. cbn [apply_writes].
  etransitivity; [|apply IH; intros; eapply Hws; [by right|done]].
  split; [destruct wr; split; cbn; auto; intros *; apply insert_grown|].
  intros l Hl. apply same_foreign. intros Hin. by eapply Hws; [left| |].
Qed.

(** ** A statement depends on what it locks *)

(** The state of the process of a transaction, on given tables and log. *)
Definition set_env (db : DB) (topic : list KafkaRecord) (w : World) : World :=
  mkWorld db (w_tick w) (w_seed w) (w_txnow w) (w_metrics w) topic.

(** With this result on [V], [m] has the same on all tables that agree with
    [V] on [L], and writes [ws] there too. *)
Definition stable {A} (L : list lock) (ws : list write) (m : M A) (r : result A) (V : DB) : Prop :=
  ∀ t w w1, m (set_env V t w) = (r, w1) →
  ∀ V' t', agree L V V' → m (set_env V' t' w) = (r, set_env (apply_writes ws V') t' w1).

(** All statements but the claim, which looks at every row, and the producer. *)
Definition replayable (s : stmt) : bool :=
  match s with SClaimOutboxEvents _ | SPublish _ _ _ => false | _ => true end.

(** Results after which a transaction goes on: values, and the answer that an
    event was recorded before. *)
Definition tolerated (s : stmt) (r : result (answer s)) : bool :=
  match r with
  | Ok _ => true
  | Err e => match s with STryCreateProcessedEvent _ _ => errors_Is e ErrNoRows | _ => false end
  end.

Section stable.
Context `{External} `{P : Producer}.

Lemma stable_query {A} L ws (q : DB → Z → result (A * DB)) a V :
  (∀ now db, q V now = Ok (a, db) → ∀ V', agree L V V' → q V' now = Ok (a, apply_writes ws V')) →
  stable L ws (query q) (Ok a) V.
Proof.
  intros Hq t w w1. unfold query. cbn. destruct (fault (w_tick w)) as [|msg|msg]; [|done|by destruct (q _ _) as [[]|]].
  destruct (q V (sql_now (set_env V t w))) as [[b db]|e] eqn:Hrun; [|done]. intros [= -> <-] V' t' Ha.
  change (sql_now (set_env V' t' w)) with (sql_now (set_env V t w)). by rewrite (Hq _ _ Hrun _ Ha).
Qed.

Lemma stable_scan {A} L ws s (f : UUID → M A) a V :
  (∀ u, UUID_Scan s = Some u → stable L ws (f u) (Ok a) V) → stable L ws (bind (scan s) f) (Ok a) V.
Proof.
  intros Hf t w w1. unfold bind, scan. destruct (UUID_Scan s) as [u|]; [|done]. by apply Hf.
Qed.

Lemma absent_same `{Countable K} {A} (k : K) (m m' : gmap K A) :
  m' !! k = m !! k → absent k m = true → absent k m' = true.
Proof. unfold absent. by intros ->. Qed.

Lemma present_grown `{Countable K} {A} (k : K) (m m' : gmap K A) :
  (is_Some (m !! k) → is_Some (m' !! k)) → present k m = true → present k m' = true.
Proof. unfold present. rewrite !bool_decide_eq_true. auto. Qed.

Lemma unused_same db db' userID key :
  same (LUserKey userID key) db db' →
  bool_decide (lookup_by (same_key userID key) (idempotency_keys db) = None) = true →
  bool_decide (lookup_by (same_key userID key) (idempotency_keys db') = None) = true.
Proof.
  cbn. rewrite !bool_decide_eq_true, !lookup_by_None. intros Hs Hnone id k Hk.
  destruct (same_key userID key k) eqn:He; [|done]. by rewrite <- He, (Hnone id k (Hs _ _ He Hk)).
Qed.

(** What the lock on a row says. *)
Ltac locked Ha :=
  first [apply (proj2 Ha (LOrder _))|apply (proj2 Ha (LPayment _))|apply (proj2 Ha (LEvent _))
    |apply (proj2 Ha (LIdempotencyKey _))|apply (proj2 Ha (LUserKey _ _))|apply (proj2 Ha (LProcessed _ _))
    |apply (proj2 Ha (LDelivery _))]; set_solver.

(** The conditions of an insert, on the other tables. *)
Ltac regard Ha :=
  repeat match goal with
  | |- Forall _ [] => constructor
  | |- Forall _ (_ :: _) => constructor; [cbn [fst] in *|]
  | Hg : ?b = true |- ?b = true => exact Hg
  | |- absent _ _ = true => eapply absent_same; [|eassumption]; locked Ha
  | |- present _ _ = true => eapply present_grown; [|eassumption]; apply (proj1 Ha)
  | |- bool_decide (lookup_by _ _ = None) = true => eapply unused_same; [|eassumption]; locked Ha
  end.

Ltac guards Hg :=
  repeat match type of Hg with
  | Forall _ (_ :: _) => let G := fresh "G" in apply Forall_cons in Hg as [G Hg]; cbn [fst] in G
  end.

Ltac stable_insert :=
  apply stable_query; intros now db Hq V' Ha; cbn beta zeta in *;
  try (destruct (jsonb _); [|done]); cbn beta zeta in *;
  apply guarded_ok in Hq as [[= -> ->] Hg]; cbn in Ha; guards Hg; apply guarded_pass; regard Ha.

Ltac stable_scans := repeat (apply stable_scan; intros ? ?).

Lemma stable_CreateOrder params o V :
  stable (locks (SCreateOrder params) (Ok o)) (writes (SCreateOrder params) (Ok o)) (Store.CreateOrder params) (Ok o) V.
Proof. unfold Store.CreateOrder, Sqlc.CreateOrder. stable_scans. stable_insert. Qed.

Lemma stable_CreatePayment params p V :
  stable (locks (SCreatePayment params) (Ok p)) (writes (SCreatePayment params) (Ok p))
    (Store.CreatePayment params) (Ok p) V.
Proof. unfold Store.CreatePayment, Sqlc.CreatePayment. stable_scans. stable_insert. Qed.

Lemma stable_CreateOutboxEvent params e V :
  stable (locks (SCreateOutboxEvent params) (Ok e)) (writes (SCreateOutboxEvent params) (Ok e))
    (Store.CreateOutboxEvent params) (Ok e) V.
Proof. unfold Store.CreateOutboxEvent, Sqlc.CreateOutboxEvent. stable_scans. stable_insert. Qed.

Lemma stable_CreateNotificationDelivery params d V :
  stable (locks (SCreateNotificationDelivery params) (Ok d)) (writes (SCreateNotificationDelivery params) (Ok d))
    (Store.CreateNotificationDelivery params) (Ok d) V.
Proof. unfold Store.CreateNotificationDelivery, Sqlc.CreateNotificationDelivery. stable_scans. stable_insert. Qed.

Lemma stable_CreateIdempotencyKey params k V :
  stable (locks (SCreateIdempotencyKey params) (Ok k)) (writes (SCreateIdempotencyKey params) (Ok k))
    (Store.CreateIdempotencyKey params) (Ok k) V.
Proof.
  unfold Store.CreateIdempotencyKey. stable_scans.
  assert (∀ resourceID, stable (locks (SCreateIdempotencyKey params) (Ok k)) (writes (SCreateIdempotencyKey params) (Ok k))
    (Sqlc.CreateIdempotencyKey (Sqlc.mkCreateIdempotencyKeyParams u u0
      (sCreateIdempotencyKey_Key params) (sCreateIdempotencyKey_Method params)
      (sCreateIdempotencyKey_Path params) (sCreateIdempotencyKey_RequestHash params)
      (sCreateIdempotencyKey_ResponseBody params) (int4 (sCreateIdempotencyKey_StatusCode params))
      (text (sCreateIdempotencyKey_ResourceType params)) resourceID)) (Ok k) V) as Hcreate.
  { intros resourceID. unfold Sqlc.CreateIdempotencyKey. stable_insert. }
  intros t w w1. unfold bind. destruct (bool_decide _); [apply Hcreate|].
  unfold scan. destruct (UUID_Scan (sCreateIdempotencyKey_ResourceID params)); [apply Hcreate|done].
Qed.

Lemma stable_GetOrderForUpdate id o V :
  stable (locks (SGetOrderForUpdate id) (Ok o)) (writes (SGetOrderForUpdate id) (Ok o))
    (Store.GetOrderForUpdate id) (Ok o) V.
Proof.
  unfold Store.GetOrderForUpdate, Sqlc.GetOrderForUpdate. apply stable_scan. intros u Hu. cbn. rewrite Hu.
  apply stable_query. intros now db Hq V' Ha. apply one_row_ok in Hq as (o0 & Ho0 & [= -> _]).
  assert (orders V' !! u = orders V !! u) as -> by locked Ha. by rewrite Ho0.
Qed.

Lemma stable_UpdateOrderStatus id status o V :
  stable (locks (SUpdateOrderStatus id status) (Ok o)) (writes (SUpdateOrderStatus id status) (Ok o))
    (Store.UpdateOrderStatus id status) (Ok o) V.
Proof.
  unfold Store.UpdateOrderStatus, Sqlc.UpdateOrderStatus. apply stable_scan. intros u Hu. cbn. rewrite Hu.
  apply stable_query. cbn. intros now db Hq V' Ha. destruct (text_ok status); [|done].
  apply one_row_ok in Hq as (o0 & Ho0 & Hq). apply guarded_ok in Hq as [[= -> ->] Hg].
  assert (orders V' !! u = orders V !! u) as -> by locked Ha. rewrite Ho0. cbn. by rewrite guarded_pass.
Qed.

Lemma stable_MarkOutboxEventPublished id e V :
  stable (locks (SMarkOutboxEventPublished id) (Ok e)) (writes (SMarkOutboxEventPublished id) (Ok e))
    (Store.MarkOutboxEventPublished id) (Ok e) V.
Proof.
  unfold Store.MarkOutboxEventPublished, Sqlc.MarkOutboxEventPublished. apply stable_scan. intros u Hu. cbn. rewrite Hu.
  apply stable_query. cbn. intros now db Hq V' Ha.
  apply one_row_ok in Hq as (e0 & He0 & [= <- <-]).
  assert (outbox_events V' !! u = outbox_events V !! u) as -> by locked Ha. by rewrite He0.
Qed.

Lemma stable_MarkOutboxEventFailed id err e V :
  stable (locks (SMarkOutboxEventFailed id err) (Ok e)) (writes (SMarkOutboxEventFailed id err) (Ok e))
    (Store.MarkOutboxEventFailed id err) (Ok e) V.
Proof.
  unfold Store.MarkOutboxEventFailed, Sqlc.MarkOutboxEventFailed. apply stable_scan. intros u Hu. cbn. rewrite Hu.
  apply stable_query. cbn. intros now db Hq V' Ha. destruct (opt_text_ok _); [|done].
  apply one_row_ok in Hq as (e0 & He0 & Hq). apply guarded_ok in Hq as [[= -> ->] Hg].
  assert (outbox_events V' !! u = outbox_events V !! u) as -> by locked Ha. rewrite He0. cbn. by rewrite guarded_pass.
Qed.

Lemma stable_TryCreateProcessedEvent id name r V :
  tolerated (STryCreateProcessedEvent id name) r = true →
  stable (locks (STryCreateProcessedEvent id name) r) (writes (STryCreateProcessedEvent id name) r)
    (Store.TryCreateProcessedEvent id name) r V.
Proof.
  unfold Store.TryCreateProcessedEvent, Sqlc.TryCreateProcessedEvent. destruct r as [pe|e]; intros Htol.
  - apply stable_scan. intros u Hu. apply stable_query. cbn. intros now db Hq V' Ha.
    destruct (text_ok name); [|done]. destruct (processed_events V !! (u, name)) eqn:Hp; [done|].
    injection Hq as <- <-.
    assert (processed_events V' !! (u, name) = processed_events V !! (u, name)) as -> by locked Ha. by rewrite Hp.
  - cbn in Htol. intros t w w1. unfold bind, scan. destruct (UUID_Scan id) as [u|]; [|by intros [= <- _]].
    unfold ret, query. cbn. destruct (fault (w_tick w)) as [|msg|msg]; [|by intros [= <- _]|].
    + destruct (text_ok name); [|by intros [= <- _]].
      destruct (processed_events V !! (u, name)) eqn:Hp; [|done]. intros [= <- <-] V' t' [Hg _].
      destruct (gr_processed _ _ Hg (u, name)) as [x Hx]; [by rewrite Hp|]. by rewrite Hx.
    + destruct (text_ok name); [|by intros [= <- _]]. destruct (processed_events V !! (u, name)); by intros [= <- _].
Qed.

(** The same result, on all tables that agree on what the statement locks. *)
Lemma exec_stable s r V :
  replayable s = true → tolerated s r = true → stable (locks s r) (writes s r) (exec s) r V.
Proof.
  destruct s; intros Hrep Htol; try discriminate Hrep;
    try (by apply stable_TryCreateProcessedEvent);
    (destruct r as [a|e]; [clear Htol|done]).
  - by intros t w w1 [= <- <-] V' t' _.
  - by intros t w w1 [= <- <-] V' t' _.
  - apply stable_CreateOrder.
  - apply stable_GetOrderForUpdate.
  - apply stable_UpdateOrderStatus.
  - apply stable_CreatePayment.
  - apply stable_CreateOutboxEvent.
  - apply stable_CreateIdempotencyKey.
  - apply stable_MarkOutboxEventPublished.
  - apply stable_MarkOutboxEventFailed.
  - apply stable_CreateNotificationDelivery.
Qed.
End stable.
