(* ===== verification/Envelope.v ===== *)
(** * The envelope: what the publisher writes, the consumer reads

    [json.Marshal] of an [OutboxMessage] in [outbox_publisher.go], and
    [json.Unmarshal] of it in [event_consumer.go], with the checks of
    [Handle] behind it. *)

From S2P Require Import Prelude GoStrings Json JsonText JsonCompact Models World.
From S2P Require Import Publisher.
From S2P Require Import Consumer.

(** ** Objects written member by member *)

Lemma quote_reads s : reads_to (quote s) (JStr (sanitize s)).
Proof.
  intros [|m] t _ Hm; [lia|]. unfold quote in *. autorewrite with append in *. cbn [parse_value skip_ws].
  eval_bytes. cbn [String.length] in Hm. rewrite parse_string_quote; [done|].
  unfold quote. cbn [String.length]. lia.
Qed.

Lemma member_key k m u :
  (String.length (quote k) <= m)%nat →
  parse_members (S m) (quote k +:+ String ":" u) =
  '(v, r2) ← parse_value m u;
  match skip_ws r2 with
  | String a r3 =>
    if bool_decide (a = "}"%char) then Some ([(sanitize k, v)], r3)
    else if bool_decide (a = ","%char) then '(ms, r4) ← parse_members m r3; Some ((sanitize k, v) :: ms, r4)
    else None
  | "" => None
  end.
Proof.
  intros Hm. cbn [parse_members]. unfold quote at 1. autorewrite with append. cbn [skip_ws]. eval_bytes.
  rewrite parse_string_quote by done. reflexivity.
Qed.

Lemma last_member_to k x v : utf8_valid k = true → reads_to x v → members_to (raw_member k x +:+ "}") [(k, v)].
Proof.
  intros Hk Hx [|m] t Hm; [lia|]. unfold raw_member in *. rewrite !length_append in Hm. cbn [String.length] in Hm.
  autorewrite with append. rewrite member_key, (sanitize_valid _ Hk) by lia.
  by rewrite Hx by (done || lia).
Qed.

Lemma member_to k x v y ms :
  utf8_valid k = true → reads_to x v → members_to y ms → members_to (raw_member k x +:+ "," +:+ y) ((k, v) :: ms).
Proof.
  intros Hk Hx Hy [|m] t Hm; [lia|]. unfold raw_member in *. rewrite !length_append in Hm. cbn [String.length] in Hm.
  autorewrite with append. rewrite member_key, (sanitize_valid _ Hk) by lia.
  rewrite Hx by (done || lia). cbn -[parse_members]. eval_bytes. by rewrite Hy by lia.
Qed.

Lemma object_to y ms : members_to y ms → reads_to ("{" +:+ y) (JObj ms).
Proof.
  intros Hy [|m] t _ Hm; [lia|]. rewrite length_append in Hm. cbn [String.length] in Hm.
  autorewrite with append. cbn [parse_value skip_ws]. eval_bytes. specialize (Hy m t ltac:(lia)).
  destruct (parse_members_starts _ _ _ Hy) as (s' & Hs). rewrite Hs. eval_bytes. by rewrite Hy.
Qed.

Lemma reads_Parse x v : reads_to x v → Parse x = Some v.
Proof.
  intros Hx. unfold Parse. rewrite <- (append_nil_r x) at 2. rewrite Hx by (done || lia). done.
Qed.

(** ** The envelope *)

(** What the consumer decodes from the envelope of a message: the fields
    with ill-formed UTF-8 replaced, and the payload parsed. *)
Definition envelope (m : Publisher.OutboxMessage) : Consumer.OutboxMessage :=
  Consumer.mkOutboxMessage (sanitize (Publisher.OutboxMessage_ID m))
    (sanitize (Publisher.OutboxMessage_AggregateType m)) (sanitize (Publisher.OutboxMessage_AggregateID m))
    (sanitize (Publisher.OutboxMessage_EventType m)) (Parse (Publisher.OutboxMessage_Payload m)).

Lemma MarshalMessage_parses m text :
  utf8_valid (Publisher.OutboxMessage_Payload m) = true → MarshalMessage m = Ok text →
  ∃ v, Parse (Publisher.OutboxMessage_Payload m) = Some v ∧
    Parse text = Some (JObj [("id", JStr (sanitize (Publisher.OutboxMessage_ID m)));
      ("aggregate_type", JStr (sanitize (Publisher.OutboxMessage_AggregateType m)));
      ("aggregate_id", JStr (sanitize (Publisher.OutboxMessage_AggregateID m)));
      ("event_type", JStr (sanitize (Publisher.OutboxMessage_EventType m))); ("payload", v)]).
Proof.
  unfold MarshalMessage. intros Hv. destruct (MarshalRaw _) as [raw|] eqn:Hraw; [|done]. intros [= <-].
  assert (is_Some (Parse (Publisher.OutboxMessage_Payload m))) as [v Hp].
  { unfold MarshalRaw in Hraw. case_bool_decide; [done|]. by destruct (Parse _). }
  exists v. split; [done|]. pose proof (MarshalRaw_reads _ _ _ Hv Hp Hraw) as Hr.
  apply reads_Parse. cbn [join]. rewrite !append_assoc. apply object_to.
  do 4 (apply member_to; [done|apply quote_reads|]). by apply last_member_to.
Qed.

Lemma MarshalMessage_decoded m text :
  utf8_valid (Publisher.OutboxMessage_Payload m) = true → MarshalMessage m = Ok text →
  decode_envelope text = Some (envelope m).
Proof.
  intros Hv Hm. destruct (MarshalMessage_parses _ _ Hv Hm) as (v & Hp & Htext).
  unfold decode_envelope, envelope. rewrite Htext, Hp. reflexivity.
Qed.

Lemma utf8_ascii s : is_ascii s = true → utf8_valid s = true.
Proof.
  induction s as [|a s IH]; [done|]. intros Ha. change (is_ascii_byte a && is_ascii s = true) in Ha.
  apply andb_true_iff in Ha as [Ha Hs]. rewrite utf8_valid_ascii by done. by apply IH.
Qed.

(** C24. The round trip of the envelope: the consumer decodes a message whose
    texts are UTF-8 to the fields that the publisher put in, and to the JSON
    value of its payload, whatever white space and escapes its text has; a
    payload that is no JSON text cannot be sent. *)
Theorem MarshalMessage_roundtrip m :
  utf8_valid (Publisher.OutboxMessage_ID m) = true → utf8_valid (Publisher.OutboxMessage_AggregateType m) = true →
  utf8_valid (Publisher.OutboxMessage_AggregateID m) = true → utf8_valid (Publisher.OutboxMessage_EventType m) = true →
  utf8_valid (Publisher.OutboxMessage_Payload m) = true →
  match Parse (Publisher.OutboxMessage_Payload m) with
  | Some v => ∃ text, MarshalMessage m = Ok text ∧
      decode_envelope text = Some (Consumer.mkOutboxMessage (Publisher.OutboxMessage_ID m)
        (Publisher.OutboxMessage_AggregateType m) (Publisher.OutboxMessage_AggregateID m)
        (Publisher.OutboxMessage_EventType m) (Some v))
  | None => MarshalMessage m = Err ErrJSON
  end.
Proof.
  intros H1 H2 H3 H4 Hv. destruct (Parse _) as [v|] eqn:Hp.
  - assert (∃ text, MarshalMessage m = Ok text) as [text Hm].
    { unfold MarshalMessage, MarshalRaw. rewrite Hp. case_bool_decide as He; [|by eexists]. by rewrite He in Hp. }
    exists text. split; [done|]. rewrite (MarshalMessage_decoded _ _ Hv Hm). unfold envelope. by rewrite Hp, !sanitize_valid.
  - unfold MarshalMessage, MarshalRaw. rewrite Hp. by case_bool_decide.
Qed.

(** ** Objects of texts and integers *)

Definition clean (m : string * json) : string * json :=
  (m.1, match m.2 with JStr s => JStr (sanitize s) | v => v end).

Lemma clean_flat m : flat m → flat (clean m).
Proof. unfold flat, clean. destruct m as [k v]. intros [[s Hs]|[z Hz]]; cbn in *; subst v; [left|right]; by eexists. Qed.

Lemma pretty_reads z : reads_to (Marshal (JInt z)) (JInt z).
Proof.
  set (x := Marshal (JInt z)).
  pose proof (json_reads (JInt z) (json_ok_JInt z) (S (String.length x)) "" eq_refl (Nat.lt_succ_diag_r _)) as Hp.
  fold x in Hp. rewrite append_nil_r in Hp.
  destruct (parse_splits (S (String.length x))) as [Hs _]. apply Hs in Hp as (_ & y & Hy & Hread).
  - rewrite append_nil_r in Hy. by rewrite Hy.
  - rewrite <- (append_nil_r x), num_text_valid; [done|]. unfold x, JInt. cbn [Marshal].
    pose proof (num_lit_pretty z) as Hl. apply bool_decide_eq_true in Hl. by eapply scan_num_text.
Qed.

Lemma flat_reads m : flat m → reads_to (Marshal m.2) (clean m).2.
Proof.
  destruct m as [k v]. intros [[s Hs]|[z Hz]]; cbn in *; subst v; [apply quote_reads|apply pretty_reads].
Qed.

Definition member_text (m : string * json) : string := raw_member m.1 (Marshal m.2).

Lemma Marshal_object ms : Marshal (JObj ms) = "{" +:+ join "," (member_text <$> ms) +:+ "}".
Proof. reflexivity. Qed.
Lemma join_member m m2 ms :
  join "," (member_text <$> m :: m2 :: ms) =
  raw_member m.1 (Marshal m.2) +:+ "," +:+ join "," (member_text <$> m2 :: ms).
Proof. reflexivity. Qed.

(** Reading an object of texts and integers that [json.Marshal] wrote. *)
Lemma Marshal_object_parses ms :
  ms ≠ [] → Forall (λ m, utf8_valid m.1 = true) ms → Forall flat ms →
  Parse (Marshal (JObj ms)) = Some (JObj (clean <$> ms)).
Proof.
  intros Hne Hk Hf. apply reads_Parse. rewrite Marshal_object. apply object_to.
  induction Hk as [|m ms Hm Hk IH]; [done|]. apply Forall_cons in Hf as [Hfm Hf].
  pose proof (flat_reads m Hfm) as Hr. destruct ms as [|m2 ms]; [by apply last_member_to|].
  rewrite (fmap_cons clean), join_member, !append_assoc. apply member_to; [done..|]. by apply IH.
Qed.

(** ** A field that one member sets, in any order of the members *)

Lemma string_field_filter f ms :
  string_field f ms = string_field f (base.filter (λ m, key_matches f m.1 = true) ms).
Proof.
  unfold string_field. generalize ("", false). induction ms as [|m ms IH]; intros acc; [done|].
  rewrite filter_cons. cbn [foldl]. destruct (key_matches f m.1) eqn:Hk.
  - rewrite decide_True by done. cbn [foldl]. by rewrite Hk, IH.
  - rewrite decide_False by done. apply IH.
Qed.

Lemma string_field_perm f ms ms' k s :
  ms' ≡ₚ ms → base.filter (λ m, key_matches f m.1 = true) ms = [(k, JStr s)] → string_field f ms' = (s, false).
Proof.
  intros Hp Hf. rewrite string_field_filter. apply (filter_Permutation (λ m, key_matches f m.1 = true)) in Hp.
  rewrite Hf in Hp. apply Permutation_singleton_r in Hp. rewrite Hp.
  assert (key_matches f k = true) as Hk; [|unfold string_field; cbn [foldl fst snd]; by rewrite Hk].
  assert ((k, JStr s) ∈ base.filter (λ m, key_matches f m.1 = true) ms) as [Hk _]%list_elem_of_filter
    by (rewrite Hf; by apply list_elem_of_singleton). done.
Qed.
