(* ===== verification/Drain.v ===== *)
(** * The publisher empties the outbox

    [Run] of internal/publisher/outbox_publisher.go in a calm stretch: the
    connection and the producer do not fail, and no other process holds rows.
    Then its batches, one after the other, do what one pass over all
    unpublished events in the order of creation would do. *)

From S2P Require Import Prelude GoStrings Json Models World.
From S2P Require Import Sqlc.
From S2P Require Import Store.
From S2P Require Import Spec Evolution.
From S2P Require Import Publisher.

(** From [w] on no call fails and no row is locked by others. *)
Definition undisturbed `{External} (w : World) : Prop :=
  ∀ i, fault (w_tick w + i) = NoFault ∧ locked_rows (w_tick w + i) = ∅.

Lemma undisturbed_later `{External} w w' : undisturbed w → (w_tick w ≤ w_tick w')%nat → undisturbed w'.
Proof. intros Hw Hle i. replace (w_tick w' + i)%nat with (w_tick w + (w_tick w' - w_tick w + i))%nat by lia. apply Hw. Qed.

(** The events that are not published yet. *)
Definition pending (db : DB) : list OutboxEvent :=
  select (λ e, bool_decide (OutboxEvent_PublishedAt e = None)) (outbox_events db).

Lemma elem_of_pending db e :
  e ∈ pending db ↔ OutboxEvent_PublishedAt e = None ∧ ∃ id, outbox_events db !! id = Some e.
Proof. unfold pending. by rewrite elem_of_select, bool_decide_eq_true. Qed.

Lemma pending_NoDup db : keyed db → NoDup (OutboxEvent_ID <$> pending db).
Proof.
  intros Hk. pose proof (NoDup_rows_id _ Hk) as Hnd.
  assert (pending db ⊆+ rows (outbox_events db)) as [k Hperm]%submseteq_Permutation
    by apply sublist_submseteq, sublist_filter.
  rewrite Hperm, fmap_app in Hnd. by apply NoDup_app in Hnd as [? _].
Qed.

Lemma claimed_pending limit db :
  claimed limit ∅ db = take (Z.to_nat limit) (order_by OutboxEvent_CreatedAt (pending db)).
Proof.
  unfold claimed, pending, select. do 2 f_equal. apply list_filter_iff. intros e. unfold claimable.
  rewrite (bool_decide_eq_true_2 (_ ∉ ∅)) by set_solver. by rewrite andb_true_r.
Qed.

(** What a batch leaves: the pending events behind those it claimed. *)
Lemma marked_pending n db db' :
  let sorted := order_by OutboxEvent_CreatedAt (pending db) in
  keyed db → keyed db' → marked (take n sorted) db db' → pending db' ≡ₚ drop n sorted.
Proof.
  intros sorted Hk Hk' (Hin & Hout & _).
  assert (sorted ≡ₚ pending db) as Hperm by apply order_by_perm.
  assert (NoDup (OutboxEvent_ID <$> sorted)) as Hnd by (rewrite Hperm; by apply pending_NoDup).
  assert (∀ e, e ∈ sorted ↔ OutboxEvent_PublishedAt e = None ∧ outbox_events db !! OutboxEvent_ID e = Some e) as Hsorted.
  { intros e. rewrite Hperm, elem_of_pending. split; intros [Hp He]; (split; [done|]); [|by eexists].
    destruct He as [id He]. by rewrite (keyed_events _ Hk _ _ He). }
  rewrite <- (take_drop n sorted), fmap_app in Hnd. apply NoDup_app in Hnd as (_ & Hdisj & Hnd).
  apply NoDup_Permutation; [by eapply NoDup_fmap_1, pending_NoDup|by eapply NoDup_fmap_1|]. intros e.
  rewrite elem_of_pending. split.
  - intros [Hp [id He]]. pose proof (keyed_events _ Hk' _ _ He) as <-.
    destruct (decide (OutboxEvent_ID e ∈ OutboxEvent_ID <$> take n sorted)) as [Ht|Ht].
    + apply list_elem_of_fmap in Ht as (e' & Heq & He'). destruct (Hin _ He') as [now Hnow].
      rewrite <- Heq, He in Hnow. by injection Hnow as ->.
    + rewrite Hout in He by done. assert (e ∈ take n sorted ++ drop n sorted) as [?|?]%elem_of_app; [|by destruct Ht; apply list_elem_of_fmap_2|done].
      rewrite take_drop. by apply Hsorted.
  - intros He. assert (e ∈ sorted) as [Hp Hst]%Hsorted by (rewrite <- (take_drop n sorted); set_solver).
    split; [done|]. exists (OutboxEvent_ID e). rewrite Hout; [done|]. intros Ht. apply (Hdisj _ Ht). by apply list_elem_of_fmap_2.
Qed.

Section drain.
Context `{External} `{!ExternalLaws _} `{P : Producer} `{!ReliableProducer P}.

(** Events [es] were sent in this order and marked. *)
Record drained (cfg : Config) (es : list OutboxEvent) (w w' : World) : Prop := {
  dr_sorted : StronglySorted (asc_le OutboxEvent_CreatedAt) es;
  dr_topic : ∃ recs, Forall2 (λ e rec, event_record cfg e = Some rec) es recs ∧ w_topic w' = rev recs ++ w_topic w;
  dr_marked : marked es (w_db w) (w_db w');
  dr_seed : w_seed w' = w_seed w;
  dr_tick : (w_tick w ≤ w_tick w')%nat
}.

Lemma marked_keyed es db db' :
  keyed db → Forall (λ e, outbox_events db !! OutboxEvent_ID e = Some e) es → marked es db db' → keyed db'.
Proof.
  intros Hk Hst (Hin & Hout & evs & ->). destruct Hk as [? ? ? ? ? Hev ? ?]. split; cbn; try done.
  intros id e He. destruct (decide (id ∈ OutboxEvent_ID <$> es)) as [Ht|Ht]; [|rewrite Hout in He by done; by apply Hev].
  apply list_elem_of_fmap in Ht as (e' & -> & He'). destruct (Hin _ He') as [now Hnow]. cbn in Hnow. rewrite He in Hnow.
  by injection Hnow as ->.
Qed.

Lemma marked_trans es1 es2 db1 db2 db3 :
  (∀ e, e ∈ es1 → OutboxEvent_ID e ∉ OutboxEvent_ID <$> es2) →
  marked es1 db1 db2 → marked es2 db2 db3 → marked (es1 ++ es2) db1 db3.
Proof.
  intros Hdisj (H1 & O1 & evs1 & ->) (H2 & O2 & evs2 & ->). split_and!.
  - intros e [He|He]%elem_of_app; [|by apply H2]. destruct (H1 _ He) as [now Hnow]. exists now.
    by rewrite O2 by by apply Hdisj.
  - intros id Hid. rewrite fmap_app in Hid. rewrite O2, O1 by set_solver. done.
  - by exists evs2.
Qed.

Lemma drained_trans cfg k sorted es w w1 w2 :
  StronglySorted (asc_le OutboxEvent_CreatedAt) sorted → NoDup (OutboxEvent_ID <$> sorted) → es ≡ₚ drop k sorted →
  drained cfg (take k sorted) w w1 → drained cfg es w1 w2 → drained cfg (take k sorted ++ es) w w2.
Proof.
  intros Hs Hnd Hes [_ (r1 & F1 & T1) M1 S1 K1] [Hs2 (r2 & F2 & T2) M2 S2 K2].
  rewrite <- (take_drop k sorted) in Hs, Hnd. apply StronglySorted_app in Hs as (Hle & Hs1 & _).
  rewrite fmap_app in Hnd. apply NoDup_app in Hnd as (_ & Hdisj & _). split.
  - apply StronglySorted_app_2; [|done..]. intros x y Hx Hy. apply Hle; [done|by rewrite <- Hes].
  - exists (r1 ++ r2). split; [by apply Forall2_app|]. by rewrite T2, T1, rev_app_distr, app_assoc.
  - eapply marked_trans; [|done..]. intros e He. rewrite Hes. apply Hdisj. by apply list_elem_of_fmap_2.
  - congruence.
  - lia.
Qed.

(** One batch takes the oldest pending events. *)
Lemma batch_drains cfg w :
  let sorted := order_by OutboxEvent_CreatedAt (pending (w_db w)) in
  keyed (w_db w) → 0 < Config_BatchSize cfg → undisturbed w →
  Forall (λ e, is_Some (event_record cfg e)) (pending (w_db w)) →
  ∃ w', PublishBatch cfg w = (Ok tt, w') ∧ drained cfg (take (Z.to_nat (Config_BatchSize cfg)) sorted) w w' ∧ keyed (w_db w').
Proof.
  intros sorted Hk Hb Hw Hrec. pose proof (Hw 1%nat) as [_ Hl]. rewrite Nat.add_comm in Hl.
  pose proof (claimed_pending (Config_BatchSize cfg) (w_db w)) as Hc. rewrite <- Hl in Hc.
  pose proof (claimed_stored (Config_BatchSize cfg) (locked_rows (1 + w_tick w)) _ Hk) as Hst.
  pose proof (claimed_sorted (Config_BatchSize cfg) (locked_rows (1 + w_tick w)) (w_db w)) as Hs.
  assert (∃ recs, Forall2 (λ e rec, event_record cfg e = Some rec)
    (claimed (Config_BatchSize cfg) (locked_rows (1 + w_tick w)) (w_db w)) recs) as [recs Hrecs].
  { assert (Forall (λ e, ∃ rec, event_record cfg e = Some rec) (claimed (Config_BatchSize cfg) (locked_rows (1 + w_tick w)) (w_db w))) as Hall.
    { rewrite Hc. apply Forall_take. by rewrite order_by_perm. }
    by apply Forall_exists_Forall2_l in Hall. }
  destruct (PublishBatch_delivers cfg w recs) as (w' & Hrun & Htick & Hseed & Htop & Hm); [done|lia|intros; apply Hw|exact Hrecs|].
  exists w'. change (S (w_tick w)) with (1 + w_tick w)%nat in *. split_and!; [done| |by eapply marked_keyed].
  rewrite Hc in *. split; [done|by exists recs|done|done|lia].
Qed.

(** All batches together do one pass. *)
Lemma Run_drained cfg n w :
  keyed (w_db w) → 0 < Config_BatchSize cfg → undisturbed w →
  Forall (λ e, is_Some (event_record cfg e)) (pending (w_db w)) →
  Z.of_nat (length (pending (w_db w))) ≤ Config_BatchSize cfg * Z.of_nat (S n) →
  ∃ es w', Run cfg n w = (Ok tt, w') ∧ es ≡ₚ pending (w_db w) ∧ drained cfg es w w' ∧ pending (w_db w') = [].
Proof.
  intros Hk Hb Hw. revert w Hk Hw. induction n as [|n IH]; intros w Hk Hw Hrec Hlen;
    destruct (batch_drains cfg w Hk Hb Hw Hrec) as (w1 & Hrun & Hd & Hk1);
    set (k := Z.to_nat (Config_BatchSize cfg)) in *;
    set (sorted := order_by OutboxEvent_CreatedAt (pending (w_db w))) in *;
    assert (sorted ≡ₚ pending (w_db w)) as Hperm by apply order_by_perm;
    pose proof (marked_pending k _ _ Hk Hk1 (dr_marked _ _ _ _ Hd)) as Hleft; fold sorted in Hleft.
  - assert (length sorted ≤ k)%nat as Hall by (rewrite (Permutation_length Hperm); lia).
    rewrite drop_ge in Hleft by done. rewrite take_ge in Hd by done. exists sorted, w1.
    split; [cbn [Run]; unfold bind; by rewrite (try_eval _ _ _ _ Hrun)|]. split_and!; [done..|by apply Permutation_nil].
  - destruct (IH w1) as (es & w' & Hrun' & Hes & Hd' & Hp); [done|eapply undisturbed_later; [exact Hw|apply Hd]| | |].
    + rewrite Hleft. apply Forall_drop. by rewrite Hperm.
    + rewrite (Permutation_length Hleft), length_drop, (Permutation_length Hperm). lia.
    + exists (take k sorted ++ es), w'. rewrite Hleft in Hes.
      split; [cbn [Run]; unfold bind; by rewrite (try_eval _ _ _ _ Hrun)|]. split_and!; [|eapply drained_trans; [apply order_by_sorted| |exact Hes|exact Hd|exact Hd']|done].
      * by rewrite Hes, take_drop.
      * fold sorted. rewrite Hperm. by apply pending_NoDup.
Qed.
End drain.
