(* ===== verification/Losses.v ===== *)
(** * Batches in which deliveries fail

    [PublishBatch] of internal/publisher/outbox_publisher.go with a producer
    that loses some records, over a connection that does not fail: the batch
    goes on behind every event that it could not send.  So the events of one
    order can overtake each other. *)

From S2P Require Import Prelude GoStrings Json Models World.
From S2P Require Import Sqlc.
From S2P Require Import Store.
From S2P Require Import Spec Evolution.
From S2P Require Import Publisher.

(** A producer that fails for some records, with one error, and delivers the
    others. *)
Class LosingProducer `(Producer) (lost : KafkaRecord → bool) (reason : error) := {
  Publish_loses topic key payload w :
    Publish topic key payload w =
      if lost (mkKafkaRecord topic key payload) then (Err reason, w)
      else (Ok tt, add_record (mkKafkaRecord topic key payload) w)
}.

Lemma elem_of_rev {A} (x : A) l : x ∈ rev l ↔ x ∈ l.
Proof. by rewrite !list_elem_of_In, <- in_rev. Qed.

Lemma sorted_lookup {A} (R : relation A) l i j x y :
  StronglySorted R l → (i < j)%nat → l !! i = Some x → l !! j = Some y → R x y.
Proof.
  intros Hs Hij Hx Hy. rewrite <- (take_drop (S i) l) in Hs. eapply StronglySorted_app_1_elem_of; [exact Hs|..].
  - apply (list_elem_of_lookup_2 _ i). by rewrite lookup_take_lt by lia.
  - apply (list_elem_of_lookup_2 _ (j - S i)). rewrite lookup_drop. by replace (S i + (j - S i))%nat with j by lia.
Qed.

Section losses.
Context `{External} `{!ExternalLaws _} `{P : Producer} (lost : KafkaRecord → bool) (reason : error).
Context `{!LosingProducer P lost reason}.

(** The row of an event after the batch: one more failed attempt, or published. *)
Definition outcome (rec : KafkaRecord) (e row : OutboxEvent) : Prop :=
  if lost rec then row = mark_failed (text (error_text ext_text reason)) e else ∃ now, row = mark_published now e.

Lemma outcome_id rec e row : outcome rec e row → OutboxEvent_ID row = OutboxEvent_ID e.
Proof. unfold outcome. destruct (lost rec); [by intros ->|by intros [now ->]]. Qed.

(** The event can be marked failed: the error is a text of PostgreSQL, and the
    counter of attempts has room. *)
Definition markable (e : OutboxEvent) : Prop :=
  opt_text_ok (text (error_text ext_text reason)) = true ∧ 0 ≤ OutboxEvent_Attempt e < int32_max.

Lemma publish_event_loses cfg e w rec :
  outbox_events (w_db w) !! OutboxEvent_ID e = Some e → fault (w_tick w) = NoFault → markable e →
  event_record cfg e = Some rec →
  ∃ w' row, publish_event cfg e w = (Ok tt, w') ∧ w_tick w' = S (w_tick w) ∧
    w_topic w' = (if lost rec then [] else [rec]) ++ w_topic w ∧
    outcome rec e row ∧ w_db w' = put_event row (w_db w).
Proof.
  intros He Hf [Htext Hat] Hrec. unfold event_record in Hrec. unfold publish_event, outcome.
  destruct (MarshalMessage (event_message e)) as [msg|]; [|done]. injection Hrec as <-.
  erewrite bind_eval by reflexivity. unfold bind at 1, try. rewrite Publish_loses. destruct (lost _).
  - unfold bind at 1, Store.MarkOutboxEventFailed, bind, Sqlc.MarkOutboxEventFailed.
    rewrite (scan_eval _ _ _ (UUID_Scan_String (OutboxEvent_ID e))). rewrite query_nofault by exact Hf.
    cbn [qMarkOutboxEventFailed_LastError qMarkOutboxEventFailed_ID]. rewrite Htext, He. cbn -[guarded].
    unfold guarded, first_violation. cbn. rewrite !bool_decide_eq_true_2 by (cbn; lia).
    eexists _, _. split; [reflexivity|]. by split_and!.
  - unfold bind at 1, Store.MarkOutboxEventPublished, bind, Sqlc.MarkOutboxEventPublished.
    rewrite (scan_eval _ _ _ (UUID_Scan_String (OutboxEvent_ID e))). rewrite query_nofault by exact Hf.
    cbn. rewrite He. cbn. eexists _, _. split; [reflexivity|]. split_and!; [done..|by eexists|done].
Qed.

(** What the loop over the claimed events leaves. *)
Definition batch_outcome (es : list OutboxEvent) (recs : list KafkaRecord) (w w' : World) : Prop :=
  w_topic w' = rev (base.filter (λ rec, lost rec = false) recs) ++ w_topic w ∧
  Forall2 (λ e rec, ∃ row, outbox_events (w_db w') !! OutboxEvent_ID e = Some row ∧ outcome rec e row) es recs ∧
  ∀ id, id ∉ (OutboxEvent_ID <$> es) → outbox_events (w_db w') !! id = outbox_events (w_db w) !! id.

Lemma publish_events_lose cfg es recs w :
  NoDup (OutboxEvent_ID <$> es) → Forall (λ e, outbox_events (w_db w) !! OutboxEvent_ID e = Some e) es →
  (∀ i, (i < length es)%nat → fault (w_tick w + i) = NoFault) → Forall markable es →
  Forall2 (λ e rec, event_record cfg e = Some rec) es recs →
  ∃ w', publish_events cfg es w = (Ok tt, w') ∧ w_tick w' = (w_tick w + length es)%nat ∧ batch_outcome es recs w w'.
Proof.
  intros Hnd Hst Hf Hm Hrecs. revert w Hst Hf. induction Hrecs as [|e rec es recs Hrec Hrecs IH]; intros w Hst Hf.
  - exists w. split; [done|]. split; [cbn; lia|]. by split_and!.
  - cbn in Hnd. apply NoDup_cons in Hnd as [Hni Hnd]. apply Forall_cons in Hst as [He Hst].
    apply Forall_cons in Hm as [Hme Hm].
    assert (fault (w_tick w) = NoFault) as Hf0 by (at_tick w 0%nat; apply Hf; cbn; lia).
    destruct (publish_event_loses cfg e w rec He Hf0 Hme Hrec) as (w1 & row & Hrun & Htick & Htop & Hrow & Hdb).
    pose proof (outcome_id _ _ _ Hrow) as Hid.
    assert (∀ id, OutboxEvent_ID e ≠ id → outbox_events (w_db w1) !! id = outbox_events (w_db w) !! id) as Hother
      by (intros id Hne; rewrite Hdb; cbn; by rewrite Hid, lookup_insert_ne).
    destruct (IH Hnd Hm w1) as (w' & Hrun' & Htick' & Htop' & Hrows & Hrest).
    { rewrite Forall_forall in Hst |- *. intros e' He'. rewrite Hother; [by apply Hst|].
      intros Heq. apply Hni. rewrite Heq. by apply list_elem_of_fmap_2. }
    { intros i Hi. rewrite Htick. at_tick w (S i). apply Hf. cbn. lia. }
    exists w'. split; [cbn [publish_events]; unfold bind; by rewrite Hrun|]. split; [rewrite Htick', Htick; cbn; lia|].
    split_and!.
    + rewrite Htop', Htop, filter_cons. destruct (lost rec); [by rewrite decide_False|].
      rewrite decide_True by done. cbn. by rewrite <- app_assoc.
    + constructor; [|exact Hrows]. exists row. split; [|exact Hrow]. rewrite Hrest by done.
      rewrite Hdb. cbn. by rewrite Hid, lookup_insert_eq.
    + intros id Hx. cbn in Hx. apply not_elem_of_cons in Hx as [Hne Hx]. rewrite Hrest by done. by apply Hother.
Qed.

(** A batch: each claimed event is sent and marked, or only marked. *)
Lemma PublishBatch_loses cfg w recs :
  let es := claimed (Config_BatchSize cfg) (locked_rows (S (w_tick w))) (w_db w) in
  keyed (w_db w) → 0 ≤ Config_BatchSize cfg →
  (∀ i, (i < 3 + length es)%nat → fault (w_tick w + i) = NoFault) → Forall markable es →
  Forall2 (λ e rec, event_record cfg e = Some rec) es recs →
  ∃ w', PublishBatch cfg w = (Ok tt, w') ∧ batch_outcome es recs w w'.
Proof.
  intros es Hk Hl Hf Hm Hrecs. set (w0 := set_txnow (Some (clock (w_tick w))) (next_tick w)).
  assert (Sqlc.ClaimOutboxEvents (Config_BatchSize cfg) w0 = (Ok es, next_tick w0)) as Hclaim.
  { unfold Sqlc.ClaimOutboxEvents. rewrite query_nofault.
    - rewrite bool_decide_eq_false_2 by lia. by destruct w.
    - at_tick w 1%nat. apply Hf. lia. }
  destruct (publish_events_lose cfg es recs (next_tick w0)) as (w' & Hrun & Htick & Hout);
    [by apply claimed_NoDup|by apply claimed_stored| |done|done|].
  { intros i Hi. at_tick w (2 + i)%nat. apply Hf. lia. }
  eexists. split.
  - eapply WithTx_eval; [|unfold publish_batch_tx; by rewrite (bind_eval _ _ _ _ _ Hclaim)|].
    + at_tick w 0%nat. apply Hf. lia.
    + rewrite Htick. at_tick w (2 + length es)%nat. apply Hf. lia.
  - exact Hout.
Qed.

(** C40. A batch goes on behind an event that it could not send, so events of
    one order can overtake each other: with a producer that loses some
    records, over a connection that does not fail, PublishBatch succeeds and
    leaves in the log, in the order of creation, the records of all the other
    claimed events.  Of two claimed events with one partition key, the earlier
    lost and the later not, the later has its record in the log and is marked
    published, while the earlier stays unpublished, with one more attempt and
    without a record. *)
Theorem events_overtake cfg w recs :
  let es := claimed (Config_BatchSize cfg) (locked_rows (S (w_tick w))) (w_db w) in
  reachable (w_db w) → 0 ≤ Config_BatchSize cfg →
  (∀ i, (i < 3 + length es)%nat → fault (w_tick w + i) = NoFault) → Forall markable es →
  Forall2 (λ e rec, event_record cfg e = Some rec) es recs →
  ∃ w', PublishBatch cfg w = (Ok tt, w') ∧
    w_topic w' = rev (base.filter (λ rec, lost rec = false) recs) ++ w_topic w ∧
    ∀ i j e1 e2 rec1 rec2, (i < j)%nat → es !! i = Some e1 → es !! j = Some e2 →
      recs !! i = Some rec1 → recs !! j = Some rec2 → lost rec1 = true → lost rec2 = false →
      OutboxEvent_PartitionKey e1 = OutboxEvent_PartitionKey e2 →
      OutboxEvent_CreatedAt e1 ≤ OutboxEvent_CreatedAt e2 ∧ rec_key rec1 = rec_key rec2 ∧
      (∃ row2, outbox_events (w_db w') !! OutboxEvent_ID e2 = Some row2 ∧ is_Some (OutboxEvent_PublishedAt row2)) ∧
      rec2 ∈ w_topic w' ∧
      (∃ row1, outbox_events (w_db w') !! OutboxEvent_ID e1 = Some row1 ∧ OutboxEvent_PublishedAt row1 = None ∧
         OutboxEvent_Attempt row1 = OutboxEvent_Attempt e1 + 1) ∧
      (rec1 ∉ w_topic w → rec1 ∉ w_topic w').
Proof.
  intros es Hr Hl Hf Hm Hrecs. apply reachable_keyed in Hr as Hk.
  destruct (PublishBatch_loses cfg w recs Hk Hl Hf Hm Hrecs) as (w' & Hrun & Htop & Hrows & _).
  exists w'. split; [exact Hrun|]. split; [exact Htop|]. intros i j e1 e2 rec1 rec2 Hij H1 H2 Hr1 Hr2 Hlost Hsent Hpk.
  destruct (Forall2_lookup_lr _ _ _ _ _ _ Hrows H1 Hr1) as (row1 & Hrow1 & Hout1).
  destruct (Forall2_lookup_lr _ _ _ _ _ _ Hrows H2 Hr2) as (row2 & Hrow2 & Hout2).
  unfold outcome in Hout1, Hout2. rewrite Hlost in Hout1. rewrite Hsent in Hout2. destruct Hout2 as [now ->].
  split_and!.
  - pose proof (claimed_sorted (Config_BatchSize cfg) (locked_rows (S (w_tick w))) (w_db w)) as Hs. fold es in Hs.
    exact (sorted_lookup _ _ _ _ _ _ Hs Hij H1 H2).
  - pose proof (Forall2_lookup_lr _ _ _ _ _ _ Hrecs H1 Hr1) as He1.
    pose proof (Forall2_lookup_lr _ _ _ _ _ _ Hrecs H2 Hr2) as He2. unfold event_record in He1, He2.
    destruct (MarshalMessage (event_message e1)), (MarshalMessage (event_message e2)); simplify_eq. cbn. by rewrite Hpk.
  - eexists. split; [exact Hrow2|]. by eexists.
  - rewrite Htop. apply elem_of_app. left. rewrite elem_of_rev. apply list_elem_of_filter.
    split; [done|]. by eapply list_elem_of_lookup_2.
  - subst row1. eexists. split; [exact Hrow1|]. split; [|done]. cbn.
    assert (e1 ∈ es) as Hin by (by eapply list_elem_of_lookup_2). apply elem_of_claimed in Hin as [Hcl _].
    unfold claimable in Hcl. by apply andb_true_iff in Hcl as [Hp%bool_decide_eq_true _].
  - intros Hno. rewrite Htop. intros [Hin|Hin]%elem_of_app; [|done]. rewrite elem_of_rev in Hin.
    apply list_elem_of_filter in Hin as [Hx _]. congruence.
Qed.
End losses.
