(* ===== verification/Kafka.v ===== *)
(** * The Kafka clients

    [internal/kafka]: the producer behind the publisher's interface and the
    loop of the consumer.  The clients of confluent-kafka-go and the broker are
    interfaces with the behaviour they document: an acknowledged message is in
    the log, a poll gives the record at the position of its partition, and,
    since [enable.auto.commit] is false, committed offsets move by
    [CommitMessage] only. *)

From S2P Require Import Prelude GoStrings Json Models World.
From S2P Require Import Publisher.

(** ** Configuration of the clients *)

Inductive ConfigValue := CfgString (s : string) | CfgInt (n : Z) | CfgBool (b : bool).

Definition NewProducer {C} (client : list (string * ConfigValue) → result C) (bootstrapServers : string) : result C :=
  if bool_decide (bootstrapServers = "") then Err (ErrNew "kafka bootstrap servers must not be empty") else
  match client [("bootstrap.servers", CfgString bootstrapServers); ("client.id", CfgString "order-outbox-publisher");
                ("acks", CfgString "all"); ("enable.idempotence", CfgBool true); ("message.timeout.ms", CfgInt 10000)] with
  | Ok c => Ok c
  | Err err => Err (ErrWrap "create kafka producer: " err "")
  end.

(** [logger] tells whether there is one. *)
Definition NewConsumer {C} (client : list (string * ConfigValue) → result C)
    (bootstrapServers groupID : string) (logger : bool) : result C :=
  if bool_decide (bootstrapServers = "") then Err (ErrNew "kafka bootstrap servers must not be empty") else
  if bool_decide (groupID = "") then Err (ErrNew "kafka consumer group must not be empty") else
  if negb logger then Err (ErrNew "kafka consumer logger must not be nil") else
  match client [("bootstrap.servers", CfgString bootstrapServers); ("group.id", CfgString groupID);
                ("client.id", CfgString "notification-consumer"); ("enable.auto.commit", CfgBool false);
                ("enable.auto.offset.store", CfgBool false); ("auto.offset.reset", CfgString "earliest");
                ("isolation.level", CfgString "read_committed")] with
  | Ok c => Ok c
  | Err err => Err (ErrWrap "create kafka consumer: " err "")
  end.

(** ** Metadata of the topic *)

Record TopicMetadata := mkTopicMetadata { TopicMetadata_Error : option error; TopicMetadata_Partitions : list Z }.
Record Metadata := mkMetadata { Metadata_Brokers : list Z; Metadata_Topics : gmap string TopicMetadata }.

Section check_topic.
Context `{External}.

(** [CheckTopic(ctx, topic, timeout)]: what [ctx.Err] says before and after the
    call to the client, and the client's answer to (topic, milliseconds). *)
Definition CheckTopic (ctx_before ctx_after : option error) (GetMetadata : string → Z → result Metadata)
    (topic : string) (timeout : Z) : result unit :=
  if bool_decide (topic = "") then Err (ErrNew "kafka topic must not be empty") else
  if timeout <=? 0 then Err (ErrNew "kafka metadata timeout must be positive") else
  match ctx_before with
  | Some err => Err err
  | None =>
    match GetMetadata topic (timeout / 1000000) with
    | Err err => Err (ErrWrap "get kafka metadata: " err "")
    | Ok metadata =>
      match ctx_after with
      | Some err => Err err
      | None =>
        if bool_decide (length (Metadata_Brokers metadata) = 0%nat)
        then Err (ErrNew "kafka metadata contains no brokers") else
        match Metadata_Topics metadata !! topic with
        | None => Err (ErrNew ("kafka topic " +:+ Quote unicode_is_print topic +:+ " not found in metadata"))
        | Some topicMetadata =>
          match TopicMetadata_Error topicMetadata with
          | Some err => Err (ErrWrap ("kafka topic " +:+ Quote unicode_is_print topic +:+ " metadata error: ") err "")
          | None =>
            if bool_decide (length (TopicMetadata_Partitions topicMetadata) = 0%nat)
            then Err (ErrNew ("kafka topic " +:+ Quote unicode_is_print topic +:+ " contains no partitions"))
            else Ok tt
          end
        end
      end
    end
  end.
End check_topic.

(** [Producer.Close] after [Flush] left [remaining] messages in the queue. *)
Definition Producer_Close (remaining : Z) : result unit :=
  if 0 <? remaining
  then Err (ErrNew ("close kafka producer with " +:+ pretty remaining +:+ " undelivered messages"))
  else Ok tt.

Definition Consumer_Close (closed : result unit) : result unit :=
  match closed with Ok _ => Ok tt | Err err => Err (ErrWrap "close kafka consumer: " err "") end.

(** ** The producer *)

(** What the [select] of [Publish] receives. *)
Inductive Awaited := CtxDone (err : error) | DeliveryReport (err : option error) | OtherReport (type : string).

(** [Produce] enqueues a message, [await_delivery] waits for the end of the
    context or the event on the channel of this message. *)
Class ProducerClient := {
  Produce : string → string → string → M unit;
  await_delivery : string → string → string → World → Awaited * World
}.

(** An enqueued message is in the log when its delivery is reported without
    an error, and may be there in the other cases. *)
Class ProducerClientLaws `(ProducerClient) := {
  Produce_frame topic key payload w r w' :
    Produce topic key payload w = (r, w') →
    w_topic w' = w_topic w ∧ w_db w' = w_db w ∧ w_metrics w' = w_metrics w ∧ w_txnow w' = w_txnow w;
  await_delivered topic key payload w w' :
    await_delivery topic key payload w = (DeliveryReport None, w') →
    w_topic w' = mkKafkaRecord topic key payload :: w_topic w;
  await_other topic key payload w a w' :
    await_delivery topic key payload w = (a, w') →
    w_topic w' = w_topic w ∨ w_topic w' = mkKafkaRecord topic key payload :: w_topic w;
  await_frame topic key payload w a w' :
    await_delivery topic key payload w = (a, w') →
    w_db w' = w_db w ∧ w_metrics w' = w_metrics w ∧ w_txnow w' = w_txnow w
}.

Section producer.
Context `{ProducerClient}.

Definition Publish (topic key payload : string) : M unit :=
  return_if bool_decide (topic = "") with_err ErrNew "kafka topic must not be empty" in
  return_if bool_decide (String.length key = 0%nat) with_err ErrNew "kafka message key must not be empty" in
  let* produced := try (Produce topic key payload) in
  match produced with
  | Err err => throw (ErrWrap "enqueue kafka message: " err "")
  | Ok _ => λ w,
    match await_delivery topic key payload w with
    | (CtxDone err, w1) => (Err err, w1)
    | (OtherReport type, w1) => (Err (ErrNew ("unexpected kafka delivery event: " +:+ type)), w1)
    | (DeliveryReport (Some err), w1) => (Err (ErrWrap "deliver kafka message: " err ""), w1)
    | (DeliveryReport None, w1) => (Ok tt, w1)
    end
  end.

(** The producer as the publisher takes it. *)
#[export] Instance kafka_producer : Producer := {| Publisher.Publish := Publish |}.
End producer.

Section producer_facts.
Context `{PC : ProducerClient} `{!ProducerClientLaws PC}.

(** Every outcome of Publish. *)
Lemma Publish_cases topic key payload w r w' :
  Publish topic key payload w = (r, w') →
  (w_db w' = w_db w ∧ w_metrics w' = w_metrics w ∧ w_txnow w' = w_txnow w) ∧
  ((r = Ok tt ∧ w_topic w' = mkKafkaRecord topic key payload :: w_topic w ∧ topic ≠ "" ∧ key ≠ "") ∨
   (is_ok r = false ∧ (w_topic w' = w_topic w ∨
      w_topic w' = mkKafkaRecord topic key payload :: w_topic w ∧ topic ≠ "" ∧ key ≠ ""))).
Proof.
  unfold Publish. case_bool_decide as Ht; [intros [= <- <-]; split; [done|]; right; auto|].
  case_bool_decide as Hk; [intros [= <- <-]; split; [done|]; right; auto|].
  assert (key ≠ "") as Hk' by (by intros ->).
  unfold bind, try. destruct (Produce topic key payload w) as [rp w1] eqn:Hp.
  apply Produce_frame in Hp as (Ht1 & Hd1 & Hm1 & Hn1).
  destruct rp as [?|err]; [|intros [= <- <-]; split; [done|]; right; auto].
  destruct (await_delivery topic key payload w1) as [report w2] eqn:Ha. rewrite <- Ht1, <- Hd1, <- Hm1, <- Hn1.
  pose proof (await_other _ _ _ _ _ _ Ha) as Hother. pose proof (await_frame _ _ _ _ _ _ Ha) as Hframe.
  assert (w_topic w2 = w_topic w1 ∨ w_topic w2 = mkKafkaRecord topic key payload :: w_topic w1 ∧ topic ≠ "" ∧ key ≠ "")
    as Hgrow by naive_solver.
  destruct report as [err|[err|]|type]; intros [= <- <-]; (split; [exact Hframe|]).
  - right. auto.
  - right. auto.
  - left. by apply await_delivered in Ha.
  - right. auto.
Qed.

(** The Kafka producer is a producer in the sense of the publisher. *)
#[export] Instance kafka_producer_laws : ProducerLaws kafka_producer.
Proof.
  split; cbn.
  - intros topic key payload w w' Hp. apply Publish_cases in Hp as [_ [(_ & Ht & _)|[Hno _]]]; [exact Ht|done].
  - intros topic key payload w e w' Hp. apply Publish_cases in Hp as [_ [(Hok & _)|(_ & [Ht|[Ht _]])]];
      [done|by left|by right].
  - intros topic key payload w r w' Hp. by apply Publish_cases in Hp as [? _].
Qed.
End producer_facts.
