(* ===== verification/KafkaConsumer.v ===== *)
(** * The loop of the Kafka consumer

    [internal/kafka/consumer.go]: [Run] subscribes, polls, hands each record to
    the handler and commits its offset after the handler is done.  One turn
    of the loop is a function; [Run] iterates it up to a number of turns, since
    the loop of the program ends only with its context or an error. *)

From S2P Require Import Prelude GoStrings Json Models World.

Definition consumerPollTimeoutMilliseconds : Z := 500.

(** [Record] of the package. *)
Record ConsumerRecord := mkConsumerRecord {
  Record_Topic : string;
  Record_Partition : Z;
  Record_Offset : Z;
  Record_Key : string;
  Record_Value : string
}.

(** A message of the client. *)
Record Message := mkMessage {
  Message_Topic : option string;
  Message_Partition : Z;
  Message_Offset : Z;
  Message_Key : string;
  Message_Value : string
}.

Inductive Event :=
  | NilEvent
  | MessageEvent (message : Message)
  | ErrorEvent (fatal : bool) (err : error)
  | IgnoredEvent.

(** The client of a process: its positions, the offsets its group has
    committed, and the state of its context. *)
Class ConsumerClient (C : Type) := {
  partition_of : string → Z;
  position : C → Z → nat;
  committed : C → Z → nat;
  ctx_Err : C → option error * C;
  SubscribeTopics : string → C → result unit * C;
  Poll : Z → World → C → Event * C;
  CommitMessage : Message → C → result unit * C
}.

(** The records of one partition, oldest first. *)
Definition log_of `{ConsumerClient C} (topic : string) (p : Z) (w : World) : list KafkaRecord :=
  base.filter (λ rec, rec_topic rec = topic ∧ partition_of (rec_key rec) = p) (rev (w_topic w)).

(** What the client does.  [position] and [committed] are what it knows of the
    group; with one process in the group, that is all there is to know. *)
Class ConsumerClientLaws `(ConsumerClient C) (topic : string) := {
  ctx_Err_frame c e c' : ctx_Err c = (e, c') → ∀ p, position c' p = position c p ∧ committed c' p = committed c p;
  (* consumption starts where the group has committed *)
  Subscribe_committed c r c' : SubscribeTopics topic c = (r, c') → ∀ p, committed c' p = committed c p;
  Subscribe_position c c' : SubscribeTopics topic c = (Ok tt, c') → ∀ p, position c' p = committed c' p;
  (* a message is the record at the position of its partition *)
  Poll_message t w c m c' :
    Poll t w c = (MessageEvent m, c') →
    Message_Offset m = Z.of_nat (position c (Message_Partition m)) ∧
    (∃ rec, log_of topic (Message_Partition m) w !! position c (Message_Partition m) = Some rec ∧
       Message_Key m = rec_key rec ∧ Message_Value m = rec_value rec ∧
       (Message_Topic m = None ∨ Message_Topic m = Some (rec_topic rec))) ∧
    (∀ p, position c' p = if bool_decide (p = Message_Partition m) then S (position c p) else position c p) ∧
    (∀ p, committed c' p = committed c p);
  Poll_other t w c e c' :
    Poll t w c = (e, c') → (∀ m, e ≠ MessageEvent m) →
    ∀ p, position c' p = position c p ∧ committed c' p = committed c p;
  (* a commit sets the offset of the next record to read; without an answer it may have done so *)
  Commit_position m c r c' : CommitMessage m c = (r, c') → ∀ p, position c' p = position c p;
  Commit_ok m c c' :
    CommitMessage m c = (Ok tt, c') →
    ∀ p, committed c' p = if bool_decide (p = Message_Partition m) then S (Z.to_nat (Message_Offset m)) else committed c p;
  Commit_err m c e c' :
    CommitMessage m c = (Err e, c') →
    (∀ p, committed c' p = committed c p) ∨
    (∀ p, committed c' p = if bool_decide (p = Message_Partition m) then S (Z.to_nat (Message_Offset m)) else committed c p)
}.

Inductive Turn := Continue | Return (r : result unit).

Section loop.
Context `{External} `{ConsumerClient C}.
Implicit Types (c : C).

(** [%s[%d]@%d] *)
Definition place (record : ConsumerRecord) : string :=
  Record_Topic record +:+ "[" +:+ pretty (Record_Partition record) +:+ "]@" +:+ pretty (Record_Offset record).

(** The record made of a message. *)
Definition record_of (topic : string) (current : Message) : ConsumerRecord :=
  mkConsumerRecord (default topic (Message_Topic current)) (Message_Partition current) (Message_Offset current)
    (Message_Key current) (Message_Value current).

(** The body of [for]. *)
Definition turn (topic : string) (handler : ConsumerRecord → M unit) (st : World * C) : Turn * (World * C) :=
  let '(w, c) := st in
  match ctx_Err c with
  | (Some _, c1) => (Return (Ok tt), (w, c1))
  | (None, c1) =>
    match Poll consumerPollTimeoutMilliseconds w c1 with
    | (NilEvent, c2) => (Continue, (w, c2))
    | (MessageEvent current, c2) =>
      let record := record_of topic current in
      match handler record w with
      | (Err err, w1) =>
        match ctx_Err c2 with
        | (Some _, c3) => (Return (Ok tt), (w1, c3))
        | (None, c3) => (Return (Err (ErrWrap ("handle Kafka record " +:+ place record +:+ ": ") err "")), (w1, c3))
        end
      | (Ok _, w1) =>
        match ctx_Err c2 with
        | (Some _, c3) => (Return (Ok tt), (w1, c3))
        | (None, c3) =>
          match CommitMessage current c3 with
          | (Err err, c4) =>
            (Return (Err (ErrWrap ("commit Kafka record " +:+ place record +:+ ": ") err "")), (w1, c4))
          | (Ok _, c4) => (Continue, (w1, c4))
          end
        end
      end
    | (ErrorEvent fatal err, c2) =>
      match ctx_Err c2 with
      | (Some _, c3) => (Return (Ok tt), (w, c3))
      | (None, c3) =>
        if fatal then (Return (Err (ErrWrap "fatal kafka consumer error: " err "")), (w, c3))
        else (Continue, (w, c3))
      end
    | (IgnoredEvent, c2) => (Continue, (w, c2))
    end
  end.

(** [n] turns at most; no result when the loop is still running then. *)
Fixpoint consume (n : nat) (topic : string) (handler : ConsumerRecord → M unit) (st : World * C)
    : option (result unit) * (World * C) :=
  match n with
  | O => (None, st)
  | S n' =>
    match turn topic handler st with
    | (Continue, st') => consume n' topic handler st'
    | (Return r, st') => (Some r, st')
    end
  end.

(** [Run(ctx, topic, handler)]; [None] is the nil handler. *)
Definition Run (n : nat) (topic : string) (handler : option (ConsumerRecord → M unit)) (st : World * C)
    : option (result unit) * (World * C) :=
  let '(w, c) := st in
  if bool_decide (topic = "") then (Some (Err (ErrNew "kafka topic must not be empty")), st) else
  match handler with
  | None => (Some (Err (ErrNew "kafka handler must not be nil")), st)
  | Some handler =>
    match SubscribeTopics topic c with
    | (Err err, c1) =>
      (Some (Err (ErrWrap ("subscribe to kafka topic " +:+ Quote unicode_is_print topic +:+ ": ") err "")), (w, c1))
    | (Ok _, c1) => consume n topic handler (w, c1)
    end
  end.
End loop.

(** ** One turn *)

Section turn_facts.
Context `{External} `{CC : ConsumerClient C} {topic : string} `{!ConsumerClientLaws CC topic}.
Implicit Types (c : C).

(** What the handler is given for a message is the record in the log. *)
Lemma Poll_record t w c m c' :
  Poll t w c = (MessageEvent m, c') →
  ∃ rec, log_of topic (Message_Partition m) w !! position c (Message_Partition m) = Some rec ∧
    record_of topic m = mkConsumerRecord topic (Message_Partition m) (Z.of_nat (position c (Message_Partition m)))
      (rec_key rec) (rec_value rec).
Proof.
  intros (Hoff & (rec & Hrec & Hkey & Hval & Htop) & _)%Poll_message. exists rec. split; [done|].
  unfold record_of. rewrite Hoff, Hkey, Hval. f_equal. destruct Htop as [-> | ->]; [done|]. cbn.
  by apply list_elem_of_lookup_2, list_elem_of_filter in Hrec as [[<- _] _].
Qed.

(** The record at the position of partition [p] was handed to the handler. *)
Definition handed (handler : ConsumerRecord → M unit) (w : World) (c : C) (p : Z) (r : result unit) (w' : World) : Prop :=
  ∃ rec, log_of topic p w !! position c p = Some rec ∧
    handler (mkConsumerRecord topic p (Z.of_nat (position c p)) (rec_key rec) (rec_value rec)) w = (r, w').

(** A turn polls nothing of interest and changes no offset, or it hands the
    record at the position of a partition to the handler; only when that
    returned without an error is the offset committed. *)
Inductive turned (handler : ConsumerRecord → M unit) (w : World) (c : C) (w' : World) (c' : C) : Turn → Prop :=
  | turned_idle t :
      w' = w → (∀ p, position c' p = position c p ∧ committed c' p = committed c p) → turned handler w c w' c' t
  | turned_refused p err r :
      handed handler w c p (Err err) w' → (∀ q, committed c' q = committed c q) → turned handler w c w' c' (Return r)
  | turned_uncommitted p r :
      handed handler w c p (Ok tt) w' → (∀ q, committed c' q = committed c q) → turned handler w c w' c' (Return r)
  | turned_committed p t :
      handed handler w c p (Ok tt) w' →
      (∀ q, committed c' q = if bool_decide (q = p) then S (position c p) else committed c q) →
      (t = Continue → ∀ q, position c' q = if bool_decide (q = p) then S (position c p) else position c q) →
      turned handler w c w' c' t.

Lemma turn_cases handler w c t w' c' :
  turn topic handler (w, c) = (t, (w', c')) → turned handler w c w' c' t.
Proof.
  unfold turn. destruct (ctx_Err c) as [e1 c1] eqn:H1.
  pose proof (ctx_Err_frame _ _ _ H1) as F1.
  destruct e1 as [e|]; [intros [= <- <- <-]; by apply turned_idle|].
  destruct (Poll _ w c1) as [ev c2] eqn:H2. destruct ev as [|m|fatal err|].
  1, 4: intros [= <- <- <-]; apply turned_idle; [done|]; intros p;
    destruct (Poll_other _ _ _ _ _ H2 ltac:(done) p) as [-> ->]; apply F1.
  2: { pose proof (Poll_other _ _ _ _ _ H2 ltac:(done)) as F2.
       destruct (ctx_Err c2) as [e3 c3] eqn:H3. pose proof (ctx_Err_frame _ _ _ H3) as F3.
       intros Heq. assert (w' = w ∧ c' = c3) as [-> ->] by (destruct e3, fatal; by simplify_eq).
       apply turned_idle; [done|]. intros p. destruct (F3 p) as [-> ->], (F2 p) as [-> ->]. apply F1. }
  destruct (Poll_record _ _ _ _ _ H2) as (rec & Hrec & Hr).
  apply Poll_message in H2 as (Hoff & _ & Hpos & Hcom).
  destruct (F1 (Message_Partition m)) as [Hp1 Hc1]. rewrite Hp1 in Hoff, Hrec, Hr.
  rewrite Hr. destruct (handler _ w) as [rh w1] eqn:Hh.
  assert (handed handler w c (Message_Partition m) rh w1) as Hd by (by exists rec).
  destruct (ctx_Err c2) as [e3 c3] eqn:H3. pose proof (ctx_Err_frame _ _ _ H3) as F3.
  assert (∀ q, committed c3 q = committed c q) as Hc3.
  { intros q. destruct (F3 q) as [_ ->]. rewrite Hcom. apply F1. }
  destruct rh as [[]|err].
  2: { intros Heq. assert (w' = w1 ∧ c' = c3 ∧ ∃ r, t = Return r) as (-> & -> & r & ->) by (destruct e3; naive_solver).
       by eapply turned_refused. }
  destruct e3 as [e3|]; [intros [= <- <- <-]; by eapply turned_uncommitted|].
  destruct (CommitMessage m c3) as [rc c4] eqn:H4. pose proof (Commit_position _ _ _ _ H4) as Hp4.
  destruct rc as [[]|err]; intros [= <- <- <-].
  - eapply turned_committed; [exact Hd| |].
    + intros q. rewrite (Commit_ok _ _ _ H4 q), Hoff, Nat2Z.id, Hc3. done.
    + intros _ q. rewrite Hp4. destruct (F3 q) as [-> _]. rewrite Hpos. destruct (F1 q) as [-> _].
      by case_bool_decide; subst.
  - destruct (Commit_err _ _ _ _ H4) as [Hs|Hs].
    + eapply turned_uncommitted; [exact Hd|]. intros q. by rewrite Hs, Hc3.
    + eapply turned_committed; [exact Hd| |done]. intros q. by rewrite (Hs q), Hoff, Nat2Z.id, Hc3.
Qed.
End turn_facts.
