(* ===== verification/Redis.v ===== *)
(** * Redis

    The client of [github.com/redis/go-redis] with its server is the class
    [Redis]: one operation per command that the program sends.  [RedisLaws]
    states what the server documents: a command runs atomically on the keys
    that are alive at its time, a key is gone from its deadline on, and a
    command whose answer was lost may have run or not.

    Functions that use the tables and Redis run on a pair of a [World] and the
    state of Redis. *)

From S2P Require Import Prelude GoStrings Json Models World.

(** ** The keys of the server *)

(** A value and, when the key expires, its deadline, in milliseconds. *)
Notation Entry := (string * option Z)%type.
Notation Keyspace := (gmap string Entry).

Definition entry_alive (now : Z) (e : Entry) : bool :=
  match e.2 with None => true | Some deadline => bool_decide (now < deadline) end.

(** The key as a command at the time [now] sees it. *)
Definition get_key (now : Z) (ks : Keyspace) (k : string) : option Entry :=
  match ks !! k with Some e => if entry_alive now e then Some e else None | None => None end.

(** The clients of the program. *)
Class Redis (R : Type) := {
  (* SET key value NX PX *)
  SetNX : string → string → Z → R → result bool * R;
  (* EVAL of a script, here the function that it computes on the keys *)
  Eval : (Z → Keyspace → Z * Keyspace) → R → result Z * R;
  (* INCR key, EXPIRE key seconds, PING *)
  Incr : string → R → result Z * R;
  Expire : string → Z → R → result bool * R;
  Ping : R → result unit * R
}.

(** ** The commands, as documented *)

(** Durations are in microseconds; go-redis rounds them to milliseconds, or to
    seconds for EXPIRE, and sends at least one. *)
Definition px (ttl : Z) : Z := Z.max 1 (ttl / 1000).
Definition ex (ttl : Z) : Z := 1000 * Z.max 1 (ttl / 1000000).

Definition set_nx (k v : string) (ttl : Z) (now : Z) (ks : Keyspace) : bool * Keyspace :=
  match get_key now ks k with
  | Some _ => (false, ks)
  | None => (true, <[k := (v, Some (now + px ttl))]> ks)
  end.

(** The counter under a key: a missing key counts from 0 and gets no
    deadline; a value that is no integer is an error, which [None] stands for. *)
Definition incr (k : string) (now : Z) (ks : Keyspace) : option Z * Keyspace :=
  match get_key now ks k with
  | None => (Some 1, <[k := (pretty 1, None)]> ks)
  | Some (v, deadline) =>
    match ParseInt v with
    | Some n => if bool_decide (n < int64_max) then (Some (n + 1), <[k := (pretty (n + 1), deadline)]> ks) else (None, ks)
    | None => (None, ks)
    end
  end.

Definition expire (k : string) (ttl : Z) (now : Z) (ks : Keyspace) : bool * Keyspace :=
  match get_key now ks k with
  | Some (v, _) => (true, <[k := (v, Some (now + ex ttl))]> ks)
  | None => (false, ks)
  end.

(** A command that computes [f]: it ran at the time [now'], or its answer was
    lost and it may have run. *)
Definition ran {A B} (answer : A → result B) (f : Z → Keyspace → A * Keyspace)
    (now : Z) (ks : Keyspace) (r : result B) (now' : Z) (ks' : Keyspace) : Prop :=
  now ≤ now' ∧
  ((r = answer (f now' ks).1 ∧ ks' = (f now' ks).2) ∨ (is_ok r = false ∧ (ks' = ks ∨ ks' = (f now' ks).2))).

Class RedisLaws `(Redis R) := {
  (* the time of the server, and its keys *)
  redis_now : R → Z;
  redis_keys : R → Keyspace;
  SetNX_ran k v ttl r a r' :
    0 < ttl → SetNX k v ttl r = (a, r') →
    ran Ok (set_nx k v ttl) (redis_now r) (redis_keys r) a (redis_now r') (redis_keys r');
  Eval_ran script r a r' :
    Eval script r = (a, r') → ran Ok script (redis_now r) (redis_keys r) a (redis_now r') (redis_keys r');
  Incr_ran k r a r' :
    Incr k r = (a, r') →
    ran (λ o, match o with Some n => Ok n | None => Err (ErrInfra "not an integer") end) (incr k)
      (redis_now r) (redis_keys r) a (redis_now r') (redis_keys r');
  Expire_ran k ttl r a r' :
    0 < ttl → Expire k ttl r = (a, r') →
    ran Ok (expire k ttl) (redis_now r) (redis_keys r) a (redis_now r') (redis_keys r');
  Ping_ran r a r' : Ping r = (a, r') → redis_now r ≤ redis_now r' ∧ redis_keys r' = redis_keys r
}.

Lemma get_key_Some now ks k e :
  get_key now ks k = Some e ↔ ks !! k = Some e ∧ entry_alive now e = true.
Proof.
  unfold get_key. split.
  - destruct (ks !! k) as [e'|]; [|done]. destruct (entry_alive now e') eqn:Ha; [|done]. by intros [= <-].
  - by intros [-> ->].
Qed.

Lemma get_key_insert now ks k e j :
  get_key now (<[k := e]> ks) j = if decide (k = j) then (if entry_alive now e then Some e else None) else get_key now ks j.
Proof. unfold get_key. case_decide as Hk; [subst; by rewrite lookup_insert_eq|by rewrite lookup_insert_ne]. Qed.

Lemma get_key_delete now ks k j :
  get_key now (delete k ks) j = if decide (k = j) then None else get_key now ks j.
Proof. unfold get_key. case_decide as Hk; [subst; by rewrite lookup_delete_eq|by rewrite lookup_delete_ne]. Qed.

(** A key that is gone stays gone. *)
Lemma get_key_later now now' ks k : now ≤ now' → get_key now ks k = None → get_key now' ks k = None.
Proof.
  unfold get_key, entry_alive. destruct (ks !! k) as [[v [d|]]|]; cbn; [|done|done]. intros Hn.
  repeat case_bool_decide; try done; lia.
Qed.

(** ** The state of a process: the world and Redis *)

Section sessions.
Context {R : Type}.

Definition Session (A : Type) : Type := World * R → result A * (World * R).

(** A call of the database, the clock or the services; a command of Redis. *)
Definition in_world {A} (m : M A) : Session A := λ st, let '(a, w) := m st.1 in (a, (w, st.2)).
Definition in_redis {A} (m : R → result A * R) : Session A := λ st, let '(a, r) := m st.2 in (a, (st.1, r)).

Definition sret {A} (a : A) : Session A := λ st, (Ok a, st).
Definition sthrow {A} (e : error) : Session A := λ st, (Err e, st).
Definition sbind {A B} (m : Session A) (f : A → Session B) : Session B := λ st,
  match m st with
  | (Ok a, st') => f a st'
  | (Err e, st') => (Err e, st')
  end.
Definition stry {A} (m : Session A) : Session (result A) := λ st, let '(a, st') := m st in (Ok a, st').
End sessions.

Notation "'let+' x ':=' m 'in' k" := (sbind m (λ x, k))
  (at level 10, x name, m at level 100, k at level 200) : go_scope.
Notation "'do+' m 'in' k" := (sbind m (λ _, k))
  (at level 10, m at level 100, k at level 200) : go_scope.
