(* ===== verification/Lock.v ===== *)
(** * The distributed lock

    [internal/distributedlock/lock.go]: a lock is a key of Redis with a random
    token; it is taken with [SET NX] and given back with a script that deletes
    the key only if it still holds the token. *)

From S2P Require Import Prelude GoStrings Json Models World.
From S2P Require Import Redis.

Record Manager := mkManager { Manager_ttl : Z }.
Record Lock := mkLock { Lock_key : string; Lock_token : string }.

#[global] Instance Lock_eq_dec : EqDecision Lock.
Proof. solve_decision. Defined.

Definition NewManager (ttl : Z) : Manager := mkManager ttl.

(** [releaseScript] *)
Definition releaseScript (key token : string) (now : Z) (ks : Keyspace) : Z * Keyspace :=
  match get_key now ks key with
  | Some (v, _) => if bool_decide (v = token) then (1, delete key ks) else (0, ks)
  | None => (0, ks)
  end.

Section lock.
Context `{External} `{Redis R}.

Definition Acquire (m : Manager) (key : string) : Session (R := R) Lock :=
  let+ token := in_world NewString in
  let+ acquired := in_redis (SetNX key token (Manager_ttl m)) in
  if negb acquired then sthrow ErrLockNotAcquired else sret (mkLock key token).

Definition Release (l : Lock) : Session (R := R) unit :=
  do+ in_redis (Eval (releaseScript (Lock_key l) (Lock_token l))) in sret tt.
End lock.

(** ** Mutual exclusion *)

Section exclusion.
Context `{External} `{Redis R} `{!RedisLaws _}.
Context (m : Manager) (Httl : 0 < Manager_ttl m).
Implicit Types (r : R) (w : World).

(** The locks that were handed out and not given back, each with the time at
    which its key expires, and the state of Redis.  All tokens that were ever
    drawn are in [used]. *)
Record Locks := mkLocks { held : list (Lock * Z); used : list string }.

(** Commands of others leave the keys with the prefix [lock:order:] alone. *)
Definition other_commands r r' : Prop :=
  redis_now r ≤ redis_now r' ∧ ∀ k, HasPrefix k "lock:order:" = true → redis_keys r' !! k = redis_keys r !! k.

Inductive lock_step : R * Locks → R * Locks → Prop :=
  | ls_other r r' ls : other_commands r r' → lock_step (r, ls) (r', ls)
  (* a fresh token *)
  | ls_acquire w r w' r' key l ls :
      HasPrefix key "lock:order:" = true → uuid_NewString (w_seed w) ∉ used ls →
      Acquire m key (w, r) = (Ok l, (w', r')) →
      lock_step (r, ls) (r', mkLocks ((l, redis_now r' + px (Manager_ttl m)) :: held ls) (Lock_token l :: used ls))
  | ls_refused w r w' r' key e ls :
      HasPrefix key "lock:order:" = true → uuid_NewString (w_seed w) ∉ used ls →
      Acquire m key (w, r) = (Err e, (w', r')) →
      lock_step (r, ls) (r', mkLocks (held ls) (uuid_NewString (w_seed w) :: used ls))
  (* whatever the answer, the lock is not used any more *)
  | ls_release w r w' r' l d a ls1 ls2 us :
      Release l (w, r) = (a, (w', r')) →
      lock_step (r, mkLocks (ls1 ++ (l, d) :: ls2) us) (r', mkLocks (ls1 ++ ls2) us).

Definition lock_run (st : R * Locks) : Prop :=
  ∃ r0, (∀ k, HasPrefix k "lock:order:" = true → redis_keys r0 !! k = None) ∧ rtc lock_step (r0, mkLocks [] []) st.

(** Before its deadline a held lock is the entry of its key. *)
Record locks_ok (r : R) (ls : Locks) : Prop := {
  lk_entry l d : (l, d) ∈ held ls → redis_now r < d → redis_keys r !! Lock_key l = Some (Lock_token l, Some d);
  lk_key l d : (l, d) ∈ held ls → HasPrefix (Lock_key l) "lock:order:" = true;
  lk_used l d : (l, d) ∈ held ls → Lock_token l ∈ used ls;
  lk_tokens : NoDup ((λ x, Lock_token x.1) <$> held ls)
}.

Lemma Acquire_inv key w r a w' r' :
  Acquire m key (w, r) = (a, (w', r')) →
  let token := uuid_NewString (w_seed w) in
  ∃ b, SetNX key token (Manager_ttl m) r = (b, r') ∧
    a = match b with Ok true => Ok (mkLock key token) | Ok false => Err ErrLockNotAcquired | Err e => Err e end.
Proof.
  unfold Acquire, sbind, in_world, in_redis, NewString. cbn.
  destruct (SetNX _ _ _ r) as [[[]|e] r1]; intros [= <- <- <-]; by eexists.
Qed.

Lemma Release_inv l w r a w' r' :
  Release l (w, r) = (a, (w', r')) →
  ∃ b, Eval (releaseScript (Lock_key l) (Lock_token l)) r = (b, r') ∧
    a = match b with Ok _ => Ok tt | Err e => Err e end.
Proof.
  unfold Release, sbind, in_redis. cbn. destruct (Eval _ r) as [[z|e] r1]; intros [= <- <- <-]; by eexists.
Qed.

Lemma ran_time {A B} (answer : A → result B) f now ks a now' ks' : ran answer f now ks a now' ks' → now ≤ now'.
Proof. by intros [? _]. Qed.

(** What [SetNX] does to the entries that are alive. *)
Lemma SetNX_keys k v ttl now ks a now' ks' :
  ran Ok (set_nx k v ttl) now ks a now' ks' →
  (ks' = ks ∧ a ≠ Ok true) ∨
  (get_key now' ks k = None ∧ ks' = <[k := (v, Some (now' + px ttl))]> ks ∧ (a = Ok true ∨ is_ok a = false)).
Proof.
  intros [_ [[-> ->]|[He [->| ->]]]]; unfold set_nx; [| |].
  - destruct (get_key now' ks k) eqn:Hk; [by left|right]. by split_and!; [| |left].
  - left. split; [done|]. by destruct a.
  - destruct (get_key now' ks k) eqn:Hk; [left|right].
    + split; [done|]. by destruct a.
    + by split_and!; [| |right].
Qed.

Lemma locks_ok_later r r' ls :
  redis_now r ≤ redis_now r' →
  (∀ l d, (l, d) ∈ held ls → redis_now r' < d → redis_keys r' !! Lock_key l = redis_keys r !! Lock_key l) →
  locks_ok r ls → locks_ok r' ls.
Proof.
  intros Hle Hsame [He Hk Hu Ht]. split; [|done..]. intros l d Hl Hd. rewrite (Hsame _ _ Hl Hd). apply He; [done|lia].
Qed.

(** A held lock that has not expired occupies its key. *)
Lemma held_alive r ls l d now :
  locks_ok r ls → (l, d) ∈ held ls → redis_now r ≤ now → now < d → ∃ e, get_key now (redis_keys r) (Lock_key l) = Some e.
Proof.
  intros Hok Hl Hle Hd. exists (Lock_token l, Some d). apply get_key_Some. split.
  - apply (lk_entry _ _ Hok); [done|lia].
  - unfold entry_alive. cbn. by apply bool_decide_eq_true.
Qed.

(** Setting a free key leaves the held locks alone. *)
Lemma locks_ok_set r r' ls k e :
  redis_now r ≤ redis_now r' → get_key (redis_now r') (redis_keys r) k = None →
  redis_keys r' = <[k := e]> (redis_keys r) → locks_ok r ls → locks_ok r' ls.
Proof.
  intros Hle Hfree Hset Hok. apply (locks_ok_later r); [done| |done]. intros l d Hl Hd. rewrite Hset.
  destruct (decide (k = Lock_key l)) as [->|Hne]; [|by rewrite lookup_insert_ne].
  destruct (held_alive _ _ _ _ _ Hok Hl Hle Hd). congruence.
Qed.

Lemma lock_step_ok st st' : lock_step st st' → locks_ok st.1 st.2 → locks_ok st'.1 st'.2.
Proof.
  intros Hs Hok. destruct Hs as [r r' ls [Hle Hsame]|w r w' r' key l ls Hkey Hfresh Ha|w r w' r' key e ls Hkey Hfresh Ha|w r w' r' l d a ls1 ls2 us Hr];
    cbn [fst snd] in *.
  - apply (locks_ok_later r); [done| |done]. intros l d Hl _. by apply Hsame, (lk_key _ _ Hok _ _ Hl).
  - apply Acquire_inv in Ha as (b & Hset & Hb). apply SetNX_ran in Hset; [|done]. pose proof (ran_time _ _ _ _ _ _ _ Hset) as Hle.
    apply SetNX_keys in Hset as [[_ Hno]|(Hfree & Hins & _)]; [destruct b as [[]|]; by simplify_eq|].
    assert (l = mkLock key (uuid_NewString (w_seed w))) as -> by (destruct b as [[]|]; by simplify_eq).
    pose proof (locks_ok_set _ _ _ _ _ Hle Hfree Hins Hok) as [He Hk Hu Ht].
    split; cbn [held used].
    + intros l d [[= -> ->]|Hl]%elem_of_cons Hd; [|by apply He]. cbn. by rewrite Hins, lookup_insert_eq.
    + intros l d [[= -> ->]|Hl]%elem_of_cons; [done|by eapply Hk].
    + intros l d [[= -> ->]|Hl]%elem_of_cons; [apply list_elem_of_here|apply list_elem_of_further; by eapply Hu].
    + cbn. apply NoDup_cons. split; [|done]. intros ([l d] & Heq & Hl)%list_elem_of_fmap. cbn in Heq. apply Hfresh.
      rewrite Heq. by eapply Hu.
  - apply Acquire_inv in Ha as (b & Hset & _). apply SetNX_ran in Hset; [|done]. pose proof (ran_time _ _ _ _ _ _ _ Hset) as Hle.
    assert (locks_ok r' ls) as [He Hk Hu Ht].
    { apply SetNX_keys in Hset as [[Hsame _]|(Hfree & Hins & _)]; [|by eapply locks_ok_set].
      apply (locks_ok_later r); [done| |done]. by rewrite Hsame. }
    split; [done..| |done]. intros l d Hl. apply list_elem_of_further. by eapply Hu.
  - apply Release_inv in Hr as (b & Hev & _). apply Eval_ran in Hev. pose proof (ran_time _ _ _ _ _ _ _ Hev) as Hle.
    assert (∀ x, x ∈ ls1 ++ ls2 → x ∈ ls1 ++ (l, d) :: ls2) as Hsub by set_solver.
    pose proof (lk_tokens _ _ Hok) as Hnd. cbn in Hnd. rewrite fmap_app, fmap_cons, <- Permutation_middle in Hnd.
    apply NoDup_cons in Hnd as [Hni Hnd]. cbn in Hni. rewrite <- fmap_app in *.
    assert (locks_ok r (mkLocks (ls1 ++ ls2) us)) as Hok'.
    { destruct Hok as [He Hk Hu Ht]. split; cbn in *; eauto. }
    apply (locks_ok_later r); [done| |done]. cbn [held]. intros l2 d2 Hl2 Hd2.
    assert (redis_keys r' = redis_keys r ∨ redis_keys r' = (releaseScript (Lock_key l) (Lock_token l) (redis_now r') (redis_keys r)).2) as [->| ->]
      by (destruct Hev as [_ [[_ ?]|[_ [?|?]]]]; auto); [done|].
    unfold releaseScript. destruct (get_key _ _ (Lock_key l)) as [[v dl]|] eqn:Hg; [|done].
    case_bool_decide as Hv; [|done]. cbn. rewrite lookup_delete_ne; [done|]. intros Heq.
    apply get_key_Some in Hg as [Hg _]. rewrite Heq, (lk_entry _ _ Hok' _ _ Hl2) in Hg by lia.
    apply Hni. apply list_elem_of_fmap. exists (l2, d2). split; [|done]. cbn. congruence.
Qed.

Lemma lock_run_ok r ls : lock_run (r, ls) → locks_ok r ls.
Proof.
  intros (r0 & Hempty & Hs).
  apply (rtc_invariant _ (λ st, locks_ok st.1 st.2) _ _ lock_step_ok Hs). split; cbn; [set_solver..|constructor].
Qed.

(** C14. Mutual exclusion: whatever the clients do (acquire, release, also
    late or without an answer), until the TTL of a lock has run out its key
    holds its token, no other lock that is held has the same key unless its
    own TTL has run out, and [Acquire] does not give the key to anyone else. *)
Theorem lock_exclusive r ls :
  lock_run (r, ls) →
  (∀ l d, (l, d) ∈ held ls → redis_now r < d → redis_keys r !! Lock_key l = Some (Lock_token l, Some d)) ∧
  (∀ l1 d1 l2 d2, (l1, d1) ∈ held ls → (l2, d2) ∈ held ls → Lock_key l1 = Lock_key l2 →
     redis_now r < d1 → redis_now r < d2 → l1 = l2) ∧
  (∀ l d w l' w' r', (l, d) ∈ held ls → Acquire m (Lock_key l) (w, r) = (Ok l', (w', r')) → d ≤ redis_now r').
Proof.
  intros Hok%lock_run_ok. pose proof (lk_entry _ _ Hok) as He. split_and!; [done| |].
  - intros [k1 t1] d1 [k2 t2] d2 Hl1 Hl2 Hk Hd1 Hd2. pose proof (He _ _ Hl1 Hd1). pose proof (He _ _ Hl2 Hd2).
    cbn in *. subst k2. congruence.
  - intros l d w l' w' r' Hl Ha. apply Acquire_inv in Ha as (b & Hset & Hb). apply SetNX_ran in Hset; [|done].
    destruct (Z.le_gt_cases d (redis_now r')) as [?|Hd]; [done|]. exfalso.
    destruct (held_alive _ _ _ _ (redis_now r') Hok Hl (ran_time _ _ _ _ _ _ _ Hset) ltac:(lia)) as [e Hal].
    apply SetNX_keys in Hset as [[_ Hno]|(Hfree & _ & _)]; [|congruence]. destruct b as [[]|]; by simplify_eq.
Qed.
End exclusion.
