(* ===== verification/RateLimit.v ===== *)
(** * The rate limiter

    [internal/ratelimit/limiter.go]: a counter in Redis per scope, client and
    window of time.  The reference is a fixed window: the first [limit]
    requests of a window are allowed, the others are refused until it ends. *)

From S2P Require Import Prelude GoStrings Json JsonText Models World.
From S2P Require Import Redis.

Definition time_Second : Z := 1000000.
Definition time_Minute : Z := 60000000.

(** [time.Time.Truncate]: down to a multiple of [d] since the zero time,
    January 1 of the year 1. *)
Definition zero_time : Z := -62135596800 * time_Second.
Definition Truncate (t d : Z) : Z := if d <=? 0 then t else t - (t - zero_time) mod d.

(** [time.Time.Unix]: whole seconds. *)
Definition Unix (t : Z) : Z := t / time_Second.

Record Result := mkResult {
  Result_Allowed : bool;
  Result_Limit : Z;
  Result_Remaining : Z;
  Result_RetryAfter : Z
}.

Definition rate_key (scope key : string) (windowStart : Z) : string :=
  "rate_limit:" +:+ scope +:+ ":" +:+ key +:+ ":" +:+ pretty (Unix windowStart).

(** What [Allow] answers to the request that is the [count]-th of its window. *)
Definition verdict (limit window now count : Z) : Result :=
  let windowStart := Truncate now window in
  let remaining := limit - count in
  let retryAfter := windowStart + window - now in
  mkResult (bool_decide (count ≤ limit)) limit
    (if remaining <? 0 then 0 else remaining) (if retryAfter <? 0 then 0 else retryAfter).

Section limiter.
Context `{External} `{Redis R}.

(** The limiter: its clock, the field [now] that [New] sets to [time.Now]. *)
Record Limiter := mkLimiter { Limiter_now : M Z }.
Definition New : Limiter := mkLimiter time_now.

Definition Allow (l : Limiter) (scope key : string) (limit window : Z) : Session (R := R) Result :=
  let+ now := in_world (Limiter_now l) in
  let windowStart := Truncate now window in
  let redisKey := rate_key scope key windowStart in
  let+ count := in_redis (Incr redisKey) in
  if bool_decide (count = 1) then
    do+ in_redis (Expire redisKey (window + time_Second)) in sret (verdict limit window now count)
  else sret (verdict limit window now count).
End limiter.

(** ** The window of a request *)

Lemma Truncate_bounds t d : 0 < d → Truncate t d ≤ t < Truncate t d + d.
Proof.
  intros Hd. unfold Truncate. destruct (d <=? 0) eqn:Hle; [apply Z.leb_le in Hle; lia|].
  pose proof (Z.mod_pos_bound (t - zero_time) d Hd). lia.
Qed.

(** The answer of the limiter is in its bounds: the requests that remain
    are between 0 and the limit, none remain when the request is refused, and
    the time to wait ends with the window: it is positive and at most its
    length. *)
Lemma verdict_bounds limit window now count :
  0 < window → 0 ≤ limit → 1 ≤ count →
  let v := verdict limit window now count in
  0 ≤ Result_Remaining v ≤ limit ∧ (Result_Allowed v = false → Result_Remaining v = 0) ∧
  (Result_Allowed v = true → Result_Remaining v < limit) ∧
  0 < Result_RetryAfter v ≤ window ∧ now + Result_RetryAfter v = Truncate now window + window.
Proof.
  intros Hw Hl Hc. pose proof (Truncate_bounds now window Hw) as Ht. cbn.
  destruct (limit - count <? 0) eqn:H1; [apply Z.ltb_lt in H1|apply Z.ltb_ge in H1];
    destruct (Truncate now window + window - now <? 0) eqn:H2; [apply Z.ltb_lt in H2|apply Z.ltb_ge in H2|apply Z.ltb_lt in H2|apply Z.ltb_ge in H2];
    rewrite bool_decide_eq_true, bool_decide_eq_false; lia.
Qed.

(** ** The counters *)

Definition no_colon (s : string) : bool :=
  forallb (λ a, negb (bool_decide (a = ":"%char))) (String.list_ascii_of_string s).

Lemma no_colon_cons a s : no_colon (String a s) = true ↔ a ≠ ":"%char ∧ no_colon s = true.
Proof. unfold no_colon. cbn [String.list_ascii_of_string forallb]. rewrite andb_true_iff, negb_true_iff, bool_decide_eq_false. done. Qed.

Lemma colon_inside x y : no_colon (x +:+ String ":" y) = false.
Proof.
  induction x as [|a x IH]; [done|]. rewrite append_cons. apply not_true_iff_false. intros [_ Hx]%no_colon_cons. congruence.
Qed.

(** Texts around a colon, the first one or the last one. *)
Lemma first_colon a b x y :
  no_colon a = true → no_colon b = true → a +:+ String ":" x = b +:+ String ":" y → a = b ∧ x = y.
Proof.
  revert b. induction a as [|c a IH]; intros [|d b] Ha Hb; rewrite ?append_cons, ?append_empty_l.
  - by intros [= ->].
  - intros [= <- _]. by apply no_colon_cons in Hb as [? _].
  - intros [= -> _]. by apply no_colon_cons in Ha as [? _].
  - intros [= -> Heq]. apply no_colon_cons in Ha as [_ Ha], Hb as [_ Hb]. destruct (IH _ Ha Hb Heq) as [-> ->]. done.
Qed.

Lemma last_colon x y p q :
  no_colon p = true → no_colon q = true → x +:+ String ":" p = y +:+ String ":" q → x = y ∧ p = q.
Proof.
  intros Hp Hq. revert y. induction x as [|c x IH]; intros [|d y]; rewrite ?append_cons, ?append_empty_l.
  - by intros [= ->].
  - intros [= _ ->]. by rewrite colon_inside in Hp.
  - intros [= _ <-]. by rewrite colon_inside in Hq.
  - intros [= -> Heq]. by destruct (IH _ Heq) as [-> ->].
Qed.

Lemma pretty_no_colon (z : Z) : no_colon (pretty z) = true.
Proof.
  pose proof (num_lit_pretty z) as Hl. apply bool_decide_eq_true in Hl. apply scan_num_text in Hl.
  unfold num_text, no_colon in *. rewrite forallb_forall in *. intros a Ha%Hl. by destruct a as [[] [] [] [] [] [] [] []].
Qed.

(** Requests share a counter exactly when they have the same scope, the
    same client and the same window, whatever text the client sends as its
    address. *)
Lemma rate_key_inj scope key ws scope' key' ws' :
  no_colon scope = true → no_colon scope' = true → rate_key scope key ws = rate_key scope' key' ws' →
  scope = scope' ∧ key = key' ∧ Unix ws = Unix ws'.
Proof.
  unfold rate_key. intros Hs Hs' Heq. rewrite !(append_cons ":"%char), !append_empty_l in Heq.
  apply (inj (String.append "rate_limit:")) in Heq.
  apply first_colon in Heq as [-> Heq]; [|done..].
  apply last_colon in Heq as [-> Heq]; [|apply pretty_no_colon..]. by apply (inj pretty) in Heq.
Qed.

(** ** The requests of one window *)

(** The reference: the [i]-th request of a window, from 0, at the time [now]. *)
Definition fixed_window (limit window_end : Z) (i : nat) (now : Z) : Result :=
  mkResult (bool_decide (Z.of_nat i < limit)) limit (Z.max 0 (limit - 1 - Z.of_nat i)) (window_end - now).

Lemma verdict_fixed_window limit window now i :
  0 < window → verdict limit window now (Z.of_nat i + 1) = fixed_window limit (Truncate now window + window) i now.
Proof.
  intros Hw. pose proof (Truncate_bounds now window Hw) as Ht. unfold verdict, fixed_window. f_equal.
  - apply bool_decide_ext. lia.
  - destruct (_ <? 0) eqn:Hr; [apply Z.ltb_lt in Hr|apply Z.ltb_ge in Hr]; lia.
  - destruct (_ <? 0) eqn:Hr; [apply Z.ltb_lt in Hr|apply Z.ltb_ge in Hr]; lia.
Qed.

Section window.
Context `{External} `{Redis R} `{!RedisLaws _}.
Context (l : Limiter) (scope key : string) (limit window ws start : Z) (Hwindow : 0 < window).
Implicit Types (r : R) (w : World).

(** A window that begins at [ws], or, on the server, not before [start]: as
    the server measures it, it lasts less than the life of the counter. *)
Definition in_window r : Prop := start ≤ redis_now r < start + ex (window + time_Second).

Definition counter_key : string := rate_key scope key ws.

(** The requests of the window, oldest first, each with its time and answer;
    between them other commands run, which leave the counter alone. *)
Inductive window_run : list (Z * result Result) → R → Prop :=
  | wr_start r : in_window r → redis_keys r !! counter_key = None → window_run [] r
  | wr_other t r r' :
      window_run t r → redis_now r ≤ redis_now r' → in_window r' →
      redis_keys r' !! counter_key = redis_keys r !! counter_key → window_run t r'
  | wr_allow t w now w1 r a w' r' :
      window_run t r → Limiter_now l w = (Ok now, w1) → Truncate now window = ws →
      Allow l scope key limit window (w, r) = (a, (w', r')) → in_window r' →
      window_run (t ++ [(now, a)]) r'.

Definition allowed (x : Z * result Result) : bool :=
  match x.2 with Ok v => Result_Allowed v | Err _ => false end.

(** The counter has run [n] times. *)
Definition counted (n : nat) (r : R) : Prop :=
  match n with
  | O => redis_keys r !! counter_key = None
  | _ => ∃ d, redis_keys r !! counter_key = Some (pretty (Z.of_nat n), d) ∧ Z.of_nat n ≤ int64_max ∧
           match d with None => True | Some d => start + ex (window + time_Second) ≤ d end
  end.

Lemma counted_same n r r' : redis_keys r' !! counter_key = redis_keys r !! counter_key → counted n r → counted n r'.
Proof. unfold counted. by intros ->. Qed.

(** During the window the counter is alive. *)
Lemma counted_get n r r' :
  counted n r → in_window r' →
  get_key (redis_now r') (redis_keys r) counter_key =
    match n with O => None | _ => option_map (λ e, (pretty (Z.of_nat n), e.2)) (redis_keys r !! counter_key) end.
Proof.
  unfold counted, in_window, get_key. destruct n as [|n]; [by intros -> _|].
  intros (d & -> & _ & Hd) [_ Hin]. cbn. unfold entry_alive. cbn.
  destruct d as [d|]; [|done]. rewrite bool_decide_eq_true_2; [done|lia].
Qed.

Lemma Incr_counted n r a r' :
  counted n r → in_window r' → Incr counter_key r = (a, r') →
  (a = Ok (Z.of_nat (Datatypes.S n)) ∧ counted (Datatypes.S n) r') ∨
  (is_ok a = false ∧ (counted n r' ∨ counted (Datatypes.S n) r')).
Proof.
  intros Hn Hin Hrun. apply Incr_ran in Hrun as [_ Hrun]. pose proof (counted_get n r r' Hn Hin) as Hget.
  unfold incr in Hrun. rewrite Hget in Hrun.
  destruct n as [|n]; cbn [option_map fst snd] in Hrun.
  - assert (∀ ks, redis_keys r' = ks → ks = <[counter_key := (pretty 1, None)]> (redis_keys r) → counted 1 r') as Hone.
    { intros ks Hks ->. exists None. rewrite Hks, lookup_insert_eq. done. }
    destruct Hrun as [[-> Hks]|[He [Hks|Hks]]]; [left; split; [done|by eapply Hone]| |].
    + right. split; [done|]. left. eapply counted_same; [by rewrite Hks|done].
    + right. split; [done|]. right. by eapply Hone.
  - destruct Hn as (d & Hd & Hmax & Hdl). rewrite Hd in Hrun. cbn [option_map fst snd] in Hrun.
    rewrite ParseInt_pretty in Hrun by (unfold int64_min; lia).
    assert (counted (Datatypes.S n) r) as Hn by (by exists d).
    case_bool_decide as Hlt; cbn [fst snd] in Hrun.
    + assert (redis_keys r' = <[counter_key := (pretty (Z.of_nat (Datatypes.S n) + 1), d)]> (redis_keys r) →
        counted (Datatypes.S (Datatypes.S n)) r') as Hnext.
      { intros Hks. exists d. rewrite Hks, lookup_insert_eq. split_and!; [|lia|done]. do 3 f_equal. lia. }
      destruct Hrun as [[-> Hks]|[He [Hks|Hks]]].
      * left. split; [f_equal; lia|by apply Hnext].
      * right. split; [done|]. left. eapply counted_same; [by rewrite Hks|done].
      * right. split; [done|]. right. by apply Hnext.
    + right. destruct Hrun as [[-> Hks]|[He [Hks|Hks]]]; (split; [done|left]); (eapply counted_same; [by rewrite Hks|done]).
Qed.

Lemma Expire_counted n r a r' :
  counted n r → start ≤ redis_now r → in_window r' → Expire counter_key (window + time_Second) r = (a, r') → counted n r'.
Proof.
  intros Hn Hge Hin Hrun. apply Expire_ran in Hrun as [Hle Hrun]; [|unfold time_Second; lia].
  pose proof (counted_get n r r' Hn Hin) as Hget.
  assert (redis_keys r' = redis_keys r ∨ redis_keys r' = (expire counter_key (window + time_Second) (redis_now r') (redis_keys r)).2) as [Hks|Hks]
    by (destruct Hrun as [[_ ?]|[_ [?|?]]]; auto).
  - eapply counted_same; [by rewrite Hks|done].
  - unfold expire in Hks. rewrite Hget in Hks. destruct n as [|n]; [eapply counted_same; [by rewrite Hks|done]|].
    destruct Hn as (d & Hd & Hmax & Hdl). rewrite Hd in Hks. cbn in Hks. exists (Some (redis_now r' + ex (window + time_Second))).
    rewrite Hks, lookup_insert_eq. split_and!; [done..|lia].
Qed.

(** One request: the counter goes up by one, and an answer is the verdict on
    the new count. *)
Lemma Allow_counted n w now w1 r a w' r' :
  counted n r → in_window r → Limiter_now l w = (Ok now, w1) → Truncate now window = ws →
  Allow l scope key limit window (w, r) = (a, (w', r')) → in_window r' →
  (a = Ok (fixed_window limit (ws + window) n now) ∧ counted (Datatypes.S n) r') ∨
  (is_ok a = false ∧ (counted n r' ∨ counted (Datatypes.S n) r')).
Proof.
  intros Hn Hin Hnow Hws. unfold Allow, sbind at 1, in_world. cbn [fst snd]. rewrite Hnow, Hws. fold counter_key.
  unfold sbind at 1, in_redis at 1. cbn [fst snd]. destruct (Incr counter_key r) as [c r1] eqn:Hi.
  pose proof (Incr_ran _ _ _ _ Hi) as [Hle _]. intros Hrun Hin'.
  assert (redis_now r1 ≤ redis_now r' ∧ (c = Ok 1 → ∃ b, Expire counter_key (window + time_Second) r1 = (b, r') ∧
      a = match b with Ok _ => Ok (verdict limit window now 1) | Err e => Err e end) ∧
    (c ≠ Ok 1 → r' = r1 ∧ a = match c with Ok n => Ok (verdict limit window now n) | Err e => Err e end)) as (Hle1 & Hone & Hmore).
  { destruct c as [n1|e]; [|injection Hrun as <- <- <-; split_and!; [lia|done|done]].
    case_bool_decide as H1.
    - subst n1. unfold sbind, in_redis in Hrun. cbn [fst snd] in Hrun. destruct (Expire _ _ r1) as [b r2] eqn:He.
      assert (0 < window + time_Second) as Hd by (unfold time_Second; lia).
      pose proof (Expire_ran _ _ _ _ _ Hd He) as [Hle2 _].
      destruct b; injection Hrun as <- <- <-; (split_and!; [done|intros _; by eexists|done]).
    - injection Hrun as <- <- <-. split_and!; [lia|intros [= ->]; done|done]. }
  assert (in_window r1) as Hin1 by (unfold in_window in *; lia).
  destruct (Incr_counted _ _ _ _ Hn Hin1 Hi) as [[-> Hc]|[He Hc]].
  - rewrite <- (verdict_fixed_window limit window now n Hwindow) in * || idtac.
    destruct n as [|n].
    + destruct (Hone eq_refl) as (b & Hexp & ->). apply (Expire_counted 1) in Hexp; [|done|unfold in_window in *; lia|done].
      destruct b; [left|right; by auto]. split; [|done]. rewrite <- Hws. f_equal. by rewrite <- (verdict_fixed_window _ _ _ 0).
    + destruct Hmore as [-> ->]; [intros [= ?]; lia|]. left. split; [|done]. rewrite <- Hws.
      rewrite <- verdict_fixed_window by done. do 2 f_equal. lia.
  - right. destruct Hmore as [-> ->]; [by intros ->|]. by destruct c.
Qed.

(** The invariant of a window: the counter, the number of allowed requests,
    and the answers as long as Redis answered all of them. *)
Definition reference (nows : list Z) : list (Z * result Result) :=
  imap (λ i now, (now, Ok (fixed_window limit (ws + window) i now))) nows.

Definition window_ok (t : list (Z * result Result)) (n : nat) : Prop :=
  (length (base.filter (λ x, allowed x = true) t) ≤ n)%nat ∧
  Z.of_nat (length (base.filter (λ x, allowed x = true) t)) ≤ Z.max 0 limit ∧
  (Forall (λ x, is_ok x.2 = true) t → n = length t ∧ t = reference t.*1).

Lemma window_ok_next t n now a n' :
  window_ok t n → ((a = Ok (fixed_window limit (ws + window) n now) ∧ n' = Datatypes.S n) ∨
    (is_ok a = false ∧ (n ≤ n')%nat)) → window_ok (t ++ [(now, a)]) n'.
Proof.
  intros (Hn & Hl & Href) Ha. unfold window_ok. rewrite filter_app, length_app, filter_cons, filter_nil.
  destruct Ha as [[-> ->]|[He Hle]].
  - split_and!.
    + case_decide; cbn; lia.
    + case_decide as Hal; cbn; [|lia]. cbn in Hal. apply bool_decide_eq_true in Hal. lia.
    + intros [Hall _]%Forall_app. destruct (Href Hall) as [-> Ht]. split; [rewrite length_app; cbn; lia|].
      rewrite fmap_app. unfold reference. rewrite imap_app. fold (reference t.*1). rewrite <- Ht.
      f_equal. cbn. by rewrite length_fmap, Nat.add_0_r.
  - rewrite decide_False by (destruct a; cbn; done). cbn. split_and!; [lia..|].
    intros [_ Hbad]%Forall_app. apply Forall_cons_1 in Hbad as [Hbad _]. cbn in Hbad. congruence.
Qed.

Lemma window_run_counted t r : window_run t r → in_window r ∧ ∃ n, counted n r ∧ window_ok t n.
Proof.
  induction 1 as [r Hin Hk|t r r' _ [_ IH] Hle Hin Hk|t w now w1 r a w' r' _ [Hin0 IH] Hnow Hws Ha Hin].
  - split; [done|]. exists 0%nat. split; [done|]. split_and!; cbn; [done|lia|done].
  - split; [done|]. destruct IH as (n & Hn & Ht). exists n. split; [|done]. by eapply counted_same.
  - split; [done|]. destruct IH as (n & Hn & Ht).
    destruct (Allow_counted _ _ _ _ _ _ _ _ Hn Hin0 Hnow Hws Ha Hin) as [[-> Hc]|[He [Hc|Hc]]].
    + exists (Datatypes.S n). split; [done|]. eapply window_ok_next; [exact Ht|]. by left.
    + exists n. split; [done|]. eapply window_ok_next; [exact Ht|]. by right.
    + exists (Datatypes.S n). split; [done|]. eapply window_ok_next; [exact Ht|]. right. split; [done|lia].
Qed.

(** C23. The limiter is a fixed window. Whatever the connection to Redis does,
    at most [limit] requests of a window are allowed; and when Redis answers,
    the answers are those of the reference: the first [limit] requests are
    allowed, with the count that remains, and all others are refused until
    the window ends. *)
Theorem limiter_fixed_window t r :
  window_run t r →
  Z.of_nat (length (base.filter (λ x, allowed x = true) t)) ≤ Z.max 0 limit ∧
  (Forall (λ x, is_ok x.2 = true) t → t = reference t.*1).
Proof.
  intros (_ & n & _ & _ & Hl & Href)%window_run_counted. split; [done|]. intros Hall. by apply Href.
Qed.
End window.
