(* ===== verification/Http.v ===== *)
(** * Requests and responses

    What [net/http] hands to a handler, the writer through which it answers,
    and the JSON helpers of [internal/api/json.go].  A handler is a function
    of the request and the writer on the world and Redis; a middleware is a
    function of handlers. *)

From S2P Require Import Prelude GoStrings Json Models World.
From S2P Require Import OrderService.
From S2P Require Import Auth.
From S2P Require Import Redis.
From S2P Require Import Lock.

(** ** Requests

    The method, the path and the remote address as text, the header fields
    under their canonical names, the cookies, and the bytes of the body.  The
    last two are the context: the claims that [requireAuth] stores and the
    parameter [id] of the route. *)
Record Request := mkRequest {
  Request_Method : string;
  Request_Path : string;
  Request_RemoteAddr : string;
  Request_Header : list (string * string);
  Request_Cookies : list (string * string);
  Request_Body : string;
  Request_claims : option Claims;
  Request_id : string
}.

Definition with_claims (c : Claims) (r : Request) : Request :=
  mkRequest (Request_Method r) (Request_Path r) (Request_RemoteAddr r) (Request_Header r) (Request_Cookies r)
    (Request_Body r) (Some c) (Request_id r).
Definition with_id (id : string) (r : Request) : Request :=
  mkRequest (Request_Method r) (Request_Path r) (Request_RemoteAddr r) (Request_Header r) (Request_Cookies r)
    (Request_Body r) (Request_claims r) id.

(** [authClaimsFromContext]: the claims, and whether there are any. *)
Definition authClaimsFromContext (r : Request) : option Claims := Request_claims r.

(** The first entry under a name. *)
Definition first_of (name : string) (l : list (string * string)) : option string :=
  snd <$> List.find (λ e, bool_decide (e.1 = name)) l.

(** [r.Header.Get] *)
Definition Header_Get (r : Request) (name : string) : string := default "" (first_of name (Request_Header r)).
(** [r.Cookie] *)
Definition Request_Cookie (r : Request) (name : string) : option string := first_of name (Request_Cookies r).

(** ** The response *)

Inductive SameSite := SameSiteLaxMode.

Record Cookie := mkCookie {
  Cookie_Name : string;
  Cookie_Value : string;
  Cookie_Path : string;
  Cookie_Expires : Z;
  Cookie_MaxAge : Z;
  Cookie_HttpOnly : bool;
  Cookie_Secure : bool;
  Cookie_SameSite : SameSite
}.

(** The writer: its header fields and cookies, the status codes given to
    [WriteHeader], the last one first, and the bytes written. *)
Record ResponseWriter := mkResponseWriter {
  rw_header : list (string * string);
  rw_cookies : list Cookie;
  rw_codes : list Z;
  rw_body : string
}.

Definition new_response : ResponseWriter := mkResponseWriter [] [] [] "".

(** [w.Header().Set]: replaces what is under the name. *)
Definition Header_Set (name value : string) (rw : ResponseWriter) : ResponseWriter :=
  mkResponseWriter ((name, value) :: List.filter (λ e, negb (bool_decide (e.1 = name))) (rw_header rw))
    (rw_cookies rw) (rw_codes rw) (rw_body rw).
Definition SetCookie (c : Cookie) (rw : ResponseWriter) : ResponseWriter :=
  mkResponseWriter (rw_header rw) (rw_cookies rw ++ [c]) (rw_codes rw) (rw_body rw).
Definition WriteHeader (code : Z) (rw : ResponseWriter) : ResponseWriter :=
  mkResponseWriter (rw_header rw) (rw_cookies rw) (code :: rw_codes rw) (rw_body rw).
(** The first write sends the status 200 if none was given. *)
Definition Write (bytes : string) (rw : ResponseWriter) : ResponseWriter :=
  mkResponseWriter (rw_header rw) (rw_cookies rw) (match rw_codes rw with [] => [StatusOK] | l => l end)
    (rw_body rw +:+ bytes).

(** The status of the response: the first code. *)
Definition rw_status (rw : ResponseWriter) : Z := List.last (rw_codes rw) StatusOK.

Definition StatusNoContent : Z := 204.
Definition StatusBadRequest : Z := 400.
Definition StatusUnauthorized : Z := 401.
Definition StatusForbidden : Z := 403.
Definition StatusNotFound : Z := 404.
Definition StatusConflict : Z := 409.
Definition StatusTooManyRequests : Z := 429.
Definition StatusInternalServerError : Z := 500.
Definition StatusServiceUnavailable : Z := 503.

(** ** [json.go] *)

Definition newline : string := String "010"%char "".

(** [writeJSON]: the encoder writes the text and a newline, or nothing when
    the value cannot be encoded, an error that is dropped. *)
Definition writeJSON (rw : ResponseWriter) (statusCode : Z) (value : option json) : ResponseWriter :=
  let rw := WriteHeader statusCode (Header_Set "Content-Type" "application/json" rw) in
  match value with
  | Some v => Write (Marshal v +:+ newline) rw
  | None => rw
  end.

Definition errorResponse (message : string) : json := JObj [("error", JStr message)].

Definition writeJSONError (rw : ResponseWriter) (statusCode : Z) (message : string) : ResponseWriter :=
  writeJSON rw statusCode (Some (errorResponse message)).

(** [http.Error] *)
Definition http_Error (rw : ResponseWriter) (error : string) (code : Z) : ResponseWriter :=
  Write (error +:+ newline)
    (WriteHeader code (Header_Set "X-Content-Type-Options" "nosniff"
       (Header_Set "Content-Type" "text/plain; charset=utf-8" rw))).

(** [json.NewDecoder(r.Body).Decode] of a struct: the members of the first
    value of the body; what follows it is not looked at.  [null] leaves the
    struct as it is; a value of another kind is an error. *)
Definition Decode (body : string) : option (list (string * json)) :=
  match parse_value (S (String.length body)) body with
  | Some (JObj ms, _) => Some ms
  | Some (JNull, _) => Some []
  | _ => None
  end.

(** ** Handlers *)

(** The fields of [api.Server] that handlers use; the pools and clients are
    part of the world and of Redis. *)
Record Server := mkServer {
  Server_authService : AuthService;
  Server_cookieSecure : bool;
  Server_lockManager : option Manager
}.

Section handlers.
Context {R : Type}.

Definition Handler : Type := Request → ResponseWriter → World * R → ResponseWriter * (World * R).

(** A call of a service in a handler. *)
Definition call {A} (m : Session (R := R) A) (k : result A → World * R → ResponseWriter * (World * R))
    (st : World * R) : ResponseWriter * (World * R) :=
  let '(a, st') := m st in k a st'.

(** Answering, with nothing left to do. *)
Definition respond (rw : ResponseWriter) (st : World * R) : ResponseWriter * (World * R) := (rw, st).
End handlers.

Lemma writeJSON_status rw code v : rw_codes rw = [] → rw_status (writeJSON rw code v) = code.
Proof. intros Hc. unfold writeJSON, rw_status. destruct v; cbn; by rewrite Hc. Qed.

Lemma writeJSONError_status rw code msg : rw_codes rw = [] → rw_status (writeJSONError rw code msg) = code.
Proof. apply writeJSON_status. Qed.
