(* ===== verification/OrderHandlers.v ===== *)
(** * The handlers of orders

    [internal/api/order_handler.go]: each handler decodes a request, calls the
    order service and turns its answer, or its error, into a response.
    Paying and cancelling run under the lock of the order. *)

From S2P Require Import Prelude GoStrings Json GoTime Models World.
From S2P Require Import OrderService.
From S2P Require Import Auth.
From S2P Require Import Redis.
From S2P Require Import Lock Http.

(** ** Requests and responses *)

Record createOrderRequest := mkCreateOrderRequest {
  createOrder_AmountCents : Z; createOrder_Currency : string; createOrder_Description : string
}.

Definition decode_createOrderRequest (body : string) : option createOrderRequest :=
  ms ← Decode body;
  let '(amount, e1) := int64_field "amount_cents" ms in
  let '(currency, e2) := string_field "currency" ms in
  let '(description, e3) := string_field "description" ms in
  if e1 || e2 || e3 then None else Some (mkCreateOrderRequest amount currency description).

Record orderResponse := mkOrderResponse {
  orderResponse_ID : string;
  orderResponse_UserID : string;
  orderResponse_Status : string;
  orderResponse_AmountCents : Z;
  orderResponse_Currency : string;
  orderResponse_Description : string;
  orderResponse_CreatedAt : Z;
  orderResponse_UpdatedAt : Z
}.

Record paymentResponse := mkPaymentResponse {
  paymentResponse_ID : string;
  paymentResponse_OrderID : string;
  paymentResponse_Status : string;
  paymentResponse_AmountCents : Z;
  paymentResponse_Provider : string;
  paymentResponse_ProviderRef : string;
  paymentResponse_FailureReason : string;
  paymentResponse_CreatedAt : Z;
  paymentResponse_UpdatedAt : Z
}.

Record payOrderResponse := mkPayOrderResponse {
  payOrderResponse_Order : orderResponse; payOrderResponse_Payment : paymentResponse
}.

Definition orderResponse_json (o : orderResponse) : option json :=
  created ← time_json (orderResponse_CreatedAt o);
  updated ← time_json (orderResponse_UpdatedAt o);
  Some (JObj ([("id", JStr (orderResponse_ID o)); ("user_id", JStr (orderResponse_UserID o));
               ("status", JStr (orderResponse_Status o)); ("amount_cents", JInt (orderResponse_AmountCents o));
               ("currency", JStr (orderResponse_Currency o))]
              ++ omitempty "description" (orderResponse_Description o)
              ++ [("created_at", created); ("updated_at", updated)])).

Definition paymentResponse_json (p : paymentResponse) : option json :=
  created ← time_json (paymentResponse_CreatedAt p);
  updated ← time_json (paymentResponse_UpdatedAt p);
  Some (JObj ([("id", JStr (paymentResponse_ID p)); ("order_id", JStr (paymentResponse_OrderID p));
               ("status", JStr (paymentResponse_Status p)); ("amount_cents", JInt (paymentResponse_AmountCents p));
               ("provider", JStr (paymentResponse_Provider p))]
              ++ omitempty "provider_ref" (paymentResponse_ProviderRef p)
              ++ omitempty "failure_reason" (paymentResponse_FailureReason p)
              ++ [("created_at", created); ("updated_at", updated)])).

Definition payOrderResponse_json (r : payOrderResponse) : option json :=
  order ← orderResponse_json (payOrderResponse_Order r);
  payment ← paymentResponse_json (payOrderResponse_Payment r);
  Some (JObj [("order", order); ("payment", payment)]).

Definition orderLockKey (orderID : string) : string := "lock:order:" +:+ orderID.

Section order_handlers.
Context `{External} `{AuthExternal} `{Redis R}.

Definition newOrderResponse (order : Order) : orderResponse :=
  mkOrderResponse (UUID_String (Order_ID order)) (UUID_String (Order_UserID order)) (Order_Status order)
    (Order_AmountCents order) (Order_Currency order) (default "" (Order_Description order))
    (Order_CreatedAt order) (Order_UpdatedAt order).

Definition newPaymentResponse (payment : Payment) : paymentResponse :=
  mkPaymentResponse (UUID_String (Payment_ID payment)) (UUID_String (Payment_OrderID payment)) (Payment_Status payment)
    (Payment_AmountCents payment) (Payment_Provider payment) (default "" (Payment_ProviderRef payment))
    (default "" (Payment_FailureReason payment)) (Payment_CreatedAt payment) (Payment_UpdatedAt payment).

(** ** The lock around a request *)

(** [acquireOrderLock]: the lock, [nil] without a manager, or the response
    that ends the request. *)
Definition acquireOrderLock (s : Server) (rw : ResponseWriter) (orderID : string) (st : World * R) :
    (ResponseWriter + option Lock) * (World * R) :=
  match Server_lockManager s with
  | None => (inr None, st)
  | Some m =>
    let '(acquired, st') := Acquire m (orderLockKey orderID) st in
    match acquired with
    | Ok lock => (inr (Some lock), st')
    | Err err =>
      if errors_Is err ErrLockNotAcquired then (inl (writeJSONError rw StatusConflict "order is being processed"), st')
      else (inl (writeJSONError rw StatusInternalServerError "failed to acquire order lock"), st')
    end
  end.

(** [releaseOrderLock]: an error is logged. *)
Definition releaseOrderLock (lock : option Lock) (st : World * R) : World * R :=
  match lock with
  | None => st
  | Some l => (Release l st).2
  end.

(** A request under the lock of its order; [defer] releases it at the end. *)
Definition under_order_lock (s : Server) (orderID : string)
    (body : ResponseWriter → World * R → ResponseWriter * (World * R)) (rw : ResponseWriter) (st : World * R) :
    ResponseWriter * (World * R) :=
  let '(acquired, st1) := acquireOrderLock s rw orderID st in
  match acquired with
  | inl rw' => (rw', st1)
  | inr lock => let '(rw', st2) := body rw st1 in (rw', releaseOrderLock lock st2)
  end.

(** ** The responses to errors *)

Definition create_order_error (rw : ResponseWriter) (err : error) : ResponseWriter :=
  if errors_Is err ErrIdempotencyKeyRequired then writeJSONError rw StatusBadRequest "idempotency key is required"
  else if errors_Is err ErrInvalidInput then writeJSONError rw StatusBadRequest "invalid order input"
  else if errors_Is err ErrIdempotencyConflict
  then writeJSONError rw StatusConflict "idempotency key reused with different request"
  else writeJSONError rw StatusInternalServerError "failed to create order".

Definition get_order_error (rw : ResponseWriter) (err : error) : ResponseWriter :=
  if errors_Is err ErrOrderNotFound then writeJSONError rw StatusNotFound "order not found"
  else if errors_Is err ErrOrderForbidden then writeJSONError rw StatusForbidden "order forbidden"
  else writeJSONError rw StatusInternalServerError "failed to get order".

Definition pay_order_error (rw : ResponseWriter) (err : error) : ResponseWriter :=
  if errors_Is err ErrInvalidInput then writeJSONError rw StatusBadRequest "invalid payment input"
  else if errors_Is err ErrIdempotencyKeyRequired then writeJSONError rw StatusBadRequest "idempotency key is required"
  else if errors_Is err ErrIdempotencyConflict
  then writeJSONError rw StatusConflict "idempotency key reused with different request"
  else if errors_Is err ErrOrderNotFound then writeJSONError rw StatusNotFound "order not found"
  else if errors_Is err ErrOrderForbidden then writeJSONError rw StatusForbidden "order forbidden"
  else if errors_Is err ErrOrderInvalidStatus
  then writeJSONError rw StatusConflict "order cannot be paid in current status"
  else writeJSONError rw StatusInternalServerError "failed to pay order".

Definition cancel_order_error (rw : ResponseWriter) (err : error) : ResponseWriter :=
  if errors_Is err ErrInvalidInput then writeJSONError rw StatusBadRequest "invalid cancel input"
  else if errors_Is err ErrOrderNotFound then writeJSONError rw StatusNotFound "order not found"
  else if errors_Is err ErrOrderForbidden then writeJSONError rw StatusForbidden "order forbidden"
  else if errors_Is err ErrOrderInvalidStatus
  then writeJSONError rw StatusConflict "order cannot be cancelled in current status"
  else writeJSONError rw StatusInternalServerError "failed to cancel order".

(** ** The handlers *)

(** [authClaimsFromContext], and the response when there are none. *)
Definition with_auth (r : Request) (rw : ResponseWriter) (k : Claims → World * R → ResponseWriter * (World * R)) :
    World * R → ResponseWriter * (World * R) :=
  match authClaimsFromContext r with
  | None => respond (writeJSONError rw StatusUnauthorized "unauthorized")
  | Some claims => k claims
  end.

Definition handleCreateOrder : Handler (R := R) := λ r rw,
  with_auth r rw (λ claims,
  let idempotencyKey := Header_Get r "Idempotency-Key" in
  match decode_createOrderRequest (Request_Body r) with
  | None => respond (writeJSONError rw StatusBadRequest "invalid JSON body")
  | Some req =>
    call (in_world (CreateOrder (mkCreateOrderParams (Claims_UserID claims) idempotencyKey (Request_Method r)
            (Request_Path r) (createOrder_AmountCents req) (createOrder_Currency req) (createOrder_Description req))))
      (λ result, match result with
       | Err err => respond (create_order_error rw err)
       | Ok result => respond (writeJSON rw (CreateOrderResult_StatusCode result)
                        (orderResponse_json (newOrderResponse (CreateOrderResult_Order result))))
       end)
  end).

Definition handleListOrders : Handler (R := R) := λ r rw,
  with_auth r rw (λ claims,
  call (in_world (ListOrders (mkListOrdersParams (Claims_UserID claims) (Claims_Role claims))))
    (λ result, match result with
     | Err _ => respond (writeJSONError rw StatusInternalServerError "failed to list orders")
     | Ok orders =>
       respond (writeJSON rw StatusOK (JArr <$> mapM (λ o, orderResponse_json (newOrderResponse o)) orders))
     end)).

Definition handleGetOrder : Handler (R := R) := λ r rw,
  with_auth r rw (λ claims,
  let orderID := Request_id r in
  if bool_decide (orderID = "") then respond (writeJSONError rw StatusBadRequest "order id is required") else
  call (in_world (GetOrder (mkGetOrderParams (Claims_UserID claims) (Claims_Role claims) orderID)))
    (λ result, match result with
     | Err err => respond (get_order_error rw err)
     | Ok order => respond (writeJSON rw StatusOK (orderResponse_json (newOrderResponse order)))
     end)).

Definition handlePayOrder (s : Server) : Handler (R := R) := λ r rw,
  with_auth r rw (λ claims,
  let idempotencyKey := Header_Get r "Idempotency-Key" in
  let orderID := Request_id r in
  if bool_decide (orderID = "") then respond (writeJSONError rw StatusBadRequest "order id is required") else
  under_order_lock s orderID (λ rw,
    call (in_world (PayOrder (mkPayOrderParams (Claims_UserID claims) (Claims_Role claims) orderID idempotencyKey
            (Request_Method r) (Request_Path r))))
      (λ result, match result with
       | Err err => respond (pay_order_error rw err)
       | Ok result => respond (writeJSON rw (PayOrderResult_StatusCode result)
           (payOrderResponse_json (mkPayOrderResponse (newOrderResponse (PayOrderResult_Order result))
              (newPaymentResponse (PayOrderResult_Payment result)))))
       end)) rw).

Definition handleCancelOrder (s : Server) : Handler (R := R) := λ r rw,
  with_auth r rw (λ claims,
  let orderID := Request_id r in
  if bool_decide (orderID = "") then respond (writeJSONError rw StatusBadRequest "order id is required") else
  under_order_lock s orderID (λ rw,
    call (in_world (CancelOrder (mkCancelOrderParams (Claims_UserID claims) (Claims_Role claims) orderID)))
      (λ result, match result with
       | Err err => respond (cancel_order_error rw err)
       | Ok order => respond (writeJSON rw StatusOK (orderResponse_json (newOrderResponse order)))
       end)) rw).
End order_handlers.
