(* ===== verification/AuthHandlers.v ===== *)
(** * The handlers of users and sessions

    [internal/api/auth_handler.go]: registration, login, refresh and logout
    with the refresh token in a cookie, and the user of a token. *)

From S2P Require Import Prelude GoStrings Json GoTime Models World.
From S2P Require Import OrderService.
From S2P Require Import Auth.
From S2P Require Import Redis.
From S2P Require Import RateLimit.
From S2P Require Import Lock Http OrderHandlers.

Record registerRequest := mkRegisterRequest { register_Email : string; register_Password : string; register_Role : string }.
Record loginRequest := mkLoginRequest { login_Email : string; login_Password : string }.

Record userResponse := mkUserResponse {
  userResponse_ID : string;
  userResponse_Email : string;
  userResponse_Role : string;
  userResponse_CreatedAt : Z;
  userResponse_UpdatedAt : Z
}.

Record loginResponse := mkLoginResponse {
  loginResponse_AccessToken : string; loginResponse_TokenType : string; loginResponse_User : userResponse
}.

Definition refreshTokenCookieName : string := "refresh_token".

Definition decode_registerRequest (body : string) : option registerRequest :=
  ms ← Decode body;
  let '(email, e1) := string_field "email" ms in
  let '(password, e2) := string_field "password" ms in
  let '(role, e3) := string_field "role" ms in
  if e1 || e2 || e3 then None else Some (mkRegisterRequest email password role).

Definition decode_loginRequest (body : string) : option loginRequest :=
  ms ← Decode body;
  let '(email, e1) := string_field "email" ms in
  let '(password, e2) := string_field "password" ms in
  if e1 || e2 then None else Some (mkLoginRequest email password).

Definition userResponse_json (u : userResponse) : option json :=
  created ← time_json (userResponse_CreatedAt u);
  updated ← time_json (userResponse_UpdatedAt u);
  Some (JObj [("id", JStr (userResponse_ID u)); ("email", JStr (userResponse_Email u));
              ("role", JStr (userResponse_Role u)); ("created_at", created); ("updated_at", updated)]).

Definition loginResponse_json (l : loginResponse) : option json :=
  user ← userResponse_json (loginResponse_User l);
  Some (JObj [("access_token", JStr (loginResponse_AccessToken l)); ("token_type", JStr (loginResponse_TokenType l));
              ("user", user)]).

Section auth_handlers.
Context `{External} `{AuthExternal} `{Redis R}.

Definition newUserResponse (user : User) : userResponse :=
  mkUserResponse (UUID_String (User_ID user)) (User_Email user) (User_Role user) (User_CreatedAt user) (User_UpdatedAt user).

(** ** The cookie of the refresh token *)

(** [time.Until] and [Seconds] truncate towards zero. *)
Definition setRefreshTokenCookie (s : Server) (rw : ResponseWriter) (token : string) (expiresAt : Z) : M ResponseWriter :=
  let* now := time_now in
  let maxAge := Z.quot (expiresAt - now) time_Second in
  let maxAge := if maxAge <? 0 then 0 else maxAge in
  ret (SetCookie (mkCookie refreshTokenCookieName token "/auth" expiresAt maxAge true (Server_cookieSecure s) SameSiteLaxMode) rw).

Definition clearRefreshTokenCookie (s : Server) (rw : ResponseWriter) : M ResponseWriter :=
  let* now := time_now in
  ret (SetCookie (mkCookie refreshTokenCookieName "" "/auth" (now - 3600 * time_Second) (-1) true
         (Server_cookieSecure s) SameSiteLaxMode) rw).

(** ** The responses to errors *)

Definition register_error (rw : ResponseWriter) (err : error) : ResponseWriter :=
  if errors_Is err ErrInvalidInput then writeJSONError rw StatusBadRequest "invalid register input"
  else if errors_Is err ErrEmailAlreadyExists then writeJSONError rw StatusConflict "email already exists"
  else writeJSONError rw StatusInternalServerError "failed to register user".

Definition login_error (rw : ResponseWriter) (err : error) : ResponseWriter :=
  if errors_Is err ErrInvalidInput then writeJSONError rw StatusBadRequest "invalid login input"
  else if errors_Is err ErrInvalidCredentials then writeJSONError rw StatusUnauthorized "invalid email or password"
  else writeJSONError rw StatusInternalServerError "failed to login user".

Definition refresh_error (rw : ResponseWriter) (err : error) : ResponseWriter :=
  if errors_Is err ErrInvalidRefreshToken then writeJSONError rw StatusUnauthorized "invalid refresh token"
  else writeJSONError rw StatusInternalServerError "failed to refresh access token".

(** ** The handlers *)

Definition handleRegister : Handler (R := R) := λ r rw,
  match decode_registerRequest (Request_Body r) with
  | None => respond (writeJSONError rw StatusBadRequest "invalid JSON body")
  | Some req =>
    call (in_world (RegisterUser (mkRegisterUserParams (register_Email req) (register_Password req) (register_Role req))))
      (λ result, match result with
       | Err err => respond (register_error rw err)
       | Ok user => respond (writeJSON rw StatusCreated (userResponse_json (newUserResponse user)))
       end)
  end.

(** The setter of the cookie does not fail. *)
Definition with_cookie (m : M ResponseWriter) (rw : ResponseWriter)
    (k : ResponseWriter → World * R → ResponseWriter * (World * R)) : World * R → ResponseWriter * (World * R) :=
  call (in_world m) (λ result, match result with Ok rw' => k rw' | Err _ => k rw end).

Definition handleLogin (s : Server) : Handler (R := R) := λ r rw,
  match decode_loginRequest (Request_Body r) with
  | None => respond (writeJSONError rw StatusBadRequest "invalid JSON body")
  | Some req =>
    call (in_world (Login (Server_authService s) (mkLoginParams (login_Email req) (login_Password req))))
      (λ result, match result with
       | Err err => respond (login_error rw err)
       | Ok result =>
         with_cookie (setRefreshTokenCookie s rw (LoginResult_RefreshToken result) (LoginResult_RefreshTokenExpiresAt result)) rw
           (λ rw, respond (writeJSON rw StatusOK (loginResponse_json (mkLoginResponse (LoginResult_AccessToken result)
                    "Bearer" (newUserResponse (LoginResult_User result))))))
       end)
  end.

Definition handleRefresh (s : Server) : Handler (R := R) := λ r rw,
  match Request_Cookie r refreshTokenCookieName with
  | None => respond (writeJSONError rw StatusUnauthorized "missing refresh token")
  | Some value =>
    call (in_world (RefreshAccessToken (Server_authService s) value))
      (λ result, match result with
       | Err err => respond (refresh_error rw err)
       | Ok result => respond (writeJSON rw StatusOK (loginResponse_json
           (mkLoginResponse (RefreshAccessTokenResult_AccessToken result) "Bearer"
              (newUserResponse (RefreshAccessTokenResult_User result)))))
       end)
  end.

Definition handleLogout (s : Server) : Handler (R := R) := λ r rw,
  match Request_Cookie r refreshTokenCookieName with
  | None => with_cookie (clearRefreshTokenCookie s rw) rw (λ rw, respond (WriteHeader StatusNoContent rw))
  | Some value =>
    (* an error of Logout is at most logged *)
    call (in_world (Logout value)) (λ _,
      with_cookie (clearRefreshTokenCookie s rw) rw (λ rw, respond (WriteHeader StatusNoContent rw)))
  end.

Definition handleMe : Handler (R := R) := λ r rw,
  with_auth r rw (λ claims,
  call (in_world (AuthService_GetUser (Claims_UserID claims)))
    (λ result, match result with
     | Err _ => respond (writeJSONError rw StatusUnauthorized "unauthorized")
     | Ok user => respond (writeJSON rw StatusOK (userResponse_json (newUserResponse user)))
     end)).
End auth_handlers.
