(* ===== verification/Router.v ===== *)
(** * Middlewares and routes

    [internal/api/router.go] with [middleware.go], [rate_limit_middleware.go],
    [metrics_middleware.go] and [cors_middleware.go].  Which route a request
    takes is decided by github.com/go-chi/chi, the class [Chi]; the table of
    routes and the middlewares in front of them are the program's. *)

From S2P Require Import Prelude GoStrings Json GoTime Models World.
From S2P Require Import OrderService.
From S2P Require Import Auth.
From S2P Require Import Redis.
From S2P Require Import RateLimit.
From S2P Require Import Lock Http OrderHandlers AuthHandlers.

(** ** Text of header fields *)

(** [unicode.IsSpace] of a rune. *)
Definition rune_space (r : rune) : bool :=
  match r with
  | R1 a => is_space1 a
  | R2 a b => is_space2 a b
  | R3 a b c => is_space3 a b c
  | _ => false
  end.

(** [strings.Fields]: the maximal runs of runes that are no white space. *)
Fixpoint words (cur : string) (l : list rune) : list string :=
  match l with
  | [] => if bool_decide (cur = "") then [] else [cur]
  | r :: l' =>
    if rune_space r then (if bool_decide (cur = "") then words "" l' else cur :: words "" l')
    else words (cur +:+ rune_bytes r) l'
  end.
Definition Fields (s : string) : list string := words "" (runes s).

(** [strings.EqualFold] with a word of ASCII letters without k and s, the two
    letters that fold together with a rune beyond ASCII. *)
Definition EqualFold (s t : string) : bool :=
  bool_decide (string_map ascii_lower_byte s = string_map ascii_lower_byte t).

(** The text up to the first byte [c], and what follows it. *)
Fixpoint cut (c : ascii) (s : string) : string * option string :=
  match s with
  | "" => ("", None)
  | String a s' => if bool_decide (a = c) then ("", Some s') else let '(x, y) := cut c s' in (String a x, y)
  end.

Definition has_byte (c : ascii) (s : string) : bool := match (cut c s).2 with Some _ => true | None => false end.

(** The text up to the last byte [c], and what follows it. *)
Definition cut_last (c : ascii) (s : string) : option (string * string) :=
  match cut c (String.rev s) with
  | (y, Some x) => Some (String.rev x, String.rev y)
  | (_, None) => None
  end.

(** The host of [net.SplitHostPort]; [None] is an error. *)
Definition SplitHostPort (hostport : string) : option string :=
  match cut_last ":" hostport with
  | None => None
  | Some (before, _) =>
    match hostport with
    | String "[" rest =>
      (* the first closing bracket must be just before the last colon *)
      match cut "]" rest with
      | (_, None) => None
      | (host, Some _) =>
        if negb (bool_decide (before = "[" +:+ host +:+ "]")) then None
        else if has_byte "[" rest || has_byte "]" (default "" (cut "]" rest).2) then None
        else Some host
      end
    | _ =>
      if has_byte ":" before then None
      else if has_byte "[" hostport || has_byte "]" hostport then None
      else Some before
    end
  end.

Definition clientIPFromRequest (r : Request) : string :=
  let forwardedFor := Header_Get r "X-Forwarded-For" in
  let ip := TrimSpace (cut "," forwardedFor).1 in
  if negb (bool_decide (forwardedFor = "")) && negb (bool_decide (ip = "")) then ip else
  let realIP := TrimSpace (Header_Get r "X-Real-Ip") in
  if negb (bool_decide (realIP = "")) then realIP else
  match SplitHostPort (Request_RemoteAddr r) with
  | Some host => host
  | None => Request_RemoteAddr r
  end.

(** ** The outcome of routing *)

(** The routes: a method ([None] for all of them) and a pattern. *)
Definition RouteKey : Type := option string * string.

Class Chi := {
  (* the index of the route that a method and a path take, and the parameter [id] *)
  chi_route : list RouteKey → string → string → option (nat * string);
  (* the answer to a request that takes no route: 404 or 405 *)
  chi_fallback : list RouteKey → Request → ResponseWriter → ResponseWriter;
  (* the route pattern of such a request *)
  chi_no_pattern : list RouteKey → string → string → string;
  (* promhttp.Handler *)
  prometheus_handler : Request → World → ResponseWriter → ResponseWriter
}.

Section middlewares.
Context `{External} `{AuthExternal} `{Redis R} `{Chi}.

(** ** [middleware.go] *)

Definition requireAuth (s : Server) (next : Handler (R := R)) : Handler (R := R) := λ r rw,
  let authHeader := Header_Get r "Authorization" in
  if bool_decide (authHeader = "") then respond (writeJSONError rw StatusUnauthorized "missing authorization header") else
  match Fields authHeader with
  | [scheme; tokenString] =>
    if negb (EqualFold scheme "Bearer") then respond (writeJSONError rw StatusUnauthorized "invalid authorization header")
    else
      call (in_world (AuthService_ParseAccessToken (Server_authService s) tokenString))
        (λ result, match result with
         | Err _ => respond (writeJSONError rw StatusUnauthorized "invalid access token")
         | Ok claims => next (with_claims claims r) rw
         end)
  | _ => respond (writeJSONError rw StatusUnauthorized "invalid authorization header")
  end.

(** ** [rate_limit_middleware.go] *)

Definition in_metrics (m : Metric) (st : World * R) : World * R := (add_metric m st.1, st.2).

Definition rateLimitMiddleware (limiter : option Limiter) (scope : string) (limit : Z) (next : Handler (R := R)) :
    Handler (R := R) := λ r rw,
  match limiter with
  | None => next r rw
  | Some l =>
    if limit <=? 0 then next r rw else
    let clientIP := clientIPFromRequest r in
    call (Allow l scope clientIP limit time_Minute) (λ answer, match answer with
      | Err _ => respond (writeJSONError rw StatusInternalServerError "rate limiter unavailable")
      | Ok result =>
        let rw := Header_Set "Ratelimit-Limit" (pretty (Result_Limit result)) rw in
        let rw := Header_Set "Ratelimit-Remaining" (pretty (Result_Remaining result)) rw in
        if negb (Result_Allowed result) then λ st,
          let retryAfter := Z.quot (Result_RetryAfter result) time_Second in
          let retryAfter := if retryAfter <? 1 then 1 else retryAfter in
          let rw := Header_Set "Retry-After" (pretty retryAfter) rw in
          (writeJSONError rw StatusTooManyRequests "rate limit exceeded", in_metrics (RateLimitBlockedTotal scope) st)
        else λ st, next r rw (in_metrics (RateLimitAllowedTotal scope) st)
      end)
  end.

(** ** [cors_middleware.go] *)

Definition corsMiddleware (allowedOrigin : string) (next : Handler (R := R)) : Handler (R := R) := λ r rw,
  let origin := Header_Get r "Origin" in
  let rw :=
    if negb (bool_decide (allowedOrigin = "")) && bool_decide (origin = allowedOrigin) then
      Header_Set "Vary" "Origin"
        (Header_Set "Access-Control-Allow-Headers" "Content-Type, Authorization, Idempotency-Key"
          (Header_Set "Access-Control-Allow-Methods" "GET, POST, OPTIONS"
            (Header_Set "Access-Control-Allow-Credentials" "true"
              (Header_Set "Access-Control-Allow-Origin" origin rw))))
    else rw in
  if bool_decide (Request_Method r = "OPTIONS") then respond (WriteHeader StatusNoContent rw)
  else next r rw.

(** ** [metrics_middleware.go]

    The recorder has the last code given to [WriteHeader]; the pattern is that
    of the route the request took. *)

Definition recorded_status (rw : ResponseWriter) : Z := hd StatusOK (rw_codes rw).

Definition metricsMiddleware (pattern : Request → string) (next : Handler (R := R)) : Handler (R := R) := λ r rw,
  call (in_world time_now) (λ started st,
    let '(rw', st1) := next r rw st in
    let routePattern := if bool_decide (pattern r = "") then Request_Path r else pattern r in
    let status := pretty (recorded_status rw') in
    let st2 := in_metrics (HTTPRequestsTotal (Request_Method r) routePattern status) st1 in
    call (in_world time_now) (λ ended st3,
      let elapsed := match started, ended with Ok t0, Ok t1 => t1 - t0 | _, _ => 0 end in
      (rw', in_metrics (HTTPRequestDurationSeconds (Request_Method r) routePattern status elapsed) st3)) st2).

(** ** [router.go] *)

Definition handleHealthz : Handler (R := R) := λ r rw, respond (Write "ok" (WriteHeader StatusOK rw)).

(** [dbPool.Ping]: an empty statement. *)
Definition ping_database : M unit := query (λ db _, Ok (tt, db)).

Definition handleReadyz : Handler (R := R) := λ r rw,
  call (in_world ping_database) (λ pinged, match pinged with
    | Err _ => respond (http_Error rw "database unavailable" StatusServiceUnavailable)
    | Ok _ =>
      call (in_redis Ping) (λ pinged, match pinged with
        | Err _ => respond (http_Error rw "redis unavailable" StatusServiceUnavailable)
        | Ok _ => respond (Write "ready" (WriteHeader StatusOK rw))
        end)
    end).

Definition handleMetrics : Handler (R := R) := λ r rw st, (prometheus_handler r st.1 rw, st).

Record RouterConfig := mkRouterConfig {
  cfg_AuthService : AuthService;
  cfg_CookieSecure : bool;
  cfg_LockManager : option Manager;
  cfg_RateLimiter : option Limiter;
  cfg_RateLimitEnabled : bool;
  cfg_RateLimitRequestsPerMinute : Z;
  cfg_AuthRateLimitRequestsPerMinute : Z;
  cfg_LoginRateLimitRequestsPerMinute : Z;
  cfg_CORSAllowedOrigin : string
}.

Definition new_server (cfg : RouterConfig) : Server :=
  mkServer (cfg_AuthService cfg) (cfg_CookieSecure cfg) (cfg_LockManager cfg).

Definition enabled_limiter (cfg : RouterConfig) : option Limiter :=
  if cfg_RateLimitEnabled cfg then cfg_RateLimiter cfg else None.

(** The group of the application's routes has the global limit in front. *)
Definition app (cfg : RouterConfig) (h : Handler (R := R)) : Handler (R := R) :=
  match enabled_limiter cfg with
  | Some l => rateLimitMiddleware (Some l) "global" (cfg_RateLimitRequestsPerMinute cfg) h
  | None => h
  end.

Definition routes (cfg : RouterConfig) : list (RouteKey * Handler (R := R)) :=
  let server := new_server cfg in
  let rateLimiter := enabled_limiter cfg in
  [((Some "GET", "/healthz"), handleHealthz);
   ((Some "GET", "/readyz"), handleReadyz);
   ((None, "/metrics"), handleMetrics);
   ((Some "POST", "/auth/register"), app cfg (rateLimitMiddleware rateLimiter "auth_register"
      (cfg_AuthRateLimitRequestsPerMinute cfg) handleRegister));
   ((Some "POST", "/auth/login"), app cfg (rateLimitMiddleware rateLimiter "auth_login"
      (cfg_LoginRateLimitRequestsPerMinute cfg) (handleLogin server)));
   ((Some "POST", "/auth/refresh"), app cfg (handleRefresh server));
   ((Some "POST", "/auth/logout"), app cfg (handleLogout server));
   ((Some "GET", "/me"), app cfg (requireAuth server handleMe));
   ((Some "POST", "/orders"), app cfg (requireAuth server handleCreateOrder));
   ((Some "GET", "/orders"), app cfg (requireAuth server handleListOrders));
   ((Some "GET", "/orders/{id}"), app cfg (requireAuth server handleGetOrder));
   ((Some "POST", "/orders/{id}/pay"), app cfg (requireAuth server (handlePayOrder server)));
   ((Some "POST", "/orders/{id}/cancel"), app cfg (requireAuth server (handleCancelOrder server)))].

(** The handler behind the middlewares of the router. *)
Definition dispatch (cfg : RouterConfig) : Handler (R := R) := λ r rw,
  let table := routes cfg in
  match chi_route (fst <$> table) (Request_Method r) (Request_Path r) with
  | Some (i, id) =>
    match table !! i with
    | Some (_, h) => h (with_id id r) rw
    | None => respond (chi_fallback (fst <$> table) r rw)
    end
  | None => respond (chi_fallback (fst <$> table) r rw)
  end.

Definition route_pattern (cfg : RouterConfig) (r : Request) : string :=
  let keys := fst <$> routes cfg in
  match chi_route keys (Request_Method r) (Request_Path r) with
  | Some (i, _) => match keys !! i with Some (_, pattern) => pattern | None => chi_no_pattern keys (Request_Method r) (Request_Path r) end
  | None => chi_no_pattern keys (Request_Method r) (Request_Path r)
  end.

Definition NewRouter (cfg : RouterConfig) : Handler (R := R) :=
  metricsMiddleware (route_pattern cfg)
    (if bool_decide (cfg_CORSAllowedOrigin cfg = "") then dispatch cfg
     else corsMiddleware (cfg_CORSAllowedOrigin cfg) (dispatch cfg)).
End middlewares.

(** ** On examples *)

Example Fields_bearer : Fields " Bearer  abc	" = ["Bearer"; "abc"].
Proof. vm_compute. reflexivity. Qed.
Example split_v4 : SplitHostPort "10.0.0.7:4711" = Some "10.0.0.7".
Proof. vm_compute. reflexivity. Qed.
Example split_v6 : SplitHostPort "[::1]:80" = Some "::1".
Proof. vm_compute. reflexivity. Qed.
Example split_none : SplitHostPort "::1" = None.
Proof. vm_compute. reflexivity. Qed.
