(* ===== verification/ApiBehaviour.v ===== *)
(** * How requests are answered

    The routes that need a token, the rate limit in front of a handler, and
    the lock around paying and cancelling with the status of every outcome. *)

From S2P Require Import Prelude GoStrings Json GoTime Models World.
From S2P Require Import Sqlc.
From S2P Require Import Store.
From S2P Require Import OrderService.
From S2P Require Import Spec OrderRefine Evolution Invariants.
From S2P Require Import Auth.
From S2P Require Import Redis.
From S2P Require Import RateLimit.
From S2P Require Import Lock Http OrderHandlers AuthHandlers Router.

(** ** Routes that need a token *)

Section protected.
Context `{External} `{!ExternalLaws _} `{AuthExternal} `{Redis R} `{Chi}.
Implicit Types (st : World * R).

(** The request has no token that the server accepts, at any time. *)
Definition no_token (s : Server) (r : Request) : Prop :=
  ∀ scheme token, Fields (Header_Get r "Authorization") = [scheme; token] → EqualFold scheme "Bearer" = true →
    ∀ w, is_ok (AuthService_ParseAccessToken (Server_authService s) token w).1 = false.

(** Without a token the handler refuses: nothing is written. *)
Definition refusals : list Z := [StatusUnauthorized; StatusTooManyRequests; StatusInternalServerError].
Definition refuses (s : Server) (h : Handler (R := R)) : Prop :=
  ∀ r rw st, rw_codes rw = [] → no_token s r →
    rw_status (h r rw st).1 ∈ refusals ∧ w_db (h r rw st).2.1 = w_db st.1.

Lemma ParseAccessToken_db m token w : w_db (ParseAccessToken m token w).2 = w_db w.
Proof.
  unfold ParseAccessToken, bind, time_now. destruct (jwt_ParseWithClaims _ _ _) as [[c v]|e]; [|done].
  cbn. destruct v; [|done]. by destruct (_ || _).
Qed.

Lemma requireAuth_refuses s next : refuses s (requireAuth s next).
Proof.
  intros r rw st Hrw Hno. unfold requireAuth.
  assert (∀ msg st', rw_status (respond (R := R) (writeJSONError rw StatusUnauthorized msg) st').1 ∈ refusals) as H401.
  { intros. cbn [respond fst]. rewrite writeJSONError_status by done. apply list_elem_of_here. }
  case_bool_decide; [by split; [apply H401|]|].
  destruct (Fields _) as [|scheme [|token [|]]] eqn:Hf; [by split; [apply H401|]..| |by split; [apply H401|]].
  destruct (negb (EqualFold scheme "Bearer")) eqn:He; [by split; [apply H401|]|]. apply negb_false_iff in He.
  specialize (Hno _ _ Hf He st.1). unfold call, in_world.
  pose proof (ParseAccessToken_db (tokenManager (Server_authService s)) token st.1) as Hdb.
  unfold AuthService_ParseAccessToken in *. destruct (ParseAccessToken _ token st.1) as [[c|e] w']; [done|].
  split; [apply H401|exact Hdb].
Qed.

Lemma Allow_db l scope key limit window st :
  readonly (Limiter_now l) → w_db (Allow l scope key limit window st).2.1 = w_db st.1.
Proof.
  intros Hl. unfold Allow, sbind, in_world, in_redis. specialize (Hl st.1).
  destruct (Limiter_now l st.1) as [[now|e] w]; [|done]. cbn [fst snd]. destruct (Incr _ _) as [[c|e] r]; [|done].
  case_bool_decide; [|done]. cbn [fst snd]. by destruct (Expire _ _ _) as [[]].
Qed.

Lemma rateLimit_refuses s limiter scope limit next :
  (∀ l, limiter = Some l → readonly (Limiter_now l)) → refuses s next → refuses s (rateLimitMiddleware limiter scope limit next).
Proof.
  intros Hl Hn r rw st Hrw Hno. unfold rateLimitMiddleware. destruct limiter as [l|]; [|by apply Hn].
  destruct (limit <=? 0); [by apply Hn|]. unfold call. pose proof (Allow_db l scope (clientIPFromRequest r) limit time_Minute st (Hl l eq_refl)) as Hdb.
  destruct (Allow _ _ _ _ _ st) as [[v|e] st1]; cbn [snd] in Hdb.
  - destruct (negb (Result_Allowed v)).
    + split; [|done]. cbn [fst]. rewrite writeJSONError_status by done. set_solver.
    + rewrite <- Hdb. by apply (Hn r (Header_Set _ _ (Header_Set _ _ rw)) (in_metrics _ st1)).
  - split; [|done]. cbn [respond fst]. rewrite writeJSONError_status by done. set_solver.
Qed.

(** The patterns that anyone may ask for. *)
Definition public_routes : list string :=
  ["/healthz"; "/readyz"; "/metrics"; "/auth/register"; "/auth/login"; "/auth/refresh"; "/auth/logout"].

Definition is_public (pattern : string) : bool := existsb (String.eqb pattern) public_routes.

Definition limiter_readonly (cfg : RouterConfig) : Prop :=
  ∀ l, cfg_RateLimiter cfg = Some l → readonly (Limiter_now l).

Lemma app_refuses s cfg h : limiter_readonly cfg → refuses s h → refuses s (app cfg h).
Proof.
  intros Hl Hh. unfold app, enabled_limiter. destruct (cfg_RateLimitEnabled cfg); [|done].
  destruct (cfg_RateLimiter cfg) as [l|] eqn:Hc; [|done]. apply rateLimit_refuses; [|done]. intros ? [= <-]. by apply Hl.
Qed.

Lemma routes_refuse cfg :
  limiter_readonly cfg → Forall (λ x, is_public x.1.2 = false → refuses (new_server cfg) x.2) (routes cfg).
Proof.
  intros Hl. unfold routes. repeat (apply Forall_cons_2; [cbn [fst snd]; intros Hp;
    first [discriminate Hp|apply app_refuses; [done|apply requireAuth_refuses]]|]). by apply Forall_nil_2.
Qed.

Lemma metrics_refuses pattern next r rw st :
  (metricsMiddleware pattern next r rw st).1 = (next r rw (in_world time_now st).2).1 ∧
  w_db (metricsMiddleware pattern next r rw st).2.1 = w_db (next r rw (in_world time_now st).2).2.1.
Proof.
  unfold metricsMiddleware, call. cbn. destruct (next r rw _) as [rw' st1]. done.
Qed.

(** C15. A request without a valid token gets nowhere: on every route but
    health, metrics, registration, login, refresh and logout the answer is 401
    (or 429 or 500 from the rate limiter, or that of a preflight), and the
    tables are as they were. *)
Theorem protected_routes cfg r rw st i id method pattern :
  limiter_readonly cfg → rw_codes rw = [] →
  chi_route (fst <$> routes (R := R) cfg) (Request_Method r) (Request_Path r) = Some (i, id) →
  (fst <$> routes (R := R) cfg) !! i = Some (method, pattern) → is_public pattern = false →
  no_token (new_server cfg) r →
  (rw_status (NewRouter cfg r rw st).1 ∈ refusals ∨
   Request_Method r = "OPTIONS" ∧ rw_status (NewRouter cfg r rw st).1 = StatusNoContent) ∧
  w_db (NewRouter cfg r rw st).2.1 = w_db st.1.
Proof.
  intros Hl Hrw Hroute Hi Hpub Hno. unfold NewRouter.
  destruct (metrics_refuses (route_pattern cfg) (if bool_decide (cfg_CORSAllowedOrigin cfg = "") then dispatch cfg
     else corsMiddleware (cfg_CORSAllowedOrigin cfg) (dispatch cfg)) r rw st) as [-> ->].
  assert (∀ rw st, rw_codes rw = [] → rw_status (dispatch cfg r rw st).1 ∈ refusals ∧ w_db (dispatch cfg r rw st).2.1 = w_db st.1) as Hd.
  { clear rw st Hrw. intros rw st Hrw. unfold dispatch. rewrite Hroute.
    rewrite list_lookup_fmap in Hi. destruct (routes cfg !! i) as [[k h]|] eqn:Hh; [|done]. injection Hi as ->.
    apply (Forall_lookup_1 _ _ _ _ (routes_refuse _ Hl) Hh); [done..|]. exact Hno. }
  case_bool_decide; [destruct (Hd rw (in_world time_now st).2 Hrw); auto|].
  unfold corsMiddleware. set (rw' := if _ && _ then _ else rw).
  assert (rw_codes rw' = []) as Hrw' by (unfold rw'; by destruct (_ && _)).
  case_bool_decide as Ho; [|destruct (Hd rw' (in_world time_now st).2 Hrw'); auto].
  split; [|done]. right. split; [done|]. unfold rw_status. cbn. by rewrite Hrw'.
Qed.
End protected.

(** ** The rate limit in front of a handler *)

Section limited.
Context `{External} `{AuthExternal} `{Redis R} `{!RedisLaws _}.

Lemma allowed_full (l : Limiter) scope key limit window ws start t r w now w1 a w' r' :
  0 < window → 0 ≤ limit → window_run l scope key limit window ws start t r →
  Z.of_nat (length (base.filter (λ x, allowed x = true) t)) = limit →
  Limiter_now l w = (Ok now, w1) → Truncate now window = ws →
  Allow l scope key limit window (w, r) = (a, (w', r')) → in_window window start r' →
  match a with Ok v => Result_Allowed v = false | Err _ => True end.
Proof.
  intros Hw Hl Hrun Hfull Hnow Hws Ha Hin.
  assert (window_run l scope key limit window ws start (t ++ [(now, a)]) r') as Hrun' by (by eapply wr_allow).
  apply window_run_counted in Hrun' as (_ & n & _ & _ & Hle & _); [|done].
  rewrite filter_app, length_app, filter_cons, filter_nil in Hle. destruct a as [v|e]; [|done].
  destruct (Result_Allowed v) eqn:Hv; [|done]. rewrite decide_True in Hle by done. cbn in Hle. lia.
Qed.

(** C22. The limit holds in front of the handler: when [limit] requests of an
    address have been allowed in a minute, every further request of that
    address in that minute is answered 429 (or 500 without Redis), the
    handler is not reached and the tables are as they were. *)
Theorem rate_limited l scope limit next r rw ws start t w rd now w1 a w' rd' :
  0 < limit → readonly (Limiter_now l) → rw_codes rw = [] →
  window_run l scope (clientIPFromRequest r) limit time_Minute ws start t rd →
  Z.of_nat (length (base.filter (λ x, allowed x = true) t)) = limit →
  Limiter_now l w = (Ok now, w1) → Truncate now time_Minute = ws →
  Allow l scope (clientIPFromRequest r) limit time_Minute (w, rd) = (a, (w', rd')) → in_window time_Minute start rd' →
  let answer := rateLimitMiddleware (Some l) scope limit next r rw (w, rd) in
  (rw_status answer.1 = StatusTooManyRequests ∨ rw_status answer.1 = StatusInternalServerError) ∧
  w_db answer.2.1 = w_db w ∧
  ∀ next', rateLimitMiddleware (Some l) scope limit next' r rw (w, rd) = answer.
Proof.
  intros Hlim Hro Hrw Hrun Hfull Hnow Hws Ha Hin. unfold rateLimitMiddleware.
  assert ((limit <=? 0) = false) as -> by (apply Z.leb_gt; lia). unfold call.
  pose proof (Allow_db l scope (clientIPFromRequest r) limit time_Minute (w, rd) Hro) as Hdb. rewrite Ha in *. cbn [fst snd] in Hdb.
  assert (match a with Ok v => Result_Allowed v = false | Err _ => True end) as Hno
    by (eapply allowed_full; [..|exact Ha|exact Hin]; [done|lia|exact Hrun|done..]).
  destruct a as [v|e].
  - rewrite Hno. cbn [negb fst snd in_metrics]. split_and!; [left; by rewrite writeJSONError_status|done|done].
  - cbn [respond fst snd]. split_and!; [right; by rewrite writeJSONError_status|done|done].
Qed.
End limited.

(** ** Paying and cancelling *)

Section locked.
Context `{External} `{AuthExternal} `{Redis R} `{!RedisLaws _}.
Implicit Types (st : World * R).

(** The status of a request to pay, by the answer of the service. *)
Definition pay_status (result : result PayOrderResult) : Z :=
  match result with
  | Ok result => PayOrderResult_StatusCode result
  | Err err =>
    if errors_Is err ErrInvalidInput || errors_Is err ErrIdempotencyKeyRequired then 400
    else if errors_Is err ErrIdempotencyConflict then 409
    else if errors_Is err ErrOrderNotFound then 404
    else if errors_Is err ErrOrderForbidden then 403
    else if errors_Is err ErrOrderInvalidStatus then 409
    else 500
  end.

Definition cancel_status (result : result Order) : Z :=
  match result with
  | Ok _ => 200
  | Err err =>
    if errors_Is err ErrInvalidInput then 400
    else if errors_Is err ErrOrderNotFound then 404
    else if errors_Is err ErrOrderForbidden then 403
    else if errors_Is err ErrOrderInvalidStatus then 409
    else 500
  end.

(** The services run in a state in which the key of the order holds the token
    of this request, and the key is given up after them; or the request ends
    without a look at the tables, with 409 when another holds the lock. *)
Definition locked_call {A} (m : Manager) (orderID : string) (service : M A) (status : result A → Z)
    (st : World * R) (answer : ResponseWriter * (World * R)) : Prop :=
  (∃ e, (Acquire m (orderLockKey orderID) st) = (Err e, answer.2) ∧ w_db answer.2.1 = w_db st.1 ∧
     rw_status answer.1 = (if errors_Is e ErrLockNotAcquired then 409 else 500)) ∨
  ∃ token w1 r1 d, Acquire m (orderLockKey orderID) st = (Ok (mkLock (orderLockKey orderID) token), (w1, r1)) ∧
    redis_keys r1 !! orderLockKey orderID = Some (token, Some d) ∧ d = redis_now r1 + px (Manager_ttl m) ∧
    w_db w1 = w_db st.1 ∧ rw_status answer.1 = status (service w1).1 ∧
    answer.2 = (Release (mkLock (orderLockKey orderID) token) ((service w1).2, r1)).2.

Lemma Acquire_cases m key st a st' :
  0 < Manager_ttl m → Acquire m key st = (a, st') →
  w_db st'.1 = w_db st.1 ∧
  match a with
  | Ok l => ∃ token, l = mkLock key token ∧
      redis_keys st'.2 !! key = Some (token, Some (redis_now st'.2 + px (Manager_ttl m)))
  | Err _ => True
  end.
Proof.
  intros Httl. unfold Acquire, sbind, in_world, in_redis, NewString. cbn [fst snd].
  destruct (SetNX _ _ _ st.2) as [[b|e] r1] eqn:Hs; [|by intros [= <- <-]].
  apply SetNX_ran in Hs; [|done]. destruct b; intros [= <- <-]; [|done]. split; [done|]. eexists. split; [done|].
  cbn [snd]. apply SetNX_keys in Hs as [[_ ?]|(_ & -> & _)]; [done|]. by rewrite lookup_insert_eq.
Qed.

Lemma under_order_lock_cases {A} s m orderID (service : M A) (k : ResponseWriter → result A → ResponseWriter) status rw st :
  Server_lockManager s = Some m → 0 < Manager_ttl m → rw_codes rw = [] →
  (∀ a, rw_status (k rw a) = status a) →
  locked_call m orderID service status st
    (under_order_lock s orderID (λ rw, call (in_world service) (λ a, respond (k rw a))) rw st).
Proof.
  intros Hm Httl Hrw Hk. unfold under_order_lock, acquireOrderLock. rewrite Hm. unfold locked_call.
  destruct (Acquire m (orderLockKey orderID) st) as [a st1] eqn:Ha.
  apply Acquire_cases in Ha as [Hdb Ha]; [|done]. destruct a as [l|e].
  - right. destruct Ha as (token & -> & Hkey). destruct st1 as [w1 r1]. exists token, w1, r1, (redis_now r1 + px (Manager_ttl m)).
    unfold call, in_world, respond. cbn [fst snd] in *. specialize (Hk (service w1).1).
    destruct (service w1) as [a w2]. cbn [fst snd] in *. by split_and!.
  - left. exists e. destruct (errors_Is e ErrLockNotAcquired); cbn [fst snd]; by rewrite writeJSONError_status.
Qed.

Lemma pay_order_error_status rw err : rw_codes rw = [] → rw_status (pay_order_error rw err) = pay_status (Err err).
Proof.
  intros Hrw. unfold pay_order_error, pay_status.
  destruct (errors_Is err ErrInvalidInput); [by rewrite writeJSONError_status|].
  destruct (errors_Is err ErrIdempotencyKeyRequired); [by rewrite writeJSONError_status|]. cbn [orb].
  repeat (match goal with |- context [errors_Is err ?e] => destruct (errors_Is err e); [by rewrite writeJSONError_status|] end).
  by rewrite writeJSONError_status.
Qed.

Lemma cancel_order_error_status rw err : rw_codes rw = [] → rw_status (cancel_order_error rw err) = cancel_status (Err err).
Proof.
  intros Hrw. unfold cancel_order_error, cancel_status.
  repeat (match goal with |- context [errors_Is err ?e] => destruct (errors_Is err e); [by rewrite writeJSONError_status|] end).
  by rewrite writeJSONError_status.
Qed.

(** C13. Paying and cancelling over HTTP: the service is called only after
    this request's token was put under the key of the order, with the TTL of
    the manager; a request that does not get the lock is answered 409 (500
    without Redis) and reads nothing; and the status of the response is the
    documented one for every answer of the service. *)
Theorem pay_and_cancel_locked s m r rw st claims :
  Server_lockManager s = Some m → 0 < Manager_ttl m → rw_codes rw = [] →
  Request_claims r = Some claims → Request_id r ≠ "" →
  locked_call m (Request_id r)
    (PayOrder (mkPayOrderParams (Claims_UserID claims) (Claims_Role claims) (Request_id r)
       (Header_Get r "Idempotency-Key") (Request_Method r) (Request_Path r)))
    pay_status st (handlePayOrder s r rw st) ∧
  locked_call m (Request_id r)
    (CancelOrder (mkCancelOrderParams (Claims_UserID claims) (Claims_Role claims) (Request_id r)))
    cancel_status st (handleCancelOrder s r rw st).
Proof.
  intros Hm Httl Hrw Hc Hid. unfold handlePayOrder, handleCancelOrder, with_auth, authClaimsFromContext. rewrite Hc.
  cbn zeta. rewrite bool_decide_eq_false_2 by done. split.
  - pose proof (under_order_lock_cases s m (Request_id r) (PayOrder (mkPayOrderParams (Claims_UserID claims) (Claims_Role claims)
      (Request_id r) (Header_Get r "Idempotency-Key") (Request_Method r) (Request_Path r)))
      (λ rw result, match result with Err err => pay_order_error rw err | Ok result =>
         writeJSON rw (PayOrderResult_StatusCode result) (payOrderResponse_json (mkPayOrderResponse
           (newOrderResponse (PayOrderResult_Order result)) (newPaymentResponse (PayOrderResult_Payment result)))) end)
      pay_status rw st Hm Httl Hrw) as Hcases.
    refine (eq_ind _ (locked_call _ _ _ _ _) (Hcases _) _ _).
    + intros [result|err]; [by apply writeJSON_status|by apply pay_order_error_status].
    + unfold under_order_lock. destruct (acquireOrderLock _ _ _ st) as [[rw'|lock] st1]; [done|].
      unfold call. destruct (in_world _ st1) as [[result|err] st2]; done.
  - pose proof (under_order_lock_cases s m (Request_id r) (CancelOrder (mkCancelOrderParams (Claims_UserID claims)
      (Claims_Role claims) (Request_id r)))
      (λ rw result, match result with Err err => cancel_order_error rw err | Ok order =>
         writeJSON rw StatusOK (orderResponse_json (newOrderResponse order)) end)
      cancel_status rw st Hm Httl Hrw) as Hcases.
    refine (eq_ind _ (locked_call _ _ _ _ _) (Hcases _) _ _).
    + intros [result|err]; [by apply writeJSON_status|by apply cancel_order_error_status].
    + unfold under_order_lock. destruct (acquireOrderLock _ _ _ st) as [[rw'|lock] st1]; [done|].
      unfold call. destruct (in_world _ st1) as [[result|err] st2]; done.
Qed.
End locked.
