(* ===== verification/AppStart.v ===== *)
(** * Start-up

    [internal/appstart/appstart.go]: a dependency is tried up to a number of
    times, with a delay between the attempts that the end of the context cuts
    short. *)

From S2P Require Import Prelude GoStrings Json Models World.

Section retry.
Context {St A : Type}.

(** The dependency, and the wait: [select] on the context and the timer. *)
Context (fn : St → result A * St) (wait : Z → St → option error * St).

(** The loop from [attempt] on, with [n] attempts left; [zero] stands for no
    value.  With no attempt at all there is neither a value nor an error. *)
Fixpoint retry_loop (delay : Z) (attempts attempt : Z) (n : nat) (lastErr : option error) (st : St) :
    option A * option error * St :=
  match n with
  | O => (None, lastErr, st)
  | S n' =>
    match fn st with
    | (Ok result, st1) => (Some result, None, st1)
    | (Err err, st1) =>
      if attempt =? attempts then (None, Some err, st1) else
      match wait delay st1 with
      | (Some ctxErr, st2) => (None, Some ctxErr, st2)
      | (None, st2) => retry_loop delay attempts (attempt + 1) n' (Some err) st2
      end
    end
  end.

Definition Retry (attempts delay : Z) (st : St) : option A * option error * St :=
  retry_loop delay attempts 1 (Z.to_nat attempts) None st.

(** [failed k st st']: [k] attempts that failed, each followed by a full delay. *)
Inductive failed (delay : Z) : nat → St → St → Prop :=
  | failed_none st : failed delay 0 st st
  | failed_more k st e st1 st2 st' :
      fn st = (Err e, st1) → wait delay st1 = (None, st2) → failed delay k st2 st' → failed delay (S k) st st'.

Lemma retry_loop_cases delay attempts attempt n lastErr st :
  attempts = attempt + Z.of_nat n - 1 → (0 < n)%nat →
  let out := retry_loop delay attempts attempt n lastErr st in
  ∃ k st', (k < n)%nat ∧ failed delay k st st' ∧
    ((∃ a st1, fn st' = (Ok a, st1) ∧ out = (Some a, None, st1)) ∨
     (∃ e st1, fn st' = (Err e, st1) ∧
        ((k = n - 1)%nat ∧ out = (None, Some e, st1) ∨
         (k < n - 1)%nat ∧ ∃ ce st2, wait delay st1 = (Some ce, st2) ∧ out = (None, Some ce, st2)))).
Proof.
  revert attempt lastErr st. induction n as [|n IH]; intros attempt lastErr st Hat Hn; [lia|]. cbn [retry_loop].
  destruct (fn st) as [[a|e] st1] eqn:Hf.
  { exists 0%nat, st. split; [lia|]. split; [constructor|]. left. by exists a, st1. }
  destruct (attempt =? attempts) eqn:Heq; [apply Z.eqb_eq in Heq|apply Z.eqb_neq in Heq].
  { exists 0%nat, st. split; [lia|]. split; [constructor|]. right. exists e, st1. split; [done|]. left. split; [lia|done]. }
  destruct (wait delay st1) as [[ce|] st2] eqn:Hw.
  { exists 0%nat, st. split; [lia|]. split; [constructor|]. right. exists e, st1. split; [done|]. right.
    split; [lia|]. by exists ce, st2. }
  destruct (IH (attempt + 1) (Some e) st2) as (k & st' & Hk & Hfail & Hout); [lia|lia|].
  exists (S k), st'. split; [lia|]. split; [by econstructor|]. cbn zeta in *.
  destruct Hout as [Hout|(e' & st1' & Hf' & [[Hk' Hout]|[Hk' Hout]])]; [by left| |]; right; exists e', st1'; (split; [done|]).
  - left. split; [lia|done].
  - right. split; [lia|done].
Qed.

(** C36. Retry ends: with at least one attempt, it makes [k] failed attempts,
    fewer than [attempts], and one more, whose value it returns if that one
    succeeds; it returns an error exactly when the last attempt allowed failed
    (that error) or the context ended during a delay (its error).  A value
    never comes with an error. *)
Theorem Retry_ends attempts delay st :
  1 ≤ attempts →
  ∃ k st', Z.of_nat k < attempts ∧ failed delay k st st' ∧
    ((∃ a st1, fn st' = (Ok a, st1) ∧ Retry attempts delay st = (Some a, None, st1)) ∨
     (∃ e st1, fn st' = (Err e, st1) ∧
        (Z.of_nat k = attempts - 1 ∧ Retry attempts delay st = (None, Some e, st1) ∨
         Z.of_nat k < attempts - 1 ∧ ∃ ce st2, wait delay st1 = (Some ce, st2) ∧ Retry attempts delay st = (None, Some ce, st2)))).
Proof.
  intros Hat. destruct (retry_loop_cases delay attempts 1 (Z.to_nat attempts) None st) as (k & st' & Hk & Hf & Hout); [lia|lia|].
  exists k, st'. split; [lia|]. split; [done|].
  destruct Hout as [Hout|(e & st1 & Hf' & [[Hk' Hout]|[Hk' Hout]])]; [by left| |]; right; exists e, st1; (split; [done|]).
  - left. split; [lia|done].
  - right. split; [lia|done].
Qed.
End retry.
