(* ===== verification/Observability.v ===== *)
(** * Metrics and the server that shows them

    [internal/metrics/metrics.go]: the names and labels under which the
    counters and the histogram of [World.Metric] are registered.
    [internal/observability/server.go]: the server of the publisher and the
    consumer with its two paths.  The Prometheus library, which keeps the
    values and prints them, and the answer of [http.ServeMux] to other paths
    are parameters. *)

From S2P Require Import Prelude GoStrings Json Models World.
From S2P Require Import OrderService.
From S2P Require Import Redis.
From S2P Require Import Http.
From S2P Require Config.

(** ** Metrics *)

(** A collector: its name and the names of its labels. *)
Record Collector := mkCollector { Collector_Name : string; Collector_Labels : list string }.

#[global] Instance Collector_eq_dec : EqDecision Collector.
Proof. solve_decision. Defined.

(** The collector of a metric, and the values that its use gives to the labels. *)
Definition collector (m : Metric) : Collector :=
  match m with
  | HTTPRequestsTotal _ _ _ => mkCollector "order_service_http_requests_total" ["method"; "path"; "status"]
  | HTTPRequestDurationSeconds _ _ _ _ => mkCollector "order_service_http_request_duration_seconds" ["method"; "path"; "status"]
  | OrdersCreatedTotal => mkCollector "order_service_orders_created_total" []
  | PaymentsTotal _ => mkCollector "order_service_payments_total" ["status"]
  | OutboxEventsPublishedTotal _ => mkCollector "order_service_outbox_events_published_total" ["event_type"]
  | OutboxEventsFailedTotal _ => mkCollector "order_service_outbox_events_failed_total" ["event_type"]
  | ConsumerEventsProcessedTotal _ => mkCollector "order_service_consumer_events_processed_total" ["event_type"]
  | ConsumerEventsDuplicateTotal _ => mkCollector "order_service_consumer_events_duplicate_total" ["event_type"]
  | RateLimitAllowedTotal _ => mkCollector "order_service_rate_limit_allowed_total" ["scope"]
  | RateLimitBlockedTotal _ => mkCollector "order_service_rate_limit_blocked_total" ["scope"]
  end.

Definition label_values (m : Metric) : list string :=
  match m with
  | HTTPRequestsTotal method path status | HTTPRequestDurationSeconds method path status _ => [method; path; status]
  | OrdersCreatedTotal => []
  | PaymentsTotal v | OutboxEventsPublishedTotal v | OutboxEventsFailedTotal v | ConsumerEventsProcessedTotal v
  | ConsumerEventsDuplicateTotal v | RateLimitAllowedTotal v | RateLimitBlockedTotal v => [v]
  end.

(** [prometheus.MustRegister]: it panics, here [None], at a name that is taken. *)
Fixpoint MustRegister (registered cs : list Collector) : option (list Collector) :=
  match cs with
  | [] => Some registered
  | c :: cs' =>
    if bool_decide (Collector_Name c ∈ Collector_Name <$> registered) then None
    else MustRegister (registered ++ [c]) cs'
  end.

Definition Register (registered : list Collector) : option (list Collector) :=
  MustRegister registered [
    collector (HTTPRequestsTotal "" "" ""); collector (HTTPRequestDurationSeconds "" "" "" 0);
    collector OrdersCreatedTotal; collector (PaymentsTotal "");
    collector (OutboxEventsPublishedTotal ""); collector (OutboxEventsFailedTotal "");
    collector (ConsumerEventsProcessedTotal ""); collector (ConsumerEventsDuplicateTotal "");
    collector (RateLimitAllowedTotal ""); collector (RateLimitBlockedTotal "")].

(** At the start of a process nothing is registered: [Register] does not
    panic, every metric that the program counts is registered after it, and
    is used with as many values as it has labels, which is what
    [WithLabelValues] asks for. *)
Lemma Register_ok :
  ∃ cs, Register [] = Some cs ∧ ∀ m, collector m ∈ cs ∧ length (label_values m) = length (Collector_Labels (collector m)).
Proof.
  eexists. split; [vm_compute; reflexivity|]. intros m. split; [|by destruct m].
  destruct m; cbn; repeat (first [by left|right]).
Qed.

(** Called twice in one process it panics. *)
Lemma Register_once cs : Register [] = Some cs → Register cs = None.
Proof. intros Hcs. vm_compute in Hcs. injection Hcs as <-. by vm_compute. Qed.

(** ** The server *)

Section server.
Context {St : Type}.

(** [promhttp.Handler()], and what the mux answers to other paths. *)
Context (promhttp_Handler mux_other : Request → ResponseWriter → ResponseWriter).

(** The goroutine of [ListenAndServe], whose error is only logged; the wait
    for the end of the context; [Shutdown] with its timeout. *)
Context (go_ListenAndServe : string → (Request → ResponseWriter → ResponseWriter) → St → St).
Context (ctx_Done : St → St) (Shutdown : Z → St → result unit * St).

Definition healthz (r : Request) (rw : ResponseWriter) : ResponseWriter := Write "ok" (WriteHeader StatusOK rw).

Definition mux (r : Request) (rw : ResponseWriter) : ResponseWriter :=
  if bool_decide (Request_Path r = "/healthz") then healthz r rw
  else if bool_decide (Request_Path r = "/metrics") then promhttp_Handler r rw
  else mux_other r rw.

(** Every outcome of [Shutdown] is only logged: the function returns. *)
Definition RunServer (port : string) (st : St) : St :=
  let st1 := go_ListenAndServe (":" +:+ port) mux st in
  let st2 := ctx_Done st1 in
  let '(_, st3) := Shutdown (5 * Config.Second) st2 in st3.

(** The health check answers any method, and looks at nothing. *)
Lemma healthz_ok r : Request_Path r = "/healthz" → rw_status (mux r new_response) = 200 ∧ rw_body (mux r new_response) = "ok".
Proof. unfold mux. intros ->. by rewrite bool_decide_eq_true_2. Qed.
End server.
