(* ===== verification/System.v ===== *)
(** * The whole system

    The processes of the system (the API servers, the publisher, the
    consumer) share the tables and the Kafka log.  Here their units of
    work, each one transaction or one statement that writes, run in any order:
    requests interleave between their reads and their write, connections
    fail, answers are lost. *)

From S2P Require Import Prelude GoStrings Sha256 Json Models World.
From S2P Require Import Sqlc.
From S2P Require Import Store.
From S2P Require Import OrderService.
From S2P Require Import Spec OrderRefine Evolution Invariants Bookkeeping.
From S2P Require Import Auth.
From S2P Require Import Publisher.
From S2P Require Import Consumer.

Section system.
Context `{External} `{!ExternalLaws _} `{AuthExternal} `{P : Producer} `{!ProducerLaws P}.
(** The publishers send to the same topic. *)
Context (topic : string).

Inductive program_step (w w' : World) : Prop :=
  (* reads, and what other processes do to the clock and the UUIDs *)
  | ps_read : w_db w' = w_db w → w_topic w' = w_topic w → program_step w w'
  (* OrderService *)
  | ps_create params r :
      create_valid params = true →
      WithTx (create_order_tx params (TrimSpace (CreateOrder_IdempotencyKey params)) (create_currency params)
        (create_description params) (create_hash params)) w = (r, w') → program_step w w'
  | ps_pay params r :
      pay_valid params = true →
      WithTx (pay_order_tx params (TrimSpace (PayOrder_IdempotencyKey params)) (pay_hash params)) w = (r, w') →
      program_step w w'
  | ps_cancel params r : WithTx (cancel_order_tx params) w = (r, w') → program_step w w'
  (* AuthService *)
  | ps_user params r : RegisterUser params w = (r, w') → program_step w w'
  | ps_login id userID token expiresAt r :
      Store.CreateRefreshToken (Store.mkCreateRefreshTokenParams id userID (HashRefreshToken token) expiresAt) w = (r, w') →
      program_step w w'
  | ps_logout id r : Store.RevokeRefreshToken id w = (r, w') → program_step w w'
  (* OutboxPublisher *)
  | ps_publish batchSize r : PublishBatch (mkConfig topic batchSize) w = (r, w') → program_step w w'
  (* EventHandler *)
  | ps_handle rec message userID r :
      rec ∈ w_topic w → check_message (rec_topic rec) (rec_value rec) = Ok (message, userID) →
      WithTx (handle_tx (OutboxMessage_ID message) userID) w = (r, w') → program_step w w'
  (* what is left of a batch when other transactions commit while it runs, a
     unit for each record and each mark: its records reach the log one by one,
     some of them only after the publisher gave up waiting; its marks reach
     the tables together, each that says published after its record *)
  | ps_late e rec :
      outbox_events (w_db w) !! OutboxEvent_ID e = Some e → event_record (mkConfig topic 0) e = Some rec →
      w_db w' = w_db w → w_topic w' = rec :: w_topic w → program_step w w'
  | ps_marked e rec now :
      outbox_events (w_db w) !! OutboxEvent_ID e = Some e → event_record (mkConfig topic 0) e = Some rec →
      rec ∈ w_topic w → w_db w' = put_event (mark_published now e) (w_db w) → w_topic w' = w_topic w → program_step w w'
  | ps_failed e err :
      outbox_events (w_db w) !! OutboxEvent_ID e = Some e → OutboxEvent_Attempt e + 1 ≤ int32_max →
      w_db w' = put_event (mark_failed err e) (w_db w) → w_topic w' = w_topic w → program_step w w'.

(** The worlds that the system can reach from the migrated database and the
    empty topic. *)
Definition program_run (w : World) : Prop :=
  ∃ w0, w_db w0 = empty_db ∧ w_topic w0 = [] ∧ rtc program_step w0 w.

(** ** Its units of work are steps of the abstract system *)

Lemma WithTx_rtc {A} (fn : M A) w r w' :
  (∀ w1 a w2, w_db w1 = w_db w → fn w1 = (Ok a, w2) → rtc db_step (w_db w) (w_db w2)) →
  WithTx fn w = (r, w') → rtc db_step (w_db w) (w_db w').
Proof.
  intros Hfn Hw. apply (WithTx_outcome _ (λ _ db', rtc db_step (w_db w) db')) in Hw; [|done].
  destruct Hw as [[-> _]|(a & ? & _)]; done.
Qed.

Lemma store_CreateRefreshToken_rtc id userID token expiresAt w r w' :
  Store.CreateRefreshToken (Store.mkCreateRefreshTokenParams id userID (HashRefreshToken token) expiresAt) w = (r, w') →
  rtc db_step (w_db w) (w_db w').
Proof.
  unfold Store.CreateRefreshToken, bind, scan. destruct (UUID_Scan _) as [i|]; [|by intros [= _ <-]].
  unfold ret at 1. destruct (UUID_Scan _) as [u|]; [|by intros [= _ <-]].
  unfold ret, Sqlc.CreateRefreshToken. intros [[-> _]|(t & Hq & _)]%query_effect; [done|].
  cbn beta zeta in Hq. apply guarded_ok in Hq as [[= -> ->] Hg]. split_guards.
  apply rtc_once. by eapply step_login.
Qed.

Lemma store_RevokeRefreshToken_rtc id w r w' :
  keyed (w_db w) → Store.RevokeRefreshToken id w = (r, w') → rtc db_step (w_db w) (w_db w').
Proof.
  intros Hk. unfold Store.RevokeRefreshToken, bind, scan. destruct (UUID_Scan _) as [u|]; [|by intros [= _ <-]].
  unfold ret, Sqlc.RevokeRefreshToken. intros [[-> _]|(t & Hq & _)]%query_effect; [done|].
  apply one_row_ok in Hq as (t0 & Ht0 & Hq). destruct (RefreshToken_RevokedAt t0) eqn:Hrev; [done|].
  injection Hq as _ <-. apply rtc_once. pose proof (keyed_tokens _ Hk _ _ Ht0). subst u.
  by apply (step_logout _ t0 (sql_now w)).
Qed.

Lemma program_step_rtc w w' :
  reachable (w_db w) → program_step w w' → rtc db_step (w_db w) (w_db w').
Proof.
  intros Hr Hs. pose proof (reachable_keyed _ Hr) as Hk.
  destruct Hs as [Hdb _|params r Hv Hw|params r Hv Hw|params r Hw|params r Hw|id uid token x r Hw|id r Hw|n r Hw|rec m u r _ _ Hw
    |e rec _ _ Hdb _|e rec now He _ _ Hdb _|e err He Ha Hdb _].
  - by rewrite Hdb.
  - eapply WithTx_rtc; [|exact Hw]. intros w1 o w2 <- Hf.
    apply create_order_tx_step in Hf as (e & k & Hout); [|by apply create_valid_checked].
    apply rtc_once. by eapply co_step.
  - eapply WithTx_rtc; [|exact Hw]. intros w1 o w2 Hdb Hf. rewrite <- Hdb in *.
    apply pay_order_tx_step in Hf as (o' & e & k & Hout); [|done|by apply pay_valid_checked]. apply rtc_once. by eapply po_step.
  - eapply WithTx_rtc; [|exact Hw]. intros w1 o w2 Hdb Hf. rewrite <- Hdb in *.
    apply cancel_order_tx_step in Hf as (o' & e & Hout); [|done]. apply rtc_once. by eapply xo_step.
  - apply RegisterUser_cases in Hw as [[-> _]|(u & Hs & _)]; [done|by apply rtc_once].
  - by eapply store_CreateRefreshToken_rtc.
  - by eapply store_RevokeRefreshToken_rtc.
  - eapply PublishBatch_steps; [done|by apply reachable_schema|exact Hw].
  - eapply WithTx_rtc; [|exact Hw]. intros w1 dup w2 <- (id & _ & Hh)%handle_tx_run.
    destruct Hh as [_ ->|]; [done|]. by apply rtc_once.
  - by rewrite Hdb.
  - rewrite Hdb. apply rtc_once. by apply step_published.
  - rewrite Hdb. apply rtc_once. apply step_failed; [done|].
    pose proof (sc_attempt _ (reachable_schema _ Hr) _ _ He). lia.
Qed.

Lemma program_reachable w w' : rtc program_step w w' → reachable (w_db w) → reachable (w_db w').
Proof.
  induction 1 as [|w1 w2 w3 Hs _ IH]; [done|]. intros Hr. apply IH. unfold reachable in *.
  etransitivity; [exact Hr|]. by apply program_step_rtc.
Qed.

Lemma program_steps_rtc w w' :
  reachable (w_db w) → rtc program_step w w' → rtc db_step (w_db w) (w_db w').
Proof.
  intros Hr Hs. induction Hs as [|w1 w2 w3 Hone _ IH]; [done|].
  pose proof (program_step_rtc _ _ Hr Hone) as Hd. etransitivity; [exact Hd|]. apply IH.
  unfold reachable in *. by etransitivity.
Qed.

(** The tables of a run of the system are reachable in the abstract one. *)
Lemma program_run_reachable w : program_run w → reachable (w_db w).
Proof. intros (w0 & Hdb & _ & Hs). eapply program_reachable; [exact Hs|]. rewrite Hdb. by unfold reachable. Qed.

(** ** The log *)

(** Every publisher makes the same record of an event, whatever its batch size. *)
Lemma log_ok_config n m w : log_ok (mkConfig topic n) w → log_ok (mkConfig topic m) w.
Proof. intros [H1 H2]. split; [exact H1|exact H2]. Qed.

(** Units of work that publish nothing: the log is as it was, no event is
    newly marked, none is lost. *)
Lemma log_ok_quiet cfg w w' :
  rtc db_step (w_db w) (w_db w') → w_topic w' = w_topic w →
  (∀ id e, outbox_events (w_db w') !! id = Some e → is_Some (OutboxEvent_PublishedAt e) →
     outbox_events (w_db w) !! id = Some e) →
  log_ok cfg w → log_ok cfg w'.
Proof.
  intros Hs Ht Hnew [Hsent Hsound]. split; rewrite Ht.
  - intros id e He Hp. eauto.
  - intros rec (id & e & He & Hrec)%Hsound. destruct (steps_event _ _ _ _ Hs He) as (e' & He' & Hf & _).
    exists id, e'. by rewrite (event_record_fixed _ _ _ Hf).
Qed.

(** A record of an event of the outbox reaches the log. *)
Lemma log_ok_late cfg w w' e rec :
  outbox_events (w_db w) !! OutboxEvent_ID e = Some e → event_record cfg e = Some rec →
  w_db w' = w_db w → w_topic w' = rec :: w_topic w → log_ok cfg w → log_ok cfg w'.
Proof.
  intros He Hrec Hdb Ht [Hsent Hsound]. split; rewrite Hdb; [intros id x Hx Hp|intros r Hr]; rewrite Ht in *.
  - destruct (Hsent _ _ Hx Hp) as (r & ? & ?). exists r. set_solver.
  - apply elem_of_cons in Hr as [->|Hr]; eauto.
Qed.

(** An event is marked: published only when its record is in the log. *)
Lemma log_ok_mark cfg w w' e e' :
  outbox_events (w_db w) !! OutboxEvent_ID e = Some e → w_db w' = put_event e' (w_db w) → w_topic w' = w_topic w →
  event_fixed e' = event_fixed e →
  (is_Some (OutboxEvent_PublishedAt e') →
     is_Some (OutboxEvent_PublishedAt e) ∨ ∃ rec, event_record cfg e = Some rec ∧ rec ∈ w_topic w) →
  log_ok cfg w → log_ok cfg w'.
Proof.
  intros He Hdb Ht Hf Hp [Hsent Hsound]. assert (OutboxEvent_ID e' = OutboxEvent_ID e) as Hid by (by injection Hf).
  split; rewrite Hdb, Ht; cbn; rewrite Hid.
  - intros id x [[<- <-]|[_ Hx]]%lookup_insert_Some Hpx; [|by eauto]. rewrite (event_record_fixed _ _ _ Hf).
    destruct (Hp Hpx) as [?|?]; eauto.
  - intros rec (id & x & Hx & Hrec)%Hsound. destruct (decide (OutboxEvent_ID e = id)) as [<-|Hne].
    + exists (OutboxEvent_ID e), e'. rewrite lookup_insert_eq, (event_record_fixed _ _ _ Hf). by simplify_eq.
    + exists id, x. by rewrite lookup_insert_ne.
Qed.

(** The events after one more, unpublished, was recorded. *)
Lemma put_event_unpublished (m : gmap UUID OutboxEvent) e :
  OutboxEvent_PublishedAt e = None →
  ∀ id x, <[OutboxEvent_ID e := e]> m !! id = Some x → is_Some (OutboxEvent_PublishedAt x) → m !! id = Some x.
Proof. intros He id x [[_ <-]|[_ Hx]]%lookup_insert_Some Hp; [|done]. rewrite He in Hp. by destruct Hp. Qed.

Lemma WithTx_events {A} (fn : M A) w r w' :
  silent fn → rtc db_step (w_db w) (w_db w') →
  (∀ w1 a w2, w_db w1 = w_db w → fn w1 = (Ok a, w2) →
     ∀ id e, outbox_events (w_db w2) !! id = Some e → is_Some (OutboxEvent_PublishedAt e) →
       outbox_events (w_db w) !! id = Some e) →
  WithTx fn w = (r, w') → ∀ cfg, log_ok cfg w → log_ok cfg w'.
Proof.
  intros Hsil Hs Hfn Hw cfg. destruct (silent_run _ _ _ _ (silent_WithTx _ Hsil) Hw) as [_ Ht].
  apply log_ok_quiet; [done..|]. apply (WithTx_outcome _ (λ _ db', ∀ id e, outbox_events db' !! id = Some e →
    is_Some (OutboxEvent_PublishedAt e) → outbox_events (w_db w) !! id = Some e)) in Hw; [|done].
  destruct Hw as [[-> _]|(a & Hall & _)]; [done|exact Hall].
Qed.

Lemma silent_statement {A} (m : M A) w r w' cfg :
  silent m → rtc db_step (w_db w) (w_db w') → outbox_events (w_db w') = outbox_events (w_db w) →
  m w = (r, w') → log_ok cfg w → log_ok cfg w'.
Proof.
  intros Hsil Hs He Hm. destruct (silent_run _ _ _ _ Hsil Hm) as [_ Ht].
  apply log_ok_quiet; [done..|]. by rewrite He.
Qed.

Lemma silent_HashPassword p : silent (HashPassword p).
Proof. done. Qed.

Lemma silent_RegisterUser params : silent (RegisterUser params).
Proof.
  unfold RegisterUser. cbn zeta. destruct (_ || _); [done|]. destruct (_ && _); [done|].
  apply silent_bind; [apply silent_HashPassword|]. intros hash. unfold Store.CreateUser, Sqlc.CreateUser. silent_store.
Qed.

Lemma RegisterUser_frame params w r w' :
  RegisterUser params w = (r, w') →
  outbox_events (w_db w') = outbox_events (w_db w) ∧ notification_deliveries (w_db w') = notification_deliveries (w_db w).
Proof. by intros [[-> _]|(u & _ & -> & _)]%RegisterUser_cases. Qed.

Lemma store_CreateRefreshToken_frame params w r w' :
  Store.CreateRefreshToken params w = (r, w') →
  outbox_events (w_db w') = outbox_events (w_db w) ∧ notification_deliveries (w_db w') = notification_deliveries (w_db w) ∧
  users (w_db w') = users (w_db w).
Proof.
  unfold Store.CreateRefreshToken, bind, scan. destruct (UUID_Scan _) as [id|]; [|by intros [= _ <-]].
  unfold ret at 1. destruct (UUID_Scan _) as [u|]; [|by intros [= _ <-]].
  unfold ret, Sqlc.CreateRefreshToken. intros [[-> _]|(t & Hq & _)]%query_effect; [done|].
  cbn beta zeta in Hq. by apply guarded_ok in Hq as [[= -> ->] _].
Qed.

Lemma store_RevokeRefreshToken_frame id w r w' :
  Store.RevokeRefreshToken id w = (r, w') →
  outbox_events (w_db w') = outbox_events (w_db w) ∧ notification_deliveries (w_db w') = notification_deliveries (w_db w) ∧
  users (w_db w') = users (w_db w).
Proof.
  unfold Store.RevokeRefreshToken, bind, scan. destruct (UUID_Scan _) as [u|]; [|by intros [= _ <-]].
  unfold ret, Sqlc.RevokeRefreshToken. intros [[-> _]|(t & Hq & _)]%query_effect; [done|].
  apply one_row_ok in Hq as (t0 & _ & Hq). destruct (RefreshToken_RevokedAt t0); [done|]. by injection Hq as _ <-.
Qed.

Lemma program_step_log w w' n :
  reachable (w_db w) → program_step w w' → log_ok (mkConfig topic n) w → log_ok (mkConfig topic n) w'.
Proof.
  intros Hr Hs. pose proof (program_step_rtc _ _ Hr Hs) as Hrtc. pose proof (reachable_keyed _ Hr) as Hk.
  destruct Hs as [Hdb Ht|params r Hv Hw|params r Hv Hw|params r Hw|params r Hw|id uid token x r Hw|id r Hw|m r Hw|rec m0 u r _ _ Hw
    |e rec He Hrec Hdb Ht|e rec now He Hrec Hin Hdb Ht|e err He Ha Hdb Ht].
  - by apply log_ok_eq.
  - eapply WithTx_events; [|exact Hrtc| |exact Hw]; [unfold create_order_tx; silent_store|].
    intros w1 o w2 <- Hf. apply create_order_tx_step in Hf as (e & k & Hout); [|by apply create_valid_checked].
    rewrite (co_db _ _ _ _ _ _ _ _ _ _ Hout).
    apply (put_event_unpublished (outbox_events (w_db w1))). by eapply co_event.
  - eapply WithTx_events; [|exact Hrtc| |exact Hw]; [unfold pay_order_tx; silent_store|].
    intros w1 o w2 Hdb Hf. rewrite <- Hdb in *. apply pay_order_tx_step in Hf as (o' & e & k & Hout); [|done|by apply pay_valid_checked].
    rewrite (po_db _ _ _ _ _ _ _ _ _ Hout). apply (put_event_unpublished (outbox_events (w_db w1))). by eapply po_event.
  - eapply WithTx_events; [|exact Hrtc| |exact Hw]; [unfold cancel_order_tx; silent_store|].
    intros w1 o w2 Hdb Hf. rewrite <- Hdb in *. apply cancel_order_tx_step in Hf as (o' & e & Hout); [|done].
    rewrite (xo_db _ _ _ _ _ _ Hout). apply (put_event_unpublished (outbox_events (w_db w1))). by eapply xo_event.
  - eapply silent_statement; [|exact Hrtc|by eapply RegisterUser_frame|exact Hw]. apply silent_RegisterUser.
  - eapply silent_statement; [|exact Hrtc|by eapply store_CreateRefreshToken_frame|exact Hw].
    unfold Store.CreateRefreshToken, Sqlc.CreateRefreshToken. silent_store.
  - eapply silent_statement; [|exact Hrtc|by eapply store_RevokeRefreshToken_frame|exact Hw].
    unfold Store.RevokeRefreshToken, Sqlc.RevokeRefreshToken. silent_store.
  - intros Hlog. apply (log_ok_config m). eapply PublishBatch_log; [done|exact Hw|]. by eapply log_ok_config.
  - eapply WithTx_events; [|exact Hrtc| |exact Hw]; [unfold handle_tx; silent_store|].
    intros w1 dup w2 <- (id & _ & Hh)%handle_tx_run. by destruct Hh as [_ ->|? ? _ _ _ _ _ _ _ _ -> _].
  - by eapply log_ok_late.
  - eapply log_ok_mark; [exact He|exact Hdb|exact Ht|done|]. intros _. right. by exists rec.
  - eapply log_ok_mark; [exact He|exact Hdb|exact Ht|done|]. intros Hp. by left.
Qed.

Lemma program_run_log w n : program_run w → log_ok (mkConfig topic n) w.
Proof.
  intros (w0 & Hdb & Ht & Hs).
  assert (log_ok (mkConfig topic n) w0) as Hlog.
  { split; rewrite ?Hdb, ?Ht; [|set_solver]. intros id e He. cbn in He. by apply lookup_empty_Some in He. }
  assert (reachable (w_db w0)) as Hr by (rewrite Hdb; by unfold reachable). clear Hdb Ht.
  induction Hs as [|w1 w2 w3 Hone _ IH]; [done|]. apply IH.
  - by eapply program_step_log.
  - unfold reachable in *. etransitivity; [exact Hr|]. by apply program_step_rtc.
Qed.

(** ** What the order service and the publisher leave alone *)

(** A view of the tables that orders, payments, events and idempotency records
    do not show up in. *)
Record untouched {B} (f : DB → B) : Prop := {
  un_order o db : f (put_order o db) = f db;
  un_payment p db : f (put_payment p db) = f db;
  un_event e db : f (put_event e db) = f db;
  un_key k db : f (put_key k db) = f db
}.

Lemma WithTx_frame {A B} (f : DB → B) (fn : M A) w r w' :
  (∀ w1 a w2, w_db w1 = w_db w → fn w1 = (Ok a, w2) → f (w_db w2) = f (w_db w)) →
  WithTx fn w = (r, w') → f (w_db w') = f (w_db w).
Proof.
  intros Hfn Hw. apply (WithTx_outcome _ (λ _ db', f db' = f (w_db w))) in Hw; [|exact Hfn].
  by destruct Hw as [[-> _]|(a & ? & _)].
Qed.

Lemma published_list_frame {B} (f : DB → B) cfg es w w' :
  untouched f → published_list cfg es w w' → f (w_db w') = f (w_db w).
Proof.
  intros [_ _ He _]. induction 1 as [|e es w1 w2 w3 Hone _ IH]; [done|]. rewrite IH.
  by destruct Hone as [? ? _ _ -> _|? ? _ _ -> _ _].
Qed.

(** Such a view is changed by the statements of the sessions and by the
    consumer only. *)
Lemma program_step_untouched {B} (f : DB → B) w w' :
  untouched f → reachable (w_db w) → program_step w w' →
  f (w_db w') = f (w_db w)
  ∨ (∃ params r, RegisterUser params w = (r, w'))
  ∨ (∃ params r, Store.CreateRefreshToken params w = (r, w'))
  ∨ (∃ id r, Store.RevokeRefreshToken id w = (r, w'))
  ∨ ∃ rec message userID id dup, rec ∈ w_topic w ∧ check_message (rec_topic rec) (rec_value rec) = Ok (message, userID) ∧
      UUID_Scan (OutboxMessage_ID message) = Some id ∧ handled id userID (w_db w) (w_db w') dup.
Proof.
  intros Hf Hr Hs. pose proof (reachable_keyed _ Hr) as Hk. pose proof Hf as [Ho Hp He Hkey].
  destruct Hs as [Hdb _|params r Hv Hw|params r Hv Hw|params r Hw|params r Hw|id uid token x r Hw|id r Hw|n r Hw|rec m u r Hin Hc Hw
    |e rec _ _ Hdb _|e rec now _ _ _ Hdb _|e err _ _ Hdb _]; [by left; rewrite Hdb|..|by left; rewrite Hdb|by left; rewrite Hdb|by left; rewrite Hdb].
  - left. eapply WithTx_frame; [|exact Hw]. intros w1 o w2 <- Htx.
    apply create_order_tx_step in Htx as (e & k & Hout); [|by apply create_valid_checked].
    by rewrite (co_db _ _ _ _ _ _ _ _ _ _ Hout), Hkey, He, Ho.
  - left. eapply WithTx_frame; [|exact Hw]. intros w1 o w2 Hdb Htx. rewrite <- Hdb in *.
    apply pay_order_tx_step in Htx as (o' & e & k & Hout); [|done|by apply pay_valid_checked].
    by rewrite (po_db _ _ _ _ _ _ _ _ _ Hout), Hkey, He, Ho, Hp.
  - left. eapply WithTx_frame; [|exact Hw]. intros w1 o w2 Hdb Htx. rewrite <- Hdb in *.
    apply cancel_order_tx_step in Htx as (o' & e & Hout); [|done]. by rewrite (xo_db _ _ _ _ _ _ Hout), He, Ho.
  - right; left. eauto.
  - do 2 right; left. eauto.
  - do 3 right; left. eauto.
  - left. apply PublishBatch_cases in Hw as [_ [[Hdb _]|(locked & w1 & w2 & Hd1 & _ & Hd2 & _ & _ & _ & Hl & _)]];
      [by rewrite Hdb| |done].
    apply (published_list_frame f) in Hl; [|done]. by rewrite <- Hd2, Hl, Hd1.
  - apply (WithTx_outcome _ (λ dup db', ∃ id, UUID_Scan (OutboxMessage_ID m) = Some id ∧ handled id u (w_db w) db' dup)) in Hw.
    2: { intros w1 dup w2 <- (id & Hid & Hh)%handle_tx_run. eauto. }
    destruct Hw as [[Hdb _]|(dup & (id & Hid & Hh) & _)]; [left; by rewrite Hdb|].
    do 4 right. exists rec, m, u, id, dup. by split_and!.
Qed.

(** ** Every function of the program is made of these units *)

Definition conforms {A} (m : M A) : Prop := ∀ w, rtc program_step w (m w).2.

Lemma conforms_unit {A} (m : M A) : (∀ w r w', m w = (r, w') → program_step w w') → conforms m.
Proof. intros Hm w. apply rtc_once. destruct (m w) as [r w'] eqn:Hrun. by eapply Hm. Qed.
Lemma conforms_read {A} (m : M A) : readonly m → silent m → conforms m.
Proof. intros Hr Hs w. apply rtc_once, ps_read; [apply Hr|apply Hs]. Qed.
Lemma conforms_inc mt : conforms (inc mt).
Proof. intros w. by apply rtc_once, ps_read. Qed.
Lemma conforms_bind {A B} (m : M A) (f : A → M B) : conforms m → (∀ a, conforms (f a)) → conforms (bind m f).
Proof.
  intros Hm Hf w. unfold bind. specialize (Hm w). destruct (m w) as [[a|e] w1]; [|done].
  etransitivity; [exact Hm|]. apply Hf.
Qed.
Lemma conforms_try {A} (m : M A) : conforms m → conforms (try m).
Proof. intros Hm w. unfold try. specialize (Hm w). by destruct (m w). Qed.

(** One goal per statement: the units that write, and the reads. *)
Ltac conforms_run :=
  repeat match goal with
  | |- conforms (bind _ _) => apply conforms_bind; [|intros ?]
  | |- conforms (try _) => apply conforms_try
  | |- conforms (inc _) => apply conforms_inc
  | |- conforms (WithTx _) => apply conforms_unit; intros ? ? ? ?
  | |- conforms (Store.CreateRefreshToken _) => apply conforms_unit; intros ? ? ? ?; by eapply ps_login
  | |- conforms (Store.RevokeRefreshToken _) => apply conforms_unit; intros ? ? ? ?; by eapply ps_logout
  | |- conforms (match ?x with _ => _ end) => destruct x
  | |- conforms _ => apply conforms_read; [solve [eauto with orderdb]|solve [silent_store]]
  end.

Lemma conforms_lift {A B} (r : result A) (a : A) (f : A → M B) :
  r = Ok a → conforms (f a) → conforms (bind (lift r) f).
Proof. by intros ->. Qed.

Lemma conforms_CreateOrder params : conforms (CreateOrder params).
Proof.
  destruct (create_valid params) eqn:Hv.
  2: { intros w. by destruct (CreateOrder_invalid params w Hv) as [e ->]. }
  unfold CreateOrder. cbn zeta. fold (create_currency params) (create_description params).
  destruct (bool_decide _); [conforms_run|]. destruct (_ || _); [conforms_run|].
  apply (conforms_lift _ (create_hash params)); [by unfold HashRequestBody|]. conforms_run. by eapply ps_create.
Qed.

Lemma conforms_PayOrder params : conforms (PayOrder params).
Proof.
  destruct (pay_valid params) eqn:Hv.
  2: { intros w. by destruct (PayOrder_invalid params w Hv) as [e ->]. }
  unfold PayOrder. cbn zeta.
  destruct (_ || _); [conforms_run|]. destruct (bool_decide _); [conforms_run|].
  apply (conforms_lift _ (pay_hash params)); [by unfold HashRequestBody|]. conforms_run. by eapply ps_pay.
Qed.

Lemma conforms_CancelOrder params : conforms (CancelOrder params).
Proof. unfold CancelOrder. destruct (_ || _); conforms_run. by eapply ps_cancel. Qed.

Lemma silent_time_now : silent time_now.
Proof. done. Qed.
Lemma readonly_HashPassword p : readonly (HashPassword p).
Proof. done. Qed.
Lemma silent_GenerateRefreshToken : silent GenerateRefreshToken.
Proof. done. Qed.
Lemma silent_GenerateAccessToken m a b c : silent (GenerateAccessToken m a b c).
Proof. unfold GenerateAccessToken. apply silent_bind; [apply silent_time_now|eauto with orderdb]. Qed.

#[local] Hint Resolve silent_time_now silent_HashPassword readonly_HashPassword silent_GenerateRefreshToken
  readonly_GenerateRefreshToken silent_GenerateAccessToken readonly_GenerateAccessToken : orderdb.

Lemma conforms_ListOrders params : conforms (OrderService.ListOrders params).
Proof.
  apply conforms_read; [apply readonly_ListOrders_service|]. unfold OrderService.ListOrders, Store.ListOrders,
    Store.ListOrdersByUser, Sqlc.ListOrders, Sqlc.ListOrdersByUser. destruct (bool_decide _); eauto with orderdb.
Qed.

Lemma conforms_GetOrder params : conforms (OrderService.GetOrder params).
Proof. unfold OrderService.GetOrder. conforms_run. Qed.

Lemma conforms_RegisterUser params : conforms (RegisterUser params).
Proof. apply conforms_unit. intros. by eapply ps_user. Qed.

Lemma readonly_GetUserByEmail_store email : readonly (Store.GetUserByEmail email).
Proof. unfold Store.GetUserByEmail. eauto with orderdb. Qed.
Lemma readonly_GetRefreshTokenByHash_store h : readonly (Store.GetRefreshTokenByHash h).
Proof. unfold Store.GetRefreshTokenByHash. eauto with orderdb. Qed.
Lemma silent_GetRefreshTokenByHash_store h : silent (Store.GetRefreshTokenByHash h).
Proof. unfold Store.GetRefreshTokenByHash, Sqlc.GetRefreshTokenByHash. eauto with orderdb. Qed.
#[local] Hint Resolve readonly_GetUserByEmail_store readonly_GetRefreshTokenByHash_store
  silent_GetRefreshTokenByHash_store : orderdb.

Lemma conforms_Login s params : conforms (Login s params).
Proof. unfold Login. cbn zeta. destruct (_ || _); conforms_run. Qed.

Lemma conforms_RefreshAccessToken s token : conforms (RefreshAccessToken s token).
Proof. unfold RefreshAccessToken. destruct (bool_decide _); conforms_run. Qed.

Lemma conforms_Logout token : conforms (Logout token).
Proof. unfold Logout. destruct (bool_decide _); conforms_run. Qed.

Lemma conforms_PublishBatch n : conforms (PublishBatch (mkConfig topic n)).
Proof. apply conforms_unit. intros. by eapply ps_publish. Qed.

Lemma conforms_Run n rounds : conforms (Run (mkConfig topic n) rounds).
Proof.
  induction rounds as [|k IH]; cbn [Run]; apply conforms_bind; intros;
    try (apply conforms_try, conforms_PublishBatch); [conforms_run|exact IH].
Qed.

(** The consumer is handed records of the log. *)
Lemma Handle_steps rec w :
  rec ∈ w_topic w → rtc program_step w (Handle (rec_topic rec) (rec_value rec) w).2.
Proof.
  intros Hin. unfold Handle, bind at 1, lift. destruct (check_message _ _) as [[message userID]|e] eqn:Hc; [|done].
  unfold bind, try. destruct (WithTx _ w) as [r w'] eqn:Hw.
  assert (program_step w w') as Hs by (by eapply ps_handle).
  destruct r as [dup|e]; [|by apply rtc_once]. destruct dup; (eapply rtc_l; [exact Hs|apply conforms_inc]).
Qed.

(** The consumer writes nothing to the log. *)
Lemma Handle_topic source payload w : w_topic (Handle source payload w).2 = w_topic w.
Proof.
  unfold Handle, bind at 1, lift. destruct (check_message _ _) as [[message userID]|e]; [|done].
  unfold bind, try. assert (silent (WithTx (handle_tx (OutboxMessage_ID message) userID))) as Hs.
  { apply silent_WithTx. unfold handle_tx. silent_store. }
  destruct (Hs w) as [_ Ht]. destruct (WithTx _ w) as [[dup|e] w']; [|done]. by destruct dup.
Qed.

Lemma handleRecord_topic source payload w : w_topic (handleRecord source payload w).2 = w_topic w.
Proof.
  unfold handleRecord, bind, try. rewrite <- (Handle_topic source payload w).
  destruct (Handle _ _ w) as [[u|e] w']; [done|]. by destruct (errors_Is e _).
Qed.

Lemma handleRecord_steps rec w :
  rec ∈ w_topic w → rtc program_step w (handleRecord (rec_topic rec) (rec_value rec) w).2.
Proof.
  intros Hin. unfold handleRecord, bind, try. pose proof (Handle_steps rec w Hin) as Hs.
  destruct (Handle _ _ w) as [[u|e] w']; [done|]. by destruct (errors_Is e _).
Qed.
End system.
