(* ===== verification/Sessions.v ===== *)
(** * Accounts and access tokens

    What RegisterUser puts into the table of users, over every run of the
    system, and with it: the access tokens that Login and RefreshAccessToken
    hand out are accepted, for their user, until they expire. *)

From S2P Require Import Prelude GoStrings Sha256 Json Models World.
From S2P Require Import Sqlc.
From S2P Require Import Store.
From S2P Require Import OrderService.
From S2P Require Import Spec OrderRefine Evolution Invariants Bookkeeping.
From S2P Require Import Auth.
From S2P Require Import Publisher.
From S2P Require Import Consumer Envelope.
From S2P Require Import System.

Section sessions.
Context `{External} `{!ExternalLaws _} `{A : AuthExternal} `{P : Producer} `{!ProducerLaws P} (topic : string).
Notation program_run := (program_run topic).
Notation program_step := (program_step topic).

(** ** The users of every run *)

(** A user as RegisterUser makes one: an address that is trimmed, not blank and
    UTF-8, one of the two roles, and of the password only its bcrypt hash. *)
Record account (u : User) : Prop := {
  ac_email : tidy (User_Email u);
  ac_text : text_ok (User_Email u) = true;
  ac_role : User_Role u = "customer" ∨ User_Role u = "admin";
  ac_password : ∃ n password, password ≠ "" ∧ bcrypt_GenerateFromPassword n password = Ok (User_PasswordHash u)
}.

Definition accounts (db : DB) : Prop := ∀ id u, users db !! id = Some u → account u.

Lemma RegisterUser_account params w r w' :
  RegisterUser params w = (r, w') → accounts (w_db w) → accounts (w_db w').
Proof.
  intros [[-> _]|(u & _ & -> & He & Hne & Ht & Hp & [n Hh] & Hr & _)]%RegisterUser_cases; [done|].
  intros Hall id x. cbn. intros [[_ <-]|[_ Hx]]%lookup_insert_Some; [|by eapply Hall].
  split; [|done|done|by eexists _, _]. rewrite He in *. by apply TrimSpace_tidy.
Qed.

Lemma untouched_users : untouched users.
Proof. by split. Qed.

Lemma program_step_accounts w w' :
  reachable (w_db w) → program_step w w' → accounts (w_db w) → accounts (w_db w').
Proof.
  intros Hr Hs Hall. assert (users (w_db w') = users (w_db w) → accounts (w_db w')) as Hsame
    by (unfold accounts; by intros ->).
  destruct (program_step_untouched topic _ _ _ untouched_users Hr Hs)
    as [?|[(params & r & Hw)|[(? & ? & Hw)|[(? & ? & Hw)|(rec & m & u & id & dup & _ & _ & _ & Hh)]]]].
  - by apply Hsame.
  - by eapply RegisterUser_account.
  - apply Hsame. by eapply store_CreateRefreshToken_frame.
  - apply Hsame. by eapply store_RevokeRefreshToken_frame.
  - apply Hsame. by destruct Hh as [_ ->|? ? _ _ _ _ _ _ _ _ -> _].
Qed.

Lemma program_run_accounts w : program_run w → accounts (w_db w).
Proof.
  intros (w0 & Hdb & _ & Hs).
  assert (accounts (w_db w0)) as H0 by (rewrite Hdb; intros id u Hl; cbn in Hl; by apply lookup_empty_Some in Hl).
  assert (reachable (w_db w0)) as Hr by (rewrite Hdb; by unfold reachable). clear Hdb.
  induction Hs as [|w1 w2 w3 Hone _ IH]; [done|]. apply IH.
  - by eapply program_step_accounts.
  - unfold reachable in *. etransitivity; [exact Hr|]. by apply (program_step_rtc topic).
Qed.

(** ** Access tokens *)

Context `{!AuthLaws A}.

(** The token is accepted, with the user's id, e-mail and role, until [expiry],
    and refused from then on. *)
Definition accepted_until (m : TokenManager) (token : string) (u : User) (expiry : Z) : Prop :=
  ∀ w, if clock (w_tick w) <? expiry then
    ∃ c, ParseAccessToken m token w = (Ok c, next_tick w) ∧
      Claims_UserID c = UUID_String (User_ID u) ∧ Claims_Email c = User_Email u ∧ Claims_Role c = User_Role u
  else ParseAccessToken m token w = (Err ErrInvalidToken, next_tick w).

(** The second in which a token runs out that is issued at the [n]-th call. *)
Definition token_expiry (m : TokenManager) (n : nat) : Z := NewNumericDate (clock n + TokenManager_ttl m).

Lemma issued_accepted m u w token w' :
  account u → GenerateAccessToken m (UUID_String (User_ID u)) (User_Email u) (User_Role u) w = (Ok token, w') →
  accepted_until m token u (token_expiry m (w_tick w)).
Proof.
  intros [[He _] Ht Hr _] Hg w2.
  assert (sanitize (UUID_String (User_ID u)) = UUID_String (User_ID u)) as Hid
    by (apply sanitize_valid, utf8_ascii, UUID_String_ascii).
  assert (sanitize (User_Email u) = User_Email u) as Hem
    by (apply sanitize_valid; unfold text_ok in Ht; by apply andb_true_iff in Ht as [? _]).
  assert (sanitize (User_Role u) = User_Role u) as Hrole by (by destruct Hr as [-> | ->]).
  pose proof (ParseAccessToken_issued m _ _ _ _ _ _ w2 Hg) as Hp. rewrite Hid, Hem, Hrole in Hp.
  apply Hp; [apply UUID_String_nonempty|done|by destruct Hr as [-> | ->]].
Qed.

(** What Login hands out, and to whom. *)
Lemma Login_issued s params w res w' :
  Login s params w = (Ok res, w') → let u := LoginResult_User res in
  ∃ id w1 w2, users (w_db w) !! id = Some u ∧ User_Email u = normal_email (Login_Email params) ∧
    bcrypt_CompareHashAndPassword (User_PasswordHash u) (Login_Password params) = true ∧ w_tick w1 = S (w_tick w) ∧
    GenerateAccessToken (tokenManager s) (UUID_String (User_ID u)) (User_Email u) (User_Role u) w1
      = (Ok (LoginResult_AccessToken res), w2).
Proof.
  unfold Login. cbn zeta. destruct (_ || _); [done|].
  unfold bind at 1, try. destruct (Store.GetUserByEmail _ w) as [[u|e] w1] eqn:Hu; [|done].
  apply Sqlc.GetUserByEmail_ok in Hu as [[Heq%bool_decide_eq_true [id Hu]]%lookup_by_Some ->].
  unfold CheckPasswordHash. destruct (bcrypt_CompareHashAndPassword _ _) eqn:Hpw; [|done].
  intros (access & w2 & Ha & Hrun)%bind_ok.
  repeat (apply bind_ok in Hrun as (? & ? & ? & Hrun)). injection Hrun as <- _. cbn in *.
  exists id, (next_tick w), w2. by split_and!.
Qed.

Lemma RefreshAccessToken_issued s token w res w' :
  RefreshAccessToken s token w = (Ok res, w') → let u := RefreshAccessTokenResult_User res in
  ∃ id tid t w1 w2, users (w_db w) !! id = Some u ∧ id = RefreshToken_UserID t ∧
    refresh_tokens (w_db w) !! tid = Some t ∧ RefreshToken_TokenHash t = HashRefreshToken token ∧
    RefreshToken_RevokedAt t = None ∧ clock (S (w_tick w)) ≤ RefreshToken_ExpiresAt t ∧ w_tick w1 = S (S (S (w_tick w))) ∧
    GenerateAccessToken (tokenManager s) (UUID_String (User_ID u)) (User_Email u) (User_Role u) w1
      = (Ok (RefreshAccessTokenResult_AccessToken res), w2).
Proof.
  unfold RefreshAccessToken. case_bool_decide; [done|].
  unfold bind at 1, try. destruct (Store.GetRefreshTokenByHash _ w) as [[t|e] w1] eqn:Ht; [|done].
  apply Sqlc.GetRefreshTokenByHash_ok in Ht as [[Heq%bool_decide_eq_true [tid Ht]]%lookup_by_Some ->].
  destruct (RefreshToken_RevokedAt t) eqn:Hrev; [done|].
  unfold bind at 1, time_now. destruct (_ <? _) eqn:Hexp; [done|]. apply Z.ltb_ge in Hexp.
  unfold bind at 1. destruct (Store.GetUser _ _) as [[u|e] w2] eqn:Hu; [|done].
  unfold Store.GetUser, bind, scan in Hu. rewrite UUID_Scan_String in Hu. apply Sqlc.GetUser_ok in Hu as [Hu ->].
  intros (access & w3 & Ha & [= <- _])%bind_ok. cbn in *.
  exists (RefreshToken_UserID t), tid, t, (next_tick (next_tick (next_tick w))), w3. split_and!; [exact Hu|done|exact Ht|done|done|exact Hexp|done|exact Ha].
Qed.

End sessions.
