(* ===== verification/Interleaving.v ===== *)
(** * Transactions statement by statement

    [WithTx] runs a transaction in one piece.  PostgreSQL does not: the
    statements of the transactions of all processes interleave.  Here they
    do.  Each open transaction has its script, its own uncommitted writes and
    its locks; a statement sees the committed tables with the writes of its
    own transaction (READ COMMITTED, pgx's default) and waits until no other
    transaction holds what it locks; a commit makes the writes visible; any
    transaction may be rolled back or lose its connection at any time.  The
    records that a publisher hands to Kafka are in the log at once, and stay
    there when it rolls back; some arrive later.

    The theorem is that nothing is gained by interleaving: the tables and the
    log of every interleaved run are those of a run of [System], in which
    transactions are units.  So the theorems about the runs of [System] hold
    of the interleaved ones.  Each transaction can be moved to its commit,
    because what it has read is locked ([tx_replays]); the claim of a publisher
    cannot be repeated at its commit, but its marks can ([tx_publishes]). *)

From S2P Require Import Prelude GoStrings Sha256 Json Models World.
From S2P Require Import Sqlc.
From S2P Require Import Store.
From S2P Require Import OrderService.
From S2P Require Import Spec OrderRefine Evolution Invariants Bookkeeping.
From S2P Require Import Auth.
From S2P Require Import Publisher.
From S2P Require Import Consumer.
From S2P Require Import Scripts Locks System.

(** ** The server and its open transactions *)

Record Tx := mkTx {
  tx_script : script unit;
  (* its writes, first to last *)
  tx_writes : list write;
  tx_locks : list lock;
  (* the state of its process; the tables and the log in it are not looked at *)
  tx_world : World
}.

(** [c_sent]: the records handed to Kafka, delivered or not. *)
Record Cluster := mkCluster {
  c_db : DB;
  c_topic : list KafkaRecord;
  c_sent : list KafkaRecord;
  c_txs : gmap nat Tx
}.

Definition c_init : Cluster := mkCluster empty_db [] [] ∅.

(** What a transaction sees. *)
Definition tx_view (c : Cluster) (t : Tx) : DB := apply_writes (tx_writes t) (c_db c).

(** The locks of the transactions other than the [n]-th. *)
Definition held (n : nat) (txs : gmap nat Tx) : list lock := (map_to_list (delete n txs)).*2 ≫= tx_locks.

Definition free (ls : list lock) (n : nat) (txs : gmap nat Tx) : bool :=
  forallb (λ l, bool_decide (l ∉ held n txs)) ls.

(** The transactions that the processes open. *)
Inductive request : Type :=
  | RCreate (params : CreateOrderParams)
  | RPay (params : PayOrderParams)
  | RCancel (params : CancelOrderParams)
  | RHandle (rec : KafkaRecord)
  | RPublish (batchSize : Z).

(** What can happen next.  [w] is the state of the process that acts. *)
Inductive action : Type :=
  | ABegin (n : nat) (w : World) (r : request)
  | AStatement (n : nat)
  | ACommit (n : nat)
  (* the connection is lost, the process dies, the context is cancelled *)
  | ARollback (n : nat)
  (* a record arrives that a publisher no longer waits for *)
  | ALate (rec : KafkaRecord)
  (* statements outside transactions that write: those of RegisterUser, whose
     only statement it is, of Login and of Logout *)
  | ACreateUser (w : World) (params : RegisterUserParams)
  | ACreateRefreshToken (w : World) (id userID token : string) (expiresAt : Z)
  | ARevokeRefreshToken (w : World) (id : string).

Section interleaving.
Context `{External} `{AuthExternal} `{P : Producer}.
Context (topic : string).

(** The script of a request that passed the checks that come before the
    transaction; the consumer is handed records of the log. *)
Definition script_of (log : list KafkaRecord) (r : request) : option (script unit) :=
  match r with
  | RCreate params =>
    if create_valid params then Some (sVoid (create_order_script params (TrimSpace (CreateOrder_IdempotencyKey params)) (create_currency params)
      (create_description params) (create_hash params)))
    else None
  | RPay params =>
    if pay_valid params
    then Some (sVoid (pay_order_script params (TrimSpace (PayOrder_IdempotencyKey params)) (pay_hash params))) else None
  | RCancel params => Some (sVoid (cancel_order_script params))
  | RHandle rec =>
    if bool_decide (rec ∈ log) then
      match check_message (rec_topic rec) (rec_value rec) with
      | Ok (message, userID) => Some (sVoid (handle_script (OutboxMessage_ID message) userID))
      | Err _ => None
      end
    else None
  | RPublish batchSize => Some (publish_batch_script (mkConfig topic batchSize))
  end.

Definition set_txs (txs : gmap nat Tx) (c : Cluster) : Cluster := mkCluster (c_db c) (c_topic c) (c_sent c) txs.

(** One statement of the [n]-th transaction, when it need not wait. *)
Definition statement (n : nat) (t : Tx) (c : Cluster) : option Cluster :=
  match tx_script t with
  | sDone _ => None
  | sCall s k =>
    let '(r, w1) := exec s (set_env (tx_view c t) (c_topic c) (tx_world t)) in
    if free (locks s r) n (c_txs c) then
      Some (mkCluster (c_db c) (w_topic w1)
        (match s with SPublish topic key payload => mkKafkaRecord topic key payload :: c_sent c | _ => c_sent c end)
        (<[n := mkTx (k r) (tx_writes t ++ writes s r) (tx_locks t ++ locks s r) w1]> (c_txs c)))
    else None
  end.

(** The end of the [n]-th transaction: [Commit] or, after an error, [Rollback]. *)
Definition finish (n : nat) (t : Tx) (c : Cluster) : option Cluster :=
  match tx_script t with
  | sCall _ _ => None
  | sDone (Err _) => Some (set_txs (delete n (c_txs c)) c)
  | sDone (Ok _) =>
    let '(_, w1) := Commit (c_db c) (set_env (tx_view c t) (c_topic c) (tx_world t)) in
    Some (mkCluster (w_db w1) (c_topic c) (c_sent c) (delete n (c_txs c)))
  end.

(** A statement outside a transaction. *)
Definition autocommit {A} (m : M A) (w : World) (c : Cluster) : Cluster :=
  mkCluster (w_db (m (set_env (c_db c) (c_topic c) w)).2) (c_topic c) (c_sent c) (c_txs c).

Definition act (a : action) (c : Cluster) : option Cluster :=
  match a with
  | ABegin n w r =>
    match c_txs c !! n, script_of (c_topic c) r, Begin w with
    | None, Some sc, (Ok _, w0) => Some (set_txs (<[n := mkTx sc [] [] w0]> (c_txs c)) c)
    | _, _, _ => None
    end
  | AStatement n => t ← c_txs c !! n; statement n t c
  | ACommit n => t ← c_txs c !! n; finish n t c
  | ARollback n => Some (set_txs (delete n (c_txs c)) c)
  | ALate rec =>
    if bool_decide (rec ∈ c_sent c) then Some (mkCluster (c_db c) (rec :: c_topic c) (c_sent c) (c_txs c)) else None
  | ACreateUser w params => Some (autocommit (RegisterUser params) w c)
  | ACreateRefreshToken w id userID token expiresAt =>
    Some (autocommit (Store.CreateRefreshToken
      (Store.mkCreateRefreshTokenParams id userID (HashRefreshToken token) expiresAt)) w c)
  | ARevokeRefreshToken w id => Some (autocommit (Store.RevokeRefreshToken id) w c)
  end.

Fixpoint act_all (acts : list action) (c : Cluster) : option Cluster :=
  match acts with
  | [] => Some c
  | a :: acts' => c' ← act a c; act_all acts' c'
  end.

(** The states that interleaved runs reach from the migrated database. *)
Definition interleaved (c : Cluster) : Prop := ∃ acts, act_all acts c_init = Some c.
End interleaving.

Lemma elem_of_held l n txs : l ∈ held n txs ↔ ∃ m t, m ≠ n ∧ txs !! m = Some t ∧ l ∈ tx_locks t.
Proof.
  unfold held. rewrite list_elem_of_bind. split.
  - intros (t & Hl & Ht). apply list_elem_of_fmap in Ht as ([m t'] & -> & Hm).
    apply elem_of_map_to_list, lookup_delete_Some in Hm as [? ?]. exists m, t'. by split_and!.
  - intros (m & t & Hne & Ht & Hl). exists t. split; [done|]. apply list_elem_of_fmap. exists (m, t).
    split; [done|]. apply elem_of_map_to_list. by apply lookup_delete_Some.
Qed.

Lemma free_spec ls n txs :
  free ls n txs = true ↔ ∀ l m t, l ∈ ls → m ≠ n → txs !! m = Some t → l ∉ tx_locks t.
Proof.
  unfold free. rewrite forallb_forall. split.
  - intros Hall l m t Hl Hne Ht Hin. apply list_elem_of_In, Hall, bool_decide_eq_true in Hl.
    apply Hl, elem_of_held. eauto.
  - intros Hall l Hl%list_elem_of_In. apply bool_decide_eq_true. intros (m & t & Hne & Ht & Hin)%elem_of_held.
    by eapply Hall.
Qed.

Lemma free_false ls n txs : free ls n txs = false → ∃ l, l ∈ ls ∧ l ∈ held n txs.
Proof.
  unfold free. induction ls as [|l ls IH]; [done|]. cbn. intros [Hl|Hls]%andb_false_iff.
  - exists l. split; [by left|]. by apply bool_decide_eq_false, dec_stable in Hl.
  - destruct (IH Hls) as (l' & ? & ?). exists l'. split; [by right|done].
Qed.

(** ** Scripts that can be replayed *)

(** The error of an INSERT of an idempotency record ends the script. *)
Definition passes_key_error {A} (s : stmt) : (result (answer s) → script A) → Prop :=
  match s with
  | SCreateIdempotencyKey _ => λ k, ∀ e, k (Err e) = sDone (Err e)
  | _ => λ _, True
  end.

(** A script of statements that depend on what they lock, and that ends with
    an error after every answer it does not expect. *)
Fixpoint robust {A} (sc : script A) : Prop :=
  match sc with
  | sDone _ => True
  | sCall s k => replayable s = true ∧ passes_key_error s k ∧
      ∀ r, if tolerated s r then robust (k r) else ∃ e, k r = sDone (Err e)
  end.

Lemma robust_bind {A B} (m : script A) (f : A → script B) :
  robust m → (∀ a, robust (f a)) → robust (sBind m f).
Proof.
  intros Hm Hf. induction m as [[a|e]|s k IH]; cbn; [apply Hf|done|]. destruct Hm as (Hrep & Hp & Hk). split_and!; [done| |].
  { destruct s; try done. cbn in *. intros e. by rewrite Hp. }
  intros r. specialize (Hk r). specialize (IH r). destruct (tolerated s r); [by apply IH|].
  destruct Hk as [e ->]. by exists e.
Qed.

Lemma robust_call s : replayable s = true → robust (call s).
Proof. intros Hs. split_and!; [done|by destruct s|]. intros [a|e]; [done|]. destruct (tolerated s (Err e)); [done|]. by exists e. Qed.

Lemma robust_attempt {B} s (f : result (answer s) → script B) :
  replayable s = true → (∀ params, s ≠ SCreateIdempotencyKey params) →
  (∀ r, if tolerated s r then robust (f r) else ∃ e, f r = sDone (Err e)) →
  robust (sBind (attempt s) f).
Proof. intros Hs Hn Hf. split_and!; [done| |done]. destruct s; try done. by destruct (Hn params). Qed.

Lemma robust_done {A} (r : result A) : robust (sDone r).
Proof. done. Qed.

Ltac robust_script :=
  repeat match goal with
  | |- robust (sBind (call _) _) => apply robust_bind; [by apply robust_call|intros ?]
  | |- robust (sBind (sDone _) _) => apply robust_bind; [apply robust_done|intros ?]
  | |- robust (match ?x with _ => _ end) => destruct x
  | |- robust _ => done
  end.

Definition publishes (r : request) : bool := match r with RPublish _ => true | _ => false end.

Lemma robust_script_of `{External} topic log r sc :
  publishes r = false → script_of topic log r = Some sc → robust sc.
Proof.
  destruct r as [params|params|params|rec|n]; cbn [script_of publishes]; intros Hp Hsc; [..|done].
  - destruct (create_valid params); [|done]. injection Hsc as <-.
    apply robust_bind; [|done]. unfold create_order_script. robust_script.
  - destruct (pay_valid params); [|done]. injection Hsc as <-. apply robust_bind; [|done]. unfold pay_order_script. apply robust_attempt; [done..|].
    intros [o|e]; cbn [tolerated]; [|by eexists]. robust_script.
  - injection Hsc as <-. apply robust_bind; [|done]. unfold cancel_order_script. apply robust_attempt; [done..|].
    intros [o|e]; cbn [tolerated]; [|by eexists]. robust_script.
  - case_bool_decide; [|done]. destruct (check_message _ _) as [[m u]|]; [|done]. injection Hsc as <-.
    apply robust_bind; [|done]. unfold handle_script. apply robust_attempt; [done..|].
    intros [pe|e]; cbn [tolerated]; [robust_script|]. destruct (errors_Is e ErrNoRows) eqn:He; [done|by eexists].
Qed.
