(* ===== verification/Serializability.v ===== *)
(** * Interleaved runs are runs of the system

    The proof of [interleaving_serializes]: an invariant of the open
    transactions of [Interleaving], and a simulation in which every action is
    matched by units of [System].  Committing is where a transaction happens;
    the statements before it are matched by nothing, but for the records of a
    publisher. *)

From S2P Require Import Prelude GoStrings Sha256 Json Models World.
From S2P Require Import Sqlc.
From S2P Require Import Store.
From S2P Require Import OrderService.
From S2P Require Import Spec OrderRefine Evolution Invariants Bookkeeping.
From S2P Require Import Auth.
From S2P Require Import Publisher.
From S2P Require Import Consumer.
From S2P Require Import Scripts Locks System Interleaving.

(** ** The marks of a publisher *)

Section marks.
Context `{External} `{!ExternalLaws _} `{AuthExternal} `{P : Producer} `{!ProducerLaws P}.
Context (topic : string).
Notation cfg := (mkConfig topic 0).

(** An event is marked published after its record, or failed. *)
Definition mark_ok (log : list KafkaRecord) (db : DB) (wr : write) : Prop :=
  match wr with
  | WEvent id e' => ∃ e, outbox_events db !! id = Some e ∧ OutboxEvent_ID e = id ∧
      ((∃ now rec, e' = mark_published now e ∧ event_record cfg e = Some rec ∧ rec ∈ log)
       ∨ ∃ err, e' = mark_failed err e ∧ OutboxEvent_Attempt e + 1 ≤ int32_max)
  | _ => False
  end.

Fixpoint marks_ok (log : list KafkaRecord) (ws : list write) (db : DB) : Prop :=
  match ws with
  | [] => True
  | wr :: ws' => mark_ok log db wr ∧ marks_ok log ws' (apply_write wr db)
  end.

Lemma marks_ok_snoc log ws wr db :
  marks_ok log ws db → mark_ok log (apply_writes ws db) wr → marks_ok log (ws ++ [wr]) db.
Proof.
  revert db. induction ws as [|w ws IH]; intros db; cbn; [by split|]. intros [Hw Hws] Hm. split; [done|]. by apply IH.
Qed.

Lemma marks_ok_agree L log log' ws db db' :
  agree L db db' → log ⊆ log' → (∀ wr l, wr ∈ ws → l ∈ write_locks wr → l ∈ L) →
  marks_ok log ws db → marks_ok log' ws db'.
Proof.
  intros Ha Hlog. revert db db' Ha. induction ws as [|wr ws IH]; intros db db' Ha Hl; [done|]. intros [Hw Hws]. split.
  - destruct wr as [| |id e'| | |]; try done. destruct Hw as (e & He & Hid & Hw). exists e.
    assert (same (LEvent id) db db') as Hs by (apply (proj2 Ha); eapply Hl; [by left|]; by left).
    cbn in Hs. rewrite Hs. split_and!; [done..|].
    destruct Hw as [(now & rec & ? & ? & ?)|?]; [left; exists now, rec; split_and!; auto|by right].
  - eapply IH; [by apply (agree_writes L [wr])|intros; eapply Hl; [by right|done]|done].
Qed.

(** A marked event is the event that was there. *)
Lemma marks_ok_back log ws db id e' :
  marks_ok log ws db → outbox_events (apply_writes ws db) !! id = Some e' →
  ∃ e, outbox_events db !! id = Some e ∧ event_fixed e' = event_fixed e.
Proof.
  revert db. induction ws as [|wr ws IH]; intros db; cbn; [eauto|]. intros [Hw Hws] He'.
  destruct (IH _ Hws He') as (e1 & He1 & Hf). destruct wr as [| |i x| | |]; try done. cbn in He1.
  apply lookup_insert_Some in He1 as [[-> ->]|[_ ?]]; [|by exists e1].
  destruct Hw as (e & He & _ & Hw). exists e. split; [done|]. rewrite Hf.
  by destruct Hw as [(? & ? & -> & _)|(? & -> & _)].
Qed.

Lemma marks_ok_mono log log' ws db : log ⊆ log' → marks_ok log ws db → marks_ok log' ws db.
Proof.
  intros Hlog. eapply (marks_ok_agree (ws ≫= write_locks)); [done|done|].
  intros wr l Hwr Hl. apply list_elem_of_bind. eauto.
Qed.

(** The marks are units of the system. *)
Lemma marks_ok_steps log ws db :
  marks_ok log ws db →
  rtc (program_step topic) (mkWorld db 0 0 None [] log) (mkWorld (apply_writes ws db) 0 0 None [] log).
Proof.
  revert db. induction ws as [|wr ws IH]; intros db; [done|]. intros [Hw Hws].
  eapply rtc_l; [|by apply IH]. destruct wr as [| |id e'| | |]; try done. destruct Hw as (e & He & <- & Hw).
  destruct Hw as [(now & rec & -> & Hrec & Hin)|(err & -> & Ha)].
  - by eapply (ps_marked topic _ _ e rec now).
  - by eapply (ps_failed topic _ _ e err).
Qed.

(** *** What the script of a publisher may do *)

(** The events it gets from a claim, the records it has sent. *)
Definition claims (s : stmt) : result (answer s) → list OutboxEvent :=
  match s return result (answer s) → list OutboxEvent with
  | SClaimOutboxEvents _ => λ r, match r with Ok es => es | Err _ => [] end
  | _ => λ _, []
  end.

Definition delivers (s : stmt) (r : result (answer s)) : list KafkaRecord :=
  match s with
  | SPublish topic key payload => if is_ok r then [mkKafkaRecord topic key payload] else []
  | _ => []
  end.

(** It only sends records of events it holds, and marks only these; published
    only those whose record was sent. *)
Definition allowed (es : list OutboxEvent) (sent : list KafkaRecord) (s : stmt) : Prop :=
  match s with
  | SClaimOutboxEvents _ | SInc _ => True
  | SPublish topic key payload => ∃ e, e ∈ es ∧ event_record cfg e = Some (mkKafkaRecord topic key payload)
  | SMarkOutboxEventPublished id =>
    ∃ e rec, e ∈ es ∧ id = UUID_String (OutboxEvent_ID e) ∧ event_record cfg e = Some rec ∧ rec ∈ sent
  | SMarkOutboxEventFailed id _ => ∃ e, e ∈ es ∧ id = UUID_String (OutboxEvent_ID e)
  | _ => False
  end.

Definition goes_on (s : stmt) (r : result (answer s)) : bool :=
  match s with SPublish _ _ _ => true | _ => is_ok r end.

Fixpoint marks_safe (es : list OutboxEvent) (sent : list KafkaRecord) (sc : script unit) : Prop :=
  match sc with
  | sDone _ => True
  | sCall s k => allowed es sent s ∧ ∀ r,
      if goes_on s r then marks_safe (es ++ claims s r) (delivers s r ++ sent) (k r) else ∃ e, k r = sDone (Err e)
  end.

Lemma publish_events_safe n events es sent :
  (∀ e, e ∈ events → e ∈ es) → marks_safe es sent (publish_events_script (mkConfig topic n) events).
Proof.
  revert es sent. induction events as [|e events IH]; intros es sent Hes; [done|].
  assert (∀ x, x ∈ events → x ∈ es) as Hrest by (intros; apply Hes; by right).
  assert (e ∈ es) as He by (apply Hes; by left).
  cbn [publish_events_script]. unfold publish_event_script.
  destruct (MarshalMessage (event_message e)) as [msg|] eqn:Hm; [|done].
  assert (event_record cfg e = Some (mkKafkaRecord topic (UUID_String (OutboxEvent_PartitionKey e)) msg)) as Hrec
    by (unfold event_record; by rewrite Hm).
  cbn -[publish_events_script]. split; [by exists e|]. intros [[]|err]; cbn -[publish_events_script].
  - split.
    + eexists e, _. split_and!; [by rewrite app_nil_r|done|exact Hrec|by left].
    + intros [e'|err]; [|by eexists]. cbn -[publish_events_script]. split; [done|].
      intros [[]|err]; [|by eexists]. cbn -[publish_events_script]. rewrite !app_nil_r. by apply IH.
  - split.
    + exists e. by rewrite app_nil_r.
    + intros [e'|err']; [|by eexists]. cbn -[publish_events_script]. split; [done|].
      intros [[]|err']; [|by eexists]. cbn -[publish_events_script]. rewrite !app_nil_r. by apply IH.
Qed.

Lemma publish_batch_safe n : marks_safe [] [] (publish_batch_script (mkConfig topic n)).
Proof.
  split; [done|]. intros [es|err]; cbn -[publish_events_script]; [|by eexists]. by apply publish_events_safe.
Qed.
End marks.

(** ** The invariant *)

Section simulation.
Context `{External} `{!ExternalLaws _} `{AuthExternal} `{P : Producer} `{!ProducerLaws P}.
Context (topic : string).
Notation cfg := (mkConfig topic 0).
Notation program_step := (program_step topic).

(** What is known of an open transaction: it has failed; or, run from its
    start on any tables that have what it locked, it would be where it is; or
    it is a publisher's, with events it has locked and marks that can be made
    at any time. *)
Inductive tx_inv (c : Cluster) (t : Tx) : Prop :=
  | tx_failed e : tx_script t = sDone (Err e) → tx_inv c t
  | tx_replays r sc w w0 :
      publishes r = false → script_of topic (c_topic c) r = Some sc → Begin w = (Ok tt, w0) → robust (tx_script t) →
      (∀ db' log', agree (tx_locks t) (c_db c) db' →
         run sc (set_env db' log' w0) = run (tx_script t) (set_env (apply_writes (tx_writes t) db') log' (tx_world t))) →
      tx_inv c t
  | tx_publishes es sent :
      marks_safe topic es sent (tx_script t) → sent ⊆ c_topic c →
      (∀ e, e ∈ es → LEvent (OutboxEvent_ID e) ∈ tx_locks t ∧
         ∃ e0, outbox_events (c_db c) !! OutboxEvent_ID e = Some e0 ∧ event_fixed e0 = event_fixed e) →
      marks_ok topic (c_topic c) (tx_writes t) (c_db c) →
      tx_inv c t.

(** What a transaction writes, it has locked. *)
Definition writes_locked (t : Tx) : Prop := ∀ wr l, wr ∈ tx_writes t → l ∈ write_locks wr → l ∈ tx_locks t.

Record cluster_inv (c : Cluster) : Prop := {
  ci_reachable : reachable (c_db c);
  ci_sent rec : rec ∈ c_sent c → ∃ e, outbox_events (c_db c) !! OutboxEvent_ID e = Some e ∧ event_record cfg e = Some rec;
  ci_txs n t : c_txs c !! n = Some t → tx_inv c t;
  ci_locked n t : c_txs c !! n = Some t → writes_locked t;
  ci_exclusive n m t u l : n ≠ m → c_txs c !! n = Some t → c_txs c !! m = Some u → l ∈ tx_locks t → l ∉ tx_locks u
}.

(** What others do to the tables, outside the locks, and to the log. *)
Lemma tx_inv_later c c' t :
  agree (tx_locks t) (c_db c) (c_db c') → c_topic c ⊆ c_topic c' → writes_locked t → tx_inv c t → tx_inv c' t.
Proof.
  intros Ha Hlog Hl [e He|r sc w w0 Hr Hsc Hb Hrob Hrun|es sent Hsafe Hsent Hes Hm].
  - by eapply tx_failed.
  - eapply tx_replays; [exact Hr| |exact Hb|exact Hrob|].
    + destruct r; cbn [script_of] in *; try exact Hsc.
      destruct (bool_decide (rec ∈ c_topic c)) eqn:Hin; [|done]. apply bool_decide_eq_true in Hin.
      rewrite bool_decide_eq_true_2; [exact Hsc|auto].
    + intros db' log' Ha'. apply Hrun. by etransitivity.
  - eapply tx_publishes; [exact Hsafe|set_solver| |].
    + intros e (Hin & e0 & He0 & Hf)%Hes. split; [done|]. exists e0. split; [|done].
      by rewrite <- He0, <- (proj2 Ha _ Hin).
    + by eapply marks_ok_agree.
Qed.

(** The system's view of a state. *)
Definition visible (c : Cluster) : World := mkWorld (c_db c) 0 0 None [] (c_topic c).

Lemma same_visible w w' : w_db w' = w_db w → w_topic w' = w_topic w → rtc program_step w w'.
Proof. intros. by apply rtc_once, ps_read. Qed.

Lemma steps_visible c c' w w' :
  rtc program_step w w' → w_db w = c_db c → w_topic w = c_topic c → w_db w' = c_db c' → w_topic w' = c_topic c' →
  rtc program_step (visible c) (visible c').
Proof.
  intros Hs Hd Ht Hd' Ht'. etransitivity; [by apply (same_visible _ w)|].
  etransitivity; [exact Hs|]. by apply same_visible.
Qed.

Lemma step_visible c c' w w' :
  program_step w w' → w_db w = c_db c → w_topic w = c_topic c → w_db w' = c_db c' → w_topic w' = c_topic c' →
  rtc program_step (visible c) (visible c').
Proof. intros Hs. by apply steps_visible, rtc_once. Qed.

(** Rows of the outbox keep their record. *)
Lemma sent_later db db' rec :
  reachable db → rtc db_step db db' →
  (∃ e, outbox_events db !! OutboxEvent_ID e = Some e ∧ event_record cfg e = Some rec) →
  ∃ e, outbox_events db' !! OutboxEvent_ID e = Some e ∧ event_record cfg e = Some rec.
Proof.
  intros Hr Hs (e & He & Hrec). destruct (steps_event _ _ _ _ Hs He) as (e' & He' & Hf & _).
  exists e'. rewrite (event_record_fixed _ _ _ Hf). split; [|done].
  assert (reachable db') as Hr' by (unfold reachable in *; by etransitivity).
  by rewrite (keyed_events _ (reachable_keyed _ Hr') _ _ He').
Qed.

(** *** The start and the end of a transaction *)

Lemma Begin_env db log w w0 : Begin w = (Ok tt, w0) → Begin (set_env db log w) = (Ok tt, set_env db log w0).
Proof. unfold Begin. cbn. destruct (fault (w_tick w)); by intros [= <-]. Qed.

Lemma WithTx_intro {A} (fn : M A) w w0 a w2 :
  Begin w = (Ok tt, w0) → fn w0 = (Ok a, w2) → ∃ r, WithTx fn w = (r, (Commit (w_db w) w2).2).
Proof. unfold WithTx. intros -> ->. destruct (Commit (w_db w) w2) as [[u|e] w3]; eauto. Qed.

(** A script that ran to its end, and its commit, are a unit of the system. *)
Lemma script_commits r sc w w0 w2 :
  publishes r = false → script_of topic (w_topic w) r = Some sc → Begin w = (Ok tt, w0) → run sc w0 = (Ok tt, w2) →
  program_step w (Commit (w_db w) w2).2.
Proof.
  intros Hr Hsc Hb Hrun. destruct r as [params|params|params|rec|n]; cbn [script_of] in Hsc; [..|done].
  - destruct (create_valid params) eqn:Hv; [|done]. injection Hsc as <-.
    apply run_void in Hrun as [o Hrun]. rewrite run_create_order in Hrun.
    destruct (WithTx_intro _ _ _ _ _ Hb Hrun). by eapply ps_create.
  - destruct (pay_valid params) eqn:Hv; [|done]. injection Hsc as <-.
    apply run_void in Hrun as [o Hrun]. rewrite run_pay_order in Hrun.
    destruct (WithTx_intro _ _ _ _ _ Hb Hrun). by eapply ps_pay.
  - injection Hsc as <-. apply run_void in Hrun as [o Hrun]. rewrite run_cancel_order in Hrun.
    destruct (WithTx_intro _ _ _ _ _ Hb Hrun). by eapply ps_cancel.
  - case_bool_decide as Hin; [|done]. destruct (check_message _ _) as [[m u]|] eqn:Hc; [|done]. injection Hsc as <-.
    apply run_void in Hrun as [dup Hrun]. rewrite run_handle in Hrun.
    destruct (WithTx_intro _ _ _ _ _ Hb Hrun). by eapply ps_handle.
Qed.

Lemma Commit_cases db w : w_topic (Commit db w).2 = w_topic w ∧ (w_db (Commit db w).2 = w_db w ∨ w_db (Commit db w).2 = db).
Proof. unfold Commit. destruct (fault (w_tick w)); cbn; auto. Qed.

(** The end of a transaction is units of the system. *)
Lemma finish_steps n t c c' :
  cluster_inv c → c_txs c !! n = Some t → finish n t c = Some c' →
  rtc program_step (visible c) (visible c') ∧ (c_db c' = c_db c ∨ c_db c' = tx_view c t) ∧
  c_topic c' = c_topic c ∧ c_sent c' = c_sent c ∧ c_txs c' = delete n (c_txs c).
Proof.
  intros Hi Ht. unfold finish. destruct (tx_script t) as [[[]|e]|s k] eqn:Hsc; [|intros [= <-]; split_and!; [reflexivity|by left|done..]|done].
  set (w2 := set_env (tx_view c t) (c_topic c) (tx_world t)).
  destruct (Commit_cases (c_db c) w2) as [Htop Hdb]. destruct (Commit (c_db c) w2) as [rc w3] eqn:Hc.
  cbn [snd] in *. intros [= <-]. cbn. split; [|split_and!; [by destruct Hdb; [right|left]|done..]].
  destruct (ci_txs _ Hi _ _ Ht) as [e He|r sc w w0 Hr Hs Hb Hrob Hrun|es sent Hsafe Hsent Hes Hm]; [congruence| |].
  - specialize (Hrun (c_db c) (c_topic c) (reflexivity _)). rewrite Hsc in Hrun. cbn in Hrun.
    apply (Begin_env (c_db c) (c_topic c)) in Hb.
    pose proof (script_commits r sc (set_env (c_db c) (c_topic c) w) _ _ Hr Hs Hb Hrun) as Hstep.
    fold (tx_view c t) in Hstep. fold w2 in Hstep. cbn [set_env w_db] in Hstep.
    rewrite Hc in Hstep. eapply step_visible; [exact Hstep|done..].
  - destruct Hdb as [Hdb|Hdb]; [|by apply same_visible].
    pose proof (marks_ok_steps topic _ _ _ Hm) as Hsteps. unfold visible. cbn. by rewrite Hdb.
Qed.

(** *** A statement of a transaction *)

Lemma writes_locks s r wr l : wr ∈ writes s r → l ∈ write_locks wr → l ∈ locks s r.
Proof.
  destruct r as [a|e]; cbn; [|set_solver]. intros Hwr Hl. apply elem_of_app. right.
  apply list_elem_of_bind. eauto.
Qed.

Definition is_publish (s : stmt) : bool := match s with SPublish _ _ _ => true | _ => false end.

(** Only the producer writes to the log. *)
Lemma exec_topic s w r w1 : is_publish s = false → exec s w = (r, w1) → w_topic w1 = w_topic w.
Proof.
  destruct s; intros Hp Hrun; try discriminate Hp; cbn [exec] in Hrun;
    try (by injection Hrun as <- <-);
    lazymatch type of Hrun with ?m w = _ => assert (silent m) as Hs end;
    try (by eapply silent_run in Hrun as [_ ?]);
    silent_store.
  intros w'. apply silent_query.
Qed.

(** The events of a claim are rows of the outbox. *)
Lemma claim_stored c t n es w w1 :
  reachable (c_db c) → marks_ok topic (c_topic c) (tx_writes t) (c_db c) →
  Store.ClaimOutboxEvents n (set_env (tx_view c t) (c_topic c) w) = (Ok es, w1) →
  ∀ e, e ∈ es → ∃ e0, outbox_events (c_db c) !! OutboxEvent_ID e = Some e0 ∧ event_fixed e0 = event_fixed e.
Proof.
  intros Hr Hm Hc e He. apply Sqlc.ClaimOutboxEvents_ok in Hc as (_ & -> & _). cbn [set_env w_db] in He.
  fold (claimed n (locked_rows (w_tick w)) (tx_view c t)) in He.
  apply elem_of_claimed in He as [_ [id Hid]].
  assert (reachable (tx_view c t)) as Hv
    by (by apply (program_reachable topic _ _ (marks_ok_steps topic _ _ _ Hm))).
  pose proof (keyed_events _ (reachable_keyed _ Hv) _ _ Hid) as <-.
  destruct (marks_ok_back _ _ _ _ _ _ Hm Hid) as (e0 & ? & ?). by exists e0.
Qed.

(** A row that the publisher holds, seen through its own marks. *)
Lemma held_in_view c t (es : list OutboxEvent) e e1 :
  (∀ e, e ∈ es → LEvent (OutboxEvent_ID e) ∈ tx_locks t ∧
     ∃ e0, outbox_events (c_db c) !! OutboxEvent_ID e = Some e0 ∧ event_fixed e0 = event_fixed e) →
  marks_ok topic (c_topic c) (tx_writes t) (c_db c) → e ∈ es →
  outbox_events (tx_view c t) !! OutboxEvent_ID e = Some e1 → event_fixed e1 = event_fixed e.
Proof.
  intros Hes Hm He He1. destruct (Hes _ He) as (_ & e0 & He0 & Hf).
  destruct (marks_ok_back _ _ _ _ _ _ Hm He1) as (e0' & He0' & Hf'). congruence.
Qed.

Lemma event_fixed_id e e' : event_fixed e = event_fixed e' → OutboxEvent_ID e = OutboxEvent_ID e'.
Proof. by injection 1. Qed.

(** The next state of a publisher's transaction. *)
Lemma publisher_statement c t s k es sent r w1 c' :
  reachable (c_db c) →
  marks_safe topic es sent (sCall s k) → sent ⊆ c_topic c →
  (∀ e, e ∈ es → LEvent (OutboxEvent_ID e) ∈ tx_locks t ∧
     ∃ e0, outbox_events (c_db c) !! OutboxEvent_ID e = Some e0 ∧ event_fixed e0 = event_fixed e) →
  marks_ok topic (c_topic c) (tx_writes t) (c_db c) →
  exec s (set_env (tx_view c t) (c_topic c) (tx_world t)) = (r, w1) →
  c_db c' = c_db c → c_topic c' = w_topic w1 → c_topic c ⊆ w_topic w1 →
  tx_inv c' (mkTx (k r) (tx_writes t ++ writes s r) (tx_locks t ++ locks s r) w1).
Proof.
  intros Hr [Hal Hk] Hsent Hes Hm Hrun Hdb Htop Hgrow. specialize (Hk r).
  destruct (goes_on s r) eqn:Hgo; [|destruct Hk as [e He]; by eapply tx_failed].
  assert (∀ e, e ∈ es ++ claims s r → LEvent (OutboxEvent_ID e) ∈ tx_locks t ++ locks s r ∧
    ∃ e0, outbox_events (c_db c') !! OutboxEvent_ID e = Some e0 ∧ event_fixed e0 = event_fixed e) as Hes'.
  { rewrite Hdb. intros e [He|He]%elem_of_app.
    - destruct (Hes _ He) as [? ?]. split; [|done]. apply elem_of_app. by left.
    - destruct s; cbn [claims] in He; try (by apply not_elem_of_nil in He).
      destruct r as [evs|]; [|by apply not_elem_of_nil in He]. split.
      + apply elem_of_app. right. cbn. apply elem_of_app. left. apply list_elem_of_fmap. by exists e.
      + by eapply claim_stored. }
  pose proof (marks_ok_mono topic _ (w_topic w1) _ _ Hgrow Hm) as Hm'. rewrite <- Htop, <- Hdb in Hm'.
  assert (delivers s r ++ sent ⊆ c_topic c') as Hsent'.
  { rewrite Htop. apply list_subseteq_app_iff_l. split; [|by etransitivity].
    destruct s; try apply list_subseteq_nil. destruct r as [[]|]; [|apply list_subseteq_nil].
    apply Publish_ok in Hrun. rewrite Hrun. intros x ->%list_elem_of_singleton. by left. }
  eapply tx_publishes; cbn [tx_script tx_writes tx_locks]; [exact Hk|exact Hsent'|exact Hes'|].
  destruct r as [a|err]; [|cbn; by rewrite app_nil_r].
  destruct s; try done; cbn [writes writes_of]; rewrite ?app_nil_r; try exact Hm'.
  - destruct Hal as (e & rec & He & -> & Hrec & Hin). cbn [exec] in Hrun. rewrite UUID_Scan_String.
    apply MarkPublished_run in Hrun as (e1 & He1 & -> & _). cbn [set_env w_db] in He1.
    pose proof (held_in_view _ _ _ _ _ Hes Hm He He1) as Hf.
    apply marks_ok_snoc; [done|]. rewrite Hdb. exists e1. split_and!; [done|by apply event_fixed_id|].
    left. eexists _, rec. split_and!; [done|by rewrite (event_record_fixed _ _ _ Hf)|]. rewrite Htop. auto.
  - destruct Hal as (e & He & ->). cbn [exec] in Hrun. rewrite UUID_Scan_String.
    apply MarkFailed_run in Hrun as (e1 & He1 & -> & Ha & _). cbn [set_env w_db] in He1.
    pose proof (held_in_view _ _ _ _ _ Hes Hm He He1) as Hf.
    apply marks_ok_snoc; [done|]. rewrite Hdb. exists e1. split_and!; [done|by apply event_fixed_id|].
    right. by eexists.
Qed.

(** The next state of a transaction that can be replayed. *)
Lemma replay_statement c t s k rq sc w w0 r w1 c' :
  publishes rq = false → script_of topic (c_topic c') rq = Some sc → Begin w = (Ok tt, w0) → robust (sCall s k) →
  (∀ db' log', agree (tx_locks t) (c_db c) db' →
     run sc (set_env db' log' w0) = run (sCall s k) (set_env (apply_writes (tx_writes t) db') log' (tx_world t))) →
  exec s (set_env (tx_view c t) (c_topic c) (tx_world t)) = (r, w1) → c_db c' = c_db c →
  tx_inv c' (mkTx (k r) (tx_writes t ++ writes s r) (tx_locks t ++ locks s r) w1).
Proof.
  intros Hrq Hsc Hb (Hrep & _ & Hk) Hrun Hexec Hdb. specialize (Hk r).
  destruct (tolerated s r) eqn:Htol; [|destruct Hk as [e He]; by eapply tx_failed].
  eapply tx_replays; cbn [tx_script tx_writes tx_locks tx_world]; [exact Hrq|exact Hsc|exact Hb|exact Hk|].
  rewrite Hdb. intros db' log' Ha. rewrite Hrun; [|by eapply agree_sub; [|exact Ha]; apply list_subseteq_app_l].
  cbn [run]. rewrite apply_writes_app.
  rewrite (exec_stable s r (tx_view c t) Hrep Htol _ _ _ Hexec (apply_writes (tx_writes t) db') log'); [done|].
  apply agree_writes. eapply agree_sub; [|exact Ha]. by apply list_subseteq_app_r.
Qed.

(** The records handed to Kafka after a statement. *)
Definition sent_after (s : stmt) (c : Cluster) : list KafkaRecord :=
  match s with SPublish topic key payload => mkKafkaRecord topic key payload :: c_sent c | _ => c_sent c end.

Definition sent_ok (c : Cluster) (recs : list KafkaRecord) : Prop :=
  ∀ rec, rec ∈ recs → ∃ e, outbox_events (c_db c) !! OutboxEvent_ID e = Some e ∧ event_record cfg e = Some rec.

(** What a statement adds to the log is a unit of the system; here one that
    adds nothing. *)
Lemma quiet_statement c s r w w1 txs :
  cluster_inv c → is_publish s = false → exec s w = (r, w1) → w_topic w = c_topic c →
  c_topic c ⊆ w_topic w1 ∧ rtc program_step (visible c) (visible (mkCluster (c_db c) (w_topic w1) (sent_after s c) txs)) ∧
  sent_ok c (sent_after s c).
Proof.
  intros Hi Hp Hrun Htop. apply exec_topic in Hrun; [|done]. rewrite Hrun, Htop.
  split; [done|]. split; [by apply same_visible|].
  intros rec Hin. apply (ci_sent _ Hi). by destruct s.
Qed.

(** And one that sends the record of an event. *)
Lemma publish_statement c tp key payload e e0 r w w1 txs :
  cluster_inv c → exec (SPublish tp key payload) w = (r, w1) → w_topic w = c_topic c →
  outbox_events (c_db c) !! OutboxEvent_ID e = Some e0 → event_fixed e0 = event_fixed e →
  event_record cfg e = Some (mkKafkaRecord tp key payload) →
  c_topic c ⊆ w_topic w1 ∧
  rtc program_step (visible c) (visible (mkCluster (c_db c) (w_topic w1) (mkKafkaRecord tp key payload :: c_sent c) txs)) ∧
  sent_ok c (mkKafkaRecord tp key payload :: c_sent c).
Proof.
  intros Hi Hrun Htop He0 Hf Hrec. rewrite <- (event_fixed_id _ _ Hf) in He0. rewrite <- (event_record_fixed _ _ _ Hf) in Hrec.
  assert (w_topic w1 = c_topic c ∨ w_topic w1 = mkKafkaRecord tp key payload :: c_topic c) as Hlog.
  { rewrite <- Htop. cbn in Hrun. destruct r as [[]|]; [right; by apply Publish_ok in Hrun|by apply Publish_err in Hrun]. }
  split_and!.
  - destruct Hlog as [-> | ->]; [done|intros x ?; by right].
  - destruct Hlog as [Hlog|Hlog]; [by apply same_visible|]. by eapply rtc_once, ps_late.
  - intros rec [->|Hin]%elem_of_cons; [by exists e0|by apply (ci_sent _ Hi)].
Qed.

(** A statement changes no table, and leaves the transaction with its locks. *)
Lemma statement_steps n t c c' :
  cluster_inv c → c_txs c !! n = Some t → statement n t c = Some c' →
  ∃ t', c_db c' = c_db c ∧ c_txs c' = <[n := t']> (c_txs c) ∧ c_topic c ⊆ c_topic c' ∧
    rtc program_step (visible c) (visible c') ∧ sent_ok c (c_sent c') ∧ tx_inv c' t' ∧ writes_locked t' ∧
    (∀ l, l ∈ tx_locks t' → l ∈ tx_locks t ∨ ∀ m u, m ≠ n → c_txs c !! m = Some u → l ∉ tx_locks u).
Proof.
  intros Hi Ht. unfold statement. destruct (tx_script t) as [|s k] eqn:Hsc; [done|].
  destruct (exec s _) as [r w1] eqn:Hrun. destruct (free _ _ _) eqn:Hfree; [|done]. fold (sent_after s c). intros [= <-].
  rewrite free_spec in Hfree. eexists. split; [done|]. split; [done|]. cbn [c_topic c_sent].
  set (t' := mkTx _ _ _ _). set (c' := mkCluster _ _ _ _).
  assert (writes_locked t') as Hwl.
  { intros wr l. cbn. intros [Hwr|Hwr]%elem_of_app Hl; apply elem_of_app; [left|right].
    - by eapply (ci_locked _ Hi).
    - by eapply writes_locks. }
  assert (∀ l, l ∈ tx_locks t' → l ∈ tx_locks t ∨ ∀ m u, m ≠ n → c_txs c !! m = Some u → l ∉ tx_locks u) as Hex.
  { intros l [Hl|Hl]%elem_of_app; [by left|right]. intros m u Hne Hu. by eapply Hfree. }
  destruct (ci_txs _ Hi _ _ Ht) as [e He|rq sc w w0 Hr Hs Hb Hrob Hrep|es sent Hsafe Hsent Hes Hm]; [congruence| |];
    rewrite Hsc in *.
  - assert (is_publish s = false) as Hp by (by destruct Hrob as [? _], s).
    destruct (quiet_statement c s r _ w1 (c_txs c') Hi Hp Hrun (reflexivity _)) as (Hlog & Hsteps & Hs').
    split_and!; [done..| |done|done]. eapply replay_statement; [exact Hr| |exact Hb|exact Hrob|exact Hrep|exact Hrun|done].
    subst c'. cbn [c_topic]. by rewrite (exec_topic _ _ _ _ Hp Hrun).
  - assert (c_topic c ⊆ w_topic w1 ∧ rtc program_step (visible c) (visible c') ∧ sent_ok c (sent_after s c)) as (Hlog & Hsteps & Hs').
    { destruct (is_publish s) eqn:Hp; [|by eapply quiet_statement].
      destruct s; try done. pose proof Hsafe as [(e & He & Hrec) _]. destruct (Hes _ He) as (_ & e0 & He0 & Hf).
      by eapply publish_statement. }
    split_and!; [done..| |done|done].
    eapply publisher_statement; [apply (ci_reachable _ Hi)|exact Hsafe|exact Hsent|exact Hes|exact Hm|exact Hrun|done|done|done].
Qed.

(** *** Statements outside transactions *)

(** Users and sessions are no one's lock. *)
Lemma agree_put_user L id u db : agree L db (set_users (<[id := u]> (users db)) db).
Proof. split; [split; cbn; auto; intros *; apply insert_grown|]. intros l _. destruct l; cbn; auto. Qed.

Lemma agree_put_token L ts db : agree L db (set_refresh_tokens ts db).
Proof. split; [by split|]. intros l _. destruct l; cbn; auto. Qed.

Lemma RegisterUser_agree L params w r w' : RegisterUser params w = (r, w') → agree L (w_db w) (w_db w').
Proof. intros [[-> _]|(u & _ & -> & _)]%RegisterUser_cases; [done|apply agree_put_user]. Qed.

Lemma store_CreateRefreshToken_agree L params w r w' :
  Store.CreateRefreshToken params w = (r, w') → agree L (w_db w) (w_db w').
Proof.
  unfold Store.CreateRefreshToken, bind, scan. destruct (UUID_Scan _) as [id|]; [|by intros [= _ <-]].
  unfold ret at 1. destruct (UUID_Scan _) as [u|]; [|by intros [= _ <-]].
  unfold ret, Sqlc.CreateRefreshToken. intros [[-> _]|(t & Hq & _)]%query_effect; [done|].
  cbn beta zeta in Hq. apply guarded_ok in Hq as [[= -> ->] _]. apply agree_put_token.
Qed.

Lemma store_RevokeRefreshToken_agree L id w r w' :
  Store.RevokeRefreshToken id w = (r, w') → agree L (w_db w) (w_db w').
Proof.
  unfold Store.RevokeRefreshToken, bind, scan. destruct (UUID_Scan _) as [u|]; [|by intros [= _ <-]].
  unfold ret, Sqlc.RevokeRefreshToken. intros [[-> _]|(t & Hq & _)]%query_effect; [done|].
  apply one_row_ok in Hq as (t0 & _ & Hq). destruct (RefreshToken_RevokedAt t0); [done|].
  injection Hq as _ <-. apply agree_put_token.
Qed.

(** *** Every action *)

(** Actions that open and move no transaction. *)
Lemma cluster_inv_same c c' :
  cluster_inv c → rtc program_step (visible c) (visible c') → c_sent c' = c_sent c →
  c_topic c ⊆ c_topic c' → (∀ L, agree L (c_db c) (c_db c')) → c_txs c' ⊆ c_txs c → cluster_inv c'.
Proof.
  intros Hi Hs Hsent Hlog Ha Htxs. pose proof (ci_reachable _ Hi) as Hr. split.
  - by apply (program_reachable topic _ _ Hs).
  - intros rec. rewrite Hsent. intros Hrec%(ci_sent _ Hi). eapply (sent_later (c_db c)); [done| |done].
    by apply (program_steps_rtc topic (visible c) (visible c')).
  - intros n t Ht. eapply lookup_weaken in Ht; [|exact Htxs].
    eapply tx_inv_later; [apply Ha|done|by eapply (ci_locked _ Hi)|by eapply (ci_txs _ Hi)].
  - intros n t Ht. eapply lookup_weaken in Ht; [|exact Htxs]. by eapply (ci_locked _ Hi).
  - intros n m t u l Hne Ht Hu. eapply lookup_weaken in Ht, Hu; [|exact Htxs..]. by eapply (ci_exclusive _ Hi).
Qed.

Lemma autocommit_steps {A} (m : M A) w c :
  silent m → (∀ W, rtc program_step W (m W).2) → (∀ W r W' L, m W = (r, W') → agree L (w_db W) (w_db W')) →
  cluster_inv c → cluster_inv (autocommit m w c) ∧ rtc program_step (visible c) (visible (autocommit m w c)).
Proof.
  intros Hsil Hstep Hag Hi. unfold autocommit. set (W := set_env (c_db c) (c_topic c) w).
  destruct (m W) as [r W'] eqn:Hrun. cbn [snd].
  destruct (silent_run _ _ _ _ Hsil Hrun) as [_ Htop].
  assert (rtc program_step (visible c) (visible (mkCluster (w_db W') (c_topic c) (c_sent c) (c_txs c)))) as Hs
    by (eapply steps_visible; [specialize (Hstep W); by rewrite Hrun in Hstep|reflexivity|reflexivity|reflexivity|exact Htop]).
  split; [|done]. eapply cluster_inv_same; [done|exact Hs|reflexivity|reflexivity|intros L|reflexivity].
  by apply (Hag W r W').
Qed.

(** One transaction is replaced by another or begun, without a change of the tables. *)
Lemma cluster_inv_insert c c' n t' :
  cluster_inv c → c_db c' = c_db c → c_topic c ⊆ c_topic c' → c_txs c' = <[n := t']> (c_txs c) →
  sent_ok c (c_sent c') → tx_inv c' t' → writes_locked t' →
  (∀ l, l ∈ tx_locks t' → ∀ m u, m ≠ n → c_txs c !! m = Some u → l ∉ tx_locks u) → cluster_inv c'.
Proof.
  intros Hi Hdb Hlog Htxs Hsent Hinv Hwl Hex. split.
  - rewrite Hdb. apply (ci_reachable _ Hi).
  - rewrite Hdb. exact Hsent.
  - intros m u. rewrite Htxs. intros [[_ <-]|[_ Hu]]%lookup_insert_Some; [done|].
    eapply (tx_inv_later c); [by rewrite Hdb|done|by eapply (ci_locked _ Hi)|by eapply (ci_txs _ Hi)].
  - intros m u. rewrite Htxs. intros [[_ <-]|[_ Hu]]%lookup_insert_Some; [done|]. by eapply (ci_locked _ Hi).
  - intros m1 m2 t u l Hne. rewrite Htxs.
    intros [[<- <-]|[? Ht]]%lookup_insert_Some [[<- <-]|[? Hu]]%lookup_insert_Some Hl; [done| | |].
    + by eapply Hex.
    + intros Hl'. by eapply Hex.
    + by eapply (ci_exclusive _ Hi m1 m2).
Qed.

(** The end of a transaction changes no row that another has locked. *)
Lemma commit_inv c c' n t :
  cluster_inv c → c_txs c !! n = Some t → rtc program_step (visible c) (visible c') →
  (c_db c' = c_db c ∨ c_db c' = tx_view c t) → c_topic c' = c_topic c → c_sent c' = c_sent c →
  c_txs c' = delete n (c_txs c) → cluster_inv c'.
Proof.
  intros Hi Ht Hs Hdb Htop Hsent Htxs. pose proof (ci_reachable _ Hi) as Hr.
  assert (∀ m u, c_txs c' !! m = Some u → m ≠ n ∧ c_txs c !! m = Some u) as Hothers
    by (intros m u; rewrite Htxs; intros [? ?]%lookup_delete_Some; done).
  split.
  - by apply (program_reachable topic _ _ Hs).
  - intros rec. rewrite Hsent. intros Hrec%(ci_sent _ Hi). eapply (sent_later (c_db c)); [done| |done].
    by apply (program_steps_rtc topic (visible c) (visible c')).
  - intros m u [Hne Hu]%Hothers. eapply (tx_inv_later c); [|by rewrite Htop|by eapply (ci_locked _ Hi)|by eapply (ci_txs _ Hi)].
    destruct Hdb as [->| ->]; [done|]. apply agree_foreign. intros wr l Hwr Hl Hin.
    eapply (ci_exclusive _ Hi m n); [done|exact Hu|exact Ht|exact Hin|]. by eapply (ci_locked _ Hi).
  - intros m u [_ Hu]%Hothers. by eapply (ci_locked _ Hi).
  - intros m1 m2 t1 t2 l Hne [_ H1]%Hothers [_ H2]%Hothers. by eapply (ci_exclusive _ Hi m1 m2).
Qed.

(** Every action keeps the invariant and is units of the system. *)
Lemma act_steps a c c' :
  cluster_inv c → act topic a c = Some c' → cluster_inv c' ∧ rtc program_step (visible c) (visible c').
Proof.
  intros Hi. destruct a as [n w r|n|n|n|rec|w params|w tid uid token x|w id]; cbn [act].
  - destruct (c_txs c !! n) eqn:Hn; [done|]. destruct (script_of topic (c_topic c) r) as [sc|] eqn:Hsc; [|done].
    destruct (Begin w) as [[[]|] w0] eqn:Hb; [|done]. intros [= <-]. split; [|done].
    eapply cluster_inv_insert; [done|done|done|done|exact (ci_sent _ Hi)|..]; [|intros ? ?; cbn; set_solver..].
    destruct (publishes r) eqn:Hp.
    + destruct r as [| | | |batch]; try done. injection Hsc as <-.
      eapply (tx_publishes _ _ [] []); [apply publish_batch_safe|by apply list_subseteq_nil|cbn; set_solver|done].
    + eapply tx_replays; [done|exact Hsc|exact Hb|by eapply robust_script_of|done].
  - intros (t & Ht & Hst)%bind_Some. destruct (statement_steps _ _ _ _ Hi Ht Hst)
      as (t' & Hdb & Htxs & Hlog & Hs & Hsent & Hinv & Hwl & Hex).
    split; [|exact Hs]. eapply cluster_inv_insert; [done..|]. intros l Hl m u Hne Hu.
    destruct (Hex _ Hl) as [Hl'|Hex']; [|by eapply Hex']. eapply (ci_exclusive _ Hi n m); [done|exact Ht|exact Hu|done].
  - intros (t & Ht & Hf)%bind_Some. destruct (finish_steps _ _ _ _ Hi Ht Hf) as (Hs & Hdb & Htop & Hsent & Htxs).
    split; [|exact Hs]. by eapply commit_inv.
  - intros [= <-]. split; [|done]. eapply cluster_inv_same; [done..|by apply delete_subseteq].
  - case_bool_decide as Hin; [|done]. intros [= <-]. destruct (ci_sent _ Hi _ Hin) as (e & He & Hrec).
    assert (rtc program_step (visible c) (visible (mkCluster (c_db c) (rec :: c_topic c) (c_sent c) (c_txs c)))) as Hs
      by (apply rtc_once; by eapply ps_late).
    split; [|exact Hs]. eapply cluster_inv_same; [done|exact Hs|done|intros x ?; by right|done..].
  - intros [= <-]. apply autocommit_steps; [apply silent_RegisterUser|apply conforms_RegisterUser
      |intros; by eapply RegisterUser_agree|done].
  - intros [= <-]. apply autocommit_steps; [unfold Store.CreateRefreshToken, Sqlc.CreateRefreshToken; silent_store
      |apply conforms_unit; intros; by eapply ps_login|intros; by eapply store_CreateRefreshToken_agree|done].
  - intros [= <-]. apply autocommit_steps; [unfold Store.RevokeRefreshToken, Sqlc.RevokeRefreshToken; silent_store
      |apply conforms_unit; intros; by eapply ps_logout|intros; by eapply store_RevokeRefreshToken_agree|done].
Qed.

Lemma cluster_inv_init : cluster_inv c_init.
Proof. split; [by unfold reachable|cbn; set_solver|..]; intros *; cbn; by rewrite ?lookup_empty. Qed.

Lemma act_all_steps acts c c' :
  cluster_inv c → act_all topic acts c = Some c' → cluster_inv c' ∧ rtc program_step (visible c) (visible c').
Proof.
  revert c. induction acts as [|a acts IH]; intros c Hi; [by intros [= <-]|].
  intros (c1 & Ha & Hacts)%bind_Some. destruct (act_steps _ _ _ Hi Ha) as [Hi1 Hs1].
  destruct (IH _ Hi1 Hacts) as [Hi' Hs']. split; [done|]. by etransitivity.
Qed.

(** C2. Interleaving changes nothing: whatever transactions the API servers,
    the publishers and the consumers open at the same time, in whatever order
    their statements run, fail, wait, commit or are rolled back, the committed
    tables and the log are those of a run of the system in which every
    transaction is one step.  The locks of [SELECT ... FOR UPDATE], the row
    locks and the unique keys are what this rests on. *)
Theorem interleaving_serializes c :
  interleaved topic c → ∃ w, program_run topic w ∧ w_db w = c_db c ∧ w_topic w = c_topic c.
Proof.
  intros (acts & Hacts). destruct (act_all_steps _ _ _ cluster_inv_init Hacts) as [_ Hs].
  exists (visible c). split_and!; [|done..]. by exists (visible c_init).
Qed.
End simulation.
