(* ===== verification/Deadlock.v ===== *)
(** * No deadlock

    Transactions that wait for each other's locks in a circle are stopped by
    PostgreSQL.  The transactions of this program never do: a payment or a
    cancellation takes the lock of its order before any lock that another
    transaction can want, and the unique key of an idempotency record is
    taken by the last statement.  So whoever waits, waits for a transaction
    that can go on, or for one that waits for a transaction that can
    commit. *)

From S2P Require Import Prelude GoStrings Sha256 Json Models World.
From S2P Require Import Sqlc.
From S2P Require Import Store.
From S2P Require Import OrderService.
From S2P Require Import Spec OrderRefine Evolution Invariants Bookkeeping.
From S2P Require Import Auth.
From S2P Require Import Publisher.
From S2P Require Import Consumer.
From S2P Require Import Scripts Locks System Interleaving Serializability.

(** ** The order in which locks are taken *)

(** Rows that transactions of different requests want: orders, and records
    of processed events. *)
Definition is_row (l : lock) : bool := match l with LOrder _ | LProcessed _ _ => true | _ => false end.
Definition is_user_key (l : lock) : bool := match l with LUserKey _ _ => true | _ => false end.

(** The locks of rows with a new UUID, and of the events of a claim, which
    skips what is locked. *)
Definition uncontended `{External} (s : stmt) (r : result (answer s)) : list lock :=
  match s with
  | SCreateOrder _ | SCreatePayment _ | SCreateOutboxEvent _ | SCreateNotificationDelivery _ | SClaimOutboxEvents _ => locks s r
  | SCreateIdempotencyKey _ => base.filter (λ l, is_user_key l = false) (locks s r)
  | _ => []
  end.

(** A lock that a transaction with the locks [L] may have to wait for. *)
Definition waitable {A} (L : list lock) (next : script A) (l : lock) : Prop :=
  (is_row l = true ∧ ∀ l', l' ∈ L → is_row l' = false) ∨ (is_user_key l = true ∧ ∃ r, next = sDone r).

Section deadlock.
Context `{External} `{!ExternalLaws _} `{AuthExternal} `{P : Producer} `{!ProducerLaws P}.
Context (topic : string).

(** What is true of every answer: the order that was asked for. *)
Definition asked (s : stmt) : result (answer s) → Prop :=
  match s return result (answer s) → Prop with
  | SGetOrderForUpdate id => λ r, match r with Ok o => UUID_Scan id = Some (Order_ID o) | Err _ => True end
  | _ => λ _, True
  end.

(** A script whose transaction holds [L]. *)
Fixpoint orderly {A} (L : list lock) (sc : script A) : Prop :=
  match sc with
  | sDone _ => True
  | sCall s k => ∀ r, asked s r →
      (∀ l, l ∈ locks s r → l ∈ L ∨ l ∈ uncontended s r ∨ waitable L (k r) l) ∧
      (∀ l, l ∈ locks s r → is_user_key l = true → ∃ r', k r = sDone r') ∧
      orderly (L ++ locks s r) (k r)
  end.

Lemma orderly_void {A} L (m : script A) : orderly L m → orderly L (sVoid m).
Proof.
  revert L. unfold sVoid. induction m as [[a|e]|s k IH]; intros L; [done..|]. intros Hm r Ha. destruct (Hm r Ha) as (Hl & Hk & Ho).
  assert (∀ r', k r = sDone r' → ∃ r'', sBind (k r) (λ _, sRet tt) = sDone r'') as Hdone
    by (intros r' ->; destruct r'; by eexists).
  split_and!.
  - intros l Hin. destruct (Hl l Hin) as [?|[?|[?|[? [r' Hr]]]]]; [by left|by right; left|by do 2 right; left|].
    do 2 right. right. eauto.
  - intros l Hin Hu. destruct (Hk l Hin Hu) as [r' Hr]. eauto.
  - by apply IH.
Qed.

(** A call whose locks are new or held, and no unique key. *)
Lemma orderly_call {B} L s (f : answer s → script B) :
  (∀ a l, asked s (Ok a) → l ∈ locks s (Ok a) → is_user_key l = false ∧ (l ∈ L ∨ l ∈ uncontended s (Ok a))) →
  (∀ a, asked s (Ok a) → orderly (L ++ locks s (Ok a)) (f a)) → orderly L (sBind (call s) f).
Proof.
  intros Hl Hf [a|e] Ha; cbn [sBind]; [|by split_and!; [intros l Hin; cbn in Hin; set_solver..|]]. split_and!.
  - intros l Hin. destruct (Hl a l Ha Hin) as [_ [?|?]]; auto.
  - intros l Hin. destruct (Hl a l Ha Hin) as [-> _]. done.
  - by apply Hf.
Qed.

(** The unique key is taken last. *)
Lemma orderly_key {B} L params (f : IdempotencyKey → script B) :
  (∀ k, ∃ r, f k = sDone r) → orderly L (sBind (call (SCreateIdempotencyKey params)) f).
Proof.
  intros Hf [k|e] _; cbn [sBind]; [|by split_and!; [intros l Hin; cbn in Hin; set_solver..|]]. destruct (Hf k) as [r ->].
  split_and!; [|eauto|done]. intros l Hin. destruct (is_user_key l) eqn:Hu; [do 2 right; right; eauto|].
  right. left. by apply list_elem_of_filter.
Qed.

(** The order is locked first. *)
Lemma orderly_for_update {B} id (f : result Order → script B) :
  (∀ u o, UUID_Scan id = Some u → Order_ID o = u → orderly [LOrder u] (f (Ok o))) → (∀ e, orderly [] (f (Err e))) →
  orderly [] (sBind (attempt (SGetOrderForUpdate id)) f).
Proof.
  intros Hok Herr [o|e] Ha; cbn [sBind]; [|split_and!; [intros l Hin; cbn in Hin; set_solver..|apply Herr]].
  cbn in Ha. cbn. rewrite Ha. cbn. split_and!; [|intros l ->%list_elem_of_singleton; done|by apply Hok].
  intros l ->%list_elem_of_singleton. do 2 right. left. split; [done|]. set_solver.
Qed.

(** The calls of the scripts. *)
Ltac new_rows := let l := fresh "l" in let Hl := fresh "Hl" in
  intros ? l _ Hl; split; [|by right]; cbn in Hl;
  first [by apply not_elem_of_nil in Hl|apply list_elem_of_singleton in Hl; by subst l].

Ltac orderly_script :=
  repeat match goal with
  | |- orderly _ (sBind (call (SCreateIdempotencyKey _)) _) => apply orderly_key; by eexists
  | |- orderly _ (sBind (call (SUpdateOrderStatus _ _)) _) => fail 1
  | |- orderly _ (sBind (call _) _) => apply orderly_call; [new_rows|intros ? _]
  | |- orderly _ (sBind (sDone ?r) _) => destruct r; [cbn [sBind]|done]
  | |- orderly _ (match ?x with _ => _ end) => destruct x
  | |- orderly _ _ => done
  end.

(** The status of an order that is locked. *)
Lemma orderly_update {B} L u status (f : Order → script B) :
  LOrder u ∈ L → (∀ o L', orderly L' (f o)) → orderly L (sBind (call (SUpdateOrderStatus (UUID_String u) status)) f).
Proof.
  intros Hin Hf. apply orderly_call; [|intros; apply Hf]. intros o l _ Hl. cbn in Hl. rewrite UUID_Scan_String in Hl.
  apply list_elem_of_singleton in Hl as ->. auto.
Qed.

Lemma orderly_create params key currency description hash :
  orderly [] (create_order_script params key currency description hash).
Proof. unfold create_order_script. orderly_script. Qed.

Lemma orderly_pay params key hash : orderly [] (pay_order_script params key hash).
Proof.
  unfold pay_order_script. apply orderly_for_update; [|done]. intros u o Hid <-. orderly_script.
  apply orderly_update; [set_solver|]. intros o' L'. orderly_script.
Qed.

Lemma orderly_cancel params : orderly [] (cancel_order_script params).
Proof.
  unfold cancel_order_script. apply orderly_for_update; [|done]. intros u o Hid <-. orderly_script.
  apply orderly_update; [set_solver|]. intros o' L'. orderly_script.
Qed.

Lemma orderly_handle messageID userID : orderly [] (handle_script messageID userID).
Proof.
  unfold handle_script. intros [pe|e] _; cbn [sBind].
  - split_and!; [| |orderly_script]; intros l Hl; cbn in Hl; apply list_elem_of_singleton in Hl as ->; [|done].
    do 2 right. left. split; [done|]. set_solver.
  - split_and!; [intros l Hin; cbn in Hin; set_solver..|orderly_script].
Qed.

(** The events that a publisher marks are those it has claimed. *)
Lemma orderly_plain {B} L s (k : result (answer s) → script B) :
  (∀ r l, l ∈ locks s r → is_user_key l = false ∧ (l ∈ L ∨ l ∈ uncontended s r)) →
  (∀ r L', L ⊆ L' → orderly L' (k r)) → orderly L (sCall s k).
Proof.
  intros Hl Hk r _. split_and!; [| |apply Hk; by apply list_subseteq_app_l].
  - intros l Hin. destruct (Hl r l Hin) as [_ [?|?]]; auto.
  - intros l Hin. destruct (Hl r l Hin) as [-> _]. done.
Qed.

Lemma no_locks s r : (∀ a, locks s (Ok a) = []) → locks s r = [].
Proof. by destruct r. Qed.

Lemma mark_locks (L : list lock) s u r :
  LEvent u ∈ L → (∀ e, locks s (Ok e) = [LEvent u]) →
  ∀ l, l ∈ locks s r → is_user_key l = false ∧ (l ∈ L ∨ l ∈ uncontended s r).
Proof.
  intros Hu Hs l. destruct r as [a|e]; [rewrite Hs; intros ->%list_elem_of_singleton; auto|].
  cbn. by intros ?%not_elem_of_nil.
Qed.

Ltac no_locks_here := let r := fresh "r" in let l := fresh "l" in
  intros r l; rewrite no_locks by done; by intros ?%not_elem_of_nil.

Lemma orderly_publish_event {B} cfg e L (f : unit → script B) :
  LEvent (OutboxEvent_ID e) ∈ L → (∀ L', L ⊆ L' → orderly L' (f tt)) →
  orderly L (sBind (publish_event_script cfg e) f).
Proof.
  intros He Hf. unfold publish_event_script. destruct (MarshalMessage (event_message e)) as [msg|]; [|done].
  cbn [sBind attempt call]. apply orderly_plain; [no_locks_here|].
  intros [[]|err] L1 H1; cbn [sBind call]; (apply orderly_plain;
    [intros r; apply (mark_locks _ _ (OutboxEvent_ID e)); [by apply H1|intros e'; cbn; by rewrite UUID_Scan_String]|]);
    (intros [e'|?] L2 H2; cbn [sBind call]; [|done]); (apply orderly_plain; [no_locks_here|]);
    (intros [[]|?] L3 H3; cbn [sBind]; [|done]); apply Hf; by do 2 (etransitivity; [eassumption|]).
Qed.

Lemma orderly_publish_events cfg events L :
  (∀ e, e ∈ events → LEvent (OutboxEvent_ID e) ∈ L) → orderly L (publish_events_script cfg events).
Proof.
  revert L. induction events as [|e events IH]; intros L Hes; [done|]. cbn [publish_events_script].
  apply orderly_publish_event; [apply Hes; by left|]. intros L' Hsub. apply IH. intros x Hx. apply Hsub, Hes. by right.
Qed.

Lemma orderly_publish cfg : orderly [] (publish_batch_script cfg).
Proof.
  unfold publish_batch_script. apply orderly_call.
  - intros es l _ Hl. split; [|by right]. cbn in Hl. rewrite app_nil_r in Hl.
    by apply list_elem_of_fmap in Hl as (e & -> & _).
  - intros es _. apply orderly_publish_events. intros e He. cbn. rewrite app_nil_r. apply list_elem_of_fmap. by exists e.
Qed.

Lemma orderly_script_of log r sc : script_of topic log r = Some sc → orderly [] sc.
Proof.
  destruct r as [params|params|params|rec|n]; cbn [script_of]; intros Hsc.
  - destruct (create_valid params); [|done]. injection Hsc as <-. apply orderly_void, orderly_create.
  - destruct (pay_valid params); [|done]. injection Hsc as <-. apply orderly_void, orderly_pay.
  - injection Hsc as <-. apply orderly_void, orderly_cancel.
  - case_bool_decide; [|done]. destruct (check_message _ _) as [[m u]|]; [|done]. injection Hsc as <-.
    apply orderly_void, orderly_handle.
  - injection Hsc as <-. apply orderly_publish.
Qed.

(** ** Open transactions keep the order *)

Definition orders_keyed (db : DB) : Prop := ∀ id o, orders db !! id = Some o → Order_ID o = id.

Definition own_key (wr : write) : Prop := match wr with WOrder id o => Order_ID o = id | _ => True end.

Record tx_orderly (t : Tx) : Prop := {
  to_script : orderly (tx_locks t) (tx_script t);
  to_last l : l ∈ tx_locks t → is_user_key l = true → ∃ r, tx_script t = sDone r;
  to_writes wr : wr ∈ tx_writes t → own_key wr
}.

Lemma orders_keyed_writes ws db :
  orders_keyed db → (∀ wr, wr ∈ ws → own_key wr) → orders_keyed (apply_writes ws db).
Proof.
  revert db. induction ws as [|wr ws IH]; intros db Hk Hws; [done|]. cbn [apply_writes].
  apply IH; [|intros; apply Hws; by right]. specialize (Hws wr (list_elem_of_here _ _)).
  destruct wr; cbn in *; try exact Hk. intros id' o'. cbn. intros [[<- <-]|[_ ?]]%lookup_insert_Some; [done|by apply Hk].
Qed.

Lemma exec_asked s w r w1 : orders_keyed (w_db w) → exec s w = (r, w1) → asked s r.
Proof.
  intros Hk Hrun. destruct s; try done. destruct r as [o|e]; [|done]. cbn in *.
  store_inv Hrun. apply Sqlc.GetOrderForUpdate_ok in Hrun as [Ho _]. by rewrite (Hk _ _ Ho).
Qed.

Lemma exec_own_key s w r w1 : orders_keyed (w_db w) → exec s w = (r, w1) → ∀ wr, wr ∈ writes s r → own_key wr.
Proof.
  intros Hk Hrun wr Hwr. destruct r as [a|e]; [|by apply not_elem_of_nil in Hwr].
  destruct s; cbn in Hwr; try (destruct (UUID_Scan id) as [u|] eqn:Hu); cbn in Hwr;
    try (by apply not_elem_of_nil in Hwr); apply list_elem_of_singleton in Hwr as ->; try done.
  cbn in Hrun |- *. store_inv Hrun. apply Sqlc.UpdateOrderStatus_ok in Hrun as (o0 & Ho0 & -> & _). cbn in *.
  simplify_eq. by apply Hk.
Qed.

Lemma act_orderly a c c' :
  cluster_inv topic c → (∀ n t, c_txs c !! n = Some t → tx_orderly t) → act topic a c = Some c' →
  ∀ n t, c_txs c' !! n = Some t → tx_orderly t.
Proof.
  intros Hi Hall Hact n t Ht.
  assert (c_txs c' ⊆ c_txs c → tx_orderly t) as Hsame by (intros Hsub; eapply Hall, lookup_weaken; [exact Ht|exact Hsub]).
  destruct a as [m w r|m|m|m|rec|w params|w tid uid token x|w id]; cbn [act] in Hact.
  - destruct (c_txs c !! m); [done|]. destruct (script_of topic (c_topic c) r) as [sc|] eqn:Hsc; [|done].
    destruct (Begin w) as [[[]|] w0]; [|done]. injection Hact as <-.
    cbn in Ht. apply lookup_insert_Some in Ht as [[_ <-]|[_ Ht]]; [|by eapply Hall].
    split; cbn; [by eapply orderly_script_of|set_solver..].
  - apply bind_Some in Hact as (t0 & Ht0 & Hact). unfold statement in Hact.
    destruct (tx_script t0) as [|s k] eqn:Hsc; [done|]. destruct (exec s _) as [r w1] eqn:Hrun.
    destruct (free _ _ _); [|done]. injection Hact as <-. cbn in Ht. apply lookup_insert_Some in Ht as [[_ <-]|[_ Ht]]; [|by eapply Hall].
    destruct (Hall _ _ Ht0) as [Ho Hlast Hw]. rewrite Hsc in Ho, Hlast.
    assert (orders_keyed (w_db (set_env (tx_view c t0) (c_topic c) (tx_world t0)))) as Hk.
    { apply orders_keyed_writes; [|done]. intros id o. apply (keyed_orders _ (reachable_keyed _ (ci_reachable _ _ Hi))). }
    destruct (Ho r (exec_asked _ _ _ _ Hk Hrun)) as (_ & Hkey & Hnext).
    split; cbn; [exact Hnext| |].
    + intros l [Hl|Hl]%elem_of_app Hu; [destruct (Hlast l Hl Hu) as [? ?]; done|]. by eapply Hkey.
    + intros wr [Hwr|Hwr]%elem_of_app; [by apply Hw|]. by eapply exec_own_key.
  - apply bind_Some in Hact as (t0 & Ht0 & Hact). apply Hsame. unfold finish in Hact.
    destruct (tx_script t0) as [[[]|]|]; [| |done]; [destruct (Commit _ _)|]; injection Hact as <-; apply delete_subseteq.
  - injection Hact as <-. apply Hsame, delete_subseteq.
  - destruct (bool_decide _); [|done]. injection Hact as <-. by apply Hsame.
  - injection Hact as <-. by apply Hsame.
  - injection Hact as <-. by apply Hsame.
  - injection Hact as <-. by apply Hsame.
Qed.

(** ** Who waits for whom *)

(** The next statement of the [n]-th transaction, and its answer now. *)
Definition next_answer (c : Cluster) (n : nat) (s : stmt) (k : result (answer s) → script unit) (r : result (answer s)) : Prop :=
  ∃ t, c_txs c !! n = Some t ∧ tx_script t = sCall s k ∧
    (exec s (set_env (tx_view c t) (c_topic c) (tx_world t))).1 = r.

(** It can run a statement, or end. *)
Definition can_go_on (c : Cluster) (n : nat) : Prop :=
  is_Some (act topic (AStatement n) c) ∨ is_Some (act topic (ACommit n) c).

(** Its next statement needs a lock that the [m]-th has. *)
Definition waits_for (c : Cluster) (n m : nat) : Prop :=
  ∃ s k r l u, next_answer c n s k r ∧ l ∈ locks s r ∧ m ≠ n ∧ c_txs c !! m = Some u ∧ l ∈ tx_locks u.

(** The UUIDs that the open transactions generate are new, and their claims
    skip the events that are locked. *)
Definition fresh_ids (c : Cluster) : Prop :=
  ∀ n s k r l, next_answer c n s k r → l ∈ uncontended s r → l ∉ held n (c_txs c).

Definition fresh_ids_b (c : Cluster) : bool :=
  forallb (λ nt, match tx_script nt.2 with
    | sDone _ => true
    | sCall s _ =>
      free (uncontended s (exec s (set_env (tx_view c nt.2) (c_topic c) (tx_world nt.2))).1) nt.1 (c_txs c)
    end) (map_to_list (c_txs c)).

Lemma fresh_ids_spec c : fresh_ids_b c = true → fresh_ids c.
Proof.
  unfold fresh_ids_b. rewrite forallb_forall. intros Hall n s k r l (t & Ht & Hsc & <-) Hl.
  assert (In (n, t) (map_to_list (c_txs c))) as Hin by (by apply list_elem_of_In, elem_of_map_to_list).
  specialize (Hall _ Hin). cbn in Hall. rewrite Hsc in Hall. rewrite free_spec in Hall.
  intros (m & u & Hne & Hu & Hlu)%elem_of_held. by eapply Hall.
Qed.

Lemma go_on_or_wait c n t :
  c_txs c !! n = Some t →
  can_go_on c n ∨ ∃ s k r l m u, tx_script t = sCall s k ∧ next_answer c n s k r ∧ l ∈ locks s r ∧
    m ≠ n ∧ c_txs c !! m = Some u ∧ l ∈ tx_locks u.
Proof.
  intros Ht. unfold can_go_on. cbn [act]. rewrite Ht. cbn. unfold statement, finish.
  destruct (tx_script t) as [[u|e]|s k] eqn:Hsc.
  - left. right. destruct (Commit _ _). by eexists.
  - left. right. by eexists.
  - destruct (exec s _) as [r w1] eqn:Hrun. destruct (free (locks s r) n (c_txs c)) eqn:Hfree; [left; left; by eexists|].
    right. apply free_false in Hfree as (l & Hl & (m & u & Hne & Hu & Hin)%elem_of_held).
    exists s, k, r, l, m, u. split_and!; try done. exists t. rewrite Hrun. done.
Qed.

(** Open transactions of an interleaved run: exclusive locks, taken in order. *)
Lemma act_all_orderly acts c c' :
  cluster_inv topic c → (∀ n t, c_txs c !! n = Some t → tx_orderly t) → act_all topic acts c = Some c' →
  cluster_inv topic c' ∧ ∀ n t, c_txs c' !! n = Some t → tx_orderly t.
Proof.
  revert c. induction acts as [|a acts IH]; intros c Hi Ho; [by intros [= <-]|].
  intros (c1 & Ha & Hacts)%bind_Some. apply (IH c1); [by eapply act_steps|by eapply act_orderly|done].
Qed.

Lemma init_orderly n t : c_txs c_init !! n = Some t → tx_orderly t.
Proof. cbn. by rewrite lookup_empty. Qed.

(** What a transaction waits for is an order or an event, while it has none,
    or the key that it takes last. *)
Lemma wait_kind c n t s k r l m u :
  cluster_inv topic c → (∀ n t, c_txs c !! n = Some t → tx_orderly t) → fresh_ids c →
  c_txs c !! n = Some t → tx_script t = sCall s k → next_answer c n s k r → l ∈ locks s r →
  m ≠ n → c_txs c !! m = Some u → l ∈ tx_locks u → waitable (tx_locks t) (k r) l.
Proof.
  intros Hi Ho Hf Ht Hsc Hn Hl Hne Hu Hin. pose proof (to_script _ (Ho _ _ Ht)) as Hord. rewrite Hsc in Hord.
  assert (asked s r) as Hasked.
  { destruct Hn as (t' & Ht' & Hsc' & Hr). simplify_eq. destruct (exec s _) as [r' w1] eqn:Hrun. cbn.
    eapply exec_asked; [|exact Hrun]. apply orders_keyed_writes; [|by apply to_writes, (Ho _ _ Ht)].
    intros id o. apply (keyed_orders _ (reachable_keyed _ (ci_reachable _ _ Hi))). }
  destruct (Hord r Hasked) as [Hlk _]. destruct (Hlk l Hl) as [Hown|[Hnew|Hw]]; [| |exact Hw].
  - exfalso. by eapply (ci_exclusive _ _ Hi n m).
  - exfalso. apply (Hf _ _ _ _ _ Hn Hnew). apply elem_of_held. eauto.
Qed.

Lemma done_goes_on c n t r : c_txs c !! n = Some t → tx_script t = sDone r → can_go_on c n.
Proof.
  intros Ht Hsc. right. cbn [act]. rewrite Ht. cbn. unfold finish. rewrite Hsc.
  destruct r as [[]|e]; [destruct (Commit _ _)|]; by eexists.
Qed.

(** C4. No deadlock: in every interleaved run, as long as generated UUIDs are
    new and claims skip locked events, each open transaction can go on, or
    waits for one that can, or waits for one that waits for one that can. *)
Theorem no_deadlock c n t :
  interleaved topic c → fresh_ids c → c_txs c !! n = Some t →
  can_go_on c n ∨ ∃ m, waits_for c n m ∧ (can_go_on c m ∨ ∃ m', waits_for c m m' ∧ can_go_on c m').
Proof.
  intros (acts & Hacts) Hf Ht.
  destruct (act_all_orderly _ _ _ (cluster_inv_init topic) init_orderly Hacts) as [Hi Ho].
  destruct (go_on_or_wait c n t Ht) as [?|(s & k & r & l & m & u & Hsc & Hn & Hl & Hne & Hu & Hin)]; [by left|right].
  exists m. split; [by exists s, k, r, l, u|].
  pose proof (wait_kind _ _ _ _ _ _ _ _ _ Hi Ho Hf Ht Hsc Hn Hl Hne Hu Hin) as Hw.
  destruct (is_user_key l) eqn:Hkey.
  { left. destruct (to_last _ (Ho _ _ Hu) l Hin Hkey) as [r' Hr']. by eapply done_goes_on. }
  destruct Hw as [[Hrow _]|[? _]]; [|congruence].
  destruct (go_on_or_wait c m u Hu) as [?|(s' & k' & r' & l' & m' & u' & Hsc' & Hn' & Hl' & Hne' & Hu' & Hin')]; [by left|right].
  exists m'. split; [by exists s', k', r', l', u'|].
  destruct (wait_kind _ _ _ _ _ _ _ _ _ Hi Ho Hf Hu Hsc' Hn' Hl' Hne' Hu' Hin') as [[_ Hnone]|[Hkey' _]].
  - by rewrite (Hnone _ Hin) in Hrow.
  - destruct (to_last _ (Ho _ _ Hu') l' Hin' Hkey') as [rd Hrd]. by eapply done_goes_on.
Qed.
End deadlock.
