(* ===== verification/Contention.v ===== *)
(** * Requests with one idempotency key at the same time

    Both have looked the key up before the record of the other was there.  The
    second waits when it comes to insert its own record, and fails when the
    first has committed. *)

From S2P Require Import Prelude GoStrings Sha256 Json Models World.
From S2P Require Import Sqlc.
From S2P Require Import Store.
From S2P Require Import OrderService.
From S2P Require Import Spec OrderRefine Evolution Invariants Bookkeeping.
From S2P Require Import Auth.
From S2P Require Import Publisher.
From S2P Require Import Consumer.
From S2P Require Import Scripts Locks System Interleaving Serializability Deadlock.

Section contention.
Context `{External} `{!ExternalLaws _} `{AuthExternal} `{P : Producer} `{!ProducerLaws P}.
Context (topic : string).

Lemma apply_writes_key ws db kid k :
  idempotency_keys (apply_writes ws db) !! kid = Some k →
  WIdempotencyKey kid k ∈ ws ∨ idempotency_keys db !! kid = Some k.
Proof.
  revert db. induction ws as [|wr ws IH]; intros db Hl; [by right|]. apply IH in Hl as [?|Hl]; [left; by right|].
  destruct wr; cbn in Hl; try (by right). apply lookup_insert_Some in Hl as [[-> ->]|[_ Hl]]; [left; by left|by right].
Qed.

Lemma apply_writes_key_other ws db kid k :
  (∀ k', WIdempotencyKey kid k' ∉ ws) → idempotency_keys db !! kid = Some k →
  idempotency_keys (apply_writes ws db) !! kid = Some k.
Proof.
  revert db. induction ws as [|wr ws IH]; intros db Hno Hl; [done|]. apply IH; [set_solver|].
  destruct wr; cbn; try done. rewrite lookup_insert_ne; [done|]. intros ->. by destruct (Hno k0); left.
Qed.

(** The row that the INSERT of a record makes. *)
Definition insert_key (params : Store.CreateIdempotencyKeyParams) (id user : UUID) (resource : option UUID) :=
  Sqlc.mkCreateIdempotencyKeyParams id user (sCreateIdempotencyKey_Key params) (sCreateIdempotencyKey_Method params)
    (sCreateIdempotencyKey_Path params) (sCreateIdempotencyKey_RequestHash params)
    (sCreateIdempotencyKey_ResponseBody params) (int4 (sCreateIdempotencyKey_StatusCode params))
    (text (sCreateIdempotencyKey_ResourceType params)) resource.

(** An INSERT that could be made fails once there is a record with its user and key. *)
Lemma CreateIdempotencyKey_taken params w1 k1 w1' w2 id k :
  Store.CreateIdempotencyKey params w1 = (Ok k1, w1') → w_tick w2 = w_tick w1 →
  idempotency_keys (w_db w2) !! id = Some k →
  IdempotencyKey_UserID k1 = IdempotencyKey_UserID k → IdempotencyKey_Key k1 = IdempotencyKey_Key k →
  ∃ w2', Store.CreateIdempotencyKey params w2 = (Err (PgError "23505"), w2') ∧ w_topic w2' = w_topic w2.
Proof.
  intros H1 Htick Hk Hu Hkey. unfold Store.CreateIdempotencyKey, bind, scan, ret in *.
  destruct (UUID_Scan (sCreateIdempotencyKey_ID params)) as [kid|]; [|done].
  destruct (UUID_Scan (sCreateIdempotencyKey_UserID params)) as [u|]; [|done].
  assert (∀ res, Sqlc.CreateIdempotencyKey (insert_key params kid u res) w1 = (Ok k1, w1') →
    ∃ w2', Sqlc.CreateIdempotencyKey (insert_key params kid u res) w2 = (Err (PgError "23505"), w2') ∧
      w_topic w2' = w_topic w2) as Hins.
  2: { destruct (bool_decide _); [by apply Hins|]. destruct (UUID_Scan _); [by apply Hins|done]. }
  clear H1. intros res. unfold Sqlc.CreateIdempotencyKey, query. rewrite Htick.
  destruct (fault (w_tick w1)); cbn -[guarded lookup_by]; [|done|by destruct (jsonb _); [destruct (guarded _ _) as [[]|]|]].
  destruct (jsonb _) as [body|]; [|done]. destruct (guarded _ _) as [[a db]|e] eqn:Hg; [|done]. intros [= -> _].
  apply guarded_ok in Hg as [[= -> _] Hg]. cbn [IdempotencyKey_UserID IdempotencyKey_Key] in Hu, Hkey.
  assert (lookup_by (same_key u (sCreateIdempotencyKey_Key params)) (idempotency_keys (w_db w2)) ≠ None) as Hl.
  { rewrite lookup_by_None. intros Hno. specialize (Hno _ _ Hk). unfold same_key in Hno. rewrite Hu, Hkey in Hno.
    by rewrite !bool_decide_eq_true_2 in Hno. }
  exists (next_tick w2). split; [|done]. split_guards. unfold guarded, first_violation. cbn -[lookup_by].
  repeat match goal with Hx : ?b = true |- context [?b] => rewrite Hx end.
  rewrite (bool_decide_eq_false_2 _ Hl). by destruct (absent _ _).
Qed.

(** The [i]-th transaction has inserted the record [k], which is not committed;
    the next statement of the [j]-th inserts one with the same user and key,
    as it finds no such record. *)
Record contends (c : Cluster) (i j : nat) (kid : UUID) (k : IdempotencyKey) (params : Store.CreateIdempotencyKeyParams)
    (f : result IdempotencyKey → script unit) (k' : IdempotencyKey) : Prop := {
  ct_other : i ≠ j;
  ct_holder : ∃ t, c_txs c !! i = Some t ∧ idempotency_keys (tx_view c t) !! kid = Some k;
  ct_uncommitted : idempotency_keys (c_db c) !! kid = None;
  ct_next : next_answer c j (SCreateIdempotencyKey params) f (Ok k');
  ct_user : IdempotencyKey_UserID k' = IdempotencyKey_UserID k;
  ct_key : IdempotencyKey_Key k' = IdempotencyKey_Key k
}.

(** The holder has locked the record and its key. *)
Lemma contends_locks c i j kid k params f k' :
  cluster_inv topic c → contends c i j kid k params f k' →
  ∃ ti, c_txs c !! i = Some ti ∧ idempotency_keys (tx_view c ti) !! kid = Some k ∧
    LIdempotencyKey kid ∈ tx_locks ti ∧ LUserKey (IdempotencyKey_UserID k') (IdempotencyKey_Key k') ∈ tx_locks ti.
Proof.
  intros Hi [_ (ti & Hti & Hview) Hnone _ -> ->]. exists ti.
  pose proof (apply_writes_key _ _ _ _ Hview) as [Hwr|Hdb]; [|congruence].
  split_and!; [done..| |]; (eapply (ci_locked _ _ Hi _ _ Hti); [exact Hwr|]); cbn; [by left|by right; left].
Qed.

(** As long as the holder is open, the other cannot insert. *)
Lemma contends_waits c i j kid k params f k' :
  cluster_inv topic c → contends c i j kid k params f k' → waits_for c j i ∧ act topic (AStatement j) c = None.
Proof.
  intros Hi Hc. destruct (contends_locks _ _ _ _ _ _ _ _ Hi Hc) as (ti & Hti & _ & _ & Hlock).
  destruct Hc as [Hne _ _ Hnext _ _]. set (l := LUserKey _ _) in Hlock.
  assert (l ∈ locks (SCreateIdempotencyKey params) (Ok k')) as Hl by (right; by left).
  split; [exists (SCreateIdempotencyKey params), f, (Ok k'), l, ti; by split_and!|].
  destruct Hnext as (tj & Htj & Hsc & Hans). cbn [act]. rewrite Htj. cbn. unfold statement. rewrite Hsc.
  destruct (exec _ _) as [r w1]. cbn in Hans. subst r.
  destruct (free _ _ _) eqn:Hfree; [|done]. rewrite free_spec in Hfree. by destruct (Hfree l i ti Hl Hne Hti).
Qed.

(** The script of the other ends with the error of its INSERT. *)
Lemma key_error_ends c n t params f e :
  cluster_inv topic c → c_txs c !! n = Some t → tx_script t = sCall (SCreateIdempotencyKey params) f →
  f (Err e) = sDone (Err e).
Proof.
  intros Hi Ht Hsc. destruct (ci_txs _ _ Hi _ _ Ht) as [e' He|r sc w w0 _ _ _ Hrob _|es sent Hsafe _ _ _];
    rewrite Hsc in *; [done| |by destruct Hsafe].
  destruct Hrob as (_ & Hp & _). apply Hp.
Qed.

(** C39. Of two transactions that insert a record with one user and one key,
    whatever they are and whatever else runs: as long as the first is open,
    the second waits for it and cannot go on; and once the commit of the first
    has taken effect, the INSERT of the second fails with a unique violation
    (not with the stored answer), which is what its script ends with, so that
    all it can do is to be rolled back. *)
Theorem same_key_conflict c i j kid k params f k' :
  interleaved topic c → contends c i j kid k params f k' →
  (waits_for c j i ∧ act topic (AStatement j) c = None) ∧
  ∀ c1, act topic (ACommit i) c = Some c1 → idempotency_keys (c_db c1) !! kid = Some k →
    ∃ c2 t, act topic (AStatement j) c1 = Some c2 ∧ c_db c2 = c_db c1 ∧
      c_txs c2 !! j = Some t ∧ tx_script t = sDone (Err (PgError "23505")) ∧
      act topic (ACommit j) c2 = Some (set_txs (delete j (c_txs c2)) c2).
Proof.
  intros (acts & Hacts) Hc. destruct (act_all_steps _ _ _ _ (cluster_inv_init topic) Hacts) as [Hi _].
  split; [by eapply contends_waits|]. intros c1 Hcommit Hk1.
  destruct (contends_locks _ _ _ _ _ _ _ _ Hi Hc) as (ti & Hti & _ & Hid & _).
  destruct Hc as [Hne _ _ (tj & Htj & Hsc & Hans) Hu Hkey].
  assert (c_txs c1 !! j = Some tj ∧ c_topic c1 = c_topic c) as [Htj1 Htop].
  { cbn [act] in Hcommit. rewrite Hti in Hcommit. cbn in Hcommit.
    destruct (finish_steps _ _ _ _ _ Hi Hti Hcommit) as (_ & _ & Htop & _ & ->). by rewrite lookup_delete_ne. }
  destruct (exec _ (set_env (tx_view c tj) _ _)) as [r w1] eqn:Hrun in Hans. cbn in Hans. subst r. cbn [exec] in Hrun.
  assert (idempotency_keys (tx_view c1 tj) !! kid = Some k) as Hview.
  { apply apply_writes_key_other; [|done]. intros x Hx. apply (ci_exclusive _ _ Hi i j ti tj _ Hne Hti Htj Hid).
    eapply (ci_locked _ _ Hi _ _ Htj); [exact Hx|by left]. }
  destruct (CreateIdempotencyKey_taken params _ _ _ (set_env (tx_view c1 tj) (c_topic c1) (tx_world tj)) _ _
    Hrun eq_refl Hview Hu Hkey) as (w2 & Hrun2 & Htop2).
  cbn [act]. rewrite Htj1. cbn. unfold statement. rewrite Hsc. cbn [exec]. rewrite Hrun2.
  change (free _ _ _) with true. cbn iota.
  eexists _, _. split; [reflexivity|]. cbn. rewrite lookup_insert_eq. split_and!; [done..| |].
  - cbn. exact (key_error_ends _ _ _ _ _ _ Hi Htj Hsc).
  - cbn. unfold finish. cbn. by rewrite (key_error_ends _ _ _ _ _ _ Hi Htj Hsc).
Qed.
End contention.
