(* ===== verification/Startup.v ===== *)
(** * The processes

    [cmd/api/main.go], [cmd/publisher/main.go] and [cmd/consumer/main.go] up
    to their loops and after them, with [internal/db/db.go] and
    [internal/cache/redis.go]: the settings are read, the servers are
    connected with [Retry], the parts are put together, and in the end the
    clients are closed.  The drivers are the class [Drivers].  A process that
    cannot connect exits with status 1. *)

From S2P Require Import Prelude GoStrings Json GoTime Models World.
From S2P Require Import Sqlc.
From S2P Require Import Store.
From S2P Require Import OrderService.
From S2P Require Import Spec OrderRefine Evolution Invariants.
From S2P Require Import Auth.
From S2P Require Import Publisher.
From S2P Require Import Kafka KafkaConsumer.
From S2P Require Import Redis.
From S2P Require Import RateLimit.
From S2P Require Import Lock Http OrderHandlers AuthHandlers Router ApiBehaviour.
From S2P Require Config.
From S2P Require Import AppStart.
From S2P Require Import System ApiTheorems.

(** ** Connections *)

(** The settings of [pgxpool.Config] that [Open] changes, and the others as
    they were parsed. *)
Record PoolConfig := mkPoolConfig {
  pool_url : string; MaxConns : Z; MinConns : Z; MaxConnLifetime : Z; MaxConnIdleTime : Z
}.

(** The drivers on the state [St] of the process and its servers: what they
    connect to, and whether the servers answer. *)
Class Drivers (St Pool Client ProducerHandle ConsumerHandle : Type) := {
  pgxpool_ParseConfig : string → result PoolConfig;
  pgxpool_NewWithConfig : PoolConfig → St → result Pool * St;
  Pool_Ping : Pool → St → result unit * St;
  Pool_Close : Pool → St → St;
  redis_ParseURL : string → result string;
  redis_NewClient : string → Client;
  Client_Ping : Client → St → result unit * St;
  Client_Close : Client → St → St;
  kafka_NewProducer : list (string * ConfigValue) → result ProducerHandle;
  (* the context before and after the call, and the metadata of the broker *)
  kafka_GetMetadata : ProducerHandle → St → option error * option error * (string → Z → result Metadata) * St;
  ProducerHandle_Close : ProducerHandle → St → St;
  kafka_NewConsumer : list (string * ConfigValue) → result ConsumerHandle;
  ConsumerHandle_Close : ConsumerHandle → St → result unit * St;
  (* [Shutdown] of the HTTP server, with its deadline *)
  Server_Shutdown : Z → St → result unit * St;
  (* the wait of [Retry], and the context of the process *)
  retry_wait : Z → St → option error * St
}.

(** How the start of a process ends. *)
Inductive Started (A : Type) := Exit (code : Z) | Running (a : A).
Arguments Exit {A} code.
Arguments Running {A} a.

Section startup.
Context `{External} `{Drivers St Pool Client ProducerHandle ConsumerHandle}.

(** [db.Open] *)
Definition Open (databaseURL : string) (st : St) : result Pool * St :=
  match pgxpool_ParseConfig databaseURL with
  | Err err => (Err err, st)
  | Ok config =>
    let config := mkPoolConfig (pool_url config) 10 1 Config.Hour (30 * Config.Minute) in
    match pgxpool_NewWithConfig config st with
    | (Err err, st1) => (Err err, st1)
    | (Ok pool, st1) =>
      match Pool_Ping pool st1 with
      | (Err err, st2) => (Err err, Pool_Close pool st2)
      | (Ok _, st2) => (Ok pool, st2)
      end
    end
  end.

(** [cache.OpenRedis] *)
Definition OpenRedis (redisURL : string) (st : St) : result Client * St :=
  match redis_ParseURL redisURL with
  | Err err => (Err err, st)
  | Ok opts =>
    let client := redis_NewClient opts in
    match Client_Ping client st with
    | (Err err, st1) => (Err err, Client_Close client st1)
    | (Ok _, st1) => (Ok client, st1)
    end
  end.

(** The function that the publisher retries: a producer whose topic exists. *)
Definition connect_producer (cfg : Config.Config) (st : St) : result ProducerHandle * St :=
  match NewProducer kafka_NewProducer (Config.KafkaBootstrapServers cfg) with
  | Err err => (Err err, st)
  | Ok producer =>
    let '(before, after, get_metadata, st1) := kafka_GetMetadata producer st in
    match CheckTopic before after get_metadata (Config.KafkaTopic cfg) (5 * Config.Second) with
    | Err err => (Err err, ProducerHandle_Close producer st1)
    | Ok _ => (Ok producer, st1)
    end
  end.

(** ** The API server *)

(** Instants and lifetimes of the services are in microseconds: what a
    duration has below one is dropped, and it counts as one at least.  (The
    program passes the nanoseconds on.) *)
Definition micros (d : Z) : Z := Z.max 1 (d / 1000).

Definition api_router (cfg : Config.Config) : RouterConfig :=
  mkRouterConfig
    (NewAuthService (NewTokenManager (Config.JWTSecret cfg) (micros (Config.AccessTokenTTL cfg))) (micros (Config.RefreshTokenTTL cfg)))
    (Config.CookieSecure cfg) (Some (NewManager (micros (Config.OrderLockTTL cfg)))) (Some New)
    (Config.RateLimitEnabled cfg) (Config.RateLimitRequestsPerMinute cfg) (Config.AuthRateLimitRequestsPerMinute cfg)
    (Config.LoginRateLimitRequestsPerMinute cfg) (Config.CORSAllowedOrigin cfg).

Definition api_main (cfg : Config.Config) (st : St) : Started (Pool * Client * RouterConfig * string) * St :=
  match Retry (Open (Config.DatabaseURL cfg)) retry_wait 12 (5 * Config.Second) st with
  | (Some dbPool, None, st1) =>
    match Retry (OpenRedis (Config.RedisURL cfg)) retry_wait 12 (5 * Config.Second) st1 with
    | (Some redisClient, None, st2) => (Running (dbPool, redisClient, api_router cfg, ":" +:+ Config.Port cfg), st2)
    | (_, _, st2) => (Exit 1, st2)
    end
  | (_, _, st1) => (Exit 1, st1)
  end.

(** ** The publisher and the consumer *)

Definition publisher_config (cfg : Config.Config) : Publisher.Config :=
  Publisher.mkConfig (Config.KafkaTopic cfg) (Config.PublisherBatchSize cfg).

Definition publisher_main (cfg : Config.Config) (st : St) : Started (Pool * ProducerHandle * Publisher.Config) * St :=
  match Retry (Open (Config.DatabaseURL cfg)) retry_wait 12 (5 * Config.Second) st with
  | (Some dbPool, None, st1) =>
    match Retry (connect_producer cfg) retry_wait 12 (5 * Config.Second) st1 with
    | (Some kafkaProducer, None, st2) => (Running (dbPool, kafkaProducer, publisher_config cfg), st2)
    | (_, _, st2) => (Exit 1, st2)
    end
  | (_, _, st1) => (Exit 1, st1)
  end.

(** The consumer up to [Run]. *)
Definition consumer_start (cfg : Config.Config) (st : St) : Started (Pool * ConsumerHandle) * St :=
  match Retry (Open (Config.DatabaseURL cfg)) retry_wait 12 (5 * Config.Second) st with
  | (Some dbPool, None, st1) =>
    match NewConsumer kafka_NewConsumer (Config.KafkaBootstrapServers cfg) (Config.KafkaConsumerGroup cfg) true with
    | Ok kafkaConsumer => (Running (dbPool, kafkaConsumer), st1)
    | Err _ => (Exit 1, st1)
    end
  | (_, _, st1) => (Exit 1, st1)
  end.

(** ** The end of the processes

    The deferred calls run when [main] returns, not when it exits with a
    status: what is left open then ends with the process. *)

(** What ends the wait of the API: the server failed, or a signal came. *)
Inductive Wake := ServeFailed (err : error) | Signal.

Definition api_end (dbPool : Pool) (redisClient : Client) (wake : Wake) (st : St) : Z * St :=
  match wake with
  | ServeFailed _ => (1, st)
  | Signal =>
    match Server_Shutdown (5 * Config.Second) st with
    | (Err _, st1) => (1, st1)
    | (Ok _, st1) => (0, Pool_Close dbPool (Client_Close redisClient st1))
    end
  end.

(** After [Run] of the publisher. *)
Definition publisher_end (dbPool : Pool) (kafkaProducer : ProducerHandle) (st : St) : Z * St :=
  (0, Pool_Close dbPool (ProducerHandle_Close kafkaProducer st)).

(** After [Run] of the consumer: the client is closed, and the exit status
    tells whether both went well. *)
Definition consumer_end (dbPool : Pool) (kafkaConsumer : ConsumerHandle) (runErr : result unit) (st : St) : Z * St :=
  let '(closed, st1) := ConsumerHandle_Close kafkaConsumer st in
  let closeErr := Consumer_Close closed in
  if negb (is_ok runErr) || negb (is_ok closeErr) then (1, st1) else (0, Pool_Close dbPool st1).
End startup.

(** ** What runs after a start *)

Section started.
Context `{External} `{!ExternalLaws _} `{Drivers St Pool Client ProducerHandle ConsumerHandle}.
Implicit Types (st : St).

Lemma Open_pinged url st pool st' :
  Open url st = (Ok pool, st') → ∃ st1, Pool_Ping pool st1 = (Ok tt, st').
Proof.
  unfold Open. destruct (pgxpool_ParseConfig url); [|done]. destruct (pgxpool_NewWithConfig _ st) as [[p|e] st1]; [|done].
  destruct (Pool_Ping p st1) as [[[]|e] st2] eqn:Hp; [|done]. intros [= <- <-]. eauto.
Qed.

Lemma OpenRedis_pinged url st client st' :
  OpenRedis url st = (Ok client, st') → ∃ st1, Client_Ping client st1 = (Ok tt, st').
Proof.
  unfold OpenRedis. destruct (redis_ParseURL url); [|done]. destruct (Client_Ping _ st) as [[[]|e] st1] eqn:Hp; [|done].
  intros [= <- <-]. eauto.
Qed.

Lemma Retry_value {A} (fn : St → result A * St) wait attempts delay st a st' :
  1 ≤ attempts → Retry fn wait attempts delay st = (Some a, None, st') → ∃ st1, fn st1 = (Ok a, st').
Proof.
  intros Hat Hr. unfold Retry in Hr.
  destruct (retry_loop_cases fn wait delay attempts 1 (Z.to_nat attempts) None st) as (k & st1 & _ & _ & Hout); [lia|lia|].
  cbn zeta in Hout. rewrite Hr in Hout. destruct Hout as [(a' & st2 & Hf & [= -> ->])|(e & st2 & _ & [[_ ?]|(_ & ? & ? & _ & ?)])]; [|done..].
  eauto.
Qed.

(** A server that starts is ready and protected, whatever the
    environment: the database and Redis have answered a ping, the lock has a
    positive TTL, the limits are positive and the limiter reads its clock
    only, which is what the theorems about requests ask for. *)
Lemma api_started dotenv environment st pool client rc addr st' :
  api_main (Config.Load dotenv environment) st = (Running (pool, client, rc, addr), st') →
  (∃ st1 st2, Pool_Ping pool st1 = (Ok tt, st2)) ∧ (∃ st1, Client_Ping client st1 = (Ok tt, st')) ∧
  (∃ m, cfg_LockManager rc = Some m ∧ 0 < Manager_ttl m) ∧
  0 < cfg_RateLimitRequestsPerMinute rc ∧ 0 < cfg_AuthRateLimitRequestsPerMinute rc ∧ 0 < cfg_LoginRateLimitRequestsPerMinute rc ∧
  cfg_RateLimiter rc = Some New ∧ limiter_readonly rc ∧ TokenManager_secret (tokenManager (cfg_AuthService rc)) ≠ "" ∧
  0 < TokenManager_ttl (tokenManager (cfg_AuthService rc)) ∧ 0 < refreshTokenTTL (cfg_AuthService rc).
Proof.
  unfold api_main. set (cfg := Config.Load dotenv environment).
  destruct (Retry (Open _) _ _ _ st) as [[[pool1|] [e1|]] st1] eqn:Hdb; try done.
  destruct (Retry (OpenRedis _) _ _ _ st1) as [[[client1|] [e2|]] st2] eqn:Hredis; try done.
  intros [= -> -> <- _ ->].
  apply Retry_value in Hdb as (sa & Hdb); [|lia]. apply Retry_value in Hredis as (sb & Hredis); [|lia].
  apply Open_pinged in Hdb as [sc Hdb]. apply OpenRedis_pinged in Hredis as [sd Hredis].
  assert (∀ d, 0 < micros d) as Hmicros by (intros; unfold micros; lia).
  assert (∀ key n, 1 ≤ n ≤ int64_max → 0 < Config.getEnvInt (dotenv environment) key n) as Hint.
  { intros key n Hn. pose proof (Config.getEnvInt_bounds (dotenv environment) key n Hn). lia. }
  split_and!; [by exists sc, st1|by exists sd| |apply Hint; by vm_compute..|done| | |apply Hmicros|apply Hmicros].
  - eexists. split; [done|]. apply Hmicros.
  - intros l [= <-]. apply readonly_time_now.
  - by apply Config.getenv_or_nonempty.
Qed.
End started.

(** ** A batch size beyond [int32] *)

Section batch_size.
Context `{External} `{P : Producer}.

Lemma negative_batch topic n w :
  n < 0 → is_ok (PublishBatch (Publisher.mkConfig topic n) w).1 = false ∧ w_db (PublishBatch (Publisher.mkConfig topic n) w).2 = w_db w ∧
  w_topic (PublishBatch (Publisher.mkConfig topic n) w).2 = w_topic w.
Proof.
  intros Hn. unfold PublishBatch, WithTx, Begin. destruct (fault (w_tick w)); [|done..].
  unfold publish_batch_tx, Store.ClaimOutboxEvents, bind. cbn [Config_BatchSize].
  unfold Sqlc.ClaimOutboxEvents, query. destruct (fault _); rewrite ?bool_decide_eq_true_2 by done; done.
Qed.

(** C38. A setting of PUBLISHER_BATCH_SIZE from 2147483648 to 4294967295 is
    accepted and stops the publisher: the conversion to [int32] makes it
    negative, the claim has a negative LIMIT, and every batch fails without
    publishing an event. *)
Theorem batch_size_overflow dotenv environment :
  int32_max < Config.getEnvInt (dotenv environment) "PUBLISHER_BATCH_SIZE" 10 < 2 ^ 32 →
  let cfg := publisher_config (Config.Load dotenv environment) in
  Config_BatchSize cfg < 0 ∧
  ∀ w, is_ok (PublishBatch cfg w).1 = false ∧ w_db (PublishBatch cfg w).2 = w_db w ∧ w_topic (PublishBatch cfg w).2 = w_topic w.
Proof.
  intros Hn. set (n := Config.getEnvInt _ _ _) in Hn. cbn zeta. assert (to_int32 n < 0) as Hneg.
  { unfold to_int32, int32_min, int32_max in *. rewrite <- (Z.mod_add _ (-1)) by lia. rewrite Z.mod_small; lia. }
  split; [exact Hneg|]. intros w. by apply negative_batch.
Qed.
End batch_size.
