(* ===== verification/Recipients.v ===== *)
(** * Notifications reach the customer

    From the row that a service writes to the row that the consumer writes:
    the payload of an event carries the user of its order, the column, the
    envelope and the checks of the consumer keep it, and the delivery that is
    recorded is addressed to that user. *)

From S2P Require Import Prelude GoStrings Json Models World.
From S2P Require Import Sqlc.
From S2P Require Import Store.
From S2P Require Import OrderService.
From S2P Require Import Spec OrderRefine Evolution Invariants Bookkeeping.
From S2P Require Import Auth.
From S2P Require Import Publisher.
From S2P Require Import Consumer.
From S2P Require Import Envelope.
From S2P Require Import System.

Section recipients.
Context `{External} `{!ExternalLaws _} `{!JsonbLaws _}.

(** ** What the payload of an event carries *)

(** The payload is UTF-8 text of an object whose [user_id] is [t], as JSON carries it. *)
Definition carries (payload t : string) : Prop :=
  utf8_valid payload = true ∧ ∃ ms, Parse payload = Some (JObj ms) ∧ string_field "user_id" ms = (sanitize t, false).

Lemma payload_carries ms p t :
  NoDup ms.*1 → Forall (λ m, utf8_valid m.1 = true) ms → Forall flat ms →
  base.filter (λ m, key_matches "user_id" m.1 = true) (clean <$> ms) = [("user_id", JStr (sanitize t))] →
  jsonb (Marshal (JObj ms)) = Some p → carries p t.
Proof.
  intros Hnd Hk Hf Hu Hp. assert (ms ≠ []) as Hne by (by intros ->).
  pose proof (Marshal_object_parses _ Hne Hk Hf) as Htext.
  destruct (jsonb_object _ _ p Htext) as (Hv & ms' & Hp' & Hperm); [| |done|].
  - rewrite <- list_fmap_compose. exact Hnd.
  - apply Forall_fmap. by apply (Forall_impl _ _ _ Hf), clean_flat.
  - split; [done|]. exists ms'. split; [done|]. by eapply string_field_perm.
Qed.

Ltac flat_members :=
  repeat first [by apply Forall_nil_2 | apply Forall_cons_2; [first [by left; eexists | by right; eexists]|]].

Lemma created_carries orderID userID status amount currency description p :
  jsonb (Marshal (orderCreatedEventPayload orderID userID status amount currency description)) = Some p →
  carries p userID.
Proof.
  apply payload_carries; [by apply (bool_decide_unpack _); vm_compute|by repeat constructor|flat_members|done].
Qed.

Lemma cancelled_carries orderID userID status p :
  jsonb (Marshal (orderCancelledEventPayload orderID userID status)) = Some p → carries p userID.
Proof.
  apply payload_carries; [by apply (bool_decide_unpack _); vm_compute|by repeat constructor|flat_members|done].
Qed.

Lemma payment_carries paymentID orderID userID status amount currency provider ref reason p :
  jsonb (Marshal (paymentEventPayload paymentID orderID userID status amount currency provider ref reason)) = Some p →
  carries p userID.
Proof.
  unfold paymentEventPayload, omitempty. destruct (bool_decide (ref = "")), (bool_decide (reason = ""));
    (apply payload_carries; [by apply (bool_decide_unpack _); vm_compute|by repeat constructor|flat_members|done]).
Qed.

(** ** Every event carries the customer of its order *)

(** The event [e] is keyed by an order, and its payload carries a text of the
    UUID of the customer of that order; only [order.created] has the text of
    the request, the others have the one that pgx prints. *)
Definition addressed (db : DB) (e : OutboxEvent) (t : string) : Prop :=
  utf8_valid (OutboxEvent_EventType e) = true ∧ OutboxEvent_EventType e ≠ "" ∧ carries (OutboxEvent_Payload e) t ∧
  ∃ o, orders db !! OutboxEvent_PartitionKey e = Some o ∧ UUID_Scan t = Some (Order_UserID o) ∧
    (OutboxEvent_EventType e ≠ EventTypeOrderCreated → t = UUID_String (Order_UserID o)).

Definition all_addressed (db : DB) : Prop :=
  ∀ id e, outbox_events db !! id = Some e → ∃ t, addressed db e t.

Lemma addressed_step db db' e e' t :
  rtc db_step db db' → event_fixed e' = event_fixed e → addressed db e t → addressed db' e' t.
Proof.
  unfold event_fixed, addressed. intros Hs [= _ _ _ -> -> _ ->] (? & ? & ? & o & Ho & Hu & Ht). split_and!; [done..|].
  destruct (steps_order _ _ _ _ Hs Ho) as (o' & Ho' & Hm%order_moves_fixed). exists o'.
  unfold order_fixed in Hm. assert (Order_UserID o' = Order_UserID o) as -> by congruence. done.
Qed.

Lemma paid_event_facts st :
  utf8_valid (paid_event st) = true ∧ paid_event st ≠ "" ∧ paid_event st ≠ EventTypeOrderCreated.
Proof. unfold paid_event. by case_bool_decide. Qed.

(** The event that a step adds is addressed. *)
Lemma new_event_addressed db db' id e :
  db_step db db' → outbox_events db !! id = None → outbox_events db' !! id = Some e → ∃ t, addressed db' e t.
Proof.
  intros Hs Hnew He. unfold addressed.
  destruct Hs as [o e0 k oid uid Ho Hoid Huid Hev _ _|o p e0 k user now oid Ho _ _ Hev _ _ _|o e0 now Ho _ Hev|u|t token|t now|e0 now He0|e0 err He0|pe d];
    cbn in He |- *; try congruence.
  1-3: apply lookup_insert_Some in He as [[<- <-]|[_ He]]; [|congruence];
    destruct Hev as [_ _ _ Htype Hkey _ _ Hpay]; rewrite Htype, Hkey.
  - exists uid. split_and!; [done..|by eapply created_carries|]. exists o. by rewrite lookup_insert_eq.
  - exists (UUID_String (Order_UserID o)). destruct (paid_event_facts (Payment_Status p)) as (? & ? & ?).
    split_and!; [done..|by eapply payment_carries|]. eexists. rewrite lookup_insert_eq. split; [done|]. cbn.
    by rewrite UUID_Scan_String.
  - exists (UUID_String (Order_UserID o)).
    split_and!; [done..|by eapply cancelled_carries|]. eexists. rewrite lookup_insert_eq. split; [done|]. cbn.
    by rewrite UUID_Scan_String.
  - apply lookup_insert_Some in He as [[<- <-]|[_ He]]; cbn in *; congruence.
  - apply lookup_insert_Some in He as [[<- <-]|[_ He]]; cbn in *; congruence.
Qed.

Lemma reachable_addressed db : reachable db → all_addressed db.
Proof.
  unfold reachable. intros Hr. assert (all_addressed empty_db) as H0
    by (intros id e He; cbn in He; by apply lookup_empty_Some in He).
  revert H0. induction Hr as [|db db1 db2 Hs _ IH]; [done|]. intros Hall. apply IH. intros id e' He'.
  destruct (outbox_events db !! id) as [e|] eqn:He; [|by eapply new_event_addressed].
  destruct (Hall _ _ He) as [t Ht]. exists t. destruct (step_event _ _ _ _ Hs He) as (e'' & He'' & Hf & _).
  assert (e'' = e') as -> by congruence. eapply addressed_step; [by apply rtc_once|exact Hf|exact Ht].
Qed.

(** ** The record of an event passes the checks of the consumer *)

Lemma envelope_event e v :
  utf8_valid (OutboxEvent_EventType e) = true → Parse (OutboxEvent_Payload e) = Some v →
  envelope (event_message e) = Consumer.mkOutboxMessage (UUID_String (OutboxEvent_ID e))
    (sanitize (OutboxEvent_AggregateType e)) (UUID_String (OutboxEvent_AggregateID e)) (OutboxEvent_EventType e) (Some v).
Proof.
  intros Ht Hp. unfold envelope, event_message.
  cbn [Publisher.OutboxMessage_ID Publisher.OutboxMessage_AggregateType Publisher.OutboxMessage_AggregateID
    Publisher.OutboxMessage_EventType Publisher.OutboxMessage_Payload].
  by rewrite Hp, (sanitize_valid _ Ht), !(sanitize_valid _ (utf8_ascii _ (UUID_String_ascii _))).
Qed.

Lemma event_record_checked cfg db e t rec source message userID :
  addressed db e t → event_record cfg e = Some rec →
  check_message source (rec_value rec) = Ok (message, userID) →
  UUID_Scan (OutboxMessage_ID message) = Some (OutboxEvent_ID e) ∧
  OutboxMessage_EventType message = OutboxEvent_EventType e ∧ userID = sanitize t.
Proof.
  intros (Htype & _ & (Hv & ms & Hp & Hu) & _) Hrec Hc. unfold event_record in Hrec.
  destruct (MarshalMessage _) as [text|] eqn:Hm; [|done]. injection Hrec as <-. cbn in Hc.
  unfold check_message in Hc. rewrite (MarshalMessage_decoded (event_message e) _ Hv Hm), (envelope_event _ _ Htype Hp) in Hc.
  unfold decode_user_id in Hc. cbn -[string_field] in Hc. rewrite Hu in Hc.
  repeat match type of Hc with (if ?b then _ else _) = _ => destruct b; [done|] end.
  injection Hc as <- <-. cbn. by rewrite UUID_Scan_String.
Qed.

(** Unless the text of the user is one that only pgx reads. *)
Lemma event_record_accepted cfg db e t rec source :
  addressed db e t → event_record cfg e = Some rec → uuid_Parse (sanitize t) = true → sanitize t ≠ "" →
  ∃ message, check_message source (rec_value rec) = Ok (message, sanitize t) ∧
    OutboxMessage_ID message = UUID_String (OutboxEvent_ID e).
Proof.
  intros (Htype & Hne & (Hv & ms & Hp & Hu) & _) Hrec Hok Ht. unfold event_record in Hrec.
  destruct (MarshalMessage _) as [text|] eqn:Hm; [|done]. injection Hrec as <-. cbn.
  unfold check_message. rewrite (MarshalMessage_decoded (event_message e) _ Hv Hm), (envelope_event _ _ Htype Hp).
  assert (UUID_String (OutboxEvent_ID e) ≠ "") as Hid.
  { intros Hid. pose proof (UUID_Scan_String (OutboxEvent_ID e)) as Hs. by rewrite Hid, UUID_Scan_empty in Hs. }
  unfold decode_user_id. cbn -[string_field sanitize]. rewrite Hu, uuid_Parse_String, Hok.
  rewrite !bool_decide_eq_false_2 by done. cbn. by eexists.
Qed.
End recipients.

(** ** Deliveries *)

Section deliveries.
Context `{External} `{!ExternalLaws _} `{!JsonbLaws _} `{AuthExternal} `{P : Producer} `{!ProducerLaws P}.
Context (topic : string).

Definition same_deliveries (w w' : World) : Prop :=
  notification_deliveries (w_db w') = notification_deliveries (w_db w).

Lemma untouched_deliveries : untouched notification_deliveries.
Proof. by split. Qed.

(** What a unit of work does to the deliveries: nothing, or the consumer
    records one for an event whose record is in the log. *)
Lemma program_step_deliveries w w' :
  reachable (w_db w) → program_step topic w w' →
  same_deliveries w w' ∨
  ∃ rec message userID id, rec ∈ w_topic w ∧ check_message (rec_topic rec) (rec_value rec) = Ok (message, userID) ∧
    UUID_Scan (OutboxMessage_ID message) = Some id ∧
    ∃ dup, handled id userID (w_db w) (w_db w') dup.
Proof.
  intros Hr Hs. unfold same_deliveries.
  destruct (program_step_untouched topic _ _ _ untouched_deliveries Hr Hs)
    as [?|[(? & ? & Hw)|[(? & ? & Hw)|[(? & ? & Hw)|(rec & m & u & id & dup & ? & ? & ? & ?)]]]].
  - by left.
  - left. by eapply RegisterUser_frame.
  - left. by eapply store_CreateRefreshToken_frame.
  - left. by eapply store_RevokeRefreshToken_frame.
  - right. exists rec, m, u, id. eauto 10.
Qed.

(** Every delivery is addressed to the user that the payload of its event carries. *)
Definition deliveries_addressed (db : DB) : Prop :=
  ∀ did d, notification_deliveries db !! did = Some d →
    ∃ e t, outbox_events db !! NotificationDelivery_EventID d = Some e ∧ addressed db e t ∧
      NotificationDelivery_Recipient d = sanitize t.

Lemma deliveries_addressed_later db db' :
  rtc db_step db db' → notification_deliveries db' = notification_deliveries db →
  deliveries_addressed db → deliveries_addressed db'.
Proof.
  intros Hs Hd Hall did d. rewrite Hd. intros (e & t & He & Ht & Hrec)%Hall.
  destruct (steps_event _ _ _ _ Hs He) as (e' & He' & Hf & _). exists e', t. split_and!; [done| |done].
  by eapply addressed_step.
Qed.

Lemma program_step_addressed w w' :
  reachable (w_db w) → log_ok (mkConfig topic 0) w → program_step topic w w' →
  deliveries_addressed (w_db w) → deliveries_addressed (w_db w').
Proof.
  intros Hr Hlog Hs Hall. pose proof (program_step_rtc topic _ _ Hr Hs) as Hrtc.
  destruct (program_step_deliveries _ _ Hr Hs) as [Hd|(rec & m & u & id & Hin & Hc & Hid & dup & Hh)];
    [by eapply deliveries_addressed_later|].
  destruct Hh as [_ Hdb|pe d Hpe Hname Hnew He Hu Hch Hst Hnd Hdb Hone]; [by rewrite Hdb|].
  destruct (lo_sound _ _ Hlog _ Hin) as (eid & e & Hev & Hrec).
  destruct (reachable_addressed _ Hr _ _ Hev) as [t Ht].
  destruct (event_record_checked _ _ _ _ _ _ _ _ Ht Hrec Hc) as (Hid' & _ & ->).
  pose proof (keyed_events _ (reachable_keyed _ Hr) _ _ Hev) as Hkey.
  intros did d'. rewrite Hdb. cbn. intros [[<- <-]|[_ Hl]]%lookup_insert_Some.
  - exists e, t. assert (id = eid) as -> by congruence. rewrite He. split_and!; [done| |done]. exact Ht.
  - destruct (Hall _ _ Hl) as (e2 & t2 & ? & ? & ?). by exists e2, t2.
Qed.

Lemma program_run_addressed w : program_run topic w → deliveries_addressed (w_db w).
Proof.
  intros (w0 & Hdb & Ht & Hs).
  assert (program_run topic w0) as Hrun by (by exists w0).
  assert (deliveries_addressed (w_db w0)) as Hall
    by (rewrite Hdb; intros did d Hd; cbn in Hd; by apply lookup_empty_Some in Hd).
  clear Hdb Ht. induction Hs as [|w1 w2 w3 Hone _ IH]; [done|].
  apply IH.
  - destruct Hrun as (wa & ? & ? & Hs). exists wa. split_and!; [done..|]. by eapply rtc_r.
  - eapply program_step_addressed; [by eapply program_run_reachable|by apply program_run_log|done..].
Qed.

(** C10. The right customer is notified: in every run each delivery belongs to
    an event of the outbox and is addressed to the customer of the order of
    that event, as the request wrote its UUID ([order.created]) or as pgx
    prints it (all other events).  And no event is lost on the checks of the
    consumer: every record of the log passes them, but for an [order.created]
    whose user the request wrote in a form that uuid.Parse refuses. *)
Theorem notification_reaches_customer w source :
  program_run topic w →
  (∀ did d, notification_deliveries (w_db w) !! did = Some d →
     ∃ e o t, outbox_events (w_db w) !! NotificationDelivery_EventID d = Some e ∧
       orders (w_db w) !! OutboxEvent_PartitionKey e = Some o ∧ UUID_Scan t = Some (Order_UserID o) ∧
       NotificationDelivery_Recipient d = sanitize t ∧
       (OutboxEvent_EventType e ≠ EventTypeOrderCreated → NotificationDelivery_Recipient d = UUID_String (Order_UserID o))) ∧
  (∀ rec, rec ∈ w_topic w →
     ∃ id e o t, outbox_events (w_db w) !! id = Some e ∧ orders (w_db w) !! OutboxEvent_PartitionKey e = Some o ∧
       UUID_Scan t = Some (Order_UserID o) ∧
       (OutboxEvent_EventType e ≠ EventTypeOrderCreated → t = UUID_String (Order_UserID o)) ∧
       (uuid_Parse (sanitize t) = true → sanitize t ≠ "" →
        ∃ message, check_message source (rec_value rec) = Ok (message, sanitize t) ∧
          UUID_Scan (OutboxMessage_ID message) = Some id)).
Proof.
  intros Hrun. pose proof (program_run_reachable _ _ Hrun) as Hr. split.
  - intros did d Hd. destruct (program_run_addressed _ Hrun _ _ Hd) as (e & t & He & (_ & _ & _ & o & Ho & Hu & Ht) & Hrec).
    exists e, o, t. split_and!; [done..|]. intros Hne. rewrite Hrec, Ht by done.
    by rewrite (sanitize_valid _ (utf8_ascii _ (UUID_String_ascii _))).
  - intros rec Hin. destruct (program_run_log _ _ 0 Hrun) as [_ Hsound].
    destruct (Hsound _ Hin) as (id & e & He & Hrec). destruct (reachable_addressed _ Hr _ _ He) as [t Ha].
    pose proof Ha as (_ & _ & _ & o & Ho & Hu & Ht). exists id, e, o, t. split_and!; [done..|]. intros Hok Hne.
    destruct (event_record_accepted _ _ _ _ _ source Ha Hrec Hok Hne) as (message & Hm & Hid). exists message.
    split; [done|]. rewrite Hid, UUID_Scan_String. f_equal. exact (keyed_events _ (reachable_keyed _ Hr) _ _ He).
Qed.
End deliveries.
