(* ===== verification/SystemTheorems.v ===== *)
(** * Theorems about every run of the system

    Whatever the requests, their interleaving and the faults of the
    connections: payments are taken once, events are recorded and sent,
    customers are notified once. *)

From S2P Require Import Prelude GoStrings Sha256 Json Models World.
From S2P Require Import Sqlc.
From S2P Require Import Store.
From S2P Require Import OrderService.
From S2P Require Import Spec OrderRefine Evolution Invariants Bookkeeping Rows.
From S2P Require Import Auth.
From S2P Require Import Publisher.
From S2P Require Import Consumer.
From S2P Require Import System Sessions.

Section theorems.
Context `{External} `{!ExternalLaws _} `{AuthExternal} `{P : Producer} `{!ProducerLaws P} (topic : string).
Notation program_run := (program_run topic).
Notation program_step := (program_step topic).

(** C1. No order is charged twice: an order is [paid] exactly when one of its
    payments succeeded, at most one ever does, and every payment of an order
    is for the amount of the order. *)
Theorem order_paid_once w id o :
  program_run w → orders (w_db w) !! id = Some o →
  (Order_Status o = OrderStatusPaid ↔ ∃ pid p, payments (w_db w) !! pid = Some p ∧ succeeded_for id p) ∧
  (∀ pid1 pid2 p1 p2, payments (w_db w) !! pid1 = Some p1 → payments (w_db w) !! pid2 = Some p2 →
     succeeded_for id p1 → succeeded_for id p2 → pid1 = pid2) ∧
  (∀ pid p, payments (w_db w) !! pid = Some p → Payment_OrderID p = id →
     0 < Payment_AmountCents p ∧ Payment_AmountCents p = Order_AmountCents o ∧ Order_Status o ≠ OrderStatusPendingPayment).
Proof.
  intros Hrun Ho. apply program_run_reachable in Hrun as Hr.
  pose proof (reachable_ledger _ Hr) as [Hpaid Honce Hpend _]. pose proof (reachable_schema _ Hr) as Hsc.
  split; [by apply Hpaid|]. split.
  - intros pid1 pid2 p1 p2 H1 H2 [Ha Hb] [Hc Hd]. eapply Honce; eauto. congruence.
  - intros pid p Hp Hid. destruct (sc_payment_order _ Hsc _ _ Hp) as (o' & Ho' & Hamt). rewrite Hid in Ho'. simplify_eq.
    rewrite Hamt. split; [by eapply sc_order_amount|]. split; [done|]. intros Hs. by apply (Hpend _ _ _ _ Ho Hs Hp).
Qed.

(** C3. The outbox tells the whole story, once: every order has its
    [order.created] event, a cancelled order and only that has an
    [order.cancelled] event, every payment has an event of its outcome, every
    event reports one of these and is keyed by its order, and no two events
    report the same. *)
Theorem outbox_complete w :
  program_run w →
  (∀ id o, orders (w_db w) !! id = Some o →
     (∃ eid e, outbox_events (w_db w) !! eid = Some e ∧ order_event EventTypeOrderCreated id e) ∧
     (Order_Status o = OrderStatusCancelled ↔
      ∃ eid e, outbox_events (w_db w) !! eid = Some e ∧ order_event EventTypeOrderCancelled id e)) ∧
  (∀ id p, payments (w_db w) !! id = Some p →
     ∃ eid e, outbox_events (w_db w) !! eid = Some e ∧ payment_event p e) ∧
  (∀ eid e, outbox_events (w_db w) !! eid = Some e →
     is_Some (orders (w_db w) !! OutboxEvent_PartitionKey e) ∧
     ((∃ id o, orders (w_db w) !! id = Some o ∧
         (order_event EventTypeOrderCreated id e ∨ order_event EventTypeOrderCancelled id e)) ∨
      ∃ pid p, payments (w_db w) !! pid = Some p ∧ payment_event p e)) ∧
  (∀ eid1 eid2 e1 e2, outbox_events (w_db w) !! eid1 = Some e1 → outbox_events (w_db w) !! eid2 = Some e2 →
     event_subject e1 = event_subject e2 → eid1 = eid2).
Proof.
  intros Hrun. apply program_run_reachable in Hrun as Hr.
  pose proof (reachable_outbox _ Hr) as [H1 H2 H3 H4 H5]. pose proof (reachable_schema _ Hr) as Hsc.
  split; [intros id o Ho; split; eauto|]. split; [done|]. split.
  - intros eid e He. destruct (H4 _ _ He) as [(id & o & Ho & Hev)|(p & Hp & Hev)].
    + split; [destruct Hev as [(_ & _ & _ & ->)|(_ & _ & _ & ->)]; by eexists|]. left. by exists id, o.
    + split; [|right; by exists (Payment_ID p), p]. destruct Hev as (_ & _ & _ & ->).
      destruct (sc_payment_order _ Hsc _ _ Hp) as (o & ? & _). by eexists.
  - intros eid1 eid2 e1 e2 He1 He2 Heq. by eapply H5.
Qed.

(** C9. Every customer is notified exactly once per event: each processed
    event has exactly one delivery, sent, and each delivery is of a processed
    event. *)
Theorem notified_once w :
  program_run w →
  (∀ eid name pe, processed_events (w_db w) !! (eid, name) = Some pe → name = ConsumerNameNotification) ∧
  (∀ eid, is_Some (processed_events (w_db w) !! (eid, ConsumerNameNotification)) ↔
     ∃ id d, notification_deliveries (w_db w) !! id = Some d ∧ NotificationDelivery_EventID d = eid) ∧
  (∀ id d, notification_deliveries (w_db w) !! id = Some d → NotificationDelivery_Status d = NotificationStatusSent) ∧
  (∀ id1 id2 d1 d2, notification_deliveries (w_db w) !! id1 = Some d1 → notification_deliveries (w_db w) !! id2 = Some d2 →
     NotificationDelivery_EventID d1 = NotificationDelivery_EventID d2 → id1 = id2).
Proof.
  intros Hrun. apply program_run_reachable in Hrun as Hr. pose proof (reachable_notified _ Hr) as [H1 H2 H3].
  split; [|split; [|split]].
  - intros eid name pe Hpe. by apply H2 in Hpe as [? _].
  - intros eid. split; [intros [pe Hpe]; by apply H2 in Hpe as [_ ?]|]. intros (id & d & Hd & <-). by apply H1 in Hd as [_ ?].
  - intros id d Hd. by apply H1 in Hd as [? _].
  - intros id1 id2 d1 d2 Hd1 Hd2 Heq. by eapply H3.
Qed.

(** C11. At least once, and nothing made up: an event that is marked published
    has its record in the Kafka log, under the key of its order, and every
    record of the log is that of an event of the outbox, even when a
    publisher's transaction was rolled back after the delivery. *)
Theorem published_at_least_once w n :
  program_run w →
  (∀ id e, outbox_events (w_db w) !! id = Some e → is_Some (OutboxEvent_PublishedAt e) →
     ∃ rec, event_record (mkConfig topic n) e = Some rec ∧ rec ∈ w_topic w ∧
       rec_key rec = UUID_String (OutboxEvent_PartitionKey e)) ∧
  (∀ rec, rec ∈ w_topic w →
     ∃ id e, outbox_events (w_db w) !! id = Some e ∧ event_record (mkConfig topic n) e = Some rec).
Proof.
  intros Hrun. destruct (program_run_log _ _ n Hrun) as [Hsent Hsound]. split; [|exact Hsound].
  intros id e He Hp. destruct (Hsent _ _ He Hp) as (rec & Hrec & Hin). exists rec. split_and!; try done.
  unfold event_record in Hrec. destruct (MarshalMessage _); by simplify_eq.
Qed.

(** C29. Nothing is lost and nothing is rewritten: as the system runs on, an
    order keeps its columns but its status, which moves only while it is open
    (a paid or cancelled order stays as it is), payments and idempotency
    records stay as they are, and published events stay published. *)
Theorem rows_evolve w w' :
  program_run w → rtc program_step w w' →
  (∀ id o, orders (w_db w) !! id = Some o → ∃ o', orders (w_db w') !! id = Some o' ∧
     order_fixed o' = order_fixed o ∧ rtc order_move o o' ∧ (status_open (Order_Status o) = false → o' = o)) ∧
  (∀ id p, payments (w_db w) !! id = Some p → payments (w_db w') !! id = Some p) ∧
  (∀ id k, idempotency_keys (w_db w) !! id = Some k → idempotency_keys (w_db w') !! id = Some k) ∧
  (∀ id e, outbox_events (w_db w) !! id = Some e → ∃ e', outbox_events (w_db w') !! id = Some e' ∧ event_evolves e e').
Proof.
  intros Hrun Hs. apply program_run_reachable in Hrun as Hr.
  pose proof (program_steps_rtc _ _ _ Hr Hs) as Hrtc.
  split; [|split; [|split]].
  - intros id o Ho. destruct (steps_order _ _ _ _ Hrtc Ho) as (o' & Ho' & Hm). exists o'.
    split_and!; [done|by apply order_moves_fixed|done|]. intros Hc. by apply order_move_closed.
  - intros id p Hp. exact (steps_payment _ _ _ _ Hrtc Hp).
  - intros id k Hk. exact (steps_key _ _ _ _ Hrtc Hk).
  - intros id e He. exact (steps_event _ _ _ _ Hrtc He).
Qed.

(** C30. The idempotency records account for every order and payment: each
    was made under exactly one key, the record names it and its status code,
    and a user has at most one record per key. *)
Theorem idempotency_accounts w :
  program_run w →
  (∀ id k, idempotency_keys (w_db w) !! id = Some k →
     (∃ o, key_of_order (w_db w) k o) ∨ (∃ p, key_of_payment (w_db w) k p)) ∧
  (∀ id o, orders (w_db w) !! id = Some o →
     ∃ kid k, idempotency_keys (w_db w) !! kid = Some k ∧ key_of_order (w_db w) k o) ∧
  (∀ id p, payments (w_db w) !! id = Some p →
     ∃ kid k, idempotency_keys (w_db w) !! kid = Some k ∧ key_of_payment (w_db w) k p) ∧
  (∀ id1 id2 k1 k2, idempotency_keys (w_db w) !! id1 = Some k1 → idempotency_keys (w_db w) !! id2 = Some k2 →
     key_resource k1 = key_resource k2 ∨
     (IdempotencyKey_UserID k1 = IdempotencyKey_UserID k2 ∧ IdempotencyKey_Key k1 = IdempotencyKey_Key k2) →
     id1 = id2).
Proof.
  intros Hrun. apply program_run_reachable in Hrun as Hr.
  pose proof (reachable_keys _ Hr) as [H1 H2 H3 H4]. pose proof (reachable_schema _ Hr) as Hsc.
  split; [done|]. split; [done|]. split; [done|]. intros id1 id2 k1 k2 Hk1 Hk2 [Heq|[Hu Hk]].
  - by eapply H4.
  - eapply (sc_key _ Hsc); eauto. congruence.
Qed.

(** The rows are what the services make of their input. *)
Record well_formed (db : DB) : Prop := {
  wf_user id u : users db !! id = Some u → account u;
  wf_session id t : refresh_tokens db !! id = Some t → ∃ token, RefreshToken_TokenHash t = HashRefreshToken token;
  wf_order id o : orders db !! id = Some o →
    0 < Order_AmountCents o ∧ tidy (Order_Currency o) ∧ ∀ d, Order_Description o = Some d → tidy d;
  wf_payment id p : payments db !! id = Some p →
    Payment_Provider p = PaymentProviderMock ∧
    (Payment_Status p, Payment_ProviderRef p, Payment_FailureReason p) = provider_answer id;
  wf_key id k : idempotency_keys db !! id = Some k →
    tidy (IdempotencyKey_Key k) ∧ ((∃ o, hash_of_order db k o) ∨ ∃ p, hash_of_payment db k p)
}.

Lemma program_run_well_formed w : program_run w → well_formed (w_db w).
Proof.
  intros Hrun. pose proof (program_run_accounts topic _ Hrun) as Hacc. apply program_run_reachable in Hrun as Hr.
  pose proof (reachable_rows _ Hr) as [Ho Hp Ht Hk]. pose proof (reachable_schema _ Hr) as Hsc.
  split; [exact Hacc|exact Ht| |exact Hp|exact Hk].
  intros id o Hl. split; [by eapply sc_order_amount|by eapply Ho].
Qed.

Lemma conforms_well_formed {A} (m : M A) w : conforms topic m → program_run w → well_formed (w_db (m w).2).
Proof. intros Hm (w0 & ? & ? & Hs). apply program_run_well_formed. exists w0. split_and!; [done..|]. by etransitivity. Qed.

(** C31. The rows are what the services make of their input, at any point of
    any run and after any further call, whatever its parameters and faults: a
    user has an address that is trimmed and not blank, one of the two roles
    and, of the password, only its bcrypt hash; a session has the digest of
    its token, never the token; the amount of an order is positive, its
    currency and its description are trimmed and not blank; a payment has the
    mock provider's answer for its identifier; and the record of a request has
    a key that is trimmed and not blank and the digest of the request that
    made its order, or its payment. *)
Theorem rows_well_formed w :
  program_run w →
  well_formed (w_db w) ∧
  (∀ params, well_formed (w_db (CreateOrder params w).2)) ∧
  (∀ params, well_formed (w_db (PayOrder params w).2)) ∧
  (∀ params, well_formed (w_db (CancelOrder params w).2)) ∧
  (∀ params, well_formed (w_db (RegisterUser params w).2)) ∧
  (∀ s params, well_formed (w_db (Login s params w).2)) ∧
  (∀ s token, well_formed (w_db (RefreshAccessToken s token w).2)) ∧
  (∀ token, well_formed (w_db (Logout token w).2)) ∧
  (∀ batchSize rounds, well_formed (w_db (Run (mkConfig topic batchSize) rounds w).2)).
Proof.
  intros Hrun. split; [by apply program_run_well_formed|].
  split_and!; intros; (apply conforms_well_formed; [|done]);
    [apply conforms_CreateOrder|apply conforms_PayOrder|apply conforms_CancelOrder|apply conforms_RegisterUser
    |apply conforms_Login|apply conforms_RefreshAccessToken|apply conforms_Logout|apply conforms_Run].
Qed.

(** C7. Every function of the services, the publisher and the consumer is a
    sequence of the system's units of work, for all requests and faults. *)
Theorem services_conform :
  (∀ params, conforms topic (OrderService.CreateOrder params)) ∧
  (∀ params, conforms topic (OrderService.PayOrder params)) ∧
  (∀ params, conforms topic (OrderService.CancelOrder params)) ∧
  (∀ params, conforms topic (OrderService.ListOrders params)) ∧
  (∀ params, conforms topic (OrderService.GetOrder params)) ∧
  (∀ params, conforms topic (RegisterUser params)) ∧
  (∀ s params, conforms topic (Login s params)) ∧
  (∀ s token, conforms topic (RefreshAccessToken s token)) ∧
  (∀ token, conforms topic (Logout token)) ∧
  (∀ batchSize rounds, conforms topic (Run (mkConfig topic batchSize) rounds)) ∧
  (∀ (rec : KafkaRecord) (w : World), rec ∈ w_topic w → rtc program_step w (handleRecord (rec_topic rec) (rec_value rec) w).2).
Proof.
  split_and!; intros; [apply conforms_CreateOrder|apply conforms_PayOrder|apply conforms_CancelOrder
    |apply conforms_ListOrders|apply conforms_GetOrder|apply conforms_RegisterUser|apply conforms_Login
    |apply conforms_RefreshAccessToken|apply conforms_Logout|apply conforms_Run|by apply handleRecord_steps].
Qed.
End theorems.
