(* ===== verification/Delivery.v ===== *)
(** * From the log to the customers

    The consumer process on top of the system: it starts, takes turns, stops
    and is started again, while the other processes run.  No record below the
    committed offset of its partition is skipped. *)

From S2P Require Import Prelude GoStrings Json Models World.
From S2P Require Import Sqlc.
From S2P Require Import Store.
From S2P Require Import OrderService.
From S2P Require Import Spec OrderRefine Evolution Invariants Bookkeeping.
From S2P Require Import Auth.
From S2P Require Import Publisher.
From S2P Require Import Consumer.
From S2P Require Import KafkaConsumer.
From S2P Require Import System.

(** ** A handled record is settled *)

Section settled.
Context `{External}.

(** The record is invalid, or its event is processed. *)
Definition settled (source value : string) (db : DB) : Prop :=
  (∃ e, check_message source value = Err e) ∨
  ∃ message userID id, check_message source value = Ok (message, userID) ∧
    UUID_Scan (OutboxMessage_ID message) = Some id ∧
    is_Some (processed_events db !! (id, ConsumerNameNotification)).

Lemma settled_later source value db db' : rtc db_step db db' → settled source value db → settled source value db'.
Proof.
  intros Hs [?|(m & u & id & Hc & Hid & [pe Hpe])]; [by left|]. right. exists m, u, id. split_and!; [done..|].
  exists pe. by eapply steps_processed.
Qed.

(** Errors that do not come from the checks. *)
Definition service_error (e : error) : Prop := errors_Is e ErrInvalidMessage = false.

Lemma query_service_error {A} (q : DB → Z → result (A * DB)) w e w' :
  (∀ db now e, q db now = Err e → service_error e) → query q w = (Err e, w') → service_error e.
Proof.
  intros Hq. unfold query. destruct (fault (w_tick w)).
  - destruct (q (w_db w) (sql_now w)) as [[]|e0] eqn:Hr; [done|]. intros [= <- _]. by eapply Hq.
  - by intros [= <- _].
  - destruct (q (w_db w) (sql_now w)) as [[]|]; by intros [= <- _].
Qed.

Lemma guarded_service_error {A} gs (a : A) e : guarded gs a = Err e → service_error e.
Proof. unfold guarded. destruct (first_violation gs); [by intros [= <-]|done]. Qed.

Lemma TryCreateProcessedEvent_error messageID name w e w' :
  Store.TryCreateProcessedEvent messageID name w = (Err e, w') → service_error e.
Proof.
  unfold Store.TryCreateProcessedEvent, bind, scan. destruct (UUID_Scan messageID); [|by intros [= <- _]].
  unfold ret, Sqlc.TryCreateProcessedEvent. apply query_service_error. intros db now e0.
  destruct (text_ok _); [|by intros [= <-]]. destruct (processed_events db !! _); [by intros [= <-]|done].
Qed.

Lemma CreateNotificationDelivery_error params w e w' :
  Store.CreateNotificationDelivery params w = (Err e, w') → service_error e.
Proof.
  unfold Store.CreateNotificationDelivery, bind, scan.
  destruct (UUID_Scan (Store.sCreateNotificationDelivery_ID params)); [|by intros [= <- _]].
  unfold ret at 1. destruct (UUID_Scan (Store.sCreateNotificationDelivery_EventID params)); [|by intros [= <- _]].
  unfold ret, Sqlc.CreateNotificationDelivery. apply query_service_error. intros db now e0.
  apply guarded_service_error.
Qed.

Lemma handle_tx_error messageID userID w e w' : handle_tx messageID userID w = (Err e, w') → service_error e.
Proof.
  unfold handle_tx, bind at 1, try. destruct (Store.TryCreateProcessedEvent _ _ w) as [[pe|err] w1] eqn:Ht.
  - unfold bind, NewString, ret. destruct (Store.CreateNotificationDelivery _ _) as [[d|err] w2] eqn:Hd; [done|].
    intros [= <- _]. by eapply CreateNotificationDelivery_error.
  - destruct (errors_Is err ErrNoRows); [done|]. intros [= <- _]. by eapply TryCreateProcessedEvent_error.
Qed.

Lemma WithTx_error {A} (fn : M A) w e w' :
  (∀ w1 e w2, fn w1 = (Err e, w2) → service_error e) → WithTx fn w = (Err e, w') → service_error e.
Proof.
  intros Hfn. unfold WithTx, Begin. destruct (fault (w_tick w)); [|by intros [= <- _]..].
  destruct (fn _) as [[a|e0] w2] eqn:Hf; [|intros [= <- _]; by eapply Hfn].
  unfold Commit. destruct (fault (w_tick w2)); by intros [= <- _].
Qed.

(** [handleRecord] returns without an error only when the record is settled. *)
Lemma handleRecord_settled source value w w' :
  handleRecord source value w = (Ok tt, w') → settled source value (w_db w').
Proof.
  unfold handleRecord, bind at 1, try. destruct (Handle source value w) as [r w1] eqn:Hh.
  pose proof (Handle_cases _ _ _ _ _ Hh) as [(e & Hc & -> & ->)|(m & u & Hc & Hcase)].
  { intros _. left. eauto. }
  intros Hret. assert (w' = w1) as -> by (destruct r as [|err]; cbn in Hret; [|destruct (errors_Is err _)];
    unfold ret, throw in Hret; by simplify_eq).
  assert (is_ok r = true) as Hok.
  { destruct r as [|err]; [done|]. exfalso.
    assert (service_error err) as Hs; [|unfold service_error in Hs; cbn in Hret; rewrite Hs in Hret; done].
    unfold Handle, bind, lift, try in Hh. rewrite Hc in Hh.
    destruct (WithTx _ w) as [[dup|e] w2] eqn:Ht; [by destruct dup|]. injection Hh as <- _.
    unfold service_error. cbn. apply (WithTx_error _ _ _ _ (handle_tx_error _ _) Ht). }
  destruct Hcase as [[_ Hno]|(id & dup & Hid & Hd & _)]; [congruence|].
  right. exists m, u, id. split_and!; [done..|].
  destruct Hd as [? ->|pe d <- Hn _ _ _ _ _ _ -> _]; [done|]. cbn. rewrite Hn, lookup_insert_eq. by eexists.
Qed.
End settled.

(** ** The consumer process in the system *)

Section delivery.
Context `{External} `{!ExternalLaws _} `{AuthExternal} `{P : Producer} `{!ProducerLaws P}.
Context (topic : string) `{CC : ConsumerClient C} `{!ConsumerClientLaws CC topic}.
Notation program_run := (program_run topic).
Notation program_step := (program_step topic).
Implicit Types (w : World) (c : C).

(** The handler that [cmd/consumer] gives to the loop. *)
Definition record_handler (record : ConsumerRecord) : M unit :=
  handleRecord (Record_Topic record) (Record_Value record).

(** The state: the world, the client of the process, and whether the loop runs. *)
Inductive consumer_step : World * C * bool → World * C * bool → Prop :=
  (* the other processes, and a turn that a crash cuts off before its commit *)
  | cs_system w w' c b : program_step w w' → consumer_step (w, c, b) (w', c, b)
  (* a new process joins the group, after an end of the loop or a crash *)
  | cs_start w c c0 c' b :
      (∀ p, committed c0 p = committed c p) → SubscribeTopics topic c0 = (Ok tt, c') →
      consumer_step (w, c, b) (w, c', true)
  | cs_unsubscribed w c err c' b :
      SubscribeTopics topic c = (Err err, c') → consumer_step (w, c, b) (w, c', false)
  | cs_turn w c w' c' :
      turn topic record_handler (w, c) = (Continue, (w', c')) → consumer_step (w, c, true) (w', c', true)
  | cs_return w c r w' c' :
      turn topic record_handler (w, c) = (Return r, (w', c')) → consumer_step (w, c, true) (w', c', false).

(** Runs from the migrated database and a topic that holds [recs]. *)
Definition consumer_run_from (recs : list KafkaRecord) (st : World * C * bool) : Prop :=
  ∃ w0 c0, w_db w0 = empty_db ∧ w_topic w0 = recs ∧ (∀ p, committed c0 p = 0%nat) ∧
    rtc consumer_step (w0, c0, false) st.

Definition consumer_run : World * C * bool → Prop := consumer_run_from [].

(** The log only grows. *)
Lemma program_step_topic w w' :
  reachable (w_db w) → program_step w w' → ∃ l, w_topic w' = l ++ w_topic w.
Proof.
  intros Hr Hs.
  assert (∀ A (m : M A) r, silent m → m w = (r, w') → ∃ l, w_topic w' = l ++ w_topic w) as Hquiet.
  { intros A m r Hm Hrun. exists []. by apply (silent_run _ _ _ _ Hm Hrun). }
  destruct Hs as [_ Ht|params r _ Hw|params r _ Hw|params r Hw|params r Hw|id uid token x r Hw|id r Hw|m r Hw|rec m u r _ _ Hw
    |e rec _ _ _ Ht|e rec now _ _ _ _ Ht|e err _ _ _ Ht].
  - by exists [].
  - eapply Hquiet, Hw. unfold create_order_tx. silent_store.
  - eapply Hquiet, Hw. unfold pay_order_tx. silent_store.
  - eapply Hquiet, Hw. unfold cancel_order_tx. silent_store.
  - eapply Hquiet, Hw. apply silent_RegisterUser.
  - eapply Hquiet, Hw. unfold Store.CreateRefreshToken, Sqlc.CreateRefreshToken. silent_store.
  - eapply Hquiet, Hw. unfold Store.RevokeRefreshToken, Sqlc.RevokeRefreshToken. silent_store.
  - apply PublishBatch_cases in Hw as [(locked & l & Ht & _) _]; [by exists l|by apply reachable_keyed].
  - eapply Hquiet, Hw. unfold handle_tx. silent_store.
  - by exists [rec].
  - by exists [].
  - by exists [].
Qed.

Lemma program_steps_topic w w' :
  reachable (w_db w) → rtc program_step w w' → ∃ l, w_topic w' = l ++ w_topic w.
Proof.
  intros Hr Hs. induction Hs as [w|w1 w2 w3 Hone Hs IH]; [by exists []|].
  destruct (program_step_topic _ _ Hr Hone) as [l1 Hl1].
  destruct IH as [l2 Hl2]; [by eapply program_reachable; [apply rtc_once|]|].
  exists (l2 ++ l1). by rewrite Hl2, Hl1, app_assoc.
Qed.

(** So does the log of every partition, at its end. *)
Lemma log_of_grows p w w' l :
  w_topic w' = l ++ w_topic w → ∃ k, log_of topic p w' = log_of topic p w ++ k.
Proof. intros Ht. unfold log_of. rewrite Ht, rev_app_distr, filter_app. by eexists. Qed.

Lemma log_of_lookup p w w' l off rec :
  w_topic w' = l ++ w_topic w → log_of topic p w !! off = Some rec → log_of topic p w' !! off = Some rec.
Proof. intros [k ->]%(log_of_grows p) Hoff. by apply lookup_app_l_Some. Qed.

(** Everything below the committed offsets is settled, and a running process
    reads on from there. *)
Record consumer_ok (w : World) (c : C) (running : bool) : Prop := {
  ck_reachable : reachable (w_db w);
  ck_length p : (committed c p ≤ length (log_of topic p w))%nat;
  ck_settled p off rec : (off < committed c p)%nat → log_of topic p w !! off = Some rec →
    settled topic (rec_value rec) (w_db w);
  ck_position p : running = true → position c p = committed c p
}.

Lemma consumer_ok_system w w' c b : consumer_ok w c b → rtc program_step w w' → consumer_ok w' c b.
Proof.
  intros [Hr Hlen Hset Hpos] Hs. destruct (program_steps_topic _ _ Hr Hs) as [l Hl].
  split; [by eapply program_reachable| | |done].
  - intros p. destruct (log_of_grows p _ _ _ Hl) as [k ->]. rewrite length_app. specialize (Hlen p). lia.
  - intros p off rec Hoff Hrec. destruct (log_of_grows p _ _ _ Hl) as [k Hk]. rewrite Hk in Hrec.
    specialize (Hlen p). rewrite lookup_app_l in Hrec by lia.
    eapply settled_later; [by eapply program_steps_rtc|]. by eapply Hset.
Qed.

(** Committed offsets as they were: the process may only have stopped. *)
Lemma consumer_ok_same w c c' b b' :
  consumer_ok w c b → (∀ p, committed c' p = committed c p) →
  (∀ p, b' = true → position c' p = committed c' p) → consumer_ok w c' b'.
Proof.
  intros [Hr Hlen Hset _] Hcom Hpos. split; [done| | |done].
  - intros p. by rewrite Hcom.
  - intros p off rec. rewrite Hcom. apply Hset.
Qed.

Lemma log_of_in t p w off rec : log_of t p w !! off = Some rec → rec ∈ w_topic w ∧ rec_topic rec = t.
Proof.
  intros Hrec%list_elem_of_lookup_2. unfold log_of in Hrec. apply list_elem_of_filter in Hrec as [[Ht _] Hin].
  split; [|done]. by apply list_elem_of_In, in_rev, list_elem_of_In.
Qed.

Lemma handed_steps w c p r w' : handed (topic := topic) record_handler w c p r w' → rtc program_step w w'.
Proof.
  intros (rec & Hrec & Hh). unfold record_handler in Hh. cbn in Hh.
  destruct (log_of_in _ _ _ _ _ Hrec) as [Hin Ht]. rewrite <- Ht in Hh at 1.
  pose proof (handleRecord_steps topic rec w Hin) as Hc. by rewrite Hh in Hc.
Qed.

Lemma consumer_ok_turned w c t w' c' :
  consumer_ok w c true → turned (topic := topic) record_handler w c w' c' t →
  consumer_ok w' c' (match t with Continue => true | Return _ => false end).
Proof.
  intros Hok Ht. pose proof (ck_position _ _ _ Hok) as Hpos.
  destruct Ht as [t -> Hsame|p err r Hd Hcom|p r Hd Hcom|p t Hd Hcom Hnext].
  - eapply consumer_ok_same; [exact Hok|intros p; apply Hsame|]. intros p _. destruct (Hsame p) as [-> ->]. by apply Hpos.
  - apply (consumer_ok_same _ c _ true); [|done..]. eapply consumer_ok_system; [exact Hok|by eapply handed_steps].
  - apply (consumer_ok_same _ c _ true); [|done..]. eapply consumer_ok_system; [exact Hok|by eapply handed_steps].
  - pose proof (handed_steps _ _ _ _ _ Hd) as Hs. pose proof (consumer_ok_system _ _ _ _ Hok Hs) as [Hr Hlen Hset _].
    destruct Hd as (rec & Hrec & Hh). rewrite Hpos in * by done.
    destruct (program_steps_topic _ _ (ck_reachable _ _ _ Hok) Hs) as [l Hl].
    pose proof (log_of_lookup _ _ _ _ _ _ Hl Hrec) as Hrec'.
    split; [done| | |].
    + intros q. rewrite Hcom. case_bool_decide as Hq; [subst q|apply Hlen]. by apply lookup_lt_Some in Hrec'.
    + intros q off rec'. rewrite Hcom. case_bool_decide as Hq; [subst q|apply Hset].
      intros Hoff Hrec2. destruct (decide (off = committed c p)) as [->|Hne]; [|eapply Hset; [|exact Hrec2]; lia].
      simplify_eq. by apply handleRecord_settled in Hh.
    + destruct t; [|done]. intros q _. rewrite Hnext, Hcom by done. case_bool_decide; [done|by apply Hpos].
Qed.

Lemma consumer_step_ok w c b w' c' b' :
  consumer_step (w, c, b) (w', c', b') → consumer_ok w c b → consumer_ok w' c' b'.
Proof.
  intros Hs Hok. inversion Hs as [? ? ? ? Hp|? ? c0 ? ? Hcom Hsub|? ? ? ? ? Hsub|? ? ? ? Ht|? ? ? ? ? Ht]; subst.
  - eapply consumer_ok_system; [exact Hok|by apply rtc_once].
  - eapply consumer_ok_same; [exact Hok| |].
    + intros p. by rewrite (Subscribe_committed _ _ _ Hsub p), Hcom.
    + intros p _. by rewrite (Subscribe_position _ _ Hsub p).
  - eapply consumer_ok_same; [exact Hok|by eapply Subscribe_committed|done].
  - by apply (consumer_ok_turned w c Continue); [|apply turn_cases].
  - by eapply (consumer_ok_turned w c (Return _)); [|apply turn_cases].
Qed.

Lemma consumer_run_ok recs w c b : consumer_run_from recs (w, c, b) → consumer_ok w c b.
Proof.
  intros (w0 & c0 & Hdb & Ht & Hcom & Hs).
  assert (consumer_ok w0 c0 false) as Hok.
  { split; [rewrite Hdb; by unfold reachable|intros p; rewrite Hcom; lia|intros p off rec; rewrite Hcom; lia|done]. }
  apply (rtc_invariant _ (λ st, consumer_ok st.1.1 st.1.2 st.2) _ _) in Hs; [exact Hs| |exact Hok].
  intros [[w1 c1] b1] [[w2 c2] b2]. apply consumer_step_ok.
Qed.
(** The other processes see a run of the system. *)
Lemma consumer_step_program w c b w' c' b' : consumer_step (w, c, b) (w', c', b') → rtc program_step w w'.
Proof.
  intros Hs. inversion Hs as [? ? ? ? Hp|? ? ? ? ? _ _|? ? ? ? ? _|? ? ? ? Ht|? ? ? ? ? Ht]; subst; [by apply rtc_once|done..| |];
    apply turn_cases in Ht as [? -> _|? ? ? Hd _|? ? Hd _|? ? Hd _ _]; try done; by eapply handed_steps.
Qed.

Lemma consumer_run_program w c b : consumer_run (w, c, b) → program_run w.
Proof.
  intros (w0 & c0 & Hdb & Ht & _ & Hs). exists w0. split_and!; [done..|].
  apply (rtc_through _ program_step (λ st, st.1.1)) in Hs; [exact Hs|].
  intros [[w1 c1] b1] [[w2 c2] b2]. apply consumer_step_program.
Qed.

Lemma Run_steps n w c b r w' c' :
  topic ≠ "" → KafkaConsumer.Run n topic (Some record_handler) (w, c) = (r, (w', c')) →
  rtc consumer_step (w, c, b) (w', c', match r with None => true | Some _ => false end).
Proof.
  intros Htop. unfold KafkaConsumer.Run. rewrite bool_decide_eq_false_2 by done.
  destruct (SubscribeTopics topic c) as [[[]|err] c1] eqn:Hsub; [|intros [= <- <- <-]; by apply rtc_once, cs_unsubscribed with err].
  intros Hrun. eapply rtc_l; [by apply (cs_start w c c c1)|]. clear Hsub b c. revert w c1 Hrun.
  induction n as [|n IH]; cbn [consume]; intros w c Hrun; [by injection Hrun as <- <- <-|].
  destruct (turn topic record_handler (w, c)) as [t [w1 c1]] eqn:Ht. destruct t as [|r0].
  - eapply rtc_l; [by apply cs_turn|by apply IH].
  - injection Hrun as <- <- <-. by eapply rtc_once, cs_return.
Qed.

(** The loop of the program is made of these steps: [Run] with the handler
    of cmd/consumer, for any number of turns, is a start and then turns of the
    consumer process, the last of which returned if [Run] did. *)
Lemma Run_conforms n w c b r w' c' :
  topic ≠ "" → KafkaConsumer.Run n topic (Some record_handler) (w, c) = (r, (w', c')) →
  rtc consumer_step (w, c, b) (w', c', match r with None => true | Some _ => false end).
Proof. apply Run_steps. Qed.

(** A record of the topic has its place in the log of its partition. *)
Lemma log_of_place w rec :
  rec ∈ w_topic w → rec_topic rec = topic → ∃ off, log_of topic (partition_of (rec_key rec)) w !! off = Some rec.
Proof.
  intros Hin Ht. apply list_elem_of_lookup_1. unfold log_of. apply list_elem_of_filter. split; [done|].
  by apply list_elem_of_In, in_rev; rewrite rev_involutive; apply list_elem_of_In.
Qed.

(** When everything below some offsets is settled, its customers are notified;
    and every published event has its place in a partition. *)
Lemma settled_notified w (offs : Z → nat) :
  reachable (w_db w) →
  (∀ p off rec, (off < offs p)%nat → log_of topic p w !! off = Some rec → settled topic (rec_value rec) (w_db w)) →
  ∀ p off rec, (off < offs p)%nat → log_of topic p w !! off = Some rec →
     (∃ e, check_message topic (rec_value rec) = Err e) ∨
     ∃ message userID id did d, check_message topic (rec_value rec) = Ok (message, userID) ∧
       UUID_Scan (OutboxMessage_ID message) = Some id ∧
       notification_deliveries (w_db w) !! did = Some d ∧ NotificationDelivery_EventID d = id ∧
       NotificationDelivery_Status d = NotificationStatusSent.
Proof.
  intros Hr Hset p off rec Hoff Hrec.
  destruct (Hset _ _ _ Hoff Hrec) as [?|(m & u & id & Hc & Hid & [pe Hpe])]; [by left|]. right.
  destruct (reachable_notified _ Hr) as [Hd Hp _]. apply Hp in Hpe as [_ (did & d & Hdid & He)].
  exists m, u, id, did, d. split_and!; try done. by apply Hd in Hdid as [? _].
Qed.

Lemma published_in_partition w n id e :
  program_run w → outbox_events (w_db w) !! id = Some e → is_Some (OutboxEvent_PublishedAt e) →
  ∃ rec off, event_record (mkConfig topic n) e = Some rec ∧
    log_of topic (partition_of (UUID_String (OutboxEvent_PartitionKey e))) w !! off = Some rec.
Proof.
  intros Hrun He Hp. destruct (program_run_log _ _ n Hrun) as [Hsent _]. destruct (Hsent _ _ He Hp) as (rec & Hrec & Hin).
  assert (rec_topic rec = topic ∧ rec_key rec = UUID_String (OutboxEvent_PartitionKey e)) as [Ht <-].
  { unfold event_record in Hrec. by destruct (MarshalMessage _); simplify_eq. }
  destruct (log_of_place _ _ Hin Ht) as [off Hoff]. by exists rec, off.
Qed.

(** One process in its group: a record below the committed offset is no event
    or its customer is notified. *)
Lemma consumer_skips_nothing w c b :
  consumer_run (w, c, b) →
  (∀ p off rec, (off < committed c p)%nat → log_of topic p w !! off = Some rec →
     (∃ e, check_message topic (rec_value rec) = Err e) ∨
     ∃ message userID id did d, check_message topic (rec_value rec) = Ok (message, userID) ∧
       UUID_Scan (OutboxMessage_ID message) = Some id ∧
       notification_deliveries (w_db w) !! did = Some d ∧ NotificationDelivery_EventID d = id ∧
       NotificationDelivery_Status d = NotificationStatusSent) ∧
  (∀ p, (committed c p ≤ length (log_of topic p w))%nat).
Proof.
  intros Hrun. pose proof (consumer_run_ok _ _ _ _ Hrun) as [Hr Hlen Hset _]. split; [|done].
  by apply settled_notified.
Qed.

(** *** A record that stops its partition *)

Definition blocked (p : Z) (off : nat) (st : World * C * bool) : Prop :=
  ∃ rec message userID, log_of topic p st.1.1 !! off = Some rec ∧
    check_message topic (rec_value rec) = Ok (message, userID) ∧ UUID_Scan (OutboxMessage_ID message) = None ∧
    committed st.1.2 p = off.

Lemma blocked_turned p w c t w' c' :
  consumer_ok w c true → turned (topic := topic) record_handler w c w' c' t →
  blocked p (committed c p) (w, c, true) → committed c' p = committed c p.
Proof.
  intros Hok Ht (rec & m & u & Hrec & Hc & Hid & _). cbn in Hrec.
  destruct Ht as [? _ Hsame|? ? ? _ Hcom|? ? _ Hcom|q ? (rec' & Hrec' & Hh) Hcom _]; [apply Hsame|apply Hcom..|].
  rewrite Hcom. case_bool_decide; [subst q|done]. exfalso.
  rewrite (ck_position _ _ _ Hok) in Hrec' by done. simplify_eq. unfold record_handler in Hh. cbn in Hh.
  apply handleRecord_settled in Hh as [[e He]|(m' & u' & id & Hc' & Hid' & _)]; congruence.
Qed.

Lemma blocked_step p off st st' :
  consumer_ok st.1.1 st.1.2 st.2 → consumer_step st st' → blocked p off st → blocked p off st'.
Proof.
  destruct st as [[w c] b], st' as [[w' c'] b']. cbn [fst snd]. intros Hok Hs Hb.
  pose proof (consumer_step_program _ _ _ _ _ _ Hs) as Hp.
  destruct (program_steps_topic _ _ (ck_reachable _ _ _ Hok) Hp) as [l Hl].
  assert (committed c' p = committed c p) as Hcom.
  { destruct Hb as (rec & m & u & Hrec & Hc & Hid & Heq). cbn in *. subst off.
    inversion Hs as [|? ? c0 ? ? Hc0 Hsub|? ? ? ? ? Hsub|? ? ? ? Ht|? ? ? ? ? Ht]; subst; [done| | |..].
    - by rewrite (Subscribe_committed _ _ _ Hsub p), Hc0.
    - by apply (Subscribe_committed _ _ _ Hsub).
    - eapply blocked_turned; [exact Hok|by apply turn_cases|by exists rec, m, u].
    - eapply blocked_turned; [exact Hok|by apply turn_cases|by exists rec, m, u]. }
  destruct Hb as (rec & m & u & Hrec & Hc & Hid & Heq). exists rec, m, u. cbn in *.
  split_and!; [by eapply log_of_lookup|done..|by rewrite Hcom].
Qed.

(** C35. A record whose id google/uuid accepts and pgx does not (another
    program put it in the topic) stops its partition for good: once the group
    has committed up to it, no restart and no later turn gets beyond it. *)
Theorem partition_stuck recs w c b w' c' b' p rec message userID :
  consumer_run_from recs (w, c, b) → log_of topic p w !! committed c p = Some rec →
  check_message topic (rec_value rec) = Ok (message, userID) → UUID_Scan (OutboxMessage_ID message) = None →
  rtc consumer_step (w, c, b) (w', c', b') → committed c' p = committed c p.
Proof.
  intros Hrun Hrec Hc Hid Hs. apply consumer_run_ok in Hrun.
  apply (rtc_invariant _ (λ st, consumer_ok st.1.1 st.1.2 st.2 ∧ blocked p (committed c p) st) _ _) in Hs as [_ Hb].
  - by destruct Hb as (? & ? & ? & _ & _ & _ & Heq).
  - intros [[w1 c1] b1] [[w2 c2] b2] Hone [Hok Hb]. split; [by eapply consumer_step_ok|by eapply blocked_step].
  - split; [done|]. by exists rec, message, userID.
Qed.
End delivery.
