(* ===== verification/Liveness.v ===== *)
(** * Every event reaches its customer

    When the publisher and the consumer get to run undisturbed, the events
    that any run of the system left in the outbox are sent in the order of
    creation, and every event ends in one notification of the customer of its
    order. *)

From S2P Require Import Prelude GoStrings Json Models World.
From S2P Require Import Sqlc.
From S2P Require Import Store.
From S2P Require Import OrderService.
From S2P Require Import Spec OrderRefine Evolution Invariants Bookkeeping.
From S2P Require Import Auth.
From S2P Require Import Publisher Drain.
From S2P Require Import Consumer Envelope.
From S2P Require Import KafkaConsumer.
From S2P Require Import System Recipients Delivery.

(** A client whose context goes on, whose polls find what is in the log of the
    partitions that are assigned to it, and whose commits are answered. *)
Class LiveClient `(ConsumerClient C) (topic : string) := {
  assigned : C → Z → Prop;
  live_ctx c : ∃ c', ctx_Err c = (None, c') ∧ ∀ p, assigned c' p ↔ assigned c p;
  live_poll t w c p rec :
    assigned c p → log_of topic p w !! position c p = Some rec → ∃ m c', Poll t w c = (MessageEvent m, c');
  live_poll_message t w c m c' : Poll t w c = (MessageEvent m, c') → assigned c (Message_Partition m);
  live_poll_assigned t w c e c' : Poll t w c = (e, c') → ∀ p, assigned c' p ↔ assigned c p;
  live_error t w c e c' : Poll t w c = (e, c') → ∀ fatal err, e ≠ ErrorEvent fatal err;
  live_commit m c : ∃ c', CommitMessage m c = (Ok tt, c') ∧ ∀ p, assigned c' p ↔ assigned c p
}.

(** ** The handler makes progress *)

Section progress.
Context `{External} `{!ExternalLaws _}.
Implicit Types (w : World).

(** The next [k] UUIDs that are generated are new as keys of deliveries. *)
Definition fresh_ids (k : nat) (w : World) : Prop :=
  ∀ i, (i < k)%nat → ∃ id, UUID_Scan (uuid_NewString (w_seed w + i)) = Some id ∧
    notification_deliveries (w_db w) !! id = None ∧
    ∀ j, (j < i)%nat → UUID_Scan (uuid_NewString (w_seed w + j)) ≠ Some id.

Lemma fresh_ids_same k w w' :
  w_seed w' = w_seed w → notification_deliveries (w_db w') = notification_deliveries (w_db w) → fresh_ids k w → fresh_ids k w'.
Proof. unfold fresh_ids. by intros -> ->. Qed.

Lemma fresh_ids_fewer k k' w : (k' ≤ k)%nat → fresh_ids k w → fresh_ids k' w.
Proof. intros Hle Hf i Hi. apply Hf. lia. Qed.

Lemma fresh_ids_next k w w' d :
  w_seed w' = S (w_seed w) → UUID_Scan (uuid_NewString (w_seed w)) = Some (NotificationDelivery_ID d) →
  notification_deliveries (w_db w') = <[NotificationDelivery_ID d := d]> (notification_deliveries (w_db w)) →
  fresh_ids (S k) w → fresh_ids k w'.
Proof.
  intros Hs Hd Hdb Hf i Hi. destruct (Hf (S i)) as (id & Hid & Hnew & Hother); [lia|]. exists id.
  rewrite Hs, Hdb. replace (S (w_seed w) + i)%nat with (w_seed w + S i)%nat by lia. split_and!; [done| |].
  - rewrite lookup_insert_ne; [done|]. intros Heq. apply (Hother 0%nat); [lia|]. by rewrite Nat.add_0_r, Hd, Heq.
  - intros j Hj. replace (S (w_seed w) + j)%nat with (w_seed w + S j)%nat by lia. apply Hother. lia.
Qed.

(** A record that the consumer refuses at once, or can store. *)
Definition readable (source value : string) : Prop :=
  ∀ message userID, check_message source value = Ok (message, userID) →
    is_Some (UUID_Scan (OutboxMessage_ID message)) ∧ text_ok userID = true.

Lemma Handle_progress source value w k :
  undisturbed w → readable source value → fresh_ids (S k) w →
  (∃ e, check_message source value = Err e) ∨
  ∃ w', Handle source value w = (Ok tt, w') ∧ (w_tick w ≤ w_tick w')%nat ∧ fresh_ids k w'.
Proof.
  intros Hw Hread Hf. destruct (check_message source value) as [[message userID]|e] eqn:Hc; [right|left; by exists e].
  destruct (Hread _ _ Hc) as [[id Hid] Ht].
  pose proof (λ i, proj1 (Hw i)) as Hfault. set (w0 := set_txnow (Some (clock (w_tick w))) (next_tick w)).
  destruct (processed_events (w_db w) !! (id, ConsumerNameNotification)) as [pe|] eqn:Hp.
  - eexists. split; [eapply (Handle_checked _ _ _ _ _ true); [exact Hc|]; eapply WithTx_eval|].
    + at_tick w 0%nat. apply Hfault.
    + apply (handle_tx_duplicate _ _ w0 id); [at_tick w 1%nat; apply Hfault|done|by exists pe].
    + at_tick w 2%nat. apply Hfault.
    + cbn. split; [lia|]. eapply fresh_ids_same; [..|by eapply fresh_ids_fewer; [|exact Hf]; lia]; done.
  - destruct (Hf 0%nat) as (nid & Hnid & Hnew & _); [lia|]. rewrite Nat.add_0_r in Hnid.
    destruct (handle_tx_new (OutboxMessage_ID message) userID w0 id nid) as (w1 & Hrun & Htick & Hseed & d & Hd & Hdb);
      [at_tick w 1%nat; apply Hfault|at_tick w 2%nat; apply Hfault|done..|].
    eexists. split; [eapply (Handle_checked _ _ _ _ _ false); [exact Hc|]; eapply WithTx_eval|].
    + at_tick w 0%nat. apply Hfault.
    + exact Hrun.
    + rewrite Htick. at_tick w 3%nat. apply Hfault.
    + cbn. split; [rewrite Htick; cbn; lia|]. apply (fresh_ids_next _ w _ d); [done|by rewrite Hd|done|done].
Qed.

Lemma handleRecord_progress source value w k :
  undisturbed w → readable source value → fresh_ids (S k) w →
  ∃ w', handleRecord source value w = (Ok tt, w') ∧ undisturbed w' ∧ fresh_ids k w'.
Proof.
  intros Hw Hread Hf. unfold handleRecord. destruct (Handle_progress _ _ _ _ Hw Hread Hf) as [[e Hc]|(w' & Hrun & Htick & Hf')].
  - exists w. rewrite (bind_eval _ _ _ (Err e) w).
    + cbn. rewrite (check_message_err _ _ _ Hc). split_and!; [done..|]. eapply fresh_ids_fewer; [|exact Hf]. lia.
    + apply try_eval. unfold Handle. by rewrite (bind_eval_err _ _ _ e w) by (unfold lift; by rewrite Hc).
  - exists w'. rewrite (bind_eval _ _ _ (Ok tt) w') by by apply try_eval.
    split_and!; [done|by eapply undisturbed_later|done].
Qed.
End progress.

(** ** Sums over the partitions *)

Lemma sum_list_with_lt {A} (f g : A → nat) (l : list A) x :
  (∀ y, (f y ≤ g y)%nat) → x ∈ l → (f x < g x)%nat → (sum_list_with f l < sum_list_with g l)%nat.
Proof.
  intros Hle Hx Hlt. assert (∀ l, (sum_list_with f l ≤ sum_list_with g l)%nat) as Hall.
  { clear l Hx. induction l as [|y l IH]; cbn; [done|]. specialize (Hle y). lia. }
  induction l as [|y l IH]; [by apply elem_of_nil in Hx|]. cbn. apply elem_of_cons in Hx as [<-|Hx].
  - specialize (Hall l). lia.
  - specialize (IH Hx). specialize (Hle y). lia.
Qed.

Lemma sum_list_with_zero {A} (f : A → nat) (l : list A) x : sum_list_with f l = 0%nat → x ∈ l → f x = 0%nat.
Proof.
  induction l as [|y l IH]; intros Hs Hx; [by apply elem_of_nil in Hx|]. cbn in Hs.
  apply elem_of_cons in Hx as [->|Hx]; [lia|]. apply IH; [lia|done].
Qed.

(** The parts of a list under disjoint conditions are not longer than it. *)
Lemma sum_parts {A B} (part : A → B → Prop) `{∀ a b, Decision (part a b)} (ps : list B) (l : list A) :
  NoDup ps → (∀ a b b', part a b → part a b' → b = b') →
  (sum_list_with (λ b, length (base.filter (λ a, part a b) l)) ps ≤ length l)%nat.
Proof.
  intros Hnd Hdisj. induction l as [|a l IH]; [clear; by induction ps|].
  assert (∀ b, length (base.filter (λ a, part a b) (a :: l)) =
    ((if decide (part a b) then 1 else 0) + length (base.filter (λ a, part a b) l))%nat) as Hcons.
  { intros b. rewrite filter_cons. by destruct (decide (part a b)). }
  assert (sum_list_with (λ b, if decide (part a b) then 1 else 0)%nat ps ≤ 1)%nat as Hone.
  { clear IH Hcons. induction Hnd as [|b ps Hb _ IH]; cbn; [lia|]. destruct (decide (part a b)) as [Hp|]; [|lia].
    enough (sum_list_with (λ b, if decide (part a b) then 1 else 0)%nat ps = 0)%nat as ->; [lia|]. clear IH.
    induction ps as [|b' ps IH]; cbn; [done|]. apply not_elem_of_cons in Hb as [Hne Hb]. rewrite IH by done.
    destruct (decide (part a b')); [|done]. by destruct Hne; eapply Hdisj. }
  assert (∀ ps, sum_list_with (λ b, length (base.filter (λ a, part a b) (a :: l))) ps =
    (sum_list_with (λ b, if decide (part a b) then 1 else 0) ps +
     sum_list_with (λ b, length (base.filter (λ a, part a b) l)) ps)%nat) as ->; [|cbn; lia].
  clear -Hcons. induction ps as [|b ps IH]; cbn -[base.filter]; [done|]. rewrite IH, Hcons. lia.
Qed.

(** ** The consumer catches up *)

Lemma Handle_events `{External} source value w :
  outbox_events (w_db (Handle source value w).2) = outbox_events (w_db w).
Proof.
  destruct (Handle source value w) as [r w'] eqn:Hr. cbn [snd].
  apply Handle_cases in Hr as [(? & _ & _ & ->)|(m & u & _ & [[-> _]|(id & dup & _ & Hh & _)])]; [done..|].
  by destruct Hh as [_ ->|? ? _ _ _ _ _ _ _ _ -> _].
Qed.

Lemma handleRecord_events `{External} source value w :
  outbox_events (w_db (handleRecord source value w).2) = outbox_events (w_db w).
Proof.
  unfold handleRecord, bind, try. rewrite <- (Handle_events source value w).
  destruct (Handle _ _ w) as [[u|e] w']; [done|]. by destruct (errors_Is e _).
Qed.

Section consume.
Context `{External} `{!ExternalLaws _} `{AuthExternal} `{P : Producer} `{!ProducerLaws P}.
Context (topic : string) `{CC : ConsumerClient C} `{!ConsumerClientLaws CC topic} `{!LiveClient CC topic}.
Implicit Types (w : World) (c : C).

(** What a turn leaves alone. *)
Record same_log (w w' : World) : Prop := {
  sl_steps : rtc (program_step topic) w w';
  sl_topic : w_topic w' = w_topic w;
  sl_events : outbox_events (w_db w') = outbox_events (w_db w)
}.

Lemma same_log_refl w : same_log w w.
Proof. done. Qed.

Lemma same_log_trans w1 w2 w3 : same_log w1 w2 → same_log w2 w3 → same_log w1 w3.
Proof. intros [? ? ?] [? ? ?]. split; [by etransitivity|congruence|congruence]. Qed.

Lemma log_of_same p w w' : w_topic w' = w_topic w → log_of topic p w' = log_of topic p w.
Proof. unfold log_of. by intros ->. Qed.

(** What a turn needs to go well, with [k] deliveries to make. *)
Record ready (k : nat) (w : World) : Prop := {
  rd_calm : undisturbed w;
  rd_ids : fresh_ids k w;
  rd_readable rec : rec ∈ w_topic w → readable topic (rec_value rec)
}.

Lemma ready_fewer k k' w : (k' ≤ k)%nat → ready k w → ready k' w.
Proof. intros Hle [Hw Hf Hr]. split; [done| |done]. by eapply fresh_ids_fewer. Qed.

(** A turn that found nothing to read, or handled and committed one record of
    a partition of the client. *)
Definition nothing_new (w : World) (c : C) (w' : World) (c' : C) : Prop :=
  w' = w ∧ (∀ p, position c' p = position c p ∧ committed c' p = committed c p) ∧
  ∀ p, assigned c p → (length (log_of topic p w) ≤ position c p)%nat.

Definition one_more (p : Z) (w : World) (c : C) (c' : C) : Prop :=
  assigned c p ∧ (position c p < length (log_of topic p w))%nat ∧
  (∀ q, committed c' q = if bool_decide (q = p) then S (position c p) else committed c q) ∧
  (∀ q, position c' q = if bool_decide (q = p) then S (position c p) else position c q).

(** The loop goes on. *)
Lemma turn_progress k w c :
  ready (S k) w →
  ∃ w' c', turn topic record_handler (w, c) = (Continue, (w', c')) ∧ ready k w' ∧ same_log w w' ∧
    (∀ p, assigned c' p ↔ assigned c p) ∧ (nothing_new w c w' c' ∨ ∃ p, one_more p w c c').
Proof.
  intros Hready. pose proof Hready as [Hw Hf Hread].
  destruct (live_ctx c) as (c1 & H1 & A1). pose proof (ctx_Err_frame _ _ _ H1) as F1.
  destruct (Poll consumerPollTimeoutMilliseconds w c1) as [ev c2] eqn:H2.
  pose proof (live_poll_assigned _ _ _ _ _ H2) as A2.
  assert ((∀ m, ev ≠ MessageEvent m) → nothing_new w c w c2) as Hidle.
  { intros Hm. pose proof (Poll_other _ _ _ _ _ H2 Hm) as F2. split_and!; [done| |].
    - intros p. destruct (F2 p) as [-> ->]. apply F1.
    - intros p Hp%A1. destruct (F1 p) as [Hp1 _]. apply Nat.nlt_ge. rewrite <- Hp1.
      intros [rec Hrec]%lookup_lt_is_Some. destruct (live_poll consumerPollTimeoutMilliseconds _ _ _ _ Hp Hrec) as (m & c3 & Hpoll).
      rewrite H2 in Hpoll. injection Hpoll as -> _. by destruct (Hm m). }
  assert (∀ p, assigned c2 p ↔ assigned c p) as A12 by (intros p; by rewrite A2, A1).
  destruct ev as [|m|b err|].
  1, 4: exists w, c2; split_and!; [unfold turn; by rewrite H1, H2|eapply ready_fewer; [|exact Hready]; lia|done|done|left; by apply Hidle].
  2: by destruct (live_error _ _ _ _ _ H2 b err).
  clear Hidle. pose proof (live_poll_message _ _ _ _ _ H2) as Hmine. destruct (Poll_record _ _ _ _ _ H2) as (rec & Hrec & Hr).
  destruct (Poll_message _ _ _ _ _ H2) as (Hoff & _ & Hpos2 & Hcom2).
  set (p := Message_Partition m) in *. destruct (F1 p) as [Hp1 _]. rewrite Hp1 in Hrec, Hoff, Hr.
  destruct (log_of_in _ _ _ _ _ Hrec) as [Hin Ht].
  destruct (handleRecord_progress topic (rec_value rec) w k Hw (Hread _ Hin) Hf) as (w' & Hrun & Hw' & Hf').
  destruct (live_ctx c2) as (c3 & H3 & A3). pose proof (ctx_Err_frame _ _ _ H3) as F3.
  destruct (live_commit m c3) as (c4 & H4 & A4). pose proof (Commit_ok _ _ _ H4) as F4. pose proof (Commit_position _ _ _ _ H4) as P4.
  assert (turn topic record_handler (w, c) = (Continue, (w', c4))) as Hturn.
  { unfold turn. rewrite H1, H2. cbv zeta. rewrite Hr. unfold record_handler. cbn [Record_Topic Record_Value]. by rewrite Hrun, H3, H4. }
  pose proof (handleRecord_topic topic (rec_value rec) w) as Htopic.
  pose proof (handleRecord_events topic (rec_value rec) w) as Hev. rewrite Hrun in Htopic, Hev. cbn [snd] in *.
  exists w', c4. split_and!; [done|split; [done|done|by rewrite Htopic]| | |].
  - split; [|done|done]. pose proof (handleRecord_steps topic rec w Hin) as Hs. by rewrite Ht, Hrun in Hs.
  - intros q. by rewrite A4, A3, A12.
  - right. exists p. split_and!; [by apply A1|by apply lookup_lt_Some in Hrec| |].
    + intros q. rewrite F4, Hoff, Nat2Z.id. fold p. case_bool_decide; [done|]. destruct (F3 q) as [_ ->]. rewrite Hcom2. apply F1.
    + intros q. rewrite P4. destruct (F3 q) as [-> _]. rewrite Hpos2. destruct (F1 q) as [-> _]. by case_bool_decide; subst.
Qed.

(** Everything was read, up to the offsets [offs]. *)
Definition read_up (w : World) (offs : Z → nat) : Prop := ∀ p, (length (log_of topic p w) ≤ offs p)%nat.

(** The records beyond the offsets [offs], in the partitions [ps]. *)
Definition lag (ps : list Z) (w : World) (offs : Z → nat) : nat :=
  sum_list_with (λ p, (length (log_of topic p w) - offs p)%nat) ps.

(** The partitions that have a record. *)
Definition partitions (w : World) : list Z := remove_dups (partition_of ∘ rec_key <$> w_topic w).

Lemma elem_of_partitions p w : log_of topic p w ≠ [] → p ∈ partitions w.
Proof.
  intros Hp. destruct (log_of topic p w) as [|rec l] eqn:Hl; [done|]. apply elem_of_remove_dups, list_elem_of_fmap.
  assert (rec ∈ log_of topic p w) as Hin by (rewrite Hl; apply list_elem_of_here).
  apply list_elem_of_filter in Hin as [[_ Hp'] Hin]. exists rec. split; [done|].
  by apply list_elem_of_In, in_rev, list_elem_of_In.
Qed.

Lemma lag_same ps w w' offs offs' :
  w_topic w' = w_topic w → (∀ p, offs' p = offs p) → lag ps w' offs' = lag ps w offs.
Proof.
  intros Ht Heq. unfold lag. induction ps as [|p ps IH]; cbn; [done|]. by rewrite IH, Heq, (log_of_same _ _ _ Ht).
Qed.

Lemma lag_bump ps p w w' offs offs' :
  w_topic w' = w_topic w → (offs p < length (log_of topic p w))%nat → p ∈ ps →
  (∀ q, offs' q = if bool_decide (q = p) then S (offs p) else offs q) → (lag ps w' offs' < lag ps w offs)%nat.
Proof.
  intros Ht Hp Hin Hoffs. apply (sum_list_with_lt _ _ _ p); [|done|].
  - intros q. rewrite (log_of_same _ _ _ Ht), Hoffs. case_bool_decide; subst; lia.
  - rewrite (log_of_same _ _ _ Ht), Hoffs, bool_decide_eq_true_2 by done. lia.
Qed.

Lemma lag_zero w offs : lag (partitions w) w offs = 0%nat → read_up w offs.
Proof.
  intros Hzero p. destruct (decide (log_of topic p w = [])) as [->|Hne%elem_of_partitions]; [cbn; lia|].
  apply (sum_list_with_zero _ _ p) in Hzero; [cbn beta in Hzero; lia|done].
Qed.

Lemma read_up_lag ps w offs : read_up w offs → lag ps w offs = 0%nat.
Proof. intros Hup. unfold lag. induction ps as [|p ps IH]; cbn; [done|]. specialize (Hup p). lia. Qed.

(** It is at most the length of the topic. *)
Lemma lag_topic w offs : (lag (partitions w) w offs ≤ length (w_topic w))%nat.
Proof.
  rewrite <- (length_rev (w_topic w)).
  etransitivity; [|apply (sum_parts (λ rec p, rec_topic rec = topic ∧ partition_of (rec_key rec) = p) (partitions w));
    [apply NoDup_remove_dups|by intros rec p p' [_ <-] [_ <-]]].
  unfold lag. generalize (partitions w). intros ps.
  induction ps as [|p ps IH]; cbn -[log_of base.filter]; [done|]. unfold log_of at 1. lia.
Qed.

(** *** A process that is alone in its group *)

Context (all_assigned : ∀ (c : C) (p : Z), assigned c p).

Lemma turn_alone ps k w c :
  consumer_ok topic w c true → ready (S k) w → (∀ p, log_of topic p w ≠ [] → p ∈ ps) →
  ∃ w' c', turn topic record_handler (w, c) = (Continue, (w', c')) ∧ consumer_ok topic w' c' true ∧ ready k w' ∧ same_log w w' ∧
    (read_up w' (committed c') ∨ (lag ps w' (committed c') < lag ps w (committed c))%nat).
Proof.
  intros Hok Hready Hps.
  destruct (turn_progress _ _ c Hready) as (w' & c' & Ht & Hready' & Hlog & _ & Hnext). exists w', c'.
  pose proof (ck_position _ _ _ _ Hok) as Hp. assert (consumer_ok topic w' c' true) as Hok'
    by (apply turn_cases in Ht; by apply (consumer_ok_turned topic w c Continue)).
  split_and!; [done..|]. destruct Hnext as [(-> & Hsame & Hread)|(p & _ & Hlt & Hcom & _)].
  - left. intros p. destruct (Hsame p) as [_ ->]. rewrite <- Hp by done. apply Hread, all_assigned.
  - right. rewrite Hp in Hlt, Hcom by done. apply (lag_bump _ p); [apply Hlog|done| |done].
    apply Hps. by destruct (log_of topic p w); cbn in Hlt; [lia|].
Qed.

Lemma consume_catches_up k w c :
  consumer_ok topic w c true → ready k w → (lag (partitions w) w (committed c) ≤ k)%nat →
  ∃ w' c', consume k topic record_handler (w, c) = (None, (w', c')) ∧ consumer_ok topic w' c' true ∧
    same_log w w' ∧ read_up w' (committed c').
Proof.
  revert w c. induction k as [|k IH]; intros w c Hok Hready Hlag.
  - exists w, c. split_and!; [done..|]. apply lag_zero. lia.
  - destruct (turn_alone (partitions w) k w c) as (w1 & c1 & Hturn & Hok1 & Hready1 & Hlog1 & Hnext);
      [done..|by intros p; apply elem_of_partitions|].
    assert (partitions w1 = partitions w) as Hparts by (unfold partitions; by rewrite (sl_topic _ _ Hlog1)).
    destruct (IH w1 c1) as (w' & c' & Hrun & Hok' & Hlog & Hup); [done..| |].
    + rewrite Hparts. destruct Hnext as [Hup|Hlt]; [rewrite read_up_lag by done|]; lia.
    + exists w', c'. split_and!; [by cbn [consume]; rewrite Hturn|done|by eapply same_log_trans|done].
Qed.
End consume.

(** ** From the outbox to the customer *)

Section eventually.
Context `{External} `{!ExternalLaws _} `{!JsonbLaws _} `{AuthExternal}.
Context `{P : Producer} `{!ProducerLaws P} `{!ReliableProducer P}.
Context (topic : string) `{CC : ConsumerClient C} `{!ConsumerClientLaws CC topic} `{LC : !LiveClient CC topic}.
Implicit Types (w : World) (c : C).

Lemma addressed_record cfg db e t : addressed db e t → is_Some (event_record cfg e).
Proof.
  intros (_ & _ & (_ & ms & Hp & _) & _). unfold event_record, MarshalMessage, MarshalRaw.
  cbn [event_message Publisher.OutboxMessage_Payload]. rewrite Hp.
  case_bool_decide as He; [by rewrite He in Hp|by eexists].
Qed.

Lemma pending_records cfg db : reachable db → Forall (λ e, is_Some (event_record cfg e)) (pending db).
Proof.
  intros Hr. apply Forall_forall. intros e [_ [id He]]%elem_of_pending.
  destruct (reachable_addressed _ Hr _ _ He) as [t Ht]. by eapply addressed_record.
Qed.

(** C12. The publisher empties the outbox: from any run of the system, in
    enough undisturbed rounds ([n] events each), [Run] sends all unpublished
    events, each once, in the order of creation, as one pass over them
    would, and leaves none unpublished. *)
Theorem outbox_drains n rounds w :
  program_run topic w → 0 < n → undisturbed w →
  Z.of_nat (length (pending (w_db w))) ≤ n * Z.of_nat (S rounds) →
  ∃ es recs w', Publisher.Run (mkConfig topic n) rounds w = (Ok tt, w') ∧
    es ≡ₚ pending (w_db w) ∧ StronglySorted (asc_le OutboxEvent_CreatedAt) es ∧
    Forall2 (λ e rec, event_record (mkConfig topic n) e = Some rec) es recs ∧
    w_topic w' = rev recs ++ w_topic w ∧ pending (w_db w') = [].
Proof.
  intros Hrun%program_run_reachable Hn Hw Hlen.
  destruct (Run_drained (mkConfig topic n) rounds w) as (es & w' & Hr & Hes & Hd & Hp);
    [by apply reachable_keyed|done|done|by apply pending_records|done|].
  destruct (dr_topic _ _ _ _ Hd) as (recs & Hrecs & Htop). exists es, recs, w'.
  split_and!; [done|done|apply Hd|done..].
Qed.

Lemma program_run_later w w' : program_run topic w → rtc (program_step topic) w w' → program_run topic w'.
Proof. intros (w0 & ? & ? & Hs) Hs'. exists w0. split_and!; [done..|]. by etransitivity. Qed.

Lemma marked_dom es db db' :
  (∀ e, e ∈ es → outbox_events db !! OutboxEvent_ID e = Some e) → marked es db db' →
  dom (outbox_events db') = dom (outbox_events db).
Proof.
  intros Hst (Hin & Hout & _). apply set_eq. intros id. rewrite !elem_of_dom.
  destruct (decide (id ∈ OutboxEvent_ID <$> es)) as [Ht|Ht]; [|by rewrite Hout].
  apply list_elem_of_fmap in Ht as (e & -> & He). destruct (Hin _ He) as [now ->]. by rewrite (Hst _ He).
Qed.

(** What the consumer reads of the log, it can store. *)
Lemma log_readable w rec : program_run topic w → rec ∈ w_topic w → readable topic (rec_value rec).
Proof.
  intros Hrun Hin m u Hc. destruct (program_run_log _ _ 0 Hrun) as [_ Hsound].
  destruct (Hsound _ Hin) as (id & e & He & Hrec).
  destruct (reachable_addressed _ (program_run_reachable _ _ Hrun) _ _ He) as [t Ht].
  destruct (event_record_checked _ _ _ _ _ _ _ _ Ht Hrec Hc) as (Hid & _ & ->). split; [by rewrite Hid|].
  destruct Ht as (_ & _ & _ & o & _ & Hu & _). eapply uuid_Parse_text; [exact Hu|by eapply check_message_user].
Qed.

(** The customer of the order of the event [e] was notified of it. *)
Definition customer_notified (db : DB) (id : UUID) (e : OutboxEvent) : Prop :=
  ∃ o t did d, orders db !! OutboxEvent_PartitionKey e = Some o ∧ UUID_Scan t = Some (Order_UserID o) ∧
    notification_deliveries db !! did = Some d ∧ NotificationDelivery_EventID d = id ∧
    NotificationDelivery_Recipient d = sanitize t ∧ NotificationDelivery_Status d = NotificationStatusSent.

(** The consumer refuses the event [e] for good: an [order.created] whose
    request wrote the user in a form that pgx reads and uuid.Parse does not. *)
Definition refused (db : DB) (e : OutboxEvent) : Prop :=
  OutboxEvent_EventType e = EventTypeOrderCreated ∧
  ∃ o t, orders db !! OutboxEvent_PartitionKey e = Some o ∧ UUID_Scan t = Some (Order_UserID o) ∧
    carries (OutboxEvent_Payload e) t ∧ uuid_Parse (sanitize t) = false.

(** What becomes of an event in the end. *)
Definition settled_event (db : DB) (id : UUID) (e : OutboxEvent) : Prop := customer_notified db id e ∨ refused db e.

Lemma addressed_refused db e t : addressed db e t → uuid_Parse (sanitize t) = false → refused db e.
Proof.
  intros (_ & _ & Hcar & o & Ho & Hu & Ht) Hparse. split; [|by exists o, t].
  destruct (decide (OutboxEvent_EventType e = EventTypeOrderCreated)) as [|Hne]; [done|].
  by rewrite (Ht Hne), (sanitize_valid _ (utf8_ascii _ (UUID_String_ascii _))), uuid_Parse_String in Hparse.
Qed.

(** A published event whose record is below the committed offset. *)
Lemma read_up_notified w (offs : Z → nat) id e :
  program_run topic w →
  (∀ p off rec, (off < offs p)%nat → log_of topic p w !! off = Some rec → settled topic (rec_value rec) (w_db w)) →
  read_up topic w offs →
  outbox_events (w_db w) !! id = Some e → is_Some (OutboxEvent_PublishedAt e) → settled_event (w_db w) id e.
Proof.
  intros Hrun Hset Hup He Hpub. pose proof (program_run_reachable _ _ Hrun) as Hr.
  pose proof (keyed_events _ (reachable_keyed _ Hr) _ _ He) as Hkey.
  destruct (program_run_log _ _ 0 Hrun) as [Hsent _]. destruct (Hsent _ _ He Hpub) as (rec & Hrec & Hin).
  assert (rec_topic rec = topic) as Ht by (unfold event_record in Hrec; by destruct (MarshalMessage _); simplify_eq).
  destruct (log_of_place topic _ _ Hin Ht) as [off Hoff].
  assert (off < offs (partition_of (rec_key rec)))%nat as Hlt
    by (eapply Nat.lt_le_trans; [by eapply lookup_lt_Some|apply Hup]).
  destruct (reachable_addressed _ Hr _ _ He) as [t Haddr]. pose proof Haddr as (_ & _ & Hcar & o & Ho & Hu & _).
  destruct (uuid_Parse (sanitize t)) eqn:Hparse; [left|right; by eapply addressed_refused].
  assert (sanitize t ≠ "") as Hne by (intros Hnil; by rewrite Hnil, uuid_Parse_empty in Hparse).
  destruct (event_record_accepted _ _ _ _ _ topic Haddr Hrec Hparse Hne) as (m & Hm & Hmid).
  destruct (Hset _ _ _ Hlt Hoff) as [[err Herr]|(m' & u' & id' & Hm' & Hid' & [pe Hpe])]; [congruence|].
  rewrite Hm in Hm'. injection Hm' as <- <-. rewrite Hmid, UUID_Scan_String in Hid'. injection Hid' as <-. rewrite Hkey in *.
  destruct (reachable_notified _ Hr) as [Hd Hp _]. apply Hp in Hpe as [_ (did & d & Hdid & Hevent)].
  destruct (program_run_addressed topic _ Hrun _ _ Hdid) as (e' & t' & He' & (_ & _ & _ & o' & Ho' & Hu' & _) & Hrecip).
  rewrite Hevent, He in He'. injection He' as <-. rewrite Ho in Ho'. injection Ho' as <-.
  exists o, t', did, d. split_and!; try done. by apply Hd in Hdid as [? _].
Qed.

(** *** The publisher first *)

(** After undisturbed rounds for all unpublished events: what the consumers
    find. *)
Record all_sent (w w1 : World) : Prop := {
  as_steps : rtc (program_step topic) w w1;
  as_topic : length (w_topic w1) = (length (w_topic w) + length (pending (w_db w)))%nat;
  as_events : dom (outbox_events (w_db w1)) = dom (outbox_events (w_db w));
  as_published id e : outbox_events (w_db w1) !! id = Some e → is_Some (OutboxEvent_PublishedAt e);
  as_ready k : fresh_ids k w → ready topic k w1
}.

Lemma Run_sends n rounds w :
  program_run topic w → 0 < n → undisturbed w →
  Z.of_nat (length (pending (w_db w))) ≤ n * Z.of_nat (S rounds) →
  ∃ w1, Publisher.Run (mkConfig topic n) rounds w = (Ok tt, w1) ∧ all_sent w w1.
Proof.
  intros Hrun Hn Hw Hlen. pose proof (program_run_reachable _ _ Hrun) as Hr.
  destruct (Run_drained (mkConfig topic n) rounds w) as (es & w1 & Hpub & Hes & Hd & Hp);
    [by apply reachable_keyed|done|done|by apply pending_records|done|].
  destruct (dr_topic _ _ _ _ Hd) as (recs & Hrecs & Htop). pose proof (dr_marked _ _ _ _ Hd) as Hm.
  assert (∀ e, e ∈ es → outbox_events (w_db w) !! OutboxEvent_ID e = Some e) as Hst.
  { intros e. rewrite Hes, elem_of_pending. intros [_ [id He]]. by rewrite (keyed_events _ (reachable_keyed _ Hr) _ _ He). }
  pose proof (conforms_Run topic n rounds w) as Hs1. rewrite Hpub in Hs1. cbn [snd] in Hs1.
  assert (program_run topic w1) as Hrun1 by (by eapply program_run_later).
  exists w1. split; [done|]. split; [done| |by eapply marked_dom| |].
  - rewrite Htop, length_app, length_rev. rewrite <- (Forall2_length _ _ _ Hrecs), (Permutation_length Hes). lia.
  - intros id e He. apply not_eq_None_Some. intros Hnone.
    assert (e ∈ pending (w_db w1)) as Hin; [|by rewrite Hp in Hin; apply elem_of_nil in Hin].
    apply elem_of_pending. split; [done|]. by exists id.
  - intros k Hf. split; [eapply undisturbed_later; [exact Hw|apply Hd]| |].
    + eapply fresh_ids_same; [apply Hd| |exact Hf]. by destruct Hm as (_ & _ & evs & ->).
    + intros rec Hin. by eapply log_readable.
Qed.

(** Then the consumers, up to the end of the log. *)
Lemma all_notified w w1 w2 offs :
  program_run topic w → all_sent w w1 → same_log topic w1 w2 → read_up topic w2 offs →
  (∀ p off rec, (off < offs p)%nat → log_of topic p w2 !! off = Some rec → settled topic (rec_value rec) (w_db w2)) →
  dom (outbox_events (w_db w2)) = dom (outbox_events (w_db w)) ∧
  ∀ id e, outbox_events (w_db w2) !! id = Some e → is_Some (OutboxEvent_PublishedAt e) ∧ settled_event (w_db w2) id e.
Proof.
  intros Hrun Hsent [Hs2 _ He2] Hup Hset. split; [rewrite He2; apply Hsent|]. intros id e He.
  pose proof He as He1. rewrite He2 in He1. pose proof (as_published _ _ Hsent _ _ He1) as Hpub. split; [done|].
  eapply read_up_notified; [|exact Hset|exact Hup|done|done].
  do 2 (eapply program_run_later; [|eassumption || apply Hsent]). done.
Qed.

(** One process alone in its group: from any run of the system in which it is
    alive, once the publisher had undisturbed rounds for all unpublished
    events and the consumer as many turns as the log has records, every event
    of the outbox is published and notified, to the customer of its order, or
    one that the consumer refuses.  Both loops go on without an error. *)
Lemma alone_eventually_notified n rounds w c :
  (∀ c p, assigned (LiveClient := LC) c p) →
  consumer_run topic (w, c, true) → 0 < n → undisturbed w →
  Z.of_nat (length (pending (w_db w))) ≤ n * Z.of_nat (S rounds) →
  let turns := (length (w_topic w) + length (pending (w_db w)))%nat in
  fresh_ids turns w →
  ∃ w1 w2 c2, Publisher.Run (mkConfig topic n) rounds w = (Ok tt, w1) ∧
    consume turns topic record_handler (w1, c) = (None, (w2, c2)) ∧
    dom (outbox_events (w_db w2)) = dom (outbox_events (w_db w)) ∧
    ∀ id e, outbox_events (w_db w2) !! id = Some e →
      is_Some (OutboxEvent_PublishedAt e) ∧ settled_event (w_db w2) id e.
Proof.
  intros Hall Hcrun Hn Hw Hlen turns Hf. pose proof (consumer_run_program _ _ _ _ Hcrun) as Hrun.
  destruct (Run_sends n rounds w) as (w1 & Hpub & Hsent); [done..|].
  destruct (consume_catches_up topic Hall turns w1 c) as (w2 & c2 & Hcons & Hok2 & Hlog & Hup).
  - eapply consumer_ok_system; [by eapply consumer_run_ok|apply Hsent].
  - by apply Hsent.
  - rewrite lag_topic, (as_topic _ _ Hsent). done.
  - exists w1, w2, c2. do 2 (split; [done|]). apply (all_notified w w1 w2 (committed c2)); [done..|]. apply (ck_settled _ _ _ _ Hok2).
Qed.
End eventually.
