(* ===== verification/Group.v ===== *)
(** * A consumer group of several processes

    Any number of processes of cmd/consumer share a group.  Each runs the loop
    of internal/kafka/consumer.go in three pieces: it polls, it hands the
    record to the handler, it commits.  Between any two pieces everything else
    may happen: the other processes of the system, the pieces of other members,
    crashes, new members, and rebalances that move partitions to other members
    or back to the committed offset, also behind the back of a member that
    still has a record of the partition in hand. *)

From S2P Require Import Prelude GoStrings Json Models World.
From S2P Require Import Sqlc.
From S2P Require Import Store.
From S2P Require Import OrderService.
From S2P Require Import Spec OrderRefine Evolution Invariants Bookkeeping.
From S2P Require Import Auth.
From S2P Require Import Publisher.
From S2P Require Import Consumer.
From S2P Require Import KafkaConsumer.
From S2P Require Import System Delivery.

(** Where a member is in its loop. *)
Inductive Phase (C : Type) :=
  | Polling (c : C)
  | Polled (c : C) (current : Message)
  | Handled (c : C) (current : Message)
  | Returned (c : C) (r : result unit).
Arguments Polling {C} c.
Arguments Polled {C} c current.
Arguments Handled {C} c current.
Arguments Returned {C} c r.

Definition client_of {C} (ph : Phase C) : C :=
  match ph with Polling c | Polled c _ | Handled c _ | Returned c _ => c end.

Definition set_client {C} (c : C) (ph : Phase C) : Phase C :=
  match ph with
  | Polling _ => Polling c
  | Polled _ m => Polled c m
  | Handled _ m => Handled c m
  | Returned _ r => Returned c r
  end.

(** ** The pieces of a turn *)

Section pieces.
Context `{External} `{ConsumerClient C}.
Context (topic : string) (handler : ConsumerRecord → M unit).

(** The result unless the context is done, and then none. *)
Definition unless_done (c : C) (k : C → Phase C) : Phase C :=
  match ctx_Err c with
  | (Some _, c') => Returned c' (Ok tt)
  | (None, c') => k c'
  end.

Definition member_step (st : Phase C * World) : Phase C * World :=
  let '(ph, w) := st in
  match ph with
  | Polling c =>
    (unless_done c (λ c1,
       match Poll consumerPollTimeoutMilliseconds w c1 with
       | (MessageEvent current, c2) => Polled c2 current
       | (ErrorEvent fatal err, c2) => unless_done c2 (λ c3,
           if fatal then Returned c3 (Err (ErrWrap "fatal kafka consumer error: " err "")) else Polling c3)
       | (_, c2) => Polling c2
       end), w)
  | Polled c current =>
    match handler (record_of topic current) w with
    | (Err err, w1) => (unless_done c (λ c3, Returned c3
        (Err (ErrWrap ("handle Kafka record " +:+ place (record_of topic current) +:+ ": ") err ""))), w1)
    | (Ok _, w1) => (Handled c current, w1)
    end
  | Handled c current =>
    (unless_done c (λ c3,
       match CommitMessage current c3 with
       | (Err err, c4) => Returned c4
           (Err (ErrWrap ("commit Kafka record " +:+ place (record_of topic current) +:+ ": ") err ""))
       | (Ok _, c4) => Polling c4
       end), w)
  | Returned _ _ => (ph, w)
  end.

(** At the end of its turn. *)
Definition turn_over (ph : Phase C) : bool := match ph with Polling _ | Returned _ _ => true | _ => false end.

Definition finish (st : Phase C * World) : Phase C * World := if turn_over st.1 then st else member_step st.

Definition of_turn (t : Turn) (c : C) : Phase C := match t with Continue => Polling c | Return r => Returned c r end.

(** A turn of the loop is its pieces, one after the other. *)
Lemma turn_pieces w c t w' c' :
  turn topic handler (w, c) = (t, (w', c')) →
  finish (finish (member_step (Polling c, w))) = (of_turn t c', w').
Proof.
  unfold turn, finish, member_step, unless_done. destruct (ctx_Err c) as [[e|] c1]; [by intros [= <- <- <-]|].
  destruct (Poll _ w c1) as [[|m|fatal err|] c2]; cbn; try by intros [= <- <- <-].
  - destruct (handler _ w) as [[u|err] w1]; cbn; destruct (ctx_Err c2) as [[e|] c3]; try by intros [= <- <- <-].
    destruct (CommitMessage m c3) as [[u'|err] c4]; by intros [= <- <- <-].
  - destruct (ctx_Err c2) as [[e|] c3]; [by intros [= <- <- <-]|]. destruct fatal; by intros [= <- <- <-].
Qed.
End pieces.

(** ** The group *)

Section group.
Context `{External} `{!ExternalLaws _} `{AuthExternal} `{P : Producer} `{!ProducerLaws P}.
Context (topic : string) `{CC : ConsumerClient C} `{!ConsumerClientLaws CC topic}.
Notation program_run := (program_run topic).
Notation program_step := (program_step topic).
Notation log_of := (log_of topic).
Implicit Types (w : World) (c : C) (ph : Phase C) (offs : Z → nat).

(** The offsets that the group has committed belong to the broker; what a
    client knows of them is [committed]. *)
Record Group := mkGroup {
  g_world : World;
  g_offsets : Z → nat;
  g_members : gmap nat (Phase C)
}.

Definition knows (offs : Z → nat) (c : C) : Prop := ∀ p, committed c p = offs p.

Inductive group_step : Group → Group → Prop :=
  (* the other processes; also what a crash of a member leaves in the tables *)
  | gs_system w w' offs ms : program_step w w' → group_step (mkGroup w offs ms) (mkGroup w' offs ms)
  (* a new process subscribes *)
  | gs_join i c c' w offs ms :
      ms !! i = None → knows offs c → SubscribeTopics topic c = (Ok tt, c') →
      group_step (mkGroup w offs ms) (mkGroup w offs (<[i := Polling c']> ms))
  (* a process crashes or is closed, wherever it is *)
  | gs_leave i w offs ms : group_step (mkGroup w offs ms) (mkGroup w offs (delete i ms))
  (* a rebalance, of which a member may learn at any time or never: the
     partitions that it gets are read from the committed offset *)
  | gs_rebalance i ph c' w offs ms :
      ms !! i = Some ph → knows offs c' → (∀ p, position c' p = position (client_of ph) p ∨ position c' p = offs p) →
      group_step (mkGroup w offs ms) (mkGroup w offs (<[i := set_client c' ph]> ms))
  (* a piece of the loop of a member *)
  | gs_member i ph ph' w w' offs ms :
      ms !! i = Some ph → knows offs (client_of ph) → member_step topic record_handler (ph, w) = (ph', w') →
      group_step (mkGroup w offs ms) (mkGroup w' (committed (client_of ph')) (<[i := ph']> ms)).

(** Runs from the migrated database, an empty topic and an empty group. *)
Definition group_run (g : Group) : Prop :=
  ∃ w0, w_db w0 = empty_db ∧ w_topic w0 = [] ∧ rtc group_step (mkGroup w0 (λ _, 0%nat) ∅) g.

(** *** What a member does to its client *)

(** The offsets that two clients know, and the positions, are the same. *)
Definition same_place (c c' : C) : Prop := ∀ p, position c' p = position c p ∧ committed c' p = committed c p.

Lemma same_place_trans c1 c2 c3 : same_place c1 c2 → same_place c2 c3 → same_place c1 c3.
Proof. intros H1 H2 p. destruct (H1 p), (H2 p). split; congruence. Qed.

Lemma same_place_committed c c' p : same_place c c' → committed c' p = committed c p.
Proof. intros Hs. apply Hs. Qed.

Lemma same_place_position c c' p : same_place c c' → position c' p = position c p.
Proof. intros Hs. apply Hs. Qed.

Inductive member_stepped (w w' : World) : Phase C → Phase C → Prop :=
  | ms_same c c' : w' = w → same_place c c' → member_stepped w w' (Polling c) (Polling c')
  | ms_returned ph c' r :
      w' = w → (∀ p, committed c' p = committed (client_of ph) p) → member_stepped w w' ph (Returned c' r)
  | ms_polled c c' m rec :
      w' = w → (∀ p, committed c' p = committed c p) →
      log_of (Message_Partition m) w !! position c (Message_Partition m) = Some rec →
      record_of topic m = mkConsumerRecord topic (Message_Partition m) (Z.of_nat (position c (Message_Partition m)))
        (rec_key rec) (rec_value rec) →
      (∀ p, position c' p = if bool_decide (p = Message_Partition m) then S (position c p) else position c p) →
      member_stepped w w' (Polling c) (Polled c' m)
  | ms_refused c c' m r err :
      record_handler (record_of topic m) w = (Err err, w') → (∀ p, committed c' p = committed c p) →
      member_stepped w w' (Polled c m) (Returned c' r)
  | ms_handled c m :
      record_handler (record_of topic m) w = (Ok tt, w') → member_stepped w w' (Polled c m) (Handled c m)
  | ms_committed c m ph' :
      w' = w →
      (∀ p, committed (client_of ph') p =
         if bool_decide (p = Message_Partition m) then S (Z.to_nat (Message_Offset m)) else committed c p) →
      (∀ c', ph' = Polling c' → ∀ p, position c' p = position c p) →
      (∃ c', ph' = Polling c') ∨ (∃ c' r, ph' = Returned c' r) →
      member_stepped w w' (Handled c m) ph'.

Lemma unless_done_cases c k ph' :
  unless_done c k = ph' →
  ∃ c', same_place c c' ∧ (ph' = Returned c' (Ok tt) ∨ ph' = k c').
Proof.
  unfold unless_done. destruct (ctx_Err c) as [e c'] eqn:Hc. assert (same_place c c') by exact (ctx_Err_frame _ _ _ Hc).
  destruct e; intros <-; exists c'; auto.
Qed.

Ltac look_at_context c' F :=
  match goal with |- context [unless_done ?c ?k] => destruct (unless_done_cases c k _ eq_refl) as (c' & F & [-> | ->]) end.

Lemma member_step_cases ph w ph' w' :
  member_step topic record_handler (ph, w) = (ph', w') → member_stepped w w' ph ph'.
Proof.
  destruct ph as [c|c m|c m|c r]; cbn [member_step].
  - intros [= (c1 & F1 & [-> | ->])%unless_done_cases <-]; [by apply ms_returned; [|intros p; by apply same_place_committed]|].
    destruct (Poll _ w c1) as [ev c2] eqn:H2. destruct ev as [|m|fatal err|].
    + apply ms_same; [done|]. eapply same_place_trans; [exact F1|]. exact (Poll_other _ _ _ _ _ H2 ltac:(done)).
    + destruct (Poll_record _ _ _ _ _ H2) as (rec & Hrec & Hr). apply Poll_message in H2 as (_ & _ & Hpos & Hcom).
      destruct (F1 (Message_Partition m)) as [Hp _]. rewrite Hp in Hrec, Hr.
      eapply ms_polled; [done| |exact Hrec|exact Hr|].
      * intros p. rewrite Hcom. by apply same_place_committed.
      * intros p. rewrite Hpos. by destruct (F1 p) as [-> _].
    + assert (same_place c1 c2) as F2 by exact (Poll_other _ _ _ _ _ H2 ltac:(done)). pose proof (same_place_trans _ _ _ F1 F2) as F.
      look_at_context c3 F3;
        pose proof (same_place_trans _ _ _ F F3) as F'; [|destruct fatal]; [apply ms_returned..|by apply ms_same];
        (done || intros p; by apply same_place_committed).
    + apply ms_same; [done|]. eapply same_place_trans; [exact F1|]. exact (Poll_other _ _ _ _ _ H2 ltac:(done)).
  - destruct (record_handler _ w) as [[[]|err] w1] eqn:Hh; intros [= <- <-]; [by apply ms_handled|].
    look_at_context c3 F3; (eapply ms_refused; [exact Hh|]; intros p; by apply same_place_committed).
  - intros [= (c3 & F3 & [-> | ->])%unless_done_cases <-]; [by apply ms_returned; [|intros p; by apply same_place_committed]|].
    destruct (CommitMessage m c3) as [rc c4] eqn:H4. pose proof (Commit_position _ _ _ _ H4) as Hp4.
    destruct rc as [[]|err].
    + apply ms_committed; [done| | |by eauto].
      * intros p. cbn. rewrite (Commit_ok _ _ _ H4). by destruct (F3 p) as [_ ->].
      * intros c' [= <-] p. rewrite Hp4. by apply same_place_position.
    + destruct (Commit_err _ _ _ _ H4) as [Hs|Hs].
      * apply ms_returned; [done|]. intros p. cbn. rewrite Hs. by apply same_place_committed.
      * apply ms_committed; [done| |done|by eauto]. intros p. cbn. rewrite Hs. by destruct (F3 p) as [_ ->].
  - intros [= <- <-]. by apply ms_returned.
Qed.

(** *** The invariant *)

(** Partition [p] was read up to [n]: nothing below is unsettled. *)
Definition read_to (w : World) (p : Z) (n : nat) : Prop :=
  (n ≤ length (log_of p w))%nat ∧
  ∀ off rec, (off < n)%nat → log_of p w !! off = Some rec → settled topic (rec_value rec) (w_db w).

Lemma read_to_later w w' p n :
  reachable (w_db w) → rtc program_step w w' → read_to w p n → read_to w' p n.
Proof.
  intros Hr Hs [Hlen Hset]. destruct (program_steps_topic _ _ _ Hr Hs) as [l [k Hk]%(log_of_grows topic p)].
  split; [rewrite Hk, length_app; lia|]. intros off rec Hoff. rewrite Hk, lookup_app_l by lia. intros Hrec.
  eapply settled_later; [by eapply program_steps_rtc|]. by eapply Hset.
Qed.

Lemma read_to_next w p n rec :
  read_to w p n → log_of p w !! n = Some rec → settled topic (rec_value rec) (w_db w) → read_to w p (S n).
Proof.
  intros [Hlen Hset] Hrec Hst. split; [by apply lookup_lt_Some in Hrec|]. intros off rec' Hoff Hrec'.
  destruct (decide (off = n)) as [->|Hne]; [by simplify_eq|]. eapply Hset; [|exact Hrec']. lia.
Qed.

(** A member reads on from where everything is settled, but for the record
    that it has in hand. *)
Definition phase_ok (w : World) (ph : Phase C) : Prop :=
  match ph with
  | Polling c => ∀ p, read_to w p (position c p)
  | Polled c m => ∃ o rec,
      log_of (Message_Partition m) w !! o = Some rec ∧ Message_Offset m = Z.of_nat o ∧
      record_of topic m = mkConsumerRecord topic (Message_Partition m) (Z.of_nat o) (rec_key rec) (rec_value rec) ∧
      read_to w (Message_Partition m) o ∧
      ∀ p, read_to w p (position c p) ∨ (p = Message_Partition m ∧ position c p = S o)
  | Handled c m => read_to w (Message_Partition m) (S (Z.to_nat (Message_Offset m))) ∧ ∀ p, read_to w p (position c p)
  | Returned _ _ => True
  end.

Record group_ok (g : Group) : Prop := {
  go_reachable : reachable (w_db (g_world g));
  go_offsets p : read_to (g_world g) p (g_offsets g p);
  go_members i ph : g_members g !! i = Some ph → phase_ok (g_world g) ph
}.

Lemma phase_ok_later w w' ph :
  reachable (w_db w) → rtc program_step w w' → phase_ok w ph → phase_ok w' ph.
Proof.
  intros Hr Hs. pose proof (λ p n, read_to_later _ _ p n Hr Hs) as Hlater.
  destruct (program_steps_topic _ _ _ Hr Hs) as [l Hl]. destruct ph as [c|c m|c m|c r]; cbn; [naive_solver| |naive_solver|done].
  intros (o & rec & Hrec & Ho & Hm & Hread & Hpos). exists o, rec.
  split_and!; [by eapply log_of_lookup|done|done|by apply Hlater|]. intros p. destruct (Hpos p); [left; by apply Hlater|by right].
Qed.

(** Whatever the other processes do. *)
Lemma group_ok_later w w' offs ms :
  rtc program_step w w' → group_ok (mkGroup w offs ms) → group_ok (mkGroup w' offs ms).
Proof.
  intros Hs [Hr Hoffs Hms]. cbn in *. split; cbn; [by eapply program_reachable|intros p; by eapply read_to_later|].
  intros i ph Hi. eapply phase_ok_later; [done..|]. by eapply Hms.
Qed.

Lemma group_ok_insert w offs ms i ph :
  group_ok (mkGroup w offs ms) → phase_ok w ph → group_ok (mkGroup w offs (<[i := ph]> ms)).
Proof.
  intros [Hr Hoffs Hms] Hph. split; [done..|]. cbn. intros j ph' [[-> ->]|[_ Hj]]%lookup_insert_Some; [done|]. by eapply Hms.
Qed.

Lemma phase_ok_rebalance w offs ph c' :
  (∀ p, read_to w p (offs p)) → (∀ p, position c' p = position (client_of ph) p ∨ position c' p = offs p) →
  phase_ok w ph → phase_ok w (set_client c' ph).
Proof.
  intros Hoffs Hpos. destruct ph as [c|c m|c m|c r]; cbn in *; [| | |done].
  - intros Hc p. by destruct (Hpos p) as [-> | ->].
  - intros (o & rec & ? & ? & ? & ? & Hc). exists o, rec. split_and!; [done..|]. intros p.
    destruct (Hpos p) as [-> | ->]; [apply Hc|by left].
  - intros [? Hc]. split; [done|]. intros p. by destruct (Hpos p) as [-> | ->].
Qed.

Lemma phase_ok_record w c m :
  phase_ok w (Polled c m) →
  ∃ rec, rec ∈ w_topic w ∧ rec_topic rec = topic ∧
    log_of (Message_Partition m) w !! Z.to_nat (Message_Offset m) = Some rec ∧
    record_handler (record_of topic m) = handleRecord topic (rec_value rec).
Proof.
  intros (o & rec & Hrec & Ho & Hm & _). exists rec. destruct (log_of_in _ _ _ _ _ Hrec) as [Hin Ht].
  rewrite Hm, Ho, Nat2Z.id. by split_and!.
Qed.

(** The handler is one of the processes of the system. *)
Lemma member_stepped_system w w' ph ph' : phase_ok w ph → member_stepped w w' ph ph' → rtc program_step w w'.
Proof.
  intros Hok Hs. assert (∀ c m r, ph = Polled c m → record_handler (record_of topic m) w = (r, w') → rtc program_step w w') as Hh.
  { intros c m r -> Hh. destruct (phase_ok_record _ _ _ Hok) as (rec & Hin & Ht & _ & Heq). rewrite Heq in Hh.
    pose proof (handleRecord_steps topic rec w Hin) as Hsys. by rewrite Ht, Hh in Hsys. }
  destruct Hs; subst; eauto; done.
Qed.

Lemma member_stepped_ok w w' ph ph' offs ms i :
  ms !! i = Some ph → knows offs (client_of ph) → group_ok (mkGroup w offs ms) →
  member_stepped w w' ph ph' → group_ok (mkGroup w' (committed (client_of ph')) (<[i := ph']> ms)).
Proof.
  intros Hi Hk Hok Hs. pose proof (go_members _ Hok _ _ Hi) as Hph. cbn in Hph.
  pose proof (group_ok_later _ _ _ _ (member_stepped_system _ _ _ _ Hph Hs) Hok) as Hok'.
  pose proof (member_stepped_system _ _ _ _ Hph Hs) as Hsys.
  pose proof (phase_ok_later _ _ _ (go_reachable _ Hok) Hsys Hph) as Hph'.
  assert ((∀ p, read_to w' p (committed (client_of ph') p)) → phase_ok w' ph' →
    group_ok (mkGroup w' (committed (client_of ph')) (<[i := ph']> ms))) as Hdone.
  { intros Hoffs Hnew. apply group_ok_insert; [|done]. by destruct Hok'. }
  assert ((∀ p, committed (client_of ph') p = committed (client_of ph) p) →
    ∀ p, read_to w' p (committed (client_of ph') p)) as Hsame.
  { intros Hcom p. rewrite Hcom, Hk. apply (go_offsets _ Hok'). }
  destruct Hs as [c c' Hw Hc|ph c' r Hw Hcom|c c' m rec Hw Hcom Hrec Hr Hpos|c c' m r err Hh Hcom|c m Hh|c m ph' Hw Hcom Hpos Hnext];
    try subst w'.
  - apply Hdone; [apply Hsame; intros p; apply Hc|]. intros p. rewrite (same_place_position _ _ _ Hc). apply Hph.
  - by apply Hdone; [apply Hsame|].
  - apply Hdone; [by apply Hsame|]. exists (position c (Message_Partition m)), rec. cbn in Hph.
    split_and!; [done|by apply (f_equal Record_Offset) in Hr|done|done|].
    intros p. rewrite Hpos. case_bool_decide as Hp; [subst p; by right|by left].
  - by apply Hdone; [apply Hsame|].
  - apply Hdone; [by apply Hsame|]. destruct (phase_ok_record _ _ _ Hph') as (rec & _ & _ & Hrec & Heq).
    destruct (phase_ok_record _ _ _ Hph) as (rec0 & _ & _ & Hrec0 & Heq0). rewrite Heq0 in Hh. apply handleRecord_settled in Hh.
    destruct Hph' as (o & rec' & Hrec' & Ho & Hm & Hread & Hpos). rewrite Ho, Nat2Z.id in *.
    destruct (program_steps_topic _ _ _ (go_reachable _ Hok) Hsys) as [l Hl].
    pose proof (log_of_lookup _ _ _ _ _ _ _ Hl Hrec0) as Hrec0'. simplify_eq.
    assert (read_to w' (Message_Partition m) (S o)) as Hnext by by eapply read_to_next.
    split; [by rewrite Ho, Nat2Z.id|]. intros p. destruct (Hpos p) as [?|[-> ->]]; done.
  - destruct Hph as [Hread Hposs]. apply Hdone.
    + intros p. rewrite Hcom. case_bool_decide; [by subst p|]. rewrite Hk. apply (go_offsets _ Hok').
    + destruct Hnext as [[c' ->]|(c' & r & ->)]; [|done]. intros p. by rewrite (Hpos _ eq_refl).
Qed.

Lemma group_step_ok g g' : group_step g g' → group_ok g → group_ok g'.
Proof.
  intros Hs Hok. destruct Hs as [w w' offs ms Hp|i c c' w offs ms _ Hk Hsub|i w offs ms|i ph c' w offs ms Hi _ Hpos
    |i ph ph' w w' offs ms Hi Hk Hm].
  - eapply group_ok_later; [by apply rtc_once|done].
  - apply group_ok_insert; [done|]. intros p. rewrite (Subscribe_position _ _ Hsub p), (Subscribe_committed _ _ _ Hsub p), Hk.
    apply (go_offsets _ Hok).
  - destruct Hok as [Hr Hoffs Hms]. split; [done..|]. cbn. intros j ph [_ Hj]%lookup_delete_Some. by eapply Hms.
  - apply group_ok_insert; [done|]. eapply phase_ok_rebalance; [apply (go_offsets _ Hok)|done|]. by apply (go_members _ Hok i).
  - eapply member_stepped_ok; [done..|by apply member_step_cases].
Qed.

Lemma group_run_ok g : group_run g → group_ok g.
Proof.
  intros (w0 & Hdb & Ht & Hs). assert (group_ok (mkGroup w0 (λ _, 0%nat) ∅)) as Hok.
  { split; cbn; [rewrite Hdb; by unfold reachable| |by intros i ph; rewrite lookup_empty]. intros p. split; [lia|]. intros; lia. }
  exact (rtc_invariant _ group_ok _ _ group_step_ok Hs Hok).
Qed.

(** The other processes see a run of the system, so the theorems about every
    run hold of a group. *)
Lemma group_step_program g g' : group_step g g' → group_ok g → rtc program_step (g_world g) (g_world g').
Proof.
  intros Hs Hok. destruct Hs as [w w' offs ms Hp|i c c' w offs ms _ _ _|i w offs ms|i ph c' w offs ms _ _ _
    |i ph ph' w w' offs ms Hi _ Hm]; [by apply rtc_once|done..|].
  eapply member_stepped_system; [by apply (go_members _ Hok i)|by apply member_step_cases].
Qed.

Lemma group_run_program g : group_run g → program_run (g_world g).
Proof.
  intros Hrun. pose proof Hrun as (w0 & Hdb & Ht & Hs). exists w0. split_and!; [done..|].
  assert (group_run (mkGroup w0 (λ _, 0%nat) ∅)) as Hinit by (by exists w0).
  apply (rtc_invariant _ (λ g, group_ok g ∧ rtc program_step w0 (g_world g)) _ _) in Hs as [_ Hs]; [done| |].
  - intros g1 g2 Hone [Hok Hg]. split; [by eapply group_step_ok|]. etransitivity; [exact Hg|]. by apply group_step_program.
  - split; [by apply group_run_ok|done].
Qed.

(** *** The loop of the program, as a member *)

Lemma finish_group i ph ph' w w' ms :
  ms !! i = Some ph → finish topic record_handler (ph, w) = (ph', w') →
  rtc group_step (mkGroup w (committed (client_of ph)) ms) (mkGroup w' (committed (client_of ph')) (<[i := ph']> ms)).
Proof.
  intros Hi. unfold finish. cbn [fst]. destruct (turn_over ph).
  - intros [= <- <-]. by rewrite (insert_id ms i ph Hi).
  - intros Hm. by eapply rtc_once, gs_member.
Qed.

(** When nothing comes in between, the pieces make up the turns of [Run]. *)
Lemma turn_group i c t w w' c' offs ms :
  ms !! i = Some (Polling c) → knows offs c → turn topic record_handler (w, c) = (t, (w', c')) →
  rtc group_step (mkGroup w offs ms) (mkGroup w' (committed c') (<[i := of_turn t c']> ms)).
Proof.
  intros Hi Hk Ht%turn_pieces. destruct (member_step topic record_handler (Polling c, w)) as [ph1 w1] eqn:H1.
  destruct (finish _ _ (ph1, w1)) as [ph2 w2] eqn:H2.
  pose proof (finish_group _ _ _ _ _ _ (lookup_insert_eq ms i ph1) H2) as Hs2.
  pose proof (finish_group _ _ _ _ _ _ (lookup_insert_eq ms i ph2) Ht) as Hs3.
  rewrite insert_insert_eq in Hs2, Hs3. replace (committed c') with (committed (client_of (of_turn t c'))) by by destruct t.
  eapply rtc_l; [by eapply gs_member|]. by etransitivity.
Qed.

(** [Run] of a process that is new in the group. *)
Lemma Run_group i n w c r w' c' offs ms :
  topic ≠ "" → ms !! i = None → knows offs c →
  KafkaConsumer.Run n topic (Some record_handler) (w, c) = (r, (w', c')) →
  ∃ offs' ms', rtc group_step (mkGroup w offs ms) (mkGroup w' offs' ms') ∧ delete i ms' = delete i ms.
Proof.
  intros Htop Hi Hk. unfold KafkaConsumer.Run. rewrite bool_decide_eq_false_2 by done.
  destruct (SubscribeTopics topic c) as [[[]|err] c1] eqn:Hsub; [|intros [= <- <- <-]; by exists offs, ms].
  intros Hrun. assert (knows offs c1) as Hk1 by (intros p; rewrite (Subscribe_committed _ _ _ Hsub p); apply Hk).
  assert (∃ offs' ms', rtc group_step (mkGroup w offs (<[i := Polling c1]> ms)) (mkGroup w' offs' ms') ∧
    delete i ms' = delete i (<[i := Polling c1]> ms)) as (offs' & ms' & Hs & Hms).
  2: { exists offs', ms'. split; [|by rewrite Hms, delete_insert_eq]. eapply rtc_l; [by apply (gs_join i c)|exact Hs]. }
  assert (<[i := Polling c1]> ms !! i = Some (Polling c1)) as Hin by apply lookup_insert_eq.
  revert Hin. generalize (<[i := Polling c1]> ms). clear Hi Hk Hsub ms c. revert w c1 offs Hk1 Hrun.
  induction n as [|n IH]; cbn [consume]; intros w c offs Hk Hrun ms Hi.
  { injection Hrun as <- <- <-. by exists offs, ms. }
  destruct (turn topic record_handler (w, c)) as [t [w1 c1]] eqn:Ht.
  pose proof (turn_group _ _ _ _ _ _ _ _ Hi Hk Ht) as Hs1. destruct t as [|r0].
  - destruct (IH w1 c1 (committed c1) ltac:(done) Hrun _ (lookup_insert_eq ms i (Polling c1))) as (offs' & ms' & Hs & Hms).
    exists offs', ms'. split; [by etransitivity|]. by rewrite Hms, delete_insert_eq.
  - injection Hrun as <- <- <-. exists (committed c1), (<[i := Returned c1 r0]> ms). by rewrite delete_insert_eq.
Qed.

(** C8. However many processes share the group, and however the partitions
    move between them, nothing is skipped: a record below the committed offset
    of its partition is either no event at all, or its event was processed and
    its customer has one notification, sent, also when a process still had
    the record in hand while another one took over its partition, when
    several handled it at once, or when one commits behind the other; every
    event that is marked published has its record in a partition, so it is
    notified once the group has committed beyond it; and no event has two
    notifications. *)
Theorem group_skips_nothing g n :
  group_run g →
  (∀ p off rec, (off < g_offsets g p)%nat → log_of p (g_world g) !! off = Some rec →
     (∃ e, check_message topic (rec_value rec) = Err e) ∨
     ∃ message userID id did d, check_message topic (rec_value rec) = Ok (message, userID) ∧
       UUID_Scan (OutboxMessage_ID message) = Some id ∧
       notification_deliveries (w_db (g_world g)) !! did = Some d ∧ NotificationDelivery_EventID d = id ∧
       NotificationDelivery_Status d = NotificationStatusSent) ∧
  (∀ id e, outbox_events (w_db (g_world g)) !! id = Some e → is_Some (OutboxEvent_PublishedAt e) →
     ∃ rec off, event_record (mkConfig topic n) e = Some rec ∧
       log_of (partition_of (UUID_String (OutboxEvent_PartitionKey e))) (g_world g) !! off = Some rec) ∧
  (∀ p, (g_offsets g p ≤ length (log_of p (g_world g)))%nat) ∧
  (∀ did1 did2 d1 d2, notification_deliveries (w_db (g_world g)) !! did1 = Some d1 →
     notification_deliveries (w_db (g_world g)) !! did2 = Some d2 →
     NotificationDelivery_EventID d1 = NotificationDelivery_EventID d2 → did1 = did2).
Proof.
  intros Hrun. pose proof (group_run_ok _ Hrun) as [Hr Hoffs _]. split_and!.
  - apply settled_notified; [done|]. intros p. apply (Hoffs p).
  - intros id e. apply published_in_partition. by apply group_run_program.
  - intros p. apply (Hoffs p).
  - intros did1 did2 d1 d2 Hd1 Hd2 Heq. by eapply (nf_once _ (reachable_notified _ Hr)).
Qed.
End group.
