(* ===== verification/GroupLiveness.v ===== *)
(** * Every event reaches its customer, with any number of consumers

    The members of a group share the partitions.  When the publisher was left
    alone for long enough, any schedule that lets every member take its turn
    again and again brings every event to its customer: in each round one of
    the members with something to read reads on. *)

From S2P Require Import Prelude GoStrings Json Models World.
From S2P Require Import Sqlc.
From S2P Require Import Store.
From S2P Require Import OrderService.
From S2P Require Import Spec OrderRefine Evolution Invariants Bookkeeping.
From S2P Require Import Auth.
From S2P Require Import Publisher Drain.
From S2P Require Import Consumer.
From S2P Require Import KafkaConsumer.
From S2P Require Import System Delivery Liveness Group.

(** What a client learns from its coordinator: the offsets of the group. *)
Class InformedClient `(CC : ConsumerClient C) (topic : string) `{!LiveClient CC topic} := {
  inform : (Z → nat) → C → C;
  inform_committed offs c p : committed (inform offs c) p = offs p;
  inform_position offs c p : position (inform offs c) p = position c p;
  inform_assigned offs c p : assigned (inform offs c) p ↔ assigned c p
}.

Section crew.
Context `{External} `{!ExternalLaws _} `{AuthExternal} `{P : Producer} `{!ProducerLaws P}.
Context (topic : string) `{CC : ConsumerClient C} `{!ConsumerClientLaws CC topic} `{!LiveClient CC topic} `{!InformedClient CC topic}.
Implicit Types (w : World) (c : C).

(** A group between two turns: every member polls. *)
Record Crew := mkCrew { c_world : World; c_offsets : Z → nat; c_clients : gmap nat C }.

Definition group_of (g : Crew) : Group (C := C) := mkGroup (c_world g) (c_offsets g) (Polling <$> c_clients g).

(** Member [i] takes a turn of its loop; a loop that returns leaves the group. *)
Definition crew_turn (g : Crew) (i : nat) : Crew :=
  match c_clients g !! i with
  | None => g
  | Some c =>
    let '(t, (w', c')) := turn topic record_handler (c_world g, inform (c_offsets g) c) in
    mkCrew w' (committed c')
      (match t with Continue => <[i := c']> (c_clients g) | Return _ => delete i (c_clients g) end)
  end.

(** It is a run of the group. *)
Lemma crew_turn_steps g i : rtc (group_step topic) (group_of g) (group_of (crew_turn g i)).
Proof.
  destruct g as [w offs cs]. unfold crew_turn, group_of. cbn [c_world c_offsets c_clients].
  destruct (cs !! i) as [c|] eqn:Hi; [|done]. destruct (turn _ _ _) as [t [w' c']] eqn:Ht.
  assert ((Polling <$> cs) !! i = Some (Polling c)) as Hm by (by rewrite lookup_fmap, Hi).
  eapply rtc_l.
  { apply (gs_rebalance topic i (Polling c) (inform offs c)); [exact Hm|intros p; apply inform_committed|].
    intros p. left. apply inform_position. }
  pose proof (turn_group topic i _ _ _ _ _ offs _ (lookup_insert_eq (Polling <$> cs) i (Polling (inform offs c)))
    (inform_committed offs c) Ht) as Hs.
  etransitivity; [exact Hs|]. cbn [set_client]. rewrite insert_insert_eq. destruct t as [|r]; cbn [c_world c_offsets c_clients of_turn].
  - by rewrite fmap_insert.
  - rewrite fmap_delete. rewrite <- (delete_insert_eq (Polling <$> cs) i (Returned c' r)). apply rtc_once, gs_leave.
Qed.

(** *** A balanced group *)

Definition owns (g : Crew) (i : nat) (p : Z) : Prop := ∃ c, c_clients g !! i = Some c ∧ assigned c p.

(** The partitions are assigned, each to one member, and read from the
    committed offset: what a rebalance ends with. *)
Record balanced (g : Crew) : Prop := {
  bl_position i c p : c_clients g !! i = Some c → assigned c p → position c p = c_offsets g p;
  bl_owner i j p : owns g i p → owns g j p → i = j;
  bl_covered key : ∃ i, owns g i (partition_of key)
}.

Record crew_ok (k : nat) (g : Crew) : Prop := {
  co_group : group_ok topic (group_of g);
  co_ready : ready topic k (c_world g);
  co_balanced : balanced g
}.

(** The same members with the same partitions. *)
Definition same_crew (g g' : Crew) : Prop :=
  same_log topic (c_world g) (c_world g') ∧ dom (c_clients g') = dom (c_clients g) ∧ ∀ i p, owns g' i p ↔ owns g i p.

Lemma same_crew_trans g1 g2 g3 : same_crew g1 g2 → same_crew g2 g3 → same_crew g1 g3.
Proof.
  intros (Hl1 & Hd1 & Ho1) (Hl2 & Hd2 & Ho2). split_and!; [by eapply same_log_trans|congruence|]. intros i p. by rewrite Ho2.
Qed.

Lemma owns_insert g w offs i c c' j p :
  c_clients g !! i = Some c → (∀ p, assigned c' p ↔ assigned c p) →
  owns (mkCrew w offs (<[i := c']> (c_clients g))) j p ↔ owns g j p.
Proof.
  intros Hi Ha. unfold owns. cbn. destruct (decide (i = j)) as [<-|Hne].
  - rewrite lookup_insert_eq, Hi. split; intros (? & [= <-] & ?%Ha); eauto.
  - by rewrite lookup_insert_ne.
Qed.

(** A turn of member [i]: it has nothing to read, or a record less. *)
Lemma crew_turn_progress k g i :
  crew_ok (S k) g →
  crew_ok k (crew_turn g i) ∧ same_crew g (crew_turn g i) ∧
  (((∀ p, c_offsets (crew_turn g i) p = c_offsets g p) ∧
    ∀ p, owns g i p → (length (log_of topic p (c_world g)) ≤ c_offsets g p)%nat) ∨
   ∃ p, (c_offsets g p < length (log_of topic p (c_world g)))%nat ∧
     ∀ q, c_offsets (crew_turn g i) q = if bool_decide (q = p) then S (c_offsets g p) else c_offsets g q).
Proof.
  intros [Hg Hr Hb]. pose proof (rtc_invariant _ _ _ _ (group_step_ok topic) (crew_turn_steps g i) Hg) as Hg'.
  revert Hg'. unfold crew_turn. destruct (c_clients g !! i) as [c|] eqn:Hi.
  2: { intros _. split_and!; [split; [done|eapply ready_fewer; [|done]; lia|done]|by split_and!|].
       left. split; [done|]. intros p (c & Hc & _). congruence. }
  destruct (turn_progress topic k (c_world g) (inform (c_offsets g) c) Hr) as (w' & c' & -> & Hr' & Hlog & Ha & Hnext).
  intros Hg'. assert (∀ p, assigned c' p ↔ assigned c p) as Ha' by (intros p; by rewrite Ha, inform_assigned).
  pose proof (λ offs j p, owns_insert g w' offs i c c' j p Hi Ha') as Hown.
  assert (∀ p, assigned c p → position (inform (c_offsets g) c) p = c_offsets g p) as Hpos
    by (intros p Hp; rewrite inform_position; by apply (bl_position _ Hb i)).
  assert (∀ offs, (∀ p, assigned c' p → position c' p = offs p) →
    (∀ j cj p, j ≠ i → c_clients g !! j = Some cj → assigned cj p → offs p = c_offsets g p) →
    balanced (mkCrew w' offs (<[i := c']> (c_clients g)))) as Hbal.
  { intros offs Hmine Hothers. split; cbn.
    - intros j cj p [[-> ->]|[Hne Hj]]%lookup_insert_Some Hp; [by apply Hmine|]. rewrite (Hothers j cj p) by done. by eapply bl_position.
    - intros j1 j2 p H1%Hown H2%Hown. by eapply bl_owner.
    - intros key. destruct (bl_covered _ Hb key) as [j Hj]. exists j. by apply Hown. }
  assert (same_crew g (mkCrew w' (committed c') (<[i := c']> (c_clients g)))) as Hsame.
  { split_and!; [done|cbn; by rewrite dom_insert_lookup_L|intros; apply Hown]. }
  destruct Hnext as [(-> & Hsp & Hread)|(p & Hmine & Hlt & Hcom & Hnew)].
  - assert (∀ p, committed c' p = c_offsets g p) as Hoffs by (intros p; destruct (Hsp p) as [_ ->]; apply inform_committed).
    split_and!; [split; [done..|]|done|left; split; [done|]].
    + apply Hbal; [|by intros]. intros p Hp%Ha'. destruct (Hsp p) as [-> ->]. by rewrite inform_committed, Hpos.
    + intros p (c0 & Hc0 & Hp). rewrite Hi in Hc0. injection Hc0 as <-. rewrite <- (Hpos _ Hp). apply Hread. by apply inform_assigned.
  - apply inform_assigned in Hmine. rewrite (Hpos _ Hmine) in *.
    assert (∀ q, committed c' q = if bool_decide (q = p) then S (c_offsets g p) else c_offsets g q) as Hoffs.
    { intros q. rewrite Hcom. case_bool_decide; [done|apply inform_committed]. }
    split_and!; [split; [done..|]|done|right; by exists p]. apply Hbal.
    + intros q Hq%Ha'. rewrite Hoffs, Hnew. case_bool_decide; [done|by apply Hpos].
    + intros j cj q Hne Hj Hq. rewrite Hoffs, bool_decide_eq_false_2; [done|]. intros ->. apply Hne.
      eapply (bl_owner _ Hb); [by exists cj|by exists c].
Qed.

(** *** A round *)

Definition crew_run (g : Crew) (schedule : list nat) : Crew := foldl crew_turn g schedule.

Definition crew_lag (g : Crew) : nat := lag topic (partitions (c_world g)) (c_world g) (c_offsets g).

(** Partition [p] has something to read. *)
Definition unread (g : Crew) (p : Z) : Prop := (c_offsets g p < length (log_of topic p (c_world g)))%nat.

#[local] Instance unread_dec g p : Decision (unread g p).
Proof. unfold unread. apply _. Defined.

Lemma partitions_same g g' : same_crew g g' → partitions (c_world g') = partitions (c_world g).
Proof. intros [Hl _]. unfold partitions. by rewrite (sl_topic _ _ _ Hl). Qed.

Lemma crew_lag_same g g' : same_crew g g' → (∀ p, c_offsets g' p = c_offsets g p) → crew_lag g' = crew_lag g.
Proof. intros Hs Ho. unfold crew_lag. rewrite (partitions_same _ _ Hs). apply lag_same; [apply Hs|done]. Qed.

Lemma unread_same g g' p : same_crew g g' → (∀ p, c_offsets g' p = c_offsets g p) → unread g p → unread g' p.
Proof. intros [Hl _] Ho. unfold unread. by rewrite Ho, (log_of_same _ _ _ _ (sl_topic _ _ _ Hl)). Qed.

Lemma crew_turn_lag k g i :
  crew_ok (S k) g →
  (∀ p, c_offsets (crew_turn g i) p = c_offsets g p) ∧ (∀ p, owns g i p → ¬ unread g p) ∨
  (crew_lag (crew_turn g i) < crew_lag g)%nat.
Proof.
  intros Hok. destruct (crew_turn_progress _ _ i Hok) as (_ & Hs & [[Ho Hread]|(p & Hp & Ho)]); [left|right].
  - split; [done|]. intros p Hown%Hread. unfold unread. lia.
  - unfold crew_lag. rewrite (partitions_same _ _ Hs). apply (lag_bump _ _ p); [apply Hs|done| |done].
    apply (elem_of_partitions topic). intros Hnil. rewrite Hnil in Hp. cbn in Hp. lia.
Qed.

(** After the turns of a schedule: all is as it was, or there is less to read;
    and there is less to read when the owner of an unread partition was among
    them. *)
Lemma crew_run_progress k schedule g :
  crew_ok (length schedule + k) g →
  crew_ok k (crew_run g schedule) ∧ same_crew g (crew_run g schedule) ∧
  ((∀ p, c_offsets (crew_run g schedule) p = c_offsets g p) ∨ (crew_lag (crew_run g schedule) < crew_lag g)%nat) ∧
  (∀ i p, i ∈ schedule → owns g i p → unread g p → (crew_lag (crew_run g schedule) < crew_lag g)%nat).
Proof.
  revert g. induction schedule as [|i schedule IH]; intros g Hok.
  { split_and!; [done|by split_and!|by left|]. by intros i p ?%elem_of_nil. }
  destruct (crew_turn_progress _ _ i Hok) as (Hok1 & Hs1 & _). pose proof (crew_turn_lag _ _ i Hok) as Hlag1.
  destruct (IH _ Hok1) as (Hok2 & Hs2 & Hnext & Hless). change (crew_run g (i :: schedule)) with (crew_run (crew_turn g i) schedule).
  split_and!; [done|by eapply same_crew_trans| |].
  - destruct Hlag1 as [[Ho _]|Hlt]; destruct Hnext as [Ho2|Hlt2].
    + left. intros p. by rewrite Ho2.
    + right. by rewrite <- (crew_lag_same _ _ Hs1 Ho).
    + right. by rewrite (crew_lag_same _ _ Hs2 Ho2).
    + right. by etransitivity.
  - intros j p Hj Hown Hun. destruct Hlag1 as [[Ho Hread]|Hlt].
    + rewrite <- (crew_lag_same _ _ Hs1 Ho). apply (Hless j p); [|by apply Hs1|by eapply unread_same].
      apply elem_of_cons in Hj as [->|?]; [by apply Hread in Hown|done].
    + destruct Hnext as [Ho2|Hlt2]; [by rewrite (crew_lag_same _ _ Hs2 Ho2)|by etransitivity].
Qed.

(** Every member has a turn in the schedule. *)
Definition fair (g : Crew) (schedule : list nat) : Prop := ∀ i, i ∈ dom (c_clients g) → i ∈ schedule.

Lemma owns_member g i p : owns g i p → i ∈ dom (c_clients g).
Proof. intros (c & Hi & _). by eapply elem_of_dom_2. Qed.

Lemma fair_round k round g :
  crew_ok (length round + k) g → fair g round → (crew_lag (crew_run g round) ≤ pred (crew_lag g))%nat.
Proof.
  intros Hok Hfair. destruct (crew_run_progress _ _ _ Hok) as (_ & Hs & Hnext & Hless).
  destruct (decide (Exists (unread g) (partitions (c_world g)))) as [Hun|Hread].
  - apply Exists_exists in Hun as (p & Hp & Hun). unfold partitions in Hp. apply elem_of_remove_dups, list_elem_of_fmap in Hp as (rec & -> & _).
    destruct (bl_covered _ (co_balanced _ _ Hok) (rec_key rec)) as [i Hown].
    pose proof (Hless i _ (Hfair _ (owns_member _ _ _ Hown)) Hown Hun). lia.
  - assert (crew_lag g = 0%nat) as Hzero.
    { apply read_up_lag. intros p. apply Nat.nlt_ge. intros Hun. apply Hread, Exists_exists. exists p. split; [|done].
      apply (elem_of_partitions topic). intros Hnil. rewrite Hnil in Hun. cbn in Hun. lia. }
    destruct Hnext as [Ho|Hlt]; [rewrite (crew_lag_same _ _ Hs Ho)|]; lia.
Qed.

(** Enough fair rounds, and everything is read. *)
Lemma fair_rounds rounds k g :
  crew_ok (length (concat rounds) + k) g → Forall (fair g) rounds → (crew_lag g ≤ length rounds)%nat →
  crew_ok k (crew_run g (concat rounds)) ∧ same_crew g (crew_run g (concat rounds)) ∧
  read_up topic (c_world (crew_run g (concat rounds))) (c_offsets (crew_run g (concat rounds))).
Proof.
  revert g. induction rounds as [|round rounds IH]; intros g Hok Hfair Hlag; cbn [concat length] in *.
  - split_and!; [done|by split_and!|]. apply lag_zero. change (crew_lag g = 0%nat). lia.
  - apply Forall_cons in Hfair as [Hf Hfair]. rewrite length_app, <- Nat.add_assoc in Hok.
    pose proof (fair_round _ _ _ Hok Hf) as Hless. destruct (crew_run_progress _ _ _ Hok) as (Hok1 & Hs1 & _).
    unfold crew_run in *. rewrite foldl_app.
    destruct (IH _ Hok1) as (Hok2 & Hs2 & Hup); [|lia|].
    + eapply Forall_impl; [exact Hfair|]. intros r Hr i Hi. apply Hr. destruct Hs1 as (_ & <- & _). done.
    + split_and!; [done|by eapply same_crew_trans|done].
Qed.
End crew.

(** ** From the outbox to the customers *)

Section eventually.
Context `{External} `{!ExternalLaws _} `{!JsonbLaws _} `{AuthExternal}.
Context `{P : Producer} `{!ProducerLaws P} `{!ReliableProducer P}.
Context (topic : string) `{CC : ConsumerClient C} `{!ConsumerClientLaws CC topic} `{LC : !LiveClient CC topic} `{!InformedClient CC topic}.
Implicit Types (w : World) (c : C).

(** C5. Every event reaches its customer: from any run of the system and of a
    group of consumers whose partitions are assigned, once the publisher had
    undisturbed rounds for all unpublished events, and the consumers as many
    rounds as the log has records, in each of which every member takes at
    least one turn, in any order, every event of the outbox is published and
    notified, to the customer of its order.  The one exception are the
    [order.created] events whose request wrote the user in a form that pgx
    reads and uuid.Parse refuses: these are published, and refused by the
    consumer.  No loop ends with an error. *)
Theorem eventually_notified n rounds g schedule :
  group_run topic (group_of g) → balanced topic g → 0 < n → undisturbed (c_world g) →
  Z.of_nat (length (pending (w_db (c_world g)))) ≤ n * Z.of_nat (S rounds) →
  Forall (fair g) schedule →
  (length (w_topic (c_world g)) + length (pending (w_db (c_world g))) ≤ length schedule)%nat →
  fresh_ids (length (concat schedule)) (c_world g) →
  ∃ w1, Publisher.Run (mkConfig topic n) rounds (c_world g) = (Ok tt, w1) ∧
    let g2 := crew_run topic (mkCrew w1 (c_offsets g) (c_clients g)) (concat schedule) in
    dom (c_clients g2) = dom (c_clients g) ∧
    dom (outbox_events (w_db (c_world g2))) = dom (outbox_events (w_db (c_world g))) ∧
    ∀ id e, outbox_events (w_db (c_world g2)) !! id = Some e →
      is_Some (OutboxEvent_PublishedAt e) ∧ settled_event (w_db (c_world g2)) id e.
Proof.
  intros Hgrun Hbal Hn Hw Hlen Hfair Hrounds Hf. pose proof (group_run_program topic _ Hgrun) as Hrun. cbn [g_world group_of] in Hrun.
  destruct (Run_sends topic n rounds (c_world g)) as (w1 & Hpub & Hsent); [done..|].
  exists w1. split; [done|]. cbn zeta. set (g1 := mkCrew w1 (c_offsets g) (c_clients g)).
  destruct (fair_rounds topic schedule 0 g1) as (Hok2 & (Hlog & Hdom & _) & Hup).
  - split; [|by rewrite Nat.add_0_r; apply Hsent|by destruct Hbal].
    eapply group_ok_later; [apply Hsent|by apply group_run_ok].
  - done.
  - etransitivity; [apply lag_topic|]. cbn. by rewrite (as_topic _ _ _ Hsent).
  - split; [done|]. eapply all_notified; [exact Hrun|exact Hsent|exact Hlog|exact Hup|].
    intros p. apply (go_offsets _ _ (co_group _ _ _ Hok2)).
Qed.
End eventually.
