(* ===== verification/Processes.v ===== *)
(** * Whole processes

    The publisher and the consumer from [main] to their exit: the start of
    [Startup], the loop, and the end.  Whatever the settings and the servers
    do, such a process is a part of the system. *)

From S2P Require Import Prelude GoStrings Json Models World.
From S2P Require Import Sqlc.
From S2P Require Import Store.
From S2P Require Import OrderService.
From S2P Require Import Spec OrderRefine.
From S2P Require Import Auth.
From S2P Require Import Publisher.
From S2P Require Import Consumer.
From S2P Require Import Kafka KafkaConsumer.
From S2P Require Config.
From S2P Require Import AppStart.
From S2P Require Import System Startup Delivery Group.

Section processes.
Context `{External} `{!ExternalLaws _} `{AuthExternal} `{P : Producer} `{!ProducerLaws P}.
Context `{Drivers St Pool Client ProducerHandle ConsumerHandle} `{CC : ConsumerClient C}.
(** The client of confluent-kafka-go behind a handle, before it subscribes. *)
Context (client : ConsumerHandle → C).
Implicit Types (st : St) (w : World) (c : C).

(** The publisher, whose context ends in round [n]: its exit status. *)
Definition publisher_process (n : nat) (cfg : Config.Config) (st : St) (w : World) : Z * (St * World) :=
  match publisher_main cfg st with
  | (Exit code, st1) => (code, (st1, w))
  | (Running (dbPool, kafkaProducer, config), st1) =>
    let w1 := (Publisher.Run config n w).2 in
    let '(code, st2) := publisher_end dbPool kafkaProducer st1 in (code, (st2, w1))
  end.

(** The consumer; no exit status when it still runs after [n] turns. *)
Definition consumer_process (n : nat) (cfg : Config.Config) (st : St) (w : World) : option Z * (St * World) :=
  match consumer_start cfg st with
  | (Exit code, st1) => (Some code, (st1, w))
  | (Running (dbPool, kafkaConsumer), st1) =>
    match KafkaConsumer.Run n (Config.KafkaTopic cfg) (Some record_handler) (w, client kafkaConsumer) with
    | (None, (w1, _)) => (None, (st1, w1))
    | (Some runErr, (w1, _)) =>
      let '(code, st2) := consumer_end dbPool kafkaConsumer runErr st1 in (Some code, (st2, w1))
    end
  end.

(** The units of work of a publisher, with the topic of its settings. *)
Lemma publisher_process_steps n cfg st w code st' w' :
  publisher_process n cfg st w = (code, (st', w')) → rtc (program_step (Config.KafkaTopic cfg)) w w'.
Proof.
  unfold publisher_process, publisher_main.
  destruct (Retry (Open _) _ _ _ st) as [[[pool|] [e|]] st1]; try by intros [= _ _ <-].
  destruct (Retry (connect_producer cfg) _ _ _ st1) as [[[producer|] [e|]] st2]; try by intros [= _ _ <-].
  cbn. intros [= _ _ <-]. apply conforms_Run.
Qed.

Section consumer.
Context (cfg : Config.Config) `{!ConsumerClientLaws CC (Config.KafkaTopic cfg)}.
Context (topic_set : Config.KafkaTopic cfg ≠ "").

(** A consumer process that is started among others is a member of the group
    as long as it runs: what it does is a run of the group, and no other
    member is touched. *)
Lemma consumer_process_group i n st w offs ms code st' w' :
  ms !! i = None → (∀ h, knows offs (client h)) →
  consumer_process n cfg st w = (code, (st', w')) →
  ∃ offs' ms', rtc (group_step (Config.KafkaTopic cfg)) (mkGroup w offs ms) (mkGroup w' offs' ms') ∧ delete i ms' = delete i ms.
Proof.
  intros Hi Hk. unfold consumer_process. destruct (consumer_start cfg st) as [[|[pool handle]] st1];
    [by intros [= _ _ <-]; exists offs, ms|].
  destruct (KafkaConsumer.Run _ _ _ _) as [r [w1 c1]] eqn:Hrun.
  destruct (Run_group (Config.KafkaTopic cfg) i n w (client handle) r w1 c1 offs ms topic_set Hi (Hk handle) Hrun) as (offs' & ms' & Hs & Hms).
  destruct r as [runErr|].
  - unfold consumer_end. destruct (ConsumerHandle_Close _ _) as [closed st2].
    destruct (_ || _); intros [= _ _ <-]; by exists offs', ms'.
  - intros [= _ _ <-]. by exists offs', ms'.
Qed.

(** It exits with status 0 only when [Run] ended with its context and the
    client could be closed, and then it has closed its pool. *)
Lemma consumer_process_success n st w st' w' :
  consumer_process n cfg st w = (Some 0, (st', w')) →
  ∃ pool handle st1 c', consumer_start cfg st = (Running (pool, handle), st1) ∧
    KafkaConsumer.Run n (Config.KafkaTopic cfg) (Some record_handler) (w, client handle) = (Some (Ok tt), (w', c')) ∧
    (ConsumerHandle_Close handle st1).1 = Ok tt ∧ st' = Pool_Close pool (ConsumerHandle_Close handle st1).2.
Proof.
  unfold consumer_process. destruct (consumer_start cfg st) as [[code|[pool handle]] st1] eqn:Hstart.
  { revert Hstart. unfold consumer_start. destruct (Retry _ _ _ _ st) as [[[p|] [e|]] st2]; try by intros [= <- <-].
    destruct (NewConsumer _ _ _ _); [done|by intros [= <- <-]]. }
  destruct (KafkaConsumer.Run _ _ _ _) as [[runErr|] [w1 c1]] eqn:Hrun; [|done].
  unfold consumer_end. destruct (ConsumerHandle_Close handle st1) as [[[]|e] st2] eqn:Hclose; unfold Consumer_Close; cbn.
  - destruct runErr as [[]|err]; cbn; [|done]. intros [= <- <-]. exists pool, handle, st1, c1. rewrite Hclose. by split_and!.
  - by rewrite orb_true_r.
Qed.
End consumer.
End processes.
