(* ===== verification/OrderTheorems.v ===== *)
(** * Theorems about single requests to the order service

    All or nothing for every schedule of faults, who may see and change an
    order, and what the hash of a request stands for. *)

From S2P Require Import Prelude GoStrings Sha256 Json Models World.
From S2P Require Import Sqlc.
From S2P Require Import Store.
From S2P Require Import OrderService.
From S2P Require Import Spec OrderRefine Evolution Invariants Bookkeeping.
From S2P Require Import OrderProperties OrderTotal.

Section all_or_nothing.
Context `{External} `{!ExternalLaws _}.

(** C18. CreateOrder is all or nothing, whatever the connections do: either
    the tables are as they were, and the answer is an error or a stored
    order; or exactly one order, its event and its idempotency record were
    inserted, as the request says, and the answer is that order or an error
    of the connection (the answer of the commit was lost). *)
Theorem CreateOrder_all_or_nothing params w :
  let '(r, w') := CreateOrder params w in
  (w_db w' = w_db w ∧ ∀ res, r = Ok res → CreateOrderResult_Cached res = true)
  ∨ ∃ o e k,
    create_outcome params (TrimSpace (CreateOrder_IdempotencyKey params)) (create_currency params)
      (create_description params) (create_hash params) (w_db w) o e k (w_db w') ∧
    (r = Ok (mkCreateOrderResult o StatusCreated false) ∨ lost_answer r).
Proof. destruct (CreateOrder params w) as [r w'] eqn:Hrun. by apply CreateOrder_cases. Qed.

(** C19. PayOrder is all or nothing: either the tables are as they were, or
    one payment of the full amount was inserted for an open order of the user
    (or for an admin), the order has the status of its outcome, and its event
    and idempotency record were inserted with it. *)
Theorem PayOrder_all_or_nothing params w :
  reachable (w_db w) →
  let '(r, w') := PayOrder params w in
  (w_db w' = w_db w ∧ ∀ res, r = Ok res → PayOrderResult_Cached res = true)
  ∨ ∃ res o e k,
    pay_outcome params (TrimSpace (PayOrder_IdempotencyKey params)) (pay_hash params)
      (w_db w) res o e k (w_db w') ∧
    (r = Ok res ∨ lost_answer r).
Proof.
  intros Hr. destruct (PayOrder params w) as [r w'] eqn:Hrun. apply PayOrder_cases; [by apply reachable_keyed|done].
Qed.

(** C20. CancelOrder is all or nothing: either the tables are as they were and
    the answer is an error, or an open order of the user (or for an admin) is
    cancelled and its event was inserted with the change. *)
Theorem CancelOrder_all_or_nothing params w :
  reachable (w_db w) →
  let '(r, w') := CancelOrder params w in
  (w_db w' = w_db w ∧ is_ok r = false)
  ∨ ∃ res o e, cancel_outcome params (w_db w) res o e (w_db w') ∧ (r = Ok res ∨ lost_answer r).
Proof.
  intros Hr. destruct (CancelOrder params w) as [r w'] eqn:Hrun. apply CancelOrder_cases; [by apply reachable_keyed|done].
Qed.

(** C28. Nobody changes another customer's order, or one that is settled: when
    PayOrder or CancelOrder changed the tables, the caller is an admin or the
    owner of the order, and the order was open. *)
Theorem order_change_authorized pay cancel w :
  reachable (w_db w) →
  (w_db (PayOrder pay w).2 ≠ w_db w →
   ∃ o, UUID_Scan (PayOrder_OrderID pay) = Some (Order_ID o) ∧ orders (w_db w) !! Order_ID o = Some o ∧
     (PayOrder_Role pay = "admin" ∨ UUID_String (Order_UserID o) = PayOrder_UserID pay) ∧
     status_open (Order_Status o) = true) ∧
  (w_db (CancelOrder cancel w).2 ≠ w_db w →
   ∃ o, UUID_Scan (CancelOrder_OrderID cancel) = Some (Order_ID o) ∧ orders (w_db w) !! Order_ID o = Some o ∧
     (CancelOrder_Role cancel = "admin" ∨ UUID_String (Order_UserID o) = CancelOrder_UserID cancel) ∧
     status_open (Order_Status o) = true).
Proof.
  intros Hr%reachable_keyed.
  assert (∀ role user o, order_forbidden role user o = false → role = "admin" ∨ UUID_String (Order_UserID o) = user) as Hallow.
  { intros role user o. unfold order_forbidden. by rewrite andb_false_iff, !negb_false_iff, !bool_decide_eq_true. }
  split; intros Hne.
  - destruct (PayOrder pay w) as [r w'] eqn:Hrun.
    apply PayOrder_cases in Hrun as [[? _]|(res & o & e & k & Hout & _)]; [done| |done].
    exists o. split_and!; [by eapply po_id|by eapply po_order| |by eapply po_open]. eapply Hallow. by eapply po_allowed.
  - destruct (CancelOrder cancel w) as [r w'] eqn:Hrun.
    apply CancelOrder_cases in Hrun as [[? _]|(res & o & e & Hout & _)]; [done| |done].
    exists o. split_and!; [by eapply xo_id|by eapply xo_order| |by eapply xo_open]. eapply Hallow. by eapply xo_allowed.
Qed.

(** C32. GetOrder, on every branch: the order for its owner and for admins,
    [ErrOrderForbidden] for others, [ErrOrderNotFound] otherwise; and, since
    every error of the store is taken for a missing row, [ErrOrderNotFound]
    too when the connection fails. *)
Theorem GetOrder_answers params w :
  (OrderService.GetOrder params w).1 =
    match fault (w_tick w), find_order (GetOrder_OrderID params) (w_db w) with
    | NoFault, Ok o =>
      if order_forbidden (GetOrder_Role params) (GetOrder_UserID params) o then Err ErrOrderForbidden else Ok o
    | _, _ => Err ErrOrderNotFound
    end ∧
  w_db (OrderService.GetOrder params w).2 = w_db w.
Proof.
  split; [|apply readonly_GetOrder_service].
  unfold OrderService.GetOrder, bind, try, Store.GetOrder, find_order, bind, scan, Sqlc.GetOrder, query.
  destruct (UUID_Scan _) as [u|]; [|by destruct (fault (w_tick w))]. unfold ret. cbn.
  destruct (fault (w_tick w)), (orders (w_db w) !! u) as [o|]; cbn; try done. by destruct (order_forbidden _ _ _).
Qed.

(** ListOrders: an admin gets every order, a customer exactly the own
    ones, each once, latest first. *)
Lemma ListOrders_answers params w u :
  fault (w_tick w) = NoFault → UUID_Scan (ListOrders_UserID params) = Some u →
  ∃ l, OrderService.ListOrders params w = (Ok l, next_tick w) ∧
    StronglySorted (desc_le Order_CreatedAt) l ∧
    l ≡ₚ base.filter (λ o, ListOrders_Role params = "admin" ∨ Order_UserID o = u) (rows (orders (w_db w))).
Proof.
  intros Hf Hu. unfold OrderService.ListOrders. case_bool_decide as Hrole.
  - eexists. split; [|split; [apply order_by_desc_sorted|]].
    + unfold Store.ListOrders, Sqlc.ListOrders. rewrite query_nofault by done. by rewrite set_db_next.
    + rewrite order_by_desc_perm.
      induction (rows (orders (w_db w))) as [|o l IH]; [done|]. rewrite filter_cons_True by auto. by rewrite <- IH.
  - eexists. split; [|split; [apply order_by_desc_sorted|]].
    + unfold Store.ListOrdersByUser, Sqlc.ListOrdersByUser, bind. rewrite (scan_eval _ _ _ Hu), query_nofault by done.
      by rewrite set_db_next.
    + rewrite order_by_desc_perm. unfold select. apply reflexive_eq, list_filter_iff.
      intros o. rewrite bool_decide_eq_true. naive_solver.
Qed.

(** The text whose hash is stored. *)
Definition create_body (params : CreateOrderParams) : string :=
  Marshal (create_request (CreateOrder_AmountCents params) (create_currency params) (create_description params)).

(** The request hash binds the request: two requests in valid UTF-8 with
    the same hash have the same amount, currency and description, unless their
    bodies are two different texts with the same SHA-256. *)
Lemma create_hash_binds p q :
  create_hash p = create_hash q →
  utf8_valid (create_currency p) = true → utf8_valid (create_description p) = true →
  utf8_valid (create_currency q) = true → utf8_valid (create_description q) = true →
  (CreateOrder_AmountCents p = CreateOrder_AmountCents q ∧ create_currency p = create_currency q ∧
   create_description p = create_description q)
  ∨ (create_body p ≠ create_body q ∧ Sum256 (create_body p) = Sum256 (create_body q)).
Proof.
  unfold create_hash, create_body. intros Heq%hex_encode_inj Hc1 Hd1 Hc2 Hd2.
  set (b1 := create_request _ _ _) in *. set (b2 := create_request (CreateOrder_AmountCents q) _ _) in *.
  destruct (decide (Marshal b1 = Marshal b2)) as [Hm|]; [left|right; eauto].
  assert (∀ a c d, utf8_valid c = true → utf8_valid d = true → json_ok (create_request a c d) = true) as Hok.
  { intros a c d Hc Hd. unfold create_request, JInt. cbn [json_ok forallb fst snd].
    rewrite Hc, Hd, num_lit_pretty. by vm_compute. }
  apply (f_equal Parse) in Hm. rewrite !Parse_Marshal in Hm by (by apply Hok).
  unfold b1, b2, create_request, JInt in Hm. injection Hm as Ha Hc Hd. split; [|done].
  by apply (inj pretty) in Ha.
Qed.
End all_or_nothing.
