(* ===== verification/Scenario.v ===== *)
(** * A concrete run

    One customer registers, orders, pays; the publisher sends the events and
    the consumer handles them, in the concrete world of [Concrete].  The
    theorems are applied to it. *)

From S2P Require Import Prelude GoStrings Sha256 Json Models World.
From S2P Require Import Sqlc.
From S2P Require Import Store.
From S2P Require Import OrderService.
From S2P Require Import Spec OrderRefine Evolution Invariants Bookkeeping Concrete.
From S2P Require Import OrderProperties OrderTotal.
From S2P Require Import Auth.
From S2P Require Import Publisher Losses.
From S2P Require Import Consumer.
From S2P Require Import Envelope KafkaConsumer.
From S2P Require Import System Sessions.
From S2P Require Import SystemTheorems OrderTheorems.
From S2P Require Import Delivery Liveness.

(** ** Instances *)

(** Tokens in clear: the claims as JSON, with the key in hexadecimal.  The times
    of a token are 64-bit integers. *)
Definition clear_token (secret : string) (c : Claims) : json :=
  JObj [("key", JStr (hex_encode secret)); ("user_id", JStr (Claims_UserID c)); ("email", JStr (Claims_Email c));
        ("role", JStr (Claims_Role c)); ("sub", JStr (Claims_Subject c)); ("iat", JInt (Claims_IssuedAt c));
        ("exp", JInt (Claims_ExpiresAt c))].

Definition clear_claims (v : json) : option (string * Claims) :=
  match v with
  | JObj [(_, JStr k); (_, JStr u); (_, JStr e); (_, JStr r); (_, JStr s); (_, JNum i); (_, JNum x)] =>
    match ParseInt i, ParseInt x with
    | Some i, Some x => Some (k, mkClaims u e r s i x)
    | _, _ => None
    end
  | _ => None
  end.

Definition int64 (z : Z) : bool := (int64_min <=? z) && (z <=? int64_max).

Lemma clear_token_reads secret c :
  int64 (Claims_IssuedAt c) && int64 (Claims_ExpiresAt c) = true →
  Parse (Marshal (clear_token secret c)) ≫= clear_claims = Some (hex_encode secret, json_claims c).
Proof.
  unfold int64. rewrite !andb_true_iff, !Z.leb_le. intros [Hi Hx].
  unfold clear_token. rewrite Marshal_object_parses; [|done|by repeat constructor|].
  - unfold json_claims. cbn -[sanitize ParseInt]. rewrite !ParseInt_pretty by done.
    by rewrite (sanitize_valid (hex_encode secret)) by apply utf8_ascii, hex_encode_ascii.
  - repeat first [apply Forall_nil_2 | apply Forall_cons_2; [first [by left; eexists | by right; eexists]|]].
Qed.

Definition clear_auth : AuthExternal := {|
  jwt_SignedString secret c :=
    if int64 (Claims_IssuedAt c) && int64 (Claims_ExpiresAt c) then Ok (Marshal (clear_token secret c)) else Err ErrJSON;
  jwt_ParseWithClaims keyfunc now token :=
    match Parse token ≫= clear_claims with
    | Some (k, c) =>
      match keyfunc SigningMethodHS256 with
      | Ok key =>
        if bool_decide (hex_encode key = k) && (now <? Claims_ExpiresAt c) then Ok (c, true) else Err (ErrNew "token is expired")
      | Err e => Err e
      end
    | None => Err (ErrNew "token is malformed")
    end;
  bcrypt_GenerateFromPassword _ password := Ok ("hash:" +:+ hex_encode password);
  bcrypt_CompareHashAndPassword hash password := bool_decide (hash = "hash:" +:+ hex_encode password);
  rand_Read32 n := Ok (num_bytes 32 (N.of_nat n))
|}.

#[global] Instance clear_auth_laws : AuthLaws clear_auth.
Proof.
  split; cbn -[Parse Marshal].
  - intros secret c token now kf Hs Hk Hexp%Z.ltb_lt. destruct (_ && _) eqn:Hi; [|done]. injection Hs as <-.
    rewrite (clear_token_reads _ _ Hi), Hk. cbn -[sanitize]. by rewrite bool_decide_eq_true_2, Hexp.
  - intros secret c token now kf Hs Hk Hexp%Z.ltb_ge. destruct (_ && _) eqn:Hi; [|done]. injection Hs as <-.
    rewrite (clear_token_reads _ _ Hi), Hk. cbn -[sanitize]. rewrite Hexp, andb_false_r. by eexists.
  - intros _ password hash [= <-]. by apply bool_decide_eq_true_2.
Qed.

(** A producer that delivers everything. *)
Definition reliable : Producer := {|
  Publish topic key payload := λ w, (Ok tt, add_record (mkKafkaRecord topic key payload) w)
|}.

#[global] Instance reliable_laws : ProducerLaws reliable.
Proof.
  split; cbn.
  - by intros ????? [= <-].
  - done.
  - by intros ?????? [= <- <-].
Qed.
#[global] Instance reliable_delivers : ReliableProducer reliable.
Proof. by split. Qed.

(** One that rejects the records that [lost] picks. *)
Definition rejecting (lost : KafkaRecord → bool) : Producer := {|
  Publish topic key payload := λ w,
    if lost (mkKafkaRecord topic key payload) then (Err (ErrInfra "message too large"), w)
    else (Ok tt, add_record (mkKafkaRecord topic key payload) w)
|}.

Lemma rejecting_loses lost : LosingProducer (rejecting lost) lost (ErrInfra "message too large").
Proof. by split. Qed.

#[local] Existing Instances calm calm_laws clear_auth clear_auth_laws reliable reliable_laws reliable_delivers.

(** ** The story *)

Definition topic : string := "order-events".
Definition batch : Config := mkConfig topic 10.

Definition s0 : World := init_world empty_db.
Definition register_req := mkRegisterUserParams " Alice@Example.com " "secret" "".
Definition s1 : World := (RegisterUser register_req s0).2.
Definition alice_id : string := uuid_string (generated 1).

Definition order_req := mkCreateOrderParams alice_id " key-1 " "POST" "/orders" 1999 " usd" "a book ".
Definition s2 : World := (CreateOrder order_req s1).2.
Definition order_id : UUID := generated 2.
Definition order_text : string := uuid_string order_id.

Definition pay_req := mkPayOrderParams alice_id "customer" order_text "key-2" "POST" "/orders/1/pay".
Definition s3 : World := (PayOrder pay_req s2).2.

Definition s4 : World := (PublishBatch batch s3).2.

Definition deliver (rec : KafkaRecord) (w : World) : World := (handleRecord (rec_topic rec) (rec_value rec) w).2.
Definition s5 : World := foldr deliver s4 (w_topic s4).

(** Each call is a run of the system's units of work, with any producer. *)
Section runs.
Context `{P : Producer} `{!ProducerLaws P}.

Lemma run_call {A} (m : M A) w : conforms topic m → program_run topic w → program_run topic (m w).2.
Proof. intros Hm (w0 & Hdb & Ht & Hs). exists w0. split_and!; [done..|]. etransitivity; [exact Hs|apply Hm]. Qed.

Lemma run_s0 : program_run topic s0.
Proof. by exists s0. Qed.
Lemma run_s1 : program_run topic s1.
Proof. apply run_call; [apply conforms_RegisterUser|apply run_s0]. Qed.
Lemma run_s2 : program_run topic s2.
Proof. apply run_call; [apply conforms_CreateOrder|apply run_s1]. Qed.
Lemma run_s3 : program_run topic s3.
Proof. apply run_call; [apply conforms_PayOrder|apply run_s2]. Qed.
End runs.

Lemma run_s4 : program_run topic s4.
Proof. apply run_call; [apply conforms_PublishBatch|apply run_s3]. Qed.
Lemma run_deliveries w l :
  program_run topic w → l ⊆ w_topic w →
  program_run topic (foldr deliver w l) ∧ w_topic (foldr deliver w l) = w_topic w.
Proof.
  intros Hw Hl. induction l as [|rec l IH]; [done|]. cbn [foldr]. destruct IH as [IH Ht]; [set_solver|].
  assert (rec ∈ w_topic (foldr deliver w l)) as Hin by (rewrite Ht; set_solver). unfold deliver at 1 3.
  rewrite handleRecord_topic. split; [|done]. destruct IH as (w0 & ? & ? & Hs). exists w0. split_and!; [done..|].
  etransitivity; [exact Hs|]. by apply handleRecord_steps.
Qed.
Lemma run_s5 : program_run topic s5.
Proof. unfold s5. by apply run_deliveries; [apply run_s4|]. Qed.

Lemma reachable_s (w : World) : program_run topic w → reachable (w_db w).
Proof. apply program_run_reachable. Qed.

(** Later states are reached by steps of the abstract system. *)
Lemma steps_call {A} (m : M A) w : conforms topic m → program_run topic w → rtc db_step (w_db w) (w_db (m w).2).
Proof. intros Hm Hr. eapply program_steps_rtc; [by apply reachable_s|apply Hm]. Qed.

Lemma steps_s1_s2 : rtc db_step (w_db s1) (w_db s2).
Proof. apply steps_call; [apply conforms_CreateOrder|apply run_s1]. Qed.
Lemma steps_s2_s3 : rtc db_step (w_db s2) (w_db s3).
Proof. apply steps_call; [apply conforms_PayOrder|apply run_s2]. Qed.
Lemma steps_s3_s4 : rtc db_step (w_db s3) (w_db s4).
Proof. apply steps_call; [apply conforms_PublishBatch|apply run_s3]. Qed.

(** What happens in the story. *)
Example story_answers :
  ((let '(r, _) := CreateOrder order_req s1 in is_ok r) && (let '(r, _) := PayOrder pay_req s2 in is_ok r)
   && (let '(r, _) := PublishBatch batch s3 in is_ok r)) = true.
Proof. vm_compute. reflexivity. Qed.

Example story_end :
  (size (orders (w_db s5)), size (payments (w_db s5)), size (outbox_events (w_db s5)), length (w_topic s5),
   size (notification_deliveries (w_db s5)), w_metrics s5)
  = (1, 1, 2, 2, 2,
     [ConsumerEventsProcessedTotal "payment.succeeded"; ConsumerEventsProcessedTotal "order.created";
      OutboxEventsPublishedTotal "payment.succeeded"; OutboxEventsPublishedTotal "order.created";
      PaymentsTotal "succeeded"; OrdersCreatedTotal])%nat.
Proof. vm_compute. reflexivity. Qed.

(** Two tables that differ in size differ. *)
Lemma orders_changed db db' : bool_decide (size (orders db') = size (orders db)) = false → db' ≠ db.
Proof. intros Hs%bool_decide_eq_false ->. done. Qed.
Lemma payments_changed db db' : bool_decide (size (payments db') = size (payments db)) = false → db' ≠ db.
Proof. intros Hs%bool_decide_eq_false ->. done. Qed.

(** The row of a table, by computation. *)
Definition row {A} (o : option A) (d : A) : A := default d o.

(** ** Order of events *)

Definition no_event : OutboxEvent := mkOutboxEvent order_id "" order_id "" "" None 0 None 0 order_id.

(** The events of the story, and the batch whose producer rejects the first. *)
Definition events3 : list OutboxEvent := claimed 10 (locked_rows (S (w_tick s3))) (w_db s3).
Definition no_record : KafkaRecord := mkKafkaRecord "" "" "".
Definition records3 : list KafkaRecord := (λ e, default no_record (event_record batch e)) <$> events3.
Definition created_lost (rec : KafkaRecord) : bool := bool_decide (rec_value rec = rec_value (nth 0 records3 no_record)).

Definition markable_b (reason : error) (e : OutboxEvent) : bool :=
  opt_text_ok (text (error_text ext_text reason)) && (0 <=? OutboxEvent_Attempt e) && (OutboxEvent_Attempt e <? int32_max).

Lemma markable_check reason es : forallb (markable_b reason) es = true → Forall (markable reason) es.
Proof.
  rewrite forallb_forall, Forall_forall. intros Hall e He%list_elem_of_In%Hall. unfold markable_b in He.
  by rewrite !andb_true_iff, Z.leb_le, Z.ltb_lt in He; destruct He as [[? ?] ?].
Qed.

Lemma records_check : forallb (λ e, match event_record batch e with Some _ => true | None => false end) events3 = true →
  Forall2 (λ e rec, event_record batch e = Some rec) events3 records3.
Proof.
  unfold records3. rewrite forallb_forall. generalize events3. intros es Hall.
  induction es as [|e es IH]; [constructor|]. constructor; [|apply IH; intros x Hx; apply Hall; by right].
  specialize (Hall e (or_introl eq_refl)). by destruct (event_record batch e).
Qed.

(** What there is to see of two events: the types and the key. *)
Definition seen (e1 e2 : OutboxEvent) : string * string * bool :=
  (OutboxEvent_EventType e1, OutboxEvent_EventType e2,
   bool_decide (OutboxEvent_PartitionKey e1 = OutboxEvent_PartitionKey e2)).

(** The order is created, then paid; its payment comes first in the log. *)
Lemma events_overtake_witness :
  ∃ w' e1 e2 rec1 rec2, PublishBatch (H0 := rejecting created_lost) batch s3 = (Ok tt, w') ∧
    seen e1 e2 = (EventTypeOrderCreated, EventTypePaymentSucceeded, true) ∧
    event_record batch e1 = Some rec1 ∧ event_record batch e2 = Some rec2 ∧
    rec2 ∈ w_topic w' ∧ rec1 ∉ w_topic w'.
Proof.
  assert (forallb (markable_b (ErrInfra "message too large")) events3 = true) as Hm by (vm_compute; reflexivity).
  assert (Forall2 (λ e rec, event_record batch e = Some rec) events3 records3) as Hrecs
    by (apply records_check; vm_compute; reflexivity).
  destruct (events_overtake (P := rejecting created_lost) created_lost (ErrInfra "message too large")
    (LosingProducer0 := rejecting_loses created_lost) batch s3 records3 (reachable_s _ run_s3)
    ltac:(discriminate) ltac:(reflexivity) (markable_check _ _ Hm) Hrecs) as (w' & Hrun & _ & Hover).
  set (e1 := nth 0 events3 no_event) in *. set (e2 := nth 1 events3 no_event) in *.
  set (rec1 := nth 0 records3 no_record) in *. set (rec2 := nth 1 records3 no_record) in *.
  assert (events3 !! 0%nat = Some e1 ∧ events3 !! 1%nat = Some e2 ∧ records3 !! 0%nat = Some rec1 ∧ records3 !! 1%nat = Some rec2)
    as (He1 & He2 & Hr1 & Hr2) by (split_and!; vm_compute; reflexivity).
  destruct (Hover 0%nat 1%nat e1 e2 rec1 rec2 (Nat.lt_0_succ 0) He1 He2 Hr1 Hr2) as (_ & _ & _ & Hin & _ & Hout);
    [vm_compute; reflexivity..|].
  exists w', e1, e2, rec1, rec2. split; [exact Hrun|]. split; [vm_compute; reflexivity|].
  split; [vm_compute; reflexivity|]. split; [vm_compute; reflexivity|]. split; [exact Hin|].
  apply Hout. intros Hx. apply (not_elem_of_nil rec1). exact Hx.
Defined.

(** ** A consumer client

    One partition; the context ends after a number of looks at it. *)

Record Script := mkScript { script_position : Z → nat; script_committed : Z → nat; script_left : nat }.

Definition set_offset (p : Z) (n : nat) (f : Z → nat) : Z → nat := λ q, if bool_decide (q = p) then n else f q.

Definition script_poll (w : World) (c : Script) : Event * Script :=
  let off := script_position c 0 in
  match base.filter (λ rec, rec_topic rec = topic ∧ 0 = 0) (rev (w_topic w)) !! off with
  | Some rec =>
    (MessageEvent (mkMessage (Some topic) 0 (Z.of_nat off) (rec_key rec) (rec_value rec)),
     mkScript (set_offset 0 (S off) (script_position c)) (script_committed c) (script_left c))
  | None => (NilEvent, c)
  end.

(** [ctx] is what the client sees of its context. *)
Definition reader (ctx : Script → option error * Script) : ConsumerClient Script := {|
  partition_of _ := 0;
  position := script_position;
  committed := script_committed;
  ctx_Err := ctx;
  SubscribeTopics _ c := (Ok tt, mkScript (script_committed c) (script_committed c) (script_left c));
  Poll _ w c := script_poll w c;
  CommitMessage m c := (Ok tt, mkScript (script_position c)
    (set_offset (Message_Partition m) (S (Z.to_nat (Message_Offset m))) (script_committed c)) (script_left c))
|}.

Lemma reader_laws ctx :
  (∀ c e c', ctx c = (e, c') → script_position c' = script_position c ∧ script_committed c' = script_committed c) →
  ConsumerClientLaws (reader ctx) topic.
Proof.
  intros Hctx. split; cbn.
  - intros c e c' [-> ->]%Hctx. done.
  - by intros c r c' [= _ <-].
  - by intros c c' [= <-].
  - intros _ w c m c'. unfold script_poll. destruct (_ !! script_position c 0) as [rec|] eqn:Hrec; [|done].
    intros [= <- <-]. cbn. split; [done|]. split.
    + exists rec. split_and!; [exact Hrec|done|done|]. right. f_equal.
      apply list_elem_of_lookup_2, list_elem_of_filter in Hrec as [[<- _] _]. done.
    + split; [|done]. intros p. unfold set_offset. by case_bool_decide; subst.
  - intros _ w c e c'. unfold script_poll. destruct (_ !! script_position c 0); intros [= <- <-] Hm; [|done].
    by destruct (Hm _ eq_refl).
  - by intros m c r c' [= _ <-].
  - by intros m c c' [= <-] p.
  - done.
Qed.

(** A context that ends. *)
Definition script_client : ConsumerClient Script := reader (λ c,
  match script_left c with
  | O => (Some (ErrNew "context canceled"), c)
  | S n => (None, mkScript (script_position c) (script_committed c) n)
  end).

#[global] Instance script_client_laws : ConsumerClientLaws script_client topic.
Proof. apply reader_laws. intros c e c'. by destruct (script_left c); intros [= _ <-]. Qed.

(** The consumer process of the story: two turns after the batch. *)
#[local] Existing Instance script_client.

Definition script0 : Script := mkScript (λ _, 0%nat) (λ _, 0%nat) 10.
Definition read_two : option (result unit) * (World * Script) :=
  KafkaConsumer.Run 2 topic (Some record_handler) (s4, script0).
Definition s6 : World := read_two.2.1.
Definition script2 : Script := read_two.2.2.

Lemma run_read_two : KafkaConsumer.Run 2 topic (Some record_handler) (s4, script0) = (None, (s6, script2)).
Proof.
  assert (read_two.1 = None) as Hr by (vm_compute; reflexivity).
  change (read_two = (None, (s6, script2))). unfold s6, script2. rewrite <- Hr. generalize read_two.
  by intros [r [w c]].
Qed.

Lemma lift_program {H : External} `{AuthExternal} `{P : Producer} `{CC : ConsumerClient C} (w w' : World) (c : C) b :
  rtc (program_step topic) w w' → rtc (consumer_step topic) (w, c, b) (w', c, b).
Proof. apply (rtc_congruence (λ w, (w, c, b))). intros w1 w2. apply cs_system. Qed.

Lemma start_s4 : consumer_run topic (s4, script0, false).
Proof.
  destruct run_s4 as (w0 & Hdb & Ht & Hs). exists w0, script0. split_and!; [done..|]. by apply lift_program.
Qed.

Lemma run_s6 : consumer_run topic (s6, script2, true).
Proof.
  destruct start_s4 as (w0 & c0 & Hdb & Ht & Hc & Hs). exists w0, c0. split_and!; [done..|].
  etransitivity; [exact Hs|]. by apply (Run_steps topic 2 s4 script0 false None s6 script2); [|apply run_read_two].
Qed.
