(* ===== verification/LockScenario.v ===== *)
(** * Transactions in contention

    A concrete interleaved run of [Interleaving]: a payment and a cancellation
    of one order and a batch of the publisher are open at the same time.  The
    cancellation waits for the payment and then finds the order paid; the
    publisher dies after its record is in the log.  And another: two requests
    for an order with one idempotency key. *)

From S2P Require Import Prelude GoStrings Sha256 Json Models World.
From S2P Require Import Sqlc.
From S2P Require Import Store.
From S2P Require Import OrderService.
From S2P Require Import Spec Concrete.
From S2P Require Import Auth.
From S2P Require Import Publisher.
From S2P Require Import Consumer.
From S2P Require Import Scripts Locks System Interleaving Serializability Deadlock Contention.
From S2P Require Import Scenario.

#[local] Existing Instances calm calm_laws clear_auth clear_auth_laws reliable reliable_laws.

(** A process whose calls and UUIDs are counted from [n]. *)
Definition process (n : nat) : World := mkWorld empty_db n n None [] [].

Definition cancel_req := mkCancelOrderParams alice_id "customer" order_text.
Definition alice_user := mkRegisterUserParams "alice@example.com" "secret" "".

(** Alice has an order. *)
Definition ordering : list action :=
  [ACreateUser (process 0) alice_user; ABegin 1 (process 2) (RCreate order_req)]
  ++ repeat (AStatement 1) 6 ++ [ACommit 1].

(** The publisher claims the event of the order and the payment locks the order. *)
Definition contending : list action :=
  [ABegin 2 (process 20) (RPay pay_req); ABegin 3 (process 40) (RCancel cancel_req);
   ABegin 4 (process 60) (RPublish 10); AStatement 4; AStatement 2].

(** The payment goes on while the publisher sends, and commits; the
    cancellation reads the order and fails; the publisher dies. *)
Definition settling : list action :=
  [AStatement 2; AStatement 2; AStatement 4] ++ repeat (AStatement 2) 5
  ++ [ACommit 2; AStatement 3; ACommit 3; ARollback 4].

Definition contention : option Cluster := act_all topic (ordering ++ contending) c_init.
Definition settled_cluster : option Cluster := act_all topic (ordering ++ contending ++ settling) c_init.

#[local] Instance IdempotencyKey_eq_dec : EqDecision IdempotencyKey.
Proof. solve_decision. Defined.

Definition some {A} (o : option A) : bool := match o with Some _ => true | None => false end.

(** While the payment is open, the cancellation cannot read the order; the
    other two can go on. *)
Example cancellation_waits :
  match contention with
  | Some c => (some (act topic (AStatement 3) c), some (act topic (AStatement 2) c), some (act topic (AStatement 4) c))
  | None => (true, false, false)
  end = (false, true, true).
Proof. vm_compute. reflexivity. Qed.

(** At the end: one order, paid, one payment, two events, one record. *)
Definition summary (c : Cluster) : list string * nat * nat * nat * nat :=
  (Order_Status <$> rows (orders (c_db c)), size (payments (c_db c)), size (outbox_events (c_db c)),
   length (c_topic c), size (c_txs c)).

Example contention_settled :
  summary <$> settled_cluster = Some (["paid"], 1, 2, 1, 0)%nat.
Proof. vm_compute. reflexivity. Qed.

(** A run whose end looks so. *)
Lemma interleaved_summary {A} (f : Cluster → A) acts x :
  f <$> act_all topic acts c_init = Some x → ∃ c, interleaved topic c ∧ f c = x.
Proof. intros (c & Hacts & Hx)%fmap_Some. exists c. split; [by exists acts|done]. Qed.

Lemma interleaved_settled : ∃ c, interleaved topic c ∧ summary c = (["paid"], 1, 2, 1, 0)%nat.
Proof. exact (interleaved_summary summary _ _ contention_settled). Qed.

Lemma interleaving_serializes_witness :
  ∃ c w, summary c = (["paid"], 1, 2, 1, 0)%nat ∧ program_run topic w ∧ w_db w = c_db c ∧ w_topic w = c_topic c.
Proof.
  destruct interleaved_settled as (c & Hc & Hs). destruct (interleaving_serializes topic c Hc) as (w & Hw).
  exists c, w. exact (conj Hs Hw).
Defined.

(** In the middle of it: three transactions, new UUIDs, the third waits. *)
Lemma interleaved_contending :
  ∃ c, interleaved topic c ∧ (fresh_ids_b c, some (c_txs c !! 3%nat), some (act topic (AStatement 3) c)) = (true, true, false).
Proof. apply (interleaved_summary (λ c, (fresh_ids_b c, some (c_txs c !! 3%nat), some (act topic (AStatement 3) c))) (ordering ++ contending)). vm_compute. reflexivity. Qed.

Lemma no_deadlock_witness :
  ∃ c, interleaved topic c ∧ is_Some (c_txs c !! 3%nat) ∧
    (can_go_on topic c 3 ∨ ∃ m, waits_for c 3 m ∧ (can_go_on topic c m ∨ ∃ m', waits_for c m m' ∧ can_go_on topic c m')).
Proof.
  destruct interleaved_contending as (c & Hc & Hsum). exists c. split; [exact Hc|].
  destruct (c_txs c !! 3%nat) as [t|] eqn:Ht; [|discriminate Hsum]. split; [by exists t|].
  assert (fresh_ids_b c = true) as Hf by congruence.
  exact (no_deadlock topic c 3 t Hc (fresh_ids_spec c Hf) Ht).
Defined.

(** ** Two requests with one idempotency key

    Both have looked the key up before the other's record was there. *)
Definition same_key : list action :=
  [ACreateUser (process 0) alice_user; ABegin 1 (process 2) (RCreate order_req); ABegin 2 (process 20) (RCreate order_req)]
  ++ repeat (AStatement 1) 5 ++ repeat (AStatement 2) 5 ++ [AStatement 1].

(** A computable test of [contends], with a commit of the [i]-th that takes effect. *)
Definition contends_b (c : Cluster) (i j : nat) : bool :=
  match c_txs c !! i, c_txs c !! j, act topic (ACommit i) c with
  | Some ti, Some tj, Some c1 =>
    match tx_script tj with
    | sCall s _ =>
      match s return result (answer s) → bool with
      | SCreateIdempotencyKey _ => λ r,
        match r with
        | Ok k' => existsb (λ kv, bool_decide (idempotency_keys (c_db c) !! kv.1 = None)
            && bool_decide (IdempotencyKey_UserID k' = IdempotencyKey_UserID kv.2)
            && bool_decide (IdempotencyKey_Key k' = IdempotencyKey_Key kv.2)
            && bool_decide (idempotency_keys (c_db c1) !! kv.1 = Some kv.2))
            (map_to_list (idempotency_keys (tx_view c ti)))
        | Err _ => false
        end
      | _ => λ _, false
      end (exec s (set_env (tx_view c tj) (c_topic c) (tx_world tj))).1
    | sDone _ => false
    end
  | _, _, _ => false
  end.

Lemma contends_spec c i j :
  i ≠ j → contends_b c i j = true →
  ∃ kid k params f k' c1, contends c i j kid k params f k' ∧
    act topic (ACommit i) c = Some c1 ∧ idempotency_keys (c_db c1) !! kid = Some k.
Proof.
  intros Hne. unfold contends_b. destruct (c_txs c !! i) as [ti|] eqn:Hti; [|done].
  destruct (c_txs c !! j) as [tj|] eqn:Htj; [|done]. destruct (act topic (ACommit i) c) as [c1|] eqn:Hc1; [|done].
  destruct (tx_script tj) as [r|s f] eqn:Hsc; [done|]. destruct s; try done.
  destruct (exec _ _) as [[k'|e] w1] eqn:Hrun; cbn [fst]; [|done].
  intros ([kid k] & Hin & Hb)%existsb_exists. rewrite !andb_true_iff, !bool_decide_eq_true in Hb.
  destruct Hb as [[[Hnone Hu] Hk] Hc]. apply list_elem_of_In, elem_of_map_to_list in Hin.
  exists kid, k, params, f, k', c1. split_and!; [|done|done].
  split; [done|by exists ti|done| |done|done]. exists tj. by rewrite Hrun.
Qed.

Lemma interleaved_same_key : ∃ c, interleaved topic c ∧ contends_b c 1 2 = true.
Proof. apply (interleaved_summary (λ c, contends_b c 1 2) same_key). vm_compute. reflexivity. Qed.

Lemma same_key_conflict_witness :
  ∃ c c1 c2 t, interleaved topic c ∧ act topic (AStatement 2) c = None ∧ act topic (ACommit 1) c = Some c1 ∧
    act topic (AStatement 2) c1 = Some c2 ∧ c_txs c2 !! 2%nat = Some t ∧ tx_script t = sDone (Err (PgError "23505")).
Proof.
  destruct interleaved_same_key as (c & Hc & Hb).
  destruct (contends_spec c 1 2 ltac:(discriminate) Hb) as (kid & k & params & f & k' & c1 & Hcont & Hc1 & Hk).
  destruct (same_key_conflict topic c 1 2 kid k params f k' Hc Hcont) as [[_ Hwait] Hafter].
  destruct (Hafter c1 Hc1 Hk) as (c2 & t & H2 & _ & Ht & Hs & _).
  exists c, c1, c2, t. exact (conj Hc (conj Hwait (conj Hc1 (conj H2 (conj Ht Hs))))).
Defined.
