(* ===== verification/GroupScenario.v ===== *)
(** * Two consumers and one partition

    A consumer polls the first record of the story and is slow; a second one
    joins, takes over the partition and handles both records; the first one
    then handles its record once more and commits behind the other. *)

From S2P Require Import Prelude GoStrings Json Models World.
From S2P Require Import Sqlc.
From S2P Require Import Store.
From S2P Require Import OrderService.
From S2P Require Import Spec Concrete.
From S2P Require Import Auth.
From S2P Require Import Publisher.
From S2P Require Import Consumer.
From S2P Require Import KafkaConsumer.
From S2P Require Import System Delivery Group.
From S2P Require Import Scenario.

#[local] Existing Instances calm calm_laws clear_auth clear_auth_laws reliable reliable_laws script_client.

Notation TheGroup := (Group (C := Script)).

(** What happens to member [i]: it joins, is killed, has its partitions taken
    and given back, or takes the next piece of its loop. *)
Inductive Move := MJoin (i : nat) | MKill (i : nat) | MReassign (i : nat) | MPiece (i : nat).

Definition informed (offs : Z → nat) (c : Script) : Script := mkScript (script_position c) offs (script_left c).

Definition move (mv : Move) (g : TheGroup) : TheGroup :=
  let '(mkGroup w offs ms) := g in
  match mv with
  | MJoin i => match ms !! i with None => mkGroup w offs (<[i := Polling (mkScript offs offs 10)]> ms) | Some _ => g end
  | MKill i => mkGroup w offs (delete i ms)
  | MReassign i =>
    match ms !! i with
    | Some ph => mkGroup w offs (<[i := set_client (mkScript offs offs (script_left (client_of ph))) ph]> ms)
    | None => g
    end
  | MPiece i =>
    match ms !! i with
    | Some ph =>
      let '(ph', w') := member_step topic record_handler (set_client (informed offs (client_of ph)) ph, w) in
      mkGroup w' (committed (client_of ph')) (<[i := ph']> ms)
    | None => g
    end
  end.

Lemma client_of_set (c : Script) ph : client_of (set_client c ph) = c.
Proof. by destruct ph. Qed.

Lemma move_steps mv g : rtc (group_step topic) g (move mv g).
Proof.
  destruct g as [w offs ms], mv as [i|i|i|i]; cbn [move].
  - destruct (ms !! i) eqn:Hi; [done|]. by apply rtc_once, (gs_join _ i (mkScript offs offs 10)).
  - apply rtc_once, gs_leave.
  - destruct (ms !! i) as [ph|] eqn:Hi; [|done]. apply rtc_once, gs_rebalance; [done..|]. intros p. by right.
  - destruct (ms !! i) as [ph|] eqn:Hi; [|done]. destruct (member_step _ _ _) as [ph' w'] eqn:Hm.
    eapply rtc_l; [apply (gs_rebalance _ i ph (informed offs (client_of ph))); [done..|by left]|].
    rewrite <- (insert_insert_eq ms i ph' (set_client (informed offs (client_of ph)) ph)).
    apply rtc_once. eapply gs_member; [apply lookup_insert_eq|by rewrite client_of_set|exact Hm].
Qed.

Lemma moves_steps mvs g : rtc (group_step topic) g (foldl (λ g mv, move mv g) g mvs).
Proof.
  revert g. induction mvs as [|mv mvs IH]; intros g; [done|]. etransitivity; [apply move_steps|apply IH].
Qed.

Definition group0 : TheGroup := mkGroup s4 (λ _, 0%nat) ∅.

Lemma run_group0 : group_run topic group0.
Proof.
  destruct run_s4 as (w0 & Hdb & Ht & Hs). exists w0. split_and!; [done..|].
  refine (rtc_congruence (λ w, mkGroup w (λ _, 0%nat) (∅ : gmap nat (Phase Script))) _ _ _ _ Hs).
  intros w1 w2. apply gs_system.
Qed.

Definition contest : list Move :=
  [ MJoin 0; MPiece 0;                 (* the first consumer has the first record *)
    MJoin 1; MPiece 1; MPiece 1;       (* so has the second, which handles it *)
    MPiece 0;                          (* and the first handles it again *)
    MPiece 1; MPiece 1; MPiece 1; MPiece 1;  (* the second commits it, and the next *)
    MPiece 0; MKill 1 ].               (* the first commits behind it *)

Definition contested : TheGroup := foldl (λ g mv, move mv g) group0 contest.

Lemma run_contested : group_run topic contested.
Proof.
  destruct run_group0 as (w0 & Hdb & Ht & Hs). exists w0. split_and!; [done..|]. etransitivity; [exact Hs|]. apply moves_steps.
Qed.

(** The committed offset goes up to 2 and back to 1; two deliveries, one for
    each record, and not three. *)
Example contested_offsets :
  g_offsets (foldl (λ g mv, move mv g) group0 (take 10 contest)) 0 = 2%nat ∧ g_offsets contested 0 = 1%nat ∧
  size (notification_deliveries (w_db (g_world contested))) = 2%nat.
Proof. split_and!; vm_compute; reflexivity. Qed.

Definition first_of_log : KafkaRecord := hd (mkKafkaRecord "" "" "") (rev (w_topic s4)).

Lemma first_committed :
  (0 < g_offsets contested 0)%nat ∧ log_of topic 0 (g_world contested) !! 0%nat = Some first_of_log.
Proof. split; [apply Nat.ltb_lt|]; vm_compute; reflexivity. Qed.

Lemma no_error {A} (r : result A) e : match r with Ok _ => true | Err _ => false end = true → r ≠ Err e.
Proof. by destruct r. Qed.

Lemma first_valid e : check_message topic (rec_value first_of_log) ≠ Err e.
Proof. apply no_error. vm_compute. reflexivity. Qed.

Lemma group_skips_nothing_witness :
  ∃ did d, notification_deliveries (w_db (g_world contested)) !! did = Some d ∧
    NotificationDelivery_Status d = NotificationStatusSent.
Proof.
  destruct (group_skips_nothing topic contested 10 run_contested) as [Hset _].
  destruct (Hset 0 0%nat first_of_log (proj1 first_committed) (proj2 first_committed))
    as [[e He]|(m & u & id & did & d & _ & _ & Hd & _ & Hs)]; [destruct (first_valid e He)|].
  exists did, d. exact (conj Hd Hs).
Defined.
