(* ===== verification/CrewScenario.v ===== *)
(** * Two consumers and two partitions

    Two orders whose events fall into different partitions, a publisher, and a
    group of two consumers with one partition each, which take turns until
    every event reached the customer. *)

From S2P Require Import Prelude GoStrings Json Models World.
From S2P Require Import Sqlc.
From S2P Require Import Store.
From S2P Require Import OrderService.
From S2P Require Import Spec Concrete.
From S2P Require Import Auth.
From S2P Require Import Publisher Drain.
From S2P Require Import Consumer.
From S2P Require Import KafkaConsumer.
From S2P Require Import System Delivery Liveness Group GroupLiveness.
From S2P Require Import Scenario.

#[local] Existing Instances calm calm_laws calm_jsonb clear_auth clear_auth_laws reliable reliable_laws reliable_delivers.

(** ** A client with some of the partitions *)

Record Reader := mkReader { reader_position : Z → nat; reader_committed : Z → nat; reader_mine : list Z }.

(** The partition of a key: the parity of its last byte. *)
Definition partition_by (key : string) : Z :=
  Z.of_N (N.modulo (byte_val (default "0"%char (String.get (String.length key - 1) key))) 2).

Definition reader_log (w : World) (p : Z) : list KafkaRecord :=
  base.filter (λ rec, rec_topic rec = topic ∧ partition_by (rec_key rec) = p) (rev (w_topic w)).

(** The first of its partitions with something to read. *)
Fixpoint reader_poll (ps : list Z) (w : World) (c : Reader) : Event * Reader :=
  match ps with
  | [] => (NilEvent, c)
  | p :: ps =>
    match reader_log w p !! reader_position c p with
    | Some rec =>
      (MessageEvent (mkMessage (Some topic) p (Z.of_nat (reader_position c p)) (rec_key rec) (rec_value rec)),
       mkReader (set_offset p (S (reader_position c p)) (reader_position c)) (reader_committed c) (reader_mine c))
    | None => reader_poll ps w c
    end
  end.

#[global] Instance shared_reader : ConsumerClient Reader := {|
  partition_of := partition_by;
  position := reader_position;
  committed := reader_committed;
  ctx_Err c := (None, c);
  SubscribeTopics _ c := (Ok tt, mkReader (reader_committed c) (reader_committed c) (reader_mine c));
  Poll _ w c := reader_poll (reader_mine c) w c;
  CommitMessage m c := (Ok tt, mkReader (reader_position c)
    (set_offset (Message_Partition m) (S (Z.to_nat (Message_Offset m))) (reader_committed c)) (reader_mine c))
|}.

(** What a poll of [ps] answers. *)
Lemma reader_poll_cases ps w c :
  (reader_poll ps w c = (NilEvent, c) ∧ ∀ p, p ∈ ps → reader_log w p !! reader_position c p = None) ∨
  ∃ p rec, p ∈ ps ∧ reader_log w p !! reader_position c p = Some rec ∧
    reader_poll ps w c =
      (MessageEvent (mkMessage (Some topic) p (Z.of_nat (reader_position c p)) (rec_key rec) (rec_value rec)),
       mkReader (set_offset p (S (reader_position c p)) (reader_position c)) (reader_committed c) (reader_mine c)).
Proof.
  induction ps as [|p ps IH]; [left; by split; [|intros p ?%elem_of_nil]|]. cbn [reader_poll].
  destruct (reader_log w p !! reader_position c p) as [rec|] eqn:Hrec.
  - right. exists p, rec. split_and!; [by apply list_elem_of_here|done..].
  - destruct IH as [[-> Hnone]|(q & rec & Hq & Hrec' & ->)].
    + left. split; [done|]. intros q [->|Hq]%elem_of_cons; [done|by apply Hnone].
    + right. exists q, rec. split_and!; [by apply list_elem_of_further|done..].
Qed.

#[global] Instance shared_reader_laws : ConsumerClientLaws shared_reader topic.
Proof.
  split; cbn.
  - by intros c e c' [= _ <-].
  - by intros c r c' [= _ <-].
  - by intros c c' [= <-].
  - intros _ w c m c' Hp.
    destruct (reader_poll_cases (reader_mine c) w c) as [[Heq _]|(p & rec & _ & Hrec & Heq)]; rewrite Heq in Hp; [done|].
    injection Hp as <- <-. cbn. split_and!; [done| |intros q; unfold set_offset; by case_bool_decide; subst|done].
    exists rec. split_and!; [exact Hrec|done|done|]. right. f_equal.
    by apply list_elem_of_lookup_2, list_elem_of_filter in Hrec as [[<- _] _].
  - intros _ w c e c' Hp Hm.
    destruct (reader_poll_cases (reader_mine c) w c) as [[Heq _]|(p & rec & _ & _ & Heq)]; rewrite Heq in Hp;
      injection Hp as <- <-; [done|by destruct (Hm _ eq_refl)].
  - by intros m c r c' [= _ <-].
  - by intros m c c' [= <-] p.
  - done.
Qed.

#[global] Instance shared_reader_live : LiveClient shared_reader topic.
Proof.
  refine {| assigned c p := p ∈ reader_mine c |}.
  - intros c. by exists c.
  - intros t w c p rec Hp Hrec.
    destruct (reader_poll_cases (reader_mine c) w c) as [[_ Hnone]|(q & rec' & _ & _ & Heq)]; [|by do 2 eexists].
    specialize (Hnone _ Hp). change (reader_log w p !! reader_position c p = Some rec) in Hrec. congruence.
  - intros t w c m c' Hp. cbn in Hp.
    destruct (reader_poll_cases (reader_mine c) w c) as [[Heq _]|(q & rec & Hq & _ & Heq)]; rewrite Heq in Hp; [done|].
    by injection Hp as <- <-.
  - intros t w c e c' Hp. cbn in Hp.
    destruct (reader_poll_cases (reader_mine c) w c) as [[Heq _]|(q & rec & _ & _ & Heq)]; rewrite Heq in Hp; by injection Hp as _ <-.
  - intros t w c e c' Hp. cbn in Hp.
    destruct (reader_poll_cases (reader_mine c) w c) as [[Heq _]|(q & rec & _ & _ & Heq)]; rewrite Heq in Hp; by injection Hp as <- _.
  - intros m c. by eexists.
Defined.

#[global] Instance shared_reader_informed : InformedClient shared_reader topic.
Proof. by refine {| inform offs c := mkReader (reader_position c) offs (reader_mine c) |}. Defined.

(** ** Two orders *)

Definition order_req2 := mkCreateOrderParams alice_id "key-3" "POST" "/orders" 500 "eur" "a pen".
Definition s3b : World := (CreateOrder order_req2 s3).2.

Lemma run_s3b : program_run topic s3b.
Proof. apply run_call; [apply conforms_CreateOrder|apply run_s3]. Qed.

Definition crew0 : Crew (C := Reader) :=
  mkCrew s3b (λ _, 0%nat) {[ 0%nat := mkReader (λ _, 0%nat) (λ _, 0%nat) [0]; 1%nat := mkReader (λ _, 0%nat) (λ _, 0%nat) [1] ]}.

(** Conditions of a state as tests. *)
Definition fresh_check (k : nat) (w : World) : bool :=
  forallb (λ i, match UUID_Scan (uuid_NewString (w_seed w + i)) with
    | Some id => bool_decide (notification_deliveries (w_db w) !! id = None) &&
        forallb (λ j, negb (bool_decide (UUID_Scan (uuid_NewString (w_seed w + j)) = Some id))) (seq 0 i)
    | None => false
    end) (seq 0 k).

Lemma fresh_ids_check k w : fresh_check k w = true → fresh_ids k w.
Proof.
  intros Hall i Hi. pose proof (proj1 (forallb_forall _ _) Hall i ltac:(apply in_seq; lia)) as Hone. cbv beta in Hone. clear Hall.
  destruct (UUID_Scan _) as [id|]; [|done]. exists id. apply andb_true_iff in Hone as [Hn Hj].
  split_and!; [done|by apply bool_decide_eq_true in Hn|]. intros j Hlt.
  pose proof (proj1 (forallb_forall _ _) Hj j ltac:(apply in_seq; lia)) as Hne. by apply negb_true_iff, bool_decide_eq_false in Hne.
Qed.


(** ** The story *)

Lemma crew0_run : group_run topic (group_of crew0).
Proof.
  destruct run_s3b as (w0 & Hdb & Ht & Hs). exists w0. split_and!; [done..|].
  etransitivity; [refine (rtc_congruence (λ w, mkGroup w (λ _, 0%nat) (∅ : gmap nat (Phase Reader))) _ _ _ _ Hs); intros w1 w2; apply gs_system|].
  eapply rtc_l; [by apply (gs_join topic 1 (mkReader (λ _, 0%nat) (λ _, 0%nat) [1]))|].
  eapply rtc_l; [by apply (gs_join topic 0 (mkReader (λ _, 0%nat) (λ _, 0%nat) [0]))|].
  unfold group_of, crew0. cbn [c_world c_offsets c_clients]. by rewrite fmap_insert, map_fmap_singleton.
Qed.

Lemma crew0_owns i p : owns topic crew0 i p ↔ (i = 0%nat ∧ p = 0) ∨ (i = 1%nat ∧ p = 1).
Proof.
  unfold owns, crew0. cbn [c_clients]. split.
  - intros (c & [[<- <-]|[_ [<- <-]%lookup_singleton_Some]]%lookup_insert_Some & Hp%list_elem_of_singleton); [by left|by right].
  - intros [[-> ->]|[-> ->]]; (eexists; split; [reflexivity|by apply list_elem_of_singleton]).
Qed.

Lemma partition_by_cases key : partition_by key = 0 ∨ partition_by key = 1.
Proof.
  unfold partition_by. generalize (byte_val (default "0"%char (String.get (String.length key - 1) key))). intros n.
  pose proof (N.mod_lt n 2 ltac:(done)) as Hlt. revert Hlt. generalize (n mod 2)%N. intros k Hlt.
  destruct k as [|[?|?|]]; [by left|lia|lia|by right].
Qed.

Lemma crew0_balanced : balanced topic crew0.
Proof.
  split.
  - unfold crew0. cbn [c_clients]. by intros i c p [[<- <-]|[_ [<- <-]%lookup_singleton_Some]]%lookup_insert_Some _.
  - intros i j p [[-> ->]|[-> ->]]%crew0_owns [[-> ?]|[-> ?]]%crew0_owns; done.
  - intros key. destruct (partition_by_cases key) as [Hp|Hp]; [exists 0%nat|exists 1%nat]; apply crew0_owns; auto.
Qed.

Definition rounds0 : list (list nat) := [[0; 1]; [1; 0; 0]; [1; 0]]%nat.

Lemma rounds0_fair : Forall (fair crew0) rounds0.
Proof.
  assert (∀ l, (0 ∈ l)%nat → (1 ∈ l)%nat → fair crew0 l) as Hfair.
  { intros l H0 H1 i. unfold crew0. cbn [c_clients]. rewrite dom_insert_L, dom_singleton_L. set_solver. }
  unfold rounds0. repeat apply Forall_cons_2; try apply Forall_nil_2; apply Hfair; set_solver.
Qed.

Lemma s3b_checks :
  (Z.of_nat (length (pending (w_db s3b))) <=? 10 * Z.of_nat 1) = true ∧
  (length (w_topic s3b) + length (pending (w_db s3b)) <=? length rounds0)%nat = true ∧
  fresh_check (length (concat rounds0)) s3b = true.
Proof. split_and!; vm_compute; reflexivity. Qed.

Lemma eventually_notified_witness :
  ∃ g2 : Crew (C := Reader), dom (c_clients g2) = dom (c_clients crew0) ∧
    dom (outbox_events (w_db (c_world g2))) = dom (outbox_events (w_db s3b)) ∧
    ∀ id e, outbox_events (w_db (c_world g2)) !! id = Some e → settled_event (w_db (c_world g2)) id e.
Proof.
  destruct s3b_checks as (Hpending & Hrounds & Hfresh).
  destruct (eventually_notified topic 10 0 crew0 rounds0) as (w1 & _ & Hmembers & Hdom & Hall).
  - exact crew0_run.
  - exact crew0_balanced.
  - reflexivity.
  - intros i. split; reflexivity.
  - exact (proj1 (Z.leb_le _ _) Hpending).
  - exact rounds0_fair.
  - exact (proj1 (Nat.leb_le _ _) Hrounds).
  - exact (fresh_ids_check _ _ Hfresh).
  - eexists. split; [exact Hmembers|]. split; [exact Hdom|]. intros id e He. exact (proj2 (Hall id e He)).
Defined.

(** Both members had something to read. *)
Example both_read :
  let g2 := crew_run topic (mkCrew (Publisher.Run batch 0 s3b).2 (λ _, 0%nat) (c_clients crew0)) (concat rounds0) in
  c_offsets g2 0 = 2%nat ∧ c_offsets g2 1 = 1%nat ∧ size (notification_deliveries (w_db (c_world g2))) = 3%nat.
Proof. cbv zeta. split_and!; vm_compute; reflexivity. Qed.
