(* ===== verification/ApiScenario.v ===== *)
(** * A story over HTTP

    Concrete instances of Redis, of the routing library and of the drivers,
    and a session with the server that an empty environment configures:
    registration, login, an order, its payment, and what is refused. *)

From S2P Require Import Prelude GoStrings Sha256 Json GoTime Models World.
From S2P Require Import Sqlc.
From S2P Require Import Store.
From S2P Require Import OrderService.
From S2P Require Import Spec OrderRefine Evolution Invariants Bookkeeping Concrete.
From S2P Require Import Auth.
From S2P Require Import Publisher.
From S2P Require Import Redis.
From S2P Require Import RateLimit.
From S2P Require Import Lock Http OrderHandlers AuthHandlers Router ApiBehaviour.
From S2P Require Config.
From S2P Require Import AppStart.
From S2P Require Import System.
From S2P Require Import ApiTheorems.
From S2P Require Import Kafka Startup.
From S2P Require Import Scenario.

(** ** Redis: every command runs, a millisecond after the last one *)

Record FakeRedis := mkFakeRedis { fake_now : Z; fake_keys : Keyspace }.

Definition fake_run {A B} (answer : A → result B) (f : Z → Keyspace → A * Keyspace) (r : FakeRedis) : result B * FakeRedis :=
  let now := fake_now r + 1 in
  let '(a, ks) := f now (fake_keys r) in (answer a, mkFakeRedis now ks).

Definition fake_redis : Redis FakeRedis := {|
  SetNX k v ttl := fake_run Ok (set_nx k v ttl);
  Eval script := fake_run Ok script;
  Incr k := fake_run (λ o, match o with Some n => Ok n | None => Err (ErrInfra "not an integer") end) (incr k);
  Expire k ttl := fake_run Ok (expire k ttl);
  Ping r := (Ok tt, r)
|}.

Lemma fake_run_ran {A B} (answer : A → result B) f r a r' :
  fake_run answer f r = (a, r') → ran answer f (fake_now r) (fake_keys r) a (fake_now r') (fake_keys r').
Proof.
  unfold fake_run, ran. destruct (f _ _) as [x ks] eqn:Hf. intros [= <- <-]. cbn [fake_now fake_keys]. rewrite Hf.
  split; [lia|by left].
Qed.

#[global] Instance fake_redis_laws : RedisLaws fake_redis.
Proof.
  refine {| redis_now := fake_now; redis_keys := fake_keys |}; cbn; intros.
  1-4: by eapply fake_run_ran.
  by simplify_eq.
Defined.

(** ** Routes: patterns of segments *)

Fixpoint segments (n : nat) (s : string) : list string :=
  match n with
  | O => []
  | S n' => match cut "/" s with (x, Some rest) => x :: segments n' rest | (x, None) => [x] end
  end.
Definition path_segments (s : string) : list string := segments (S (String.length s)) s.

(** The parameter when the segments match. *)
Fixpoint match_segments (pattern path : list string) : option string :=
  match pattern, path with
  | [], [] => Some ""
  | p :: ps, s :: ss =>
    if bool_decide (p = "{id}") then if bool_decide (s = "") then None else match_segments ps ss ≫= λ _, Some s
    else if bool_decide (p = s) then match_segments ps ss else None
  | _, _ => None
  end.

Fixpoint find_route (i : nat) (keys : list RouteKey) (method path : string) : option (nat * string) :=
  match keys with
  | [] => None
  | (m, pattern) :: keys' =>
    match match_segments (path_segments pattern) (path_segments path) with
    | Some id => if bool_decide (default method m = method) then Some (i, id) else find_route (S i) keys' method path
    | None => find_route (S i) keys' method path
    end
  end.

Definition plain_chi : Chi := {|
  chi_route := find_route 0;
  chi_fallback _ _ rw := http_Error rw "404 page not found" StatusNotFound;
  chi_no_pattern _ _ _ := "";
  prometheus_handler _ _ rw := WriteHeader StatusOK rw
|}.

(** ** Drivers that connect at the second attempt *)

Definition second_try : Drivers nat unit unit unit unit := {|
  pgxpool_ParseConfig url := Ok (mkPoolConfig url 4 0 0 0);
  pgxpool_NewWithConfig _ st := (Ok tt, st);
  Pool_Ping _ st := match st with O => (Err (ErrInfra "connection refused"), 1%nat) | _ => (Ok tt, st) end;
  Pool_Close _ st := st;
  redis_ParseURL url := Ok url;
  redis_NewClient _ := tt;
  Client_Ping _ st := (Ok tt, st);
  Client_Close _ st := st;
  kafka_NewProducer _ := Ok tt;
  kafka_GetMetadata _ st := (None, None, λ topic _, Ok (mkMetadata [1] {[ topic := mkTopicMetadata None [0] ]}), st);
  ProducerHandle_Close _ st := st;
  kafka_NewConsumer _ := Ok tt;
  ConsumerHandle_Close _ st := (Ok tt, st);
  Server_Shutdown _ st := (Ok tt, st);
  retry_wait _ st := (None, st)
|}.

#[local] Existing Instances calm calm_laws clear_auth clear_auth_laws reliable reliable_laws fake_redis plain_chi second_try.

(** ** The session *)

Definition empty_env : Config.Env := λ _, "".
Definition settings : Config.Config := Config.Load id empty_env.
Definition rc : RouterConfig := api_router settings.

Definition api_state : Type := World * FakeRedis.
Definition h0 : api_state := (s0, mkFakeRedis 1000 ∅).

Definition request (method path token key body : string) : Request :=
  mkRequest method path "10.0.0.7:4711"
    ((if bool_decide (token = "") then [] else [("Authorization", "Bearer " +:+ token)])
     ++ (if bool_decide (key = "") then [] else [("Idempotency-Key", key)])) [] (dq body) None "".

Definition send (r : Request) (st : api_state) : ResponseWriter * api_state := NewRouter rc r new_response st.

Definition register_http := request "POST" "/auth/register" "" "" "{'email':'Alice@example.com','password':'secret'}".
Definition h1 : api_state := (send register_http h0).2.

Definition login_http := request "POST" "/auth/login" "" "" "{'email':'alice@example.com','password':'secret'}".
Definition login_answer := send login_http h1.
Definition h2 : api_state := login_answer.2.
Definition token : string :=
  match Decode (rw_body login_answer.1) with Some ms => (string_field "access_token" ms).1 | None => "" end.

Definition order_http := request "POST" "/orders" token "key-1" "{'amount_cents':1999,'currency':'usd','description':'a book'}".
Definition order_answer := send order_http h2.
Definition h3 : api_state := order_answer.2.
Definition http_order_id : string :=
  match Decode (rw_body order_answer.1) with Some ms => (string_field "id" ms).1 | None => "" end.

Definition pay_http (key : string) := request "POST" ("/orders/" +:+ http_order_id +:+ "/pay") token key "".
Definition h4 : api_state := (send (pay_http "key-2") h3).2.

(** The statuses of the session, and of requests that are refused: no token,
    the e-mail again, a path without a route, a preflight, paying again under
    another key; and the payment repeated under its key. *)
Definition status_of (r : Request) (st : api_state) : Z := rw_status (send r st).1.

Example session_statuses :
  (status_of register_http h0, status_of login_http h1, status_of order_http h2, status_of (pay_http "key-2") h3)
  = (201, 200, 201, 200).
Proof. vm_compute. reflexivity. Qed.

Example refused_statuses :
  (status_of (request "GET" "/orders" "" "" "") h3, status_of register_http h1, status_of (request "GET" "/order" "" "" "") h3,
   status_of (pay_http "key-3") h4, status_of (pay_http "key-2") h4)
  = (401, 409, 404, 409, 200).
Proof. vm_compute. reflexivity. Qed.
