(* ===== verification/ApiWitnesses.v ===== *)
(** * The theorems about requests at the concrete session

    Each theorem about the lock, the limiter, the router and the start of the
    processes that has hypotheses is applied where they hold. *)

From S2P Require Import Prelude GoStrings Sha256 Json GoTime Models World.
From S2P Require Import Sqlc.
From S2P Require Import Store.
From S2P Require Import OrderService.
From S2P Require Import Spec OrderRefine Evolution Invariants Bookkeeping Concrete.
From S2P Require Import Auth.
From S2P Require Import Publisher.
From S2P Require Import Redis.
From S2P Require Import RateLimit.
From S2P Require Import Lock Http OrderHandlers AuthHandlers Router ApiBehaviour.
From S2P Require Config.
From S2P Require Import AppStart.
From S2P Require Import System.
From S2P Require Import ApiTheorems.
From S2P Require Import Kafka Startup.
From S2P Require Import Scenario ApiScenario.

#[local] Existing Instances calm calm_laws clear_auth clear_auth_laws reliable reliable_laws fake_redis fake_redis_laws
  plain_chi second_try.

(** ** The lock *)

Definition manager : Manager := NewManager 10000000.
Definition redis0 : FakeRedis := mkFakeRedis 1000 ∅.
Definition lock_key : string := orderLockKey "1".
Definition acquired := Acquire manager lock_key (s0, redis0).
Definition lock1 : Lock := mkLock lock_key (uuid_NewString 0).
Definition redis1 : FakeRedis := acquired.2.2.
Definition deadline1 : Z := redis_now redis1 + px (Manager_ttl manager).
Definition locks1 : Locks := mkLocks [(lock1, deadline1)] [Lock_token lock1].

Lemma run_acquired w r key l w' r' :
  (∀ k, HasPrefix k "lock:order:" = true → redis_keys r !! k = None) → HasPrefix key "lock:order:" = true →
  Acquire manager key (w, r) = (Ok l, (w', r')) →
  lock_run manager (r', mkLocks [(l, redis_now r' + px (Manager_ttl manager))] [Lock_token l]).
Proof.
  intros Hempty Hkey Ha. exists r. split; [done|]. apply rtc_once.
  apply (ls_acquire manager w r w' r' key l (mkLocks [] [])); [done|cbn; set_solver|done].
Qed.

Lemma run_lock1 : lock_run manager (redis1, locks1).
Proof.
  apply (run_acquired s0 redis0 lock_key lock1 acquired.2.1 redis1); [by intros|reflexivity|vm_compute; reflexivity].
Qed.

(** The lock is held, and a second client does not get it. *)
Lemma lock_exclusive_witness :
  redis_keys redis1 !! lock_key = Some (Lock_token lock1, Some deadline1) ∧
  (∀ l' w' r', Acquire manager lock_key (s1, redis1) = (Ok l', (w', r')) → deadline1 ≤ redis_now r').
Proof.
  destruct (lock_exclusive manager eq_refl redis1 locks1 run_lock1) as (Hkey & _ & Hno). split.
  - apply (Hkey lock1 deadline1); [apply list_elem_of_here|vm_compute; reflexivity].
  - intros l' w' r'. apply (Hno lock1 deadline1). apply list_elem_of_here.
Defined.

(** ** The limiter *)

Definition ask (st : World * FakeRedis) := Allow New "auth_login" "10.0.0.7" 1 time_Minute st.
Definition first_ask := ask (s0, redis0).
Definition second_ask := ask first_ask.2.
Definition asked : list (Z * result Result) := [(1000, first_ask.1); (1001, second_ask.1)].

Lemma pair_parts {A B C} (x : A * (B * C)) : x = (x.1, (x.2.1, x.2.2)).
Proof. by destruct x as [? []]. Qed.

Lemma run_first : window_run New "auth_login" "10.0.0.7" 1 time_Minute 0 1000 [(1000, first_ask.1)] first_ask.2.2.
Proof.
  assert (window_run New "auth_login" "10.0.0.7" 1 time_Minute 0 1000 [] redis0) as H0.
  { apply wr_start; [split; vm_compute; [done|reflexivity]|reflexivity]. }
  eapply (wr_allow _ _ _ _ _ _ _ [] s0 1000 (next_tick s0) redis0 first_ask.1 first_ask.2.1 first_ask.2.2 H0);
    [reflexivity|reflexivity|apply pair_parts|split; vm_compute; [done|reflexivity]].
Qed.

Lemma run_asked : window_run New "auth_login" "10.0.0.7" 1 time_Minute 0 1000 asked second_ask.2.2.
Proof.
  eapply (wr_allow _ _ _ _ _ _ _ [(1000, first_ask.1)] first_ask.2.1 1001 (next_tick first_ask.2.1) first_ask.2.2 second_ask.1
    second_ask.2.1 second_ask.2.2 run_first); [vm_compute; reflexivity|reflexivity| |split; vm_compute; [done|reflexivity]].
  unfold second_ask. rewrite (surjective_pairing first_ask.2) at 1. apply pair_parts.
Qed.

(** With a limit of one the second request is refused. *)
Lemma limiter_fixed_window_witness :
  asked = [(1000, Ok (mkResult true 1 0 59999000)); (1001, Ok (mkResult false 1 0 59998999))].
Proof.
  destruct (limiter_fixed_window New "auth_login" "10.0.0.7" 1 time_Minute 0 1000 eq_refl asked _ run_asked) as [_ Href].
  rewrite Href; [reflexivity|]. repeat constructor; vm_compute; reflexivity.
Defined.

(** ** Requests *)

Lemma requests_conform_witness : rtc (program_step topic) h2.1 h3.1.
Proof.
  apply (requests_conform topic rc order_http new_response h2). intros l Hl. injection Hl as <-. apply conforms_time_now.
Defined.

Definition anonymous_http : Request := request "GET" "/orders" "" "" "".

Lemma rc_readonly : limiter_readonly rc.
Proof. intros l Hl. injection Hl as <-. apply readonly_time_now. Qed.

Lemma anonymous_no_token : no_token (new_server rc) anonymous_http.
Proof. intros scheme token0 Hf. vm_compute in Hf. discriminate Hf. Qed.

Lemma protected_routes_witness :
  (rw_status (send anonymous_http h3).1 ∈ refusals ∨
   Request_Method anonymous_http = "OPTIONS" ∧ rw_status (send anonymous_http h3).1 = StatusNoContent) ∧
  w_db (send anonymous_http h3).2.1 = w_db h3.1.
Proof.
  apply (protected_routes rc anonymous_http new_response h3 9 "" (Some "GET") "/orders" rc_readonly eq_refl);
    [vm_compute; reflexivity|reflexivity|reflexivity|apply anonymous_no_token].
Defined.

Lemma rate_limited_witness :
  let answer := rateLimitMiddleware (Some New) "auth_login" 1 (handleLogin (new_server rc)) login_http new_response first_ask.2 in
  (rw_status answer.1 = StatusTooManyRequests ∨ rw_status answer.1 = StatusInternalServerError) ∧
  w_db answer.2.1 = w_db first_ask.2.1 ∧
  ∀ next', rateLimitMiddleware (Some New) "auth_login" 1 next' login_http new_response first_ask.2 = answer.
Proof.
  rewrite (surjective_pairing first_ask.2).
  apply (rate_limited New "auth_login" 1 (handleLogin (new_server rc)) login_http new_response 0 1000
    [(1000, first_ask.1)] first_ask.2.1 first_ask.2.2 1001 (next_tick first_ask.2.1) second_ask.1 second_ask.2.1 second_ask.2.2);
    [reflexivity|apply readonly_time_now|reflexivity|apply run_first|vm_compute; reflexivity|vm_compute; reflexivity|reflexivity
    | |split; vm_compute; [done|reflexivity]].
  change (clientIPFromRequest login_http) with "10.0.0.7". unfold second_ask.
  rewrite (surjective_pairing first_ask.2) at 2. apply pair_parts.
Defined.

Definition alice_claims : Claims := mkClaims alice_id "alice@example.com" "customer" alice_id 0 0.
Definition pay_request_http : Request := with_id http_order_id (with_claims alice_claims (pay_http "key-2")).

Definition locking_server : Server := mkServer (cfg_AuthService rc) false (Some manager).

Lemma http_order_id_there : http_order_id ≠ "".
Proof. apply (bool_decide_eq_false_1 _). vm_compute. reflexivity. Qed.

#[local] Opaque http_order_id h3 token.

Lemma pay_and_cancel_locked_witness :
  locked_call manager (Request_id pay_request_http)
    (PayOrder (mkPayOrderParams (Claims_UserID alice_claims) (Claims_Role alice_claims) (Request_id pay_request_http)
       (Header_Get pay_request_http "Idempotency-Key") (Request_Method pay_request_http) (Request_Path pay_request_http)))
    pay_status h3 (handlePayOrder locking_server pay_request_http new_response h3).
Proof.
  destruct (pay_and_cancel_locked locking_server manager pay_request_http new_response h3 alice_claims eq_refl eq_refl eq_refl
    eq_refl http_order_id_there) as [Hpay _]. exact Hpay.
Defined.

(** ** Start-up *)

Lemma Retry_ends_witness :
  ∃ k st', Z.of_nat k < 12 ∧ failed (Open (Config.DatabaseURL settings)) retry_wait (5 * Config.Second) k 0%nat st' ∧
    ((∃ a st1, Open (Config.DatabaseURL settings) st' = (Ok a, st1) ∧
        Retry (Open (Config.DatabaseURL settings)) retry_wait 12 (5 * Config.Second) 0%nat = (Some a, None, st1)) ∨
     (∃ e st1, Open (Config.DatabaseURL settings) st' = (Err e, st1) ∧
        (Z.of_nat k = 12 - 1 ∧ Retry (Open (Config.DatabaseURL settings)) retry_wait 12 (5 * Config.Second) 0%nat = (None, Some e, st1) ∨
         Z.of_nat k < 12 - 1 ∧ ∃ ce st2, retry_wait (5 * Config.Second) st1 = (Some ce, st2) ∧
           Retry (Open (Config.DatabaseURL settings)) retry_wait 12 (5 * Config.Second) 0%nat = (None, Some ce, st2)))).
Proof. apply Retry_ends. lia. Defined.

Definition big_batch_env : Config.Env := λ key, if bool_decide (key = "PUBLISHER_BATCH_SIZE") then "2147483648" else "".

Lemma batch_size_overflow_witness :
  Config_BatchSize (publisher_config (Config.Load id big_batch_env)) = -2147483648 ∧
  is_ok (PublishBatch (publisher_config (Config.Load id big_batch_env)) s3).1 = false.
Proof.
  split; [vm_compute; reflexivity|].
  destruct (batch_size_overflow id big_batch_env) as [_ Hfail]; [vm_compute; split; reflexivity|].
  exact (proj1 (Hfail s3)).
Defined.
