(* ===== verification/Witnesses.v ===== *)
(** * The theorems at a concrete run

    Each theorem that has hypotheses is applied in the story of [Scenario],
    where they hold. *)

From S2P Require Import Prelude GoStrings Sha256 Json Models World.
From S2P Require Import Sqlc.
From S2P Require Import Store.
From S2P Require Import OrderService.
From S2P Require Import Spec OrderRefine Evolution Invariants Bookkeeping Concrete.
From S2P Require Import OrderProperties OrderTotal.
From S2P Require Import Auth.
From S2P Require Import Publisher Drain.
From S2P Require Import Consumer.
From S2P Require Import Envelope.
From S2P Require Import System Sessions Recipients.
From S2P Require Import SystemTheorems OrderTheorems.
From S2P Require Import KafkaConsumer Delivery Liveness.
From S2P Require Import Scenario.

#[local] Existing Instances calm calm_laws calm_jsonb clear_auth clear_auth_laws reliable reliable_laws reliable_delivers script_client.

(** The calls of the story that changed the tables. *)
Lemma s2_s1 : w_db s2 ≠ w_db s1.
Proof. apply orders_changed. vm_compute. reflexivity. Qed.
Lemma s3_s2 : w_db s3 ≠ w_db s2.
Proof. apply payments_changed. vm_compute. reflexivity. Qed.
Lemma pay_changed : w_db (PayOrder pay_req s2).2 ≠ w_db s2.
Proof. exact s3_s2. Qed.

#[local] Opaque s0 s1 s2 s3 s4 s5 s6 script2 order_id.

(** A row that is there, by computation. *)
Lemma row_there {A} (m : gmap UUID A) k (P : A → bool) :
  match m !! k with Some x => P x | None => false end = true → ∃ x, m !! k = Some x ∧ P x = true.
Proof. destruct (m !! k) as [x|]; [by exists x|done]. Qed.

Lemma is_Some_there {A} (o : option A) : match o with Some _ => true | None => false end = true → is_Some o.
Proof. by destruct o. Qed.

Lemma order_in_s3 :
  ∃ o, orders (w_db s3) !! order_id = Some o ∧ bool_decide (Order_Status o = OrderStatusPaid) = true.
Proof. apply row_there. vm_compute. reflexivity. Qed.

(** ** The system *)

Lemma order_paid_once_witness :
  ∃ o pid p, orders (w_db s3) !! order_id = Some o ∧ payments (w_db s3) !! pid = Some p ∧ succeeded_for order_id p.
Proof.
  destruct order_in_s3 as (o & Ho & Hst%bool_decide_eq_true). exists o.
  destruct (order_paid_once topic s3 order_id o run_s3 Ho) as [[Hpaid _] _].
  destruct (Hpaid Hst) as (pid & p & Hp & Hs). exists pid, p. exact (conj Ho (conj Hp Hs)).
Defined.

Lemma outbox_complete_witness :
  ∃ eid e, outbox_events (w_db s3) !! eid = Some e ∧ order_event EventTypeOrderCreated order_id e.
Proof.
  destruct order_in_s3 as (o & Ho & _).
  destruct (outbox_complete topic s3 run_s3) as [Hord _]. destruct (Hord _ _ Ho) as [Hc _]. exact Hc.
Defined.

(** The event of the order, published, and the record of its processing. *)
Definition published_for (id : UUID) (e : OutboxEvent) : bool :=
  bool_decide (OutboxEvent_PartitionKey e = id)
  && match OutboxEvent_PublishedAt e with Some _ => true | None => false end.

Lemma event_in_s4 : ∃ e, outbox_events (w_db s4) !! generated 3 = Some e ∧ published_for order_id e = true.
Proof. apply row_there. vm_compute. reflexivity. Qed.

Lemma published_at_least_once_witness :
  ∃ e rec, outbox_events (w_db s4) !! generated 3 = Some e ∧ event_record batch e = Some rec ∧ rec ∈ w_topic s4.
Proof.
  destruct event_in_s4 as (e & He & [_ Hp]%andb_prop).
  destruct (published_at_least_once topic s4 10 run_s4) as [Hsent _].
  destruct (Hsent _ e He) as (rec & Hrec & Hin & _); [destruct (OutboxEvent_PublishedAt e); [by eexists|discriminate Hp]|].
  exists e, rec. exact (conj He (conj Hrec Hin)).
Defined.

Lemma processed_in_s5 : is_Some (processed_events (w_db s5) !! (generated 3, ConsumerNameNotification)).
Proof. apply is_Some_there. vm_compute. reflexivity. Qed.

Lemma notified_once_witness :
  ∃ id d, notification_deliveries (w_db s5) !! id = Some d ∧ NotificationDelivery_EventID d = generated 3 ∧
    NotificationDelivery_Status d = NotificationStatusSent.
Proof.
  destruct (notified_once topic s5 run_s5) as (_ & Hiff & Hsent & _).
  destruct (Hiff (generated 3)) as [Hex _]. destruct (Hex processed_in_s5) as (id & d & Hd & He).
  exists id, d. exact (conj Hd (conj He (Hsent id d Hd))).
Defined.

Lemma notification_reaches_customer_witness :
  ∃ d e o t, NotificationDelivery_EventID d = generated 3 ∧ outbox_events (w_db s5) !! generated 3 = Some e ∧
    orders (w_db s5) !! OutboxEvent_PartitionKey e = Some o ∧ UUID_Scan t = Some (Order_UserID o) ∧
    NotificationDelivery_Recipient d = sanitize t.
Proof.
  destruct (reachable_notified _ (program_run_reachable _ _ run_s5)) as [_ Hp _].
  destruct processed_in_s5 as [pe Hpe]. destruct (Hp _ _ _ Hpe) as [_ (did & d & Hd & He)].
  destruct (notification_reaches_customer topic s5 topic run_s5) as [Hall _].
  destruct (Hall did d Hd) as (e & o & t & Hev & Ho & Hu & Hrec & _). rewrite He in Hev.
  exists d, e, o, t. exact (conj He (conj Hev (conj Ho (conj Hu Hrec)))).
Defined.

(** A payload with white space and a character that HTML escapes. *)
Definition spaced_message : Publisher.OutboxMessage :=
  Publisher.mkOutboxMessage "1" AggregateTypeOrder "2" EventTypeOrderCreated (dq "{ 'user_id' : 'a<b' }").

Lemma MarshalMessage_roundtrip_witness :
  ∃ text, MarshalMessage spaced_message = Ok text ∧ decode_envelope text =
    Some (Consumer.mkOutboxMessage "1" AggregateTypeOrder "2" EventTypeOrderCreated
      (Some (JObj [("user_id", JStr "a<b")]))).
Proof. exact (MarshalMessage_roundtrip spaced_message eq_refl eq_refl eq_refl eq_refl eq_refl). Defined.

Lemma rows_evolve_witness :
  ∃ o, orders (w_db s3) !! order_id = Some o ∧ orders (w_db s4) !! order_id = Some o.
Proof.
  destruct order_in_s3 as (o & Ho & Hst%bool_decide_eq_true). exists o. split; [exact Ho|].
  destruct (rows_evolve topic s3 s4 run_s3 (conforms_PublishBatch topic 10 s3)) as [Hord _].
  destruct (Hord _ _ Ho) as (o' & Ho' & _ & _ & Hclosed). rewrite Ho'. apply (f_equal Some), Hclosed. rewrite Hst. reflexivity.
Defined.

Lemma idempotency_accounts_witness :
  ∃ o kid k, orders (w_db s3) !! order_id = Some o ∧ idempotency_keys (w_db s3) !! kid = Some k ∧ key_of_order (w_db s3) k o.
Proof.
  destruct order_in_s3 as (o & Ho & _).
  destruct (idempotency_accounts topic s3 run_s3) as (_ & Hord & _). destruct (Hord _ _ Ho) as (kid & k & Hk & Hko).
  exists o, kid, k. exact (conj Ho (conj Hk Hko)).
Defined.

Lemma rows_well_formed_witness : well_formed (w_db s5) ∧ well_formed (w_db (RegisterUser register_req s5).2).
Proof. destruct (rows_well_formed topic s5 run_s5) as (Hw & _ & _ & _ & Hreg & _). exact (conj Hw (Hreg register_req)). Defined.

Lemma services_conform_witness : rtc (program_step topic) s2 (PayOrder pay_req s2).2.
Proof. destruct (services_conform topic) as (_ & Hpay & _). apply Hpay. Defined.

(** ** Orders *)

(** The same request for an order, spelled differently. *)
Definition order_req' := mkCreateOrderParams alice_id "key-1" "POST" "/orders" 1999 "USD " "  a book".
(** Another request under the same key. *)
Definition other_req := mkCreateOrderParams alice_id "key-1" "POST" "/orders" 5 "USD" "a book".

Lemma CreateOrder_replay_witness :
  ∃ o', CreateOrder order_req' s3 = (Ok (mkCreateOrderResult o' StatusCreated true), next_tick (next_tick s3)).
Proof.
  destruct (CreateOrder_replay order_req order_req' s1 (CreateOrder order_req s1).1 s2 s3) as (o & o' & _ & _ & _ & Hrun).
  - apply reachable_s, run_s1.
  - apply surjective_pairing.
  - apply s2_s1.
  - apply steps_s2_s3.
  - split; vm_compute; reflexivity.
  - reflexivity.
  - reflexivity.
  - exists o'. exact Hrun.
Defined.

Lemma CreateOrder_conflict_witness : CreateOrder other_req s3 = (Err ErrIdempotencyConflict, next_tick s3).
Proof.
  apply (CreateOrder_conflict order_req other_req s1 (CreateOrder order_req s1).1 s2 s3).
  - apply reachable_s, run_s1.
  - apply surjective_pairing.
  - apply s2_s1.
  - apply steps_s2_s3.
  - reflexivity.
  - vm_compute. reflexivity.
  - vm_compute. reflexivity.
  - right. right. intros Heq. vm_compute in Heq. discriminate Heq.
  - reflexivity.
Defined.

Definition pay_again := mkPayOrderParams alice_id "admin" order_text " key-2 " "POST" "/orders/1/pay".

Lemma PayOrder_replay_witness :
  ∃ o p, PayOrder pay_again s4 = (Ok (mkPayOrderResult o p StatusOK true), next_tick (next_tick (next_tick s4))).
Proof.
  destruct (PayOrder_replay pay_req pay_again s2 (PayOrder pay_req s2).1 s3 s4) as (r & o & _ & _ & _ & Hrun).
  - apply reachable_s, run_s2.
  - apply surjective_pairing.
  - apply s3_s2.
  - apply steps_s3_s4.
  - split; vm_compute; reflexivity.
  - intros i _. reflexivity.
  - exists o, (PayOrderResult_Payment r). exact Hrun.
Defined.

Lemma CreateOrder_all_or_nothing_witness :
  let '(r, w') := CreateOrder order_req s1 in
  (w_db w' = w_db s1 ∧ ∀ res, r = Ok res → CreateOrderResult_Cached res = true)
  ∨ ∃ o e k, create_outcome order_req (TrimSpace (CreateOrder_IdempotencyKey order_req)) (create_currency order_req)
        (create_description order_req) (create_hash order_req) (w_db s1) o e k (w_db w') ∧
      (r = Ok (mkCreateOrderResult o StatusCreated false) ∨ lost_answer r).
Proof. apply (CreateOrder_all_or_nothing order_req s1). Defined.

Lemma GetOrder_answers_witness :
  (OrderService.GetOrder (mkGetOrderParams "someone" "customer" order_text) s3).1 = Err ErrOrderForbidden.
Proof.
  destruct (GetOrder_answers (mkGetOrderParams "someone" "customer" order_text) s3) as [Hr _].
  rewrite Hr. vm_compute. reflexivity.
Defined.

Lemma PayOrder_all_or_nothing_witness :
  let '(r, w') := PayOrder pay_req s2 in
  (w_db w' = w_db s2 ∧ ∀ res, r = Ok res → PayOrderResult_Cached res = true)
  ∨ ∃ res o e k, pay_outcome pay_req "key-2" (pay_hash pay_req) (w_db s2) res o e k (w_db w') ∧ (r = Ok res ∨ lost_answer r).
Proof. apply (PayOrder_all_or_nothing pay_req s2). apply reachable_s, run_s2. Defined.

Definition cancel_req := mkCancelOrderParams alice_id "customer" order_text.
Definition stranger_req := mkCancelOrderParams (uuid_string bob) "customer" order_text.

Lemma CancelOrder_all_or_nothing_witness :
  let '(r, w') := CancelOrder cancel_req s2 in
  (w_db w' = w_db s2 ∧ is_ok r = false)
  ∨ ∃ res o e, cancel_outcome cancel_req (w_db s2) res o e (w_db w') ∧ (r = Ok res ∨ lost_answer r).
Proof. apply (CancelOrder_all_or_nothing cancel_req s2). apply reachable_s, run_s2. Defined.

Lemma order_change_authorized_witness :
  ∃ o, orders (w_db s2) !! Order_ID o = Some o ∧ UUID_String (Order_UserID o) = alice_id ∧ status_open (Order_Status o) = true.
Proof.
  destruct (order_change_authorized pay_req cancel_req s2 (reachable_s _ run_s2)) as [Hpay _].
  destruct (Hpay pay_changed) as (o & _ & Ho & [Hr|Hu] & Hopen); [discriminate Hr|]. exists o. exact (conj Ho (conj Hu Hopen)).
Defined.

(** ** Answers of the order service *)

(** The UUIDs that come next, and their absence from a table. *)
Ltac next_uuid := intros id Hid; vm_compute in Hid; injection Hid as <-; vm_compute; reflexivity.

Lemma create_ready_s1 : create_ready order_req s1 (generated 1).
Proof.
  split.
  3, 13: apply is_Some_there.
  1-10: vm_compute; reflexivity.
  1-3: next_uuid.
  intros id Hid now. vm_compute in Hid. injection Hid as <-. eexists. split; [reflexivity|].
  apply is_Some_there. vm_compute. reflexivity.
Qed.

Lemma quiet_story w n : quiet w n.
Proof. intros i _. reflexivity. Qed.

Lemma CreateOrder_succeeds_witness :
  ∃ o w', CreateOrder order_req s1 = (Ok (mkCreateOrderResult o StatusCreated false), w') ∧
    w_metrics w' = OrdersCreatedTotal :: w_metrics s1.
Proof.
  destruct (CreateOrder_succeeds order_req s1 (generated 1) create_ready_s1 (quiet_story _ _)) as (o & e & k & w' & Hr & _ & Hm & _).
  exists o, w'. exact (conj Hr Hm).
Defined.

(** Equations between rows that are left uncomputed. *)
Lemma Ok_eq {A} (a b : A) : Ok a = Ok b → a = b.
Proof. by intros [= ->]. Qed.
Lemma Some_eq {A} (a b : A) : Some a = Some b → a = b.
Proof. by intros [= ->]. Qed.
Lemma triple_eq {A B D} (x : A * B * D) a b d : x = (a, b, d) → x.1.1 = a ∧ x.1.2 = b ∧ x.2 = d.
Proof. by intros ->. Qed.

(** What PayOrder reads in [s2] and what it makes. *)
Definition no_order : Order := mkOrder alice alice "" 0 "" None 0 0.
Definition order_read : Order := match find_order (PayOrder_OrderID pay_req) (w_db s2) with Ok o => o | Err _ => no_order end.
Definition payment_id : UUID := default alice (UUID_Scan (uuid_NewString (w_seed s2))).
Definition mocked : string * string * string := mockPayment (uuid_NewString (w_seed s2)).

Lemma find_order_read : find_order (PayOrder_OrderID pay_req) (w_db s2) = Ok order_read.
Proof. vm_compute. reflexivity. Qed.
Lemma scan_payment_id : UUID_Scan (uuid_NewString (w_seed s2)) = Some payment_id.
Proof. vm_compute. reflexivity. Qed.

#[local] Opaque order_read payment_id mocked.

Lemma pay_ready_s2 : pay_ready pay_req s2 (generated 1).
Proof.
  split.
  3: apply is_Some_there.
  1-8: vm_compute; reflexivity.
  1-3: next_uuid.
  all: intros o id st ref reason Ho Hid Hm.
  all: destruct (Ok_eq _ _ (eq_trans (eq_sym find_order_read) Ho)); clear Ho.
  all: destruct (Some_eq _ _ (eq_trans (eq_sym scan_payment_id) Hid)); clear Hid.
  all: destruct (triple_eq mocked _ _ _ Hm) as [[] [[] []]]; clear Hm.
  - apply is_Some_there. vm_compute. reflexivity.
  - intros now. eexists. split; [reflexivity|]. apply is_Some_there. vm_compute. reflexivity.
Qed.

Lemma PayOrder_answers_witness :
  ∃ r w', PayOrder pay_req s2 = (Ok r, w') ∧
    w_metrics w' = PaymentsTotal (Payment_Status (PayOrderResult_Payment r)) :: w_metrics s2.
Proof.
  destruct (PayOrder_answers pay_req s2 (generated 1) (reachable_s _ run_s2) pay_ready_s2 (quiet_story _ _)) as (w' & Hw).
  assert (order_refused (PayOrder_Role pay_req) (PayOrder_UserID pay_req) (PayOrder_OrderID pay_req) (w_db s2) = None) as Hr
    by (vm_compute; reflexivity).
  rewrite Hr in Hw. destruct Hw as (r & o & e & k & Hrun & _ & Hm & _). exists r, w'. exact (conj Hrun Hm).
Defined.

Lemma cancel_ready_s2 params : CancelOrder_OrderID params = order_text → cancel_ready params s2.
Proof.
  intros Hreq. split; [next_uuid|]. intros o Ho. rewrite Hreq in Ho. vm_compute in Ho. injection Ho as <-.
  apply is_Some_there. vm_compute. reflexivity.
Qed.

(** Another customer is refused. *)
Lemma CancelOrder_answers_witness :
  ∃ w', CancelOrder stranger_req s2 = (Err ErrOrderForbidden, w') ∧ w_db w' = w_db s2.
Proof.
  destruct (CancelOrder_answers stranger_req s2) as (w' & Hw).
  - apply reachable_keyed, reachable_s, run_s2.
  - apply cancel_ready_s2. reflexivity.
  - apply quiet_story.
  - intros Heq. vm_compute in Heq. discriminate Heq.
  - intros Heq. vm_compute in Heq. discriminate Heq.
  - assert (order_refused (CancelOrder_Role stranger_req) (CancelOrder_UserID stranger_req) (CancelOrder_OrderID stranger_req)
      (w_db s2) = Some ErrOrderForbidden) as Hr by (vm_compute; reflexivity).
    rewrite Hr in Hw. exists w'. exact Hw.
Defined.

(** ** Publisher and consumer *)

Lemma s3_undisturbed : undisturbed s3.
Proof. intros i. split; reflexivity. Qed.
Lemma s3_pending : Z.of_nat (length (pending (w_db s3))) ≤ 10 * Z.of_nat 1.
Proof. apply Z.leb_le. vm_compute. reflexivity. Qed.

Lemma outbox_drains_witness :
  ∃ es recs w', Publisher.Run batch 0 s3 = (Ok tt, w') ∧ es ≡ₚ pending (w_db s3) ∧ w_topic w' = rev recs ++ w_topic s3.
Proof.
  destruct (outbox_drains topic 10 0 s3) as (es & recs & w' & Hrun & Hes & _ & _ & Htop & _).
  - exact run_s3.
  - reflexivity.
  - exact s3_undisturbed.
  - exact s3_pending.
  - exists es, recs, w'. exact (conj Hrun (conj Hes Htop)).
Defined.

(** The first record that was sent, and what the consumer reads in it. *)
Definition no_record : KafkaRecord := mkKafkaRecord "" "" "".
Definition first_record : KafkaRecord := List.last (w_topic s4) no_record.
Definition no_message : OutboxMessage * string := (mkOutboxMessage "" "" "" "" None, "").
Definition read_message (payload : string) : OutboxMessage * string :=
  match check_message topic payload with Ok x => x | Err _ => no_message end.
Definition first_read := read_message (rec_value first_record).

Lemma first_read_ok : check_message topic (rec_value first_record) = Ok first_read.
Proof. vm_compute. reflexivity. Qed.

Definition first_id : UUID := default alice (UUID_Scan (OutboxMessage_ID first_read.1)).
Definition delivery_id : UUID := default alice (UUID_Scan (uuid_NewString (w_seed s4))).

Definition error_of {A} (r : result A) : error := match r with Err e => e | Ok _ => ErrNoRows end.

(** A message whose id is in the URN form. *)
Definition urn_id : string := "urn:uuid:" +:+ order_text.
Definition urn_message : string :=
  Marshal (JObj [("id", JStr urn_id); ("event_type", JStr "order.created");
                 ("payload", JObj [("user_id", JStr alice_id)])]).

(** ** The consumer process *)

(** A topic that already holds a record of another program. *)
Definition urn_record : KafkaRecord := mkKafkaRecord topic "key" urn_message.
Definition foreign : World := add_record urn_record (init_world empty_db).

Lemma partition_stuck_witness :
  ∃ r w' c', KafkaConsumer.Run 3 topic (Some record_handler) (foreign, script0) = (r, (w', c')) ∧ committed c' 0 = committed script0 0.
Proof.
  destruct (KafkaConsumer.Run 3 topic (Some record_handler) (foreign, script0)) as [r [w' c']] eqn:Hrun.
  exists r, w', c'. split; [reflexivity|].
  apply (partition_stuck topic [urn_record] foreign script0 false w' c'
           (match r with None => true | Some _ => false end) 0 urn_record
           (read_message urn_message).1 (read_message urn_message).2).
  - exists foreign, script0. split; [reflexivity|]. split; [reflexivity|]. split; [reflexivity|]. apply rtc_refl.
  - vm_compute. reflexivity.
  - vm_compute. reflexivity.
  - vm_compute. reflexivity.
  - apply (Run_steps topic 3 foreign script0 false r w' c'); [discriminate|exact Hrun].
Defined.

(** ** Authentication *)

Definition svc : AuthService := mkAuthService (mkTokenManager "key" 3600000000) 86400000000.
Definition login_req := mkLoginParams "alice@example.com " "secret".
Definition s1_login : World := (Login svc login_req s1).2.
Definition no_user : User := mkUser alice "" "" "" 0 0.
Definition alice_login : LoginResult :=
  match (Login svc login_req s1).1 with Ok r => r | Err _ => mkLoginResult no_user "" "" 0 end.
Definition alice_token : string := LoginResult_RefreshToken alice_login.
Definition s1_logout : World := (Logout alice_token s1_login).2.

Lemma run_s1_login : program_run topic s1_login.
Proof. apply run_call; [apply conforms_Login|apply run_s1]. Qed.
Lemma login_run : Login svc login_req s1 = ((Login svc login_req s1).1, s1_login).
Proof. apply surjective_pairing. Qed.
Lemma logout_run : Logout alice_token s1_login = ((Logout alice_token s1_login).1, s1_logout).
Proof. apply surjective_pairing. Qed.

#[local] Opaque s1_login s1_logout alice_login alice_token.


Lemma Logout_final_witness :
  ∃ w3, RefreshAccessToken svc alice_token s1_logout = (Err ErrInvalidRefreshToken, w3) ∧ w_db w3 = w_db s1_logout.
Proof.
  apply (Logout_final alice_token svc s1_login (Logout alice_token s1_login).1 s1_logout s1_logout).
  - apply reachable_s, run_s1_login.
  - exact logout_run.
  - left. vm_compute. reflexivity.
  - reflexivity.
Defined.
